(** * wimlib capture and NTFS-apply engines: a shallow embedding

    This development embeds the capture side ([add_image.c]: capture
    configuration parsing, path exclusion, [build_dentry_tree], the
    capture sources, their targets and the overlay of their trees) and
    the NTFS apply side ([ntfs-apply.c]: stream extraction, reparse
    data, DOS-name pre-application, hard-link resolution, the timestamp
    pass and the apply of a whole image) as Rocq functions and proves
    properties of them.

    Conventions.  A C [int] status is a [wimlib_ret]; C strings are
    [string]s (a pointer into a buffer is the suffix it points at);
    pointers to lookup-table entries are addresses in a finite map;
    calls into libc, the host file system and NTFS-3G are members of an
    interface that every theorem quantifies over, and so is
    [build_dentry_tree_ntfs], the capture from an NTFS volume.  Memory
    allocation is taken to succeed. *)

From Stdlib Require Import ZArith Lia Ascii String List Sorted.
From stdpp Require Import base option list gmap strings.

Local Open Scope Z_scope.

(** ** Status codes *)

(** Modelled from the spec: the error enumeration of [wimlib.h], which is
    not under src/.  Section 7 of the specification lists the kinds and
    says they do not overlap; [RET_OK] is the value [0] and
    [RET_MINUS_ONE] the raw [-1] a failed [stat] call leaves in [ret]. *)
Inductive wimlib_ret : Set :=
| RET_OK
| RET_MINUS_ONE
| WIMLIB_ERR_NOMEM
| WIMLIB_ERR_INVALID_PARAM
| WIMLIB_ERR_INVALID_CAPTURE_CONFIG
| WIMLIB_ERR_INVALID_OVERLAY
| WIMLIB_ERR_INVALID_DENTRY
| WIMLIB_ERR_INVALID_RESOURCE_HASH
| WIMLIB_ERR_INVALID_UTF8_STRING
| WIMLIB_ERR_ICONV_NOT_AVAILABLE
| WIMLIB_ERR_STAT
| WIMLIB_ERR_NOTDIR
| WIMLIB_ERR_SPECIAL_FILE
| WIMLIB_ERR_OPEN
| WIMLIB_ERR_READ
| WIMLIB_ERR_WRITE
| WIMLIB_ERR_READLINK
| WIMLIB_ERR_NTFS_3G
| WIMLIB_ERR_UNSUPPORTED.

#[global] Instance wimlib_ret_eq_dec : EqDecision wimlib_ret.
Proof. solve_decision. Defined.

(** ** C strings *)

Definition NUL : ascii := "000"%char.
Definition LF : ascii := "010"%char.
Definition CR : ascii := "013"%char.
Definition SLASH : ascii := "/"%char.
Definition BACKSLASH : ascii := "\"%char.

(** The C string a [char *] denotes: the bytes before the first NUL. *)
Fixpoint cstr (p : string) : string :=
  match p with
  | EmptyString => EmptyString
  | String c rest => if Ascii.eqb c NUL then EmptyString else String c (cstr rest)
  end.

(** [strchr (s, c) != NULL] for a character [c] other than NUL. *)
Fixpoint strchr (s : string) (c : ascii) : bool :=
  match s with
  | EmptyString => false
  | String d rest => Ascii.eqb d c || strchr rest c
  end.

(** [isalpha] in the C locale. *)
Definition isalpha (c : ascii) : bool :=
  let n := nat_of_ascii c in
  ((65 <=? n)%nat && (n <=? 90)%nat) || ((97 <=? n)%nat && (n <=? 122)%nat).

(** [tolower] in the C locale. *)
Definition tolower (c : ascii) : ascii :=
  let n := nat_of_ascii c in
  if ((65 <=? n)%nat && (n <=? 90)%nat) then ascii_of_nat (n + 32) else c.

(** Text made of lines, each followed by a newline. *)
Fixpoint unlines (lines : list string) : string :=
  match lines with
  | [] => EmptyString
  | l :: ls => (l +:+ String LF (unlines ls))%string
  end.

Module AddImage.

(** ** Capture configuration ([add_image.c]) *)

Inductive pattern_type : Set :=
| NONE
| EXCLUSION_LIST
| EXCLUSION_EXCEPTION
| COMPRESSION_EXCLUSION_LIST
| ALIGNMENT_LIST.

(** [struct capture_config]: a [struct pattern_list] is the list of its
    [pats]; [prefix] is the empty string until
    [capture_config_set_prefix] is called. *)
Record capture_config : Set := {
  exclusion_list : list string;
  exclusion_exception : list string;
  compression_exclusion_list : list string;
  alignment_list : list string;
  prefix : string
}.

(** [memset (config, 0, sizeof ( *config))]. *)
Definition zero_capture_config : capture_config :=
  {| exclusion_list := []; exclusion_exception := [];
     compression_exclusion_list := []; alignment_list := [];
     prefix := EmptyString |}.

Definition destroy_capture_config (config : capture_config) : capture_config :=
  zero_capture_config.

(** [list->pats[list->num_pats++] = pattern;] *)
Definition pattern_list_add_pattern (pats : list string) (pattern : string)
  : list string :=
  pats ++ [pattern].

(** [memchr (p, '\n', bytes_remaining)]: the bytes before the first
    newline and the bytes after it, or [None]. *)
Fixpoint memchr_newline (p : string) : option (string * string) :=
  match p with
  | EmptyString => None
  | String c rest =>
      if Ascii.eqb c LF then Some (EmptyString, rest)
      else match memchr_newline rest with
           | Some (line, next_p) => Some (String c line, next_p)
           | None => None
           end
  end.

(** [if ( *(eol - 1) == '\r') eol--;] on a non-empty line. *)
Fixpoint strip_cr (line : string) : string :=
  match line with
  | EmptyString => EmptyString
  | String c EmptyString => if Ascii.eqb c CR then EmptyString else line
  | String c rest => String c (strip_cr rest)
  end.

(** [for (pp = p; pp != eol; pp++) if ( *pp == '\\') *pp = '/';] *)
Fixpoint translate_backslash (line : string) : string :=
  match line with
  | EmptyString => EmptyString
  | String c rest =>
      String (if Ascii.eqb c BACKSLASH then SLASH else c)
             (translate_backslash rest)
  end.

(** [if (eol - p > 2 && isalpha ( *p) && *(p + 1) == ':') p += 2;] *)
Definition remove_drive_letter (p : string) : string :=
  if (2 <? String.length p)%nat then
    match p with
    | String c0 (String c1 rest) =>
        if isalpha c0 && Ascii.eqb c1 ":" then rest else p
    | _ => p
    end
  else p.

(** The body of the [while (bytes_remaining)] loop.  Each iteration
    consumes at least the newline it found, so [fuel] bounds the number
    of iterations; [None] stands for running out of it. *)
Fixpoint init_capture_config_loop (fuel : nat) (next_p : string)
    (type : pattern_type) (config : capture_config)
  : option (wimlib_ret * capture_config) :=
  match next_p with
  | EmptyString => Some (RET_OK, config)
  | _ =>
    match fuel with
    | O => None
    | S fuel =>
      match memchr_newline next_p with
      | None =>
          Some (WIMLIB_ERR_INVALID_CAPTURE_CONFIG, destroy_capture_config config)
      | Some (line, next_p) =>
        if String.eqb line EmptyString then
          init_capture_config_loop fuel next_p type config
        else
          let p := cstr (remove_drive_letter (translate_backslash (strip_cr line))) in
          if String.eqb p "[ExclusionList]" then
            init_capture_config_loop fuel next_p EXCLUSION_LIST config
          else if String.eqb p "[ExclusionException]" then
            init_capture_config_loop fuel next_p EXCLUSION_EXCEPTION config
          else if String.eqb p "[CompressionExclusionList]" then
            init_capture_config_loop fuel next_p COMPRESSION_EXCLUSION_LIST config
          else if String.eqb p "[AlignmentList]" then
            init_capture_config_loop fuel next_p ALIGNMENT_LIST config
          else if match p with String c _ => Ascii.eqb c "[" | _ => false end
                  && strchr p "]" then
            Some (WIMLIB_ERR_INVALID_CAPTURE_CONFIG, destroy_capture_config config)
          else
            match type with
            | EXCLUSION_LIST =>
                init_capture_config_loop fuel next_p type
                  {| exclusion_list :=
                       pattern_list_add_pattern (exclusion_list config) p;
                     exclusion_exception := exclusion_exception config;
                     compression_exclusion_list := compression_exclusion_list config;
                     alignment_list := alignment_list config;
                     prefix := prefix config |}
            | EXCLUSION_EXCEPTION =>
                init_capture_config_loop fuel next_p type
                  {| exclusion_list := exclusion_list config;
                     exclusion_exception :=
                       pattern_list_add_pattern (exclusion_exception config) p;
                     compression_exclusion_list := compression_exclusion_list config;
                     alignment_list := alignment_list config;
                     prefix := prefix config |}
            | COMPRESSION_EXCLUSION_LIST =>
                init_capture_config_loop fuel next_p type
                  {| exclusion_list := exclusion_list config;
                     exclusion_exception := exclusion_exception config;
                     compression_exclusion_list :=
                       pattern_list_add_pattern (compression_exclusion_list config) p;
                     alignment_list := alignment_list config;
                     prefix := prefix config |}
            | ALIGNMENT_LIST =>
                init_capture_config_loop fuel next_p type
                  {| exclusion_list := exclusion_list config;
                     exclusion_exception := exclusion_exception config;
                     compression_exclusion_list := compression_exclusion_list config;
                     alignment_list :=
                       pattern_list_add_pattern (alignment_list config) p;
                     prefix := prefix config |}
            | NONE =>
                Some (WIMLIB_ERR_INVALID_CAPTURE_CONFIG,
                      destroy_capture_config config)
            end
      end
    end
  end.

(** [init_capture_config (config, _config_str, config_len)]: the status
    and the configuration left in [*config]. *)
Definition init_capture_config (config_str : string)
  : option (wimlib_ret * capture_config) :=
  init_capture_config_loop (String.length config_str) config_str NONE
    zero_capture_config.

(** [capture_config_set_prefix (config, _prefix)]. *)
Definition capture_config_set_prefix (config : capture_config) (_prefix : string)
  : capture_config :=
  {| exclusion_list := exclusion_list config;
     exclusion_exception := exclusion_exception config;
     compression_exclusion_list := compression_exclusion_list config;
     alignment_list := alignment_list config;
     prefix := _prefix |}.

(** ** Path exclusion *)

(** Flags of [<fnmatch.h>] (glibc values). *)
Definition FNM_PATHNAME : Z := 1.
Definition FNM_CASEFOLD : Z := 16.

(** Modelled from the spec: [path_basename] of util.c, which is not under
    src/: the basename of a path, that is, what follows its last slash. *)
Fixpoint path_basename (path : string) : string :=
  match path with
  | EmptyString => EmptyString
  | String c rest =>
      if strchr rest SLASH then path_basename rest
      else if Ascii.eqb c SLASH then rest else path
  end.

(** [memcmp (prefix, path, prefix_len) == 0], giving [path + prefix_len]. *)
Fixpoint skip_prefix (prefix path : string) : option string :=
  match prefix, path with
  | EmptyString, _ => Some path
  | String a prefix, String b path =>
      if Ascii.eqb a b then skip_prefix prefix path else None
  | String _ _, EmptyString => None
  end.

(** [p + 1] for a [char *p]. *)
Definition string_plus_1 (p : string) : string :=
  match p with
  | EmptyString => EmptyString
  | String _ rest => rest
  end.

(** ** Lookup table, inodes and dentries *)

(** File contents and SHA-1 message digests are byte strings. *)
#[global] Instance byte_eq_dec : EqDecision Byte.byte.
Proof.
  intros a b. destruct (Byte.eqb a b) eqn:E.
  - left. by apply Byte.byte_dec_bl.
  - right. intros ->. by rewrite Byte.byte_dec_lb in E.
Defined.

Inductive resource_location : Set :=
| RESOURCE_NONEXISTENT
| RESOURCE_IN_WIM
| RESOURCE_IN_FILE_ON_DISK
| RESOURCE_IN_ATTACHED_BUFFER
| RESOURCE_WIN32.

(** [struct wim_lookup_table_entry], the fields the capture engine uses;
    [original_size] and [size] are those of its [resource_entry]. *)
Record wim_lookup_table_entry : Set := {
  hash : list Byte.byte;
  refcnt : Z;
  file_on_disk : string;
  lte_location : resource_location;
  original_size : Z;
  size : Z
}.

(** A [struct wim_lookup_table_entry *] is an address; the table maps the
    addresses of the entries inserted into it to their contents. *)
Abbreviation wim_lookup_table := (gmap nat wim_lookup_table_entry).

Record wim_ads_entry : Set := {
  stream_name : string;
  ads_lte : option nat
}.

Record wim_inode : Set := {
  i_attributes : Z;
  i_creation_time : Z;
  i_last_write_time : Z;
  i_last_access_time : Z;
  i_ino : Z;
  i_resolved : bool;
  i_security_id : Z;
  i_reparse_tag : Z;
  i_lte : option nat;
  i_ads_entries : list wim_ads_entry
}.

(** [struct wim_dentry].  During capture every dentry owns a fresh inode;
    the children hang off the inode's [i_children]. *)
#[warnings="-register-all"]
Inductive wim_dentry : Set :=
| Dentry (file_name_utf8 : string) (d_inode : wim_inode)
         (i_children : list wim_dentry).

Definition file_name_utf8 (d : wim_dentry) : string :=
  match d with Dentry n _ _ => n end.
Definition d_inode (d : wim_dentry) : wim_inode :=
  match d with Dentry _ i _ => i end.
Definition i_children (d : wim_dentry) : list wim_dentry :=
  match d with Dentry _ _ c => c end.

Definition FILE_ATTRIBUTE_DIRECTORY : Z := 0x10.
Definition FILE_ATTRIBUTE_NORMAL : Z := 0x80.
Definition FILE_ATTRIBUTE_REPARSE_POINT : Z := 0x400.
Definition WIM_IO_REPARSE_TAG_SYMLINK : Z := 0xA000000C.

Definition set_i_attributes (inode : wim_inode) (a : Z) : wim_inode :=
  {| i_attributes := a;
     i_creation_time := i_creation_time inode;
     i_last_write_time := i_last_write_time inode;
     i_last_access_time := i_last_access_time inode;
     i_ino := i_ino inode; i_resolved := i_resolved inode;
     i_security_id := i_security_id inode;
     i_reparse_tag := i_reparse_tag inode;
     i_lte := i_lte inode; i_ads_entries := i_ads_entries inode |}.

Definition set_i_reparse_tag (inode : wim_inode) (t : Z) : wim_inode :=
  {| i_attributes := i_attributes inode;
     i_creation_time := i_creation_time inode;
     i_last_write_time := i_last_write_time inode;
     i_last_access_time := i_last_access_time inode;
     i_ino := i_ino inode; i_resolved := i_resolved inode;
     i_security_id := i_security_id inode;
     i_reparse_tag := t;
     i_lte := i_lte inode; i_ads_entries := i_ads_entries inode |}.

Definition set_i_lte (inode : wim_inode) (lte : option nat) : wim_inode :=
  {| i_attributes := i_attributes inode;
     i_creation_time := i_creation_time inode;
     i_last_write_time := i_last_write_time inode;
     i_last_access_time := i_last_access_time inode;
     i_ino := i_ino inode; i_resolved := i_resolved inode;
     i_security_id := i_security_id inode;
     i_reparse_tag := i_reparse_tag inode;
     i_lte := lte; i_ads_entries := i_ads_entries inode |}.

(** Modelled from the spec: [new_dentry_with_timeless_inode] of dentry.c,
    which is not under src/: a dentry of the given name owning a fresh
    inode with no stream, no alternate data stream and security
    identifier -1 ("no descriptor"). *)
Definition new_dentry_with_timeless_inode (name : string) : wim_dentry :=
  Dentry name
    {| i_attributes := 0; i_creation_time := 0; i_last_write_time := 0;
       i_last_access_time := 0; i_ino := 0; i_resolved := false;
       i_security_id := -1; i_reparse_tag := 0; i_lte := None;
       i_ads_entries := [] |}
    [].

Fixpoint string_tolower (s : string) : string :=
  match s with
  | EmptyString => EmptyString
  | String c rest => String (tolower c) (string_tolower rest)
  end.

(** Modelled from the spec: [dentry_add_child] of dentry.c, which is not
    under src/.  The child set is keyed by case-insensitive name:
    a child whose case-folded name is taken is refused ([false]),
    otherwise it joins the children. *)
Definition dentry_add_child (parent child : wim_dentry) : bool * wim_dentry :=
  if existsb (fun c => String.eqb (string_tolower (file_name_utf8 c))
                                  (string_tolower (file_name_utf8 child)))
             (i_children parent)
  then (false, parent)
  else (true, Dentry (file_name_utf8 parent) (d_inode parent)
                     (i_children parent ++ [child])).

(** Modelled from the spec: [__lookup_resource] of lookup_table.c, which
    is not under src/: "lookup(digest) -> StreamEntry?". *)
Definition __lookup_resource (table : wim_lookup_table) (h : list Byte.byte)
  : option nat :=
  fst <$> List.find (fun ae => bool_decide (hash (snd ae) = h))
                    (map_to_list table).

(** Modelled from the spec: [new_lookup_table_entry] of lookup_table.c,
    which is not under src/: a zeroed entry holding the one reference of
    its creator, at an address not in use. *)
Definition new_lookup_table_entry (table : wim_lookup_table)
  : nat * wim_lookup_table_entry :=
  (fresh (dom table),
   {| hash := []; refcnt := 1; file_on_disk := EmptyString;
      lte_location := RESOURCE_NONEXISTENT; original_size := 0; size := 0 |}).

(** Modelled from the spec: [lookup_table_insert] of lookup_table.c, which
    is not under src/: "place in hash index keyed by digest; no dedup
    here - caller looks up first". *)
Definition lookup_table_insert (table : wim_lookup_table) (a : nat)
    (lte : wim_lookup_table_entry) : wim_lookup_table :=
  <[a := lte]> table.

(** [lte->refcnt++]. *)
Definition lte_refcnt_incr (lte : wim_lookup_table_entry)
  : wim_lookup_table_entry :=
  {| hash := hash lte; refcnt := refcnt lte + 1;
     file_on_disk := file_on_disk lte; lte_location := lte_location lte;
     original_size := original_size lte; size := size lte |}.

(** Modelled from the spec: [lte_decrement_refcnt] of lookup_table.c, which
    is not under src/: "refDown to 0 -> remove". *)
Definition lte_decrement_refcnt (table : wim_lookup_table) (a : nat)
  : wim_lookup_table :=
  match table !! a with
  | None => table
  | Some lte =>
      if refcnt lte - 1 <=? 0 then delete a table
      else <[a := {| hash := hash lte; refcnt := refcnt lte - 1;
                     file_on_disk := file_on_disk lte;
                     lte_location := lte_location lte;
                     original_size := original_size lte;
                     size := size lte |}]> table
  end.

Definition inode_unref_streams (inode : wim_inode) (table : wim_lookup_table)
  : wim_lookup_table :=
  let table := match i_lte inode with
               | Some a => lte_decrement_refcnt table a
               | None => table
               end in
  fold_left (fun t ads => match ads_lte ads with
                          | Some a => lte_decrement_refcnt t a
                          | None => t
                          end)
            (i_ads_entries inode) table.

(** Modelled from the spec: [free_dentry_tree] of dentry.c, which is not
    under src/: "free subtree + decrement refcounts in the lookup
    table". *)
Fixpoint free_dentry_tree (root : wim_dentry) (table : wim_lookup_table)
  : wim_lookup_table :=
  match root with
  | Dentry _ inode children =>
      inode_unref_streams inode
        (fold_right (fun c t => free_dentry_tree c t) table children)
  end.

(** What the regular-file branch of [build_dentry_tree] does to the
    table for a file of digest [h]: the address the inode is bound to
    and the new table. *)
Definition dedup_stream (table : wim_lookup_table) (h : list Byte.byte)
    (path : string) (st_size : Z) : nat * wim_lookup_table :=
  match __lookup_resource table h with
  | Some lte => (lte, alter lte_refcnt_incr lte table)
  | None =>
      (fresh (dom table),
       <[fresh (dom table) :=
           {| hash := h; refcnt := 1; file_on_disk := path;
              lte_location := RESOURCE_IN_FILE_ON_DISK;
              original_size := st_size; size := st_size |}]> table)
  end.

(** ** The host file system and the other collaborators *)

(** [struct stat], the fields [build_dentry_tree] reads. *)
Record stat_buf : Set := {
  st_mode : Z;
  st_size : Z;
  st_ino : Z;
  st_uid : Z;
  st_gid : Z;
  st_mtime : Z;
  st_atime : Z
}.

Definition S_IFMT : Z := 0xF000.
Definition S_IFREG : Z := 0x8000.
Definition S_IFDIR : Z := 0x4000.
Definition S_IFLNK : Z := 0xA000.
Definition S_ISREG (m : Z) : bool := Z.land m S_IFMT =? S_IFREG.
Definition S_ISDIR (m : Z) : bool := Z.land m S_IFMT =? S_IFDIR.
Definition S_ISLNK (m : Z) : bool := Z.land m S_IFMT =? S_IFLNK.

(** What the system calls of the UNIX capture path answer for a path.
    [fs_opendir] gives the names [readdir_r] returns, in order, and
    whether it reports an error after them; [fs_read_file] the bytes
    [sha1sum] reads from the file. *)
Record host_fs : Type := {
  fs_lstat : string -> option stat_buf;
  fs_stat : string -> option stat_buf;
  fs_opendir : string -> option (list string * bool);
  fs_readlink : string -> option string;
  fs_read_file : string -> option (list Byte.byte)
}.

(** Functions of libc and of wimlib files that are not under src/. *)
Class capture_env : Type := {
  (** [fnmatch (pattern, string, flags)] of libc: [0] on a match. *)
  fnmatch : string -> string -> Z -> Z;
  (** The SHA-1 message digest of a byte string (sha1.c). *)
  sha1 : list Byte.byte -> list Byte.byte;
  (** [inode_set_unix_data (inode, uid, gid, mode, lookup_table, which)]. *)
  inode_set_unix_data :
    wim_inode -> Z -> Z -> Z -> wim_lookup_table ->
    wimlib_ret * wim_inode * wim_lookup_table;
  (** [inode_set_symlink (inode, target, lookup_table, NULL)]. *)
  inode_set_symlink :
    wim_inode -> string -> wim_lookup_table ->
    wimlib_ret * wim_inode * wim_lookup_table
}.

(** Modelled from the spec: [unix_timestamp_to_wim] of timestamp.h, which
    is not under src/: "100-ns ticks since 1601-01-01 UTC". *)
Definition unix_timestamp_to_wim (t : Z) : Z :=
  t * 10000000 + 116444736000000000.

Definition WIMLIB_ADD_IMAGE_FLAG_ROOT : Z := 0x80000000.
Definition WIMLIB_ADD_IMAGE_FLAG_SOURCE : Z := 0x40000000.

(** Modelled from the spec: the public capture flags of [wimlib.h], which
    is not under src/ ("Flags (bitfield): BOOT, VERBOSE, DEREFERENCE,
    UNIX_DATA, NTFS"): one bit each, below the two internal flags. *)
Definition WIMLIB_ADD_IMAGE_FLAG_NTFS : Z := 0x1.
Definition WIMLIB_ADD_IMAGE_FLAG_DEREFERENCE : Z := 0x2.
Definition WIMLIB_ADD_IMAGE_FLAG_VERBOSE : Z := 0x4.
Definition WIMLIB_ADD_IMAGE_FLAG_BOOT : Z := 0x8.
Definition WIMLIB_ADD_IMAGE_FLAG_UNIX_DATA : Z := 0x10.

(** [flags & flag] as a truth value. *)
Definition flag_set (flags flag : Z) : bool := negb (Z.land flags flag =? 0).

(** A call of the progress function: the message and the
    [info.scan] fields it carries. *)
Inductive progress_call : Set :=
| WIMLIB_PROGRESS_MSG_SCAN_BEGIN (source wim_target_path : string)
| WIMLIB_PROGRESS_MSG_SCAN_DENTRY (cur_path : string) (excluded : bool)
| WIMLIB_PROGRESS_MSG_SCAN_END (source wim_target_path : string).

(** [struct wim_security_data]: the descriptors of the image. *)
Record wim_security_data : Set := {
  descriptors : list (list Byte.byte)
}.

(** What a capture mutates: the lookup table, the security data of the
    image, and the calls made to the progress function so far. *)
Record capture_state : Set := {
  lookup_table : wim_lookup_table;
  sd : wim_security_data;
  progress_calls : list progress_call
}.

Definition set_lookup_table (s : capture_state) (t : wim_lookup_table)
  : capture_state :=
  {| lookup_table := t; sd := sd s; progress_calls := progress_calls s |}.

(** [progress_func (msg, &info)]. *)
Definition call_progress_func (s : capture_state) (c : progress_call)
  : capture_state :=
  {| lookup_table := lookup_table s; sd := sd s;
     progress_calls := progress_calls s ++ [c] |}.

(** ** The configuration format, line by line

    The reading of the format that [init_capture_config] is compared
    with: the text is a sequence of lines; a line selects a list, is
    refused, or joins the selected list as a pattern. *)

Definition section_header (p : string) : option pattern_type :=
  if String.eqb p "[ExclusionList]" then Some EXCLUSION_LIST
  else if String.eqb p "[ExclusionException]" then Some EXCLUSION_EXCEPTION
  else if String.eqb p "[CompressionExclusionList]"
       then Some COMPRESSION_EXCLUSION_LIST
  else if String.eqb p "[AlignmentList]" then Some ALIGNMENT_LIST
  else None.

(** A bracketed line: it opens with '[' and holds a ']'. *)
Definition bracketed (p : string) : bool :=
  match p with
  | String c rest => Ascii.eqb c "[" && strchr rest "]"
  | EmptyString => false
  end.

(** "A leading drive letter X: is stripped", as stated. *)
Definition strip_drive_letter (p : string) : string :=
  match p with
  | String c (String ":" rest) => if isalpha c then rest else p
  | _ => p
  end.

(** A leading drive letter X: is stripped when something follows it. *)
Definition strip_drive_letter_followed (p : string) : string :=
  match p with
  | String c (String ":" (String x rest)) =>
      if isalpha c then String x rest else p
  | _ => p
  end.

(** The pattern joins the list the section selects; [None] outside of
    any section. *)
Definition add_pattern (type : pattern_type) (p : string)
    (config : capture_config) : option capture_config :=
  match type with
  | NONE => None
  | EXCLUSION_LIST =>
      Some {| exclusion_list := exclusion_list config ++ [p];
              exclusion_exception := exclusion_exception config;
              compression_exclusion_list := compression_exclusion_list config;
              alignment_list := alignment_list config;
              prefix := prefix config |}
  | EXCLUSION_EXCEPTION =>
      Some {| exclusion_list := exclusion_list config;
              exclusion_exception := exclusion_exception config ++ [p];
              compression_exclusion_list := compression_exclusion_list config;
              alignment_list := alignment_list config;
              prefix := prefix config |}
  | COMPRESSION_EXCLUSION_LIST =>
      Some {| exclusion_list := exclusion_list config;
              exclusion_exception := exclusion_exception config;
              compression_exclusion_list :=
                compression_exclusion_list config ++ [p];
              alignment_list := alignment_list config;
              prefix := prefix config |}
  | ALIGNMENT_LIST =>
      Some {| exclusion_list := exclusion_list config;
              exclusion_exception := exclusion_exception config;
              compression_exclusion_list := compression_exclusion_list config;
              alignment_list := alignment_list config ++ [p];
              prefix := prefix config |}
  end.

(** The lines are read in order.  An empty line is skipped; otherwise the
    line, without a trailing carriage return, with its backslashes
    turned into slashes and its drive letter removed by [strip_drive],
    is a known section header, an unknown bracketed one (refused), or a
    pattern (refused outside of any section). *)
Fixpoint parse_config_lines (strip_drive : string -> string)
    (lines : list string) (type : pattern_type) (config : capture_config)
  : wimlib_ret * capture_config :=
  match lines with
  | [] => (RET_OK, config)
  | line :: lines =>
      if String.eqb line EmptyString then
        parse_config_lines strip_drive lines type config
      else
        let p := strip_drive (translate_backslash (strip_cr line)) in
        match section_header p with
        | Some type => parse_config_lines strip_drive lines type config
        | None =>
            if bracketed p then
              (WIMLIB_ERR_INVALID_CAPTURE_CONFIG, zero_capture_config)
            else
              match add_pattern type p config with
              | Some config => parse_config_lines strip_drive lines type config
              | None => (WIMLIB_ERR_INVALID_CAPTURE_CONFIG, zero_capture_config)
              end
        end
  end.

(** Whether the last character of the text is a newline. *)
Fixpoint ends_with_newline (text : string) : bool :=
  match text with
  | EmptyString => false
  | String c EmptyString => Ascii.eqb c LF
  | String _ rest => ends_with_newline rest
  end.

Section Capture.

Context `{env : capture_env}.
Variable fs : host_fs.

(** [match_pattern (path, path_basename, list)]; the loop over
    [list->pats] is the recursion over the list. *)
Fixpoint match_pattern (path path_basename : string) (pats : list string)
  : bool :=
  match pats with
  | [] => false
  | pat :: pats =>
      let string :=
        match pat with
        | String "/" _ => path
        | _ => if strchr pat SLASH then string_plus_1 path else path_basename
        end in
      if fnmatch pat string (Z.lor FNM_PATHNAME FNM_CASEFOLD) =? 0 then true
      else match_pattern path path_basename pats
  end.

(** [exclude_path (path, config, exclude_prefix)]. *)
Definition exclude_path (path : string) (config : capture_config)
    (exclude_prefix : bool) : bool :=
  let basename := path_basename path in
  let path :=
    if exclude_prefix then
      match skip_prefix (prefix config) path with
      | Some (String c rest) =>
          if Ascii.eqb c SLASH then String c rest else path
      | _ => path
      end
    else path in
  match_pattern path basename (exclusion_list config)
  && negb (match_pattern path basename (exclusion_exception config)).

(** Modelled from the spec: [sha1sum] of sha1.c, which is not under src/:
    "compute SHA-1 of the whole file"; a file that cannot be read gives
    the [Open] error kind. *)
Definition sha1sum (path : string) : wimlib_ret * list Byte.byte :=
  match fs_read_file fs path with
  | Some bytes => (RET_OK, sha1 bytes)
  | None => (WIMLIB_ERR_OPEN, [])
  end.

(** The timestamps and the inode number [build_dentry_tree] takes from
    the stat data (with an [ino_t] of 64 bits and without
    [HAVE_STAT_NANOSECOND_PRECISION]); then [i_resolved = 1]. *)
Definition fill_inode (inode : wim_inode) (root_stbuf : stat_buf) : wim_inode :=
  {| i_attributes := i_attributes inode;
     i_creation_time := unix_timestamp_to_wim (st_mtime root_stbuf);
     i_last_write_time := unix_timestamp_to_wim (st_mtime root_stbuf);
     i_last_access_time := unix_timestamp_to_wim (st_atime root_stbuf);
     i_ino := st_ino root_stbuf;
     i_resolved := true;
     i_security_id := i_security_id inode;
     i_reparse_tag := i_reparse_tag inode;
     i_lte := i_lte inode;
     i_ads_entries := i_ads_entries inode |}.

(** [if (add_image_flags & WIMLIB_ADD_IMAGE_FLAG_UNIX_DATA)
       ret = inode_set_unix_data (...);] *)
Definition set_unix_data (add_image_flags : Z) (root_stbuf : stat_buf)
    (inode : wim_inode) (table : wim_lookup_table)
  : wimlib_ret * wim_inode * wim_lookup_table :=
  if flag_set add_image_flags WIMLIB_ADD_IMAGE_FLAG_UNIX_DATA
  then inode_set_unix_data inode (st_uid root_stbuf) (st_gid root_stbuf)
         (st_mode root_stbuf) table
  else (RET_OK, inode, table).

(** The string a pattern is matched against in [match_pattern]. *)
Definition matched_string (pat path path_basename : string) : string :=
  match pat with
  | String "/" _ => path
  | _ => if strchr pat SLASH then string_plus_1 path else path_basename
  end.

(** The [out:] label of [build_dentry_tree]: on success [*root_ret] is
    set to [root], otherwise the partial tree is freed. *)
Definition build_dentry_tree_out (ret : wimlib_ret) (root : option wim_dentry)
    (s : capture_state) : wimlib_ret * option wim_dentry * capture_state :=
  if decide (ret = RET_OK) then (RET_OK, root, s)
  else
    (ret, None,
     match root with
     | Some r => set_lookup_table s (free_dentry_tree r (lookup_table s))
     | None => s
     end).

(** [build_dentry_tree], the UNIX version.  [progress_func] tells whether
    a progress function was supplied; [fuel] bounds the depth of the
    recursion into subdirectories and [None] stands for exceeding it. *)
Fixpoint build_dentry_tree (fuel : nat) (root_disk_path : string)
    (s : capture_state) (config : capture_config) (add_image_flags : Z)
    (progress_func : bool)
  : option (wimlib_ret * option wim_dentry * capture_state) :=
  match fuel with
  | O => None
  | S fuel =>
    if exclude_path root_disk_path config true then
      if flag_set add_image_flags WIMLIB_ADD_IMAGE_FLAG_ROOT then
        Some (build_dentry_tree_out WIMLIB_ERR_INVALID_CAPTURE_CONFIG None s)
      else
        let s :=
          if flag_set add_image_flags WIMLIB_ADD_IMAGE_FLAG_VERBOSE
             && progress_func
          then call_progress_func s
                 (WIMLIB_PROGRESS_MSG_SCAN_DENTRY root_disk_path true)
          else s in
        Some (build_dentry_tree_out RET_OK None s)
    else
      let s :=
        if flag_set add_image_flags WIMLIB_ADD_IMAGE_FLAG_VERBOSE
           && progress_func
        then call_progress_func s
               (WIMLIB_PROGRESS_MSG_SCAN_DENTRY root_disk_path false)
        else s in
      let stat_fn :=
        if flag_set add_image_flags WIMLIB_ADD_IMAGE_FLAG_DEREFERENCE
        then fs_stat fs else fs_lstat fs in
      match stat_fn root_disk_path with
      | None => Some (build_dentry_tree_out RET_MINUS_ONE None s)
      | Some root_stbuf =>
        let restat : wimlib_ret + stat_buf :=
          if flag_set add_image_flags WIMLIB_ADD_IMAGE_FLAG_ROOT
             && negb (S_ISDIR (st_mode root_stbuf))
          then
            match fs_stat fs root_disk_path with
            | None => inl WIMLIB_ERR_STAT
            | Some root_stbuf =>
                if negb (S_ISDIR (st_mode root_stbuf))
                then inl WIMLIB_ERR_NOTDIR else inr root_stbuf
            end
          else inr root_stbuf in
        match restat with
        | inl ret => Some (build_dentry_tree_out ret None s)
        | inr root_stbuf =>
          if negb (S_ISREG (st_mode root_stbuf))
             && negb (S_ISDIR (st_mode root_stbuf))
             && negb (S_ISLNK (st_mode root_stbuf))
          then Some (build_dentry_tree_out WIMLIB_ERR_SPECIAL_FILE None s)
          else
            let name := path_basename root_disk_path in
            let inode :=
              fill_inode (d_inode (new_dentry_with_timeless_inode name))
                root_stbuf in
            let '(ret, inode, table) :=
              set_unix_data add_image_flags root_stbuf inode (lookup_table s) in
            let s := set_lookup_table s table in
            if decide (ret = RET_OK) then
              let add_image_flags :=
                Z.land add_image_flags
                  (Z.lnot (Z.lor WIMLIB_ADD_IMAGE_FLAG_ROOT
                                 WIMLIB_ADD_IMAGE_FLAG_SOURCE)) in
              if S_ISREG (st_mode root_stbuf) then
                (* Archiving a regular file *)
                let inode := set_i_attributes inode FILE_ATTRIBUTE_NORMAL in
                if st_size root_stbuf =? 0 then
                  Some (build_dentry_tree_out RET_OK
                          (Some (Dentry name inode [])) s)
                else
                  let '(ret, hash) := sha1sum root_disk_path in
                  if decide (ret = RET_OK) then
                    match __lookup_resource (lookup_table s) hash with
                    | Some lte =>
                      let s := set_lookup_table s
                                 (alter lte_refcnt_incr lte (lookup_table s)) in
                      Some (build_dentry_tree_out RET_OK
                              (Some (Dentry name (set_i_lte inode (Some lte)) []))
                              s)
                    | None =>
                      let '(lte, entry) := new_lookup_table_entry (lookup_table s) in
                      let entry :=
                        {| hash := hash; refcnt := refcnt entry;
                           file_on_disk := root_disk_path;
                           lte_location := RESOURCE_IN_FILE_ON_DISK;
                           original_size := st_size root_stbuf;
                           size := st_size root_stbuf |} in
                      let s := set_lookup_table s
                                 (lookup_table_insert (lookup_table s) lte entry) in
                      Some (build_dentry_tree_out RET_OK
                              (Some (Dentry name (set_i_lte inode (Some lte)) []))
                              s)
                    end
                  else
                    Some (build_dentry_tree_out ret
                            (Some (Dentry name inode [])) s)
              else if S_ISDIR (st_mode root_stbuf) then
                (* Archiving a directory *)
                let inode := set_i_attributes inode FILE_ATTRIBUTE_DIRECTORY in
                match fs_opendir fs root_disk_path with
                | None =>
                  Some (build_dentry_tree_out WIMLIB_ERR_OPEN
                          (Some (Dentry name inode [])) s)
                | Some (names, read_error) =>
                  let readdir_loop :=
                    fix readdir_loop (names : list string) (root : wim_dentry)
                        (s : capture_state)
                      : option (wimlib_ret * wim_dentry * capture_state) :=
                      match names with
                      | [] =>
                          Some (if read_error then WIMLIB_ERR_READ else RET_OK,
                                root, s)
                      | d_name :: names =>
                          if String.eqb d_name "." || String.eqb d_name ".."
                          then readdir_loop names root s
                          else
                            match build_dentry_tree fuel
                                    (root_disk_path +:+ "/" +:+ d_name)
                                    s config add_image_flags progress_func with
                            | None => None
                            | Some (ret, child, s) =>
                                if decide (ret = RET_OK) then
                                  readdir_loop names
                                    match child with
                                    | Some child =>
                                        snd (dentry_add_child root child)
                                    | None => root
                                    end s
                                else Some (ret, root, s)
                            end
                      end in
                  match readdir_loop names (Dentry name inode []) s with
                  | None => None
                  | Some (ret, root, s) =>
                      Some (build_dentry_tree_out ret (Some root) s)
                  end
                end
              else
                (* Archiving a symbolic link *)
                let inode := set_i_attributes inode FILE_ATTRIBUTE_REPARSE_POINT in
                let inode := set_i_reparse_tag inode WIM_IO_REPARSE_TAG_SYMLINK in
                match fs_readlink fs root_disk_path with
                | Some target =>
                  let deref_name_buf := String.substring 0 4095 target in
                  let '(ret, inode, table) :=
                    inode_set_symlink inode deref_name_buf (lookup_table s) in
                  let s := set_lookup_table s table in
                  if decide (ret = RET_OK) then
                    let inode :=
                      match fs_stat fs root_disk_path with
                      | Some stbuf =>
                          if S_ISDIR (st_mode stbuf)
                          then set_i_attributes inode
                                 (Z.lor (i_attributes inode)
                                        FILE_ATTRIBUTE_DIRECTORY)
                          else inode
                      | None => inode
                      end in
                    Some (build_dentry_tree_out RET_OK
                            (Some (Dentry name inode [])) s)
                  else
                    Some (build_dentry_tree_out ret
                            (Some (Dentry name inode [])) s)
                | None =>
                  Some (build_dentry_tree_out WIMLIB_ERR_READLINK
                          (Some (Dentry name inode [])) s)
                end
            else
              Some (build_dentry_tree_out ret (Some (Dentry name inode [])) s)
        end
      end
  end.

End Capture.

(** ** The capture sources and the overlay of their trees *)

(** The [for (;;)] loop of [canonicalize_target_path]: the leading
    slashes are skipped. *)
Fixpoint skip_slashes (target_path : string) : string :=
  match target_path with
  | EmptyString => EmptyString
  | String c rest =>
      if Ascii.eqb c SLASH then skip_slashes rest else target_path
  end.

(** [p = target_path + strlen (target_path) - 1;
     while ( *p == '/') *p-- = '\0';] on a string that does not begin
    with a slash: the trailing slashes are cut. *)
Fixpoint cut_trailing_slashes (target_path : string) : string :=
  match target_path with
  | EmptyString => EmptyString
  | String c rest =>
      match cut_trailing_slashes rest with
      | EmptyString =>
          if Ascii.eqb c SLASH then EmptyString else String c EmptyString
      | rest => String c rest
      end
  end.

(** [canonicalize_target_path (target_path)]; [None] is [NULL]. *)
Definition canonicalize_target_path (target_path : option string) : string :=
  match skip_slashes (default EmptyString target_path) with
  | EmptyString => EmptyString
  | target_path => cut_trailing_slashes target_path
  end.

(** [struct wimlib_capture_source]: the two paths are C strings, given by
    their characters; a [NULL] target path is [None]. *)
Record wimlib_capture_source : Set := {
  fs_source_path : string;
  wim_target_path : option string
}.

(** [canonicalize_targets (sources, num_sources)]. *)
Definition canonicalize_targets (sources : list wimlib_capture_source)
  : list wimlib_capture_source :=
  map (fun src =>
         {| fs_source_path := fs_source_path src;
            wim_target_path :=
              Some (canonicalize_target_path (wim_target_path src)) |})
      sources.

(** [strcmp] of libc: zero for equal strings, otherwise a number with
    the sign of the difference of the first characters that differ,
    taken as unsigned, the end of a string counting as the character 0;
    here, that difference. *)
Fixpoint strcmp (s1 s2 : string) : Z :=
  match s1, s2 with
  | EmptyString, EmptyString => 0
  | EmptyString, String c _ => - Z.of_nat (nat_of_ascii c)
  | String c _, EmptyString => Z.of_nat (nat_of_ascii c)
  | String c1 s1, String c2 s2 =>
      if Ascii.eqb c1 c2 then strcmp s1 s2
      else Z.of_nat (nat_of_ascii c1) - Z.of_nat (nat_of_ascii c2)
  end.

(** [capture_source_cmp (p1, p2)], on sources that have been through
    [canonicalize_targets]. *)
Definition capture_source_cmp (s1 s2 : wimlib_capture_source) : Z :=
  strcmp (default EmptyString (wim_target_path s1))
         (default EmptyString (wim_target_path s2)).

(** [sort_sources (sources, num_sources)]; [qsort] is the function of
    libc, given the comparison function and the array. *)
Definition sort_sources
    (qsort : (wimlib_capture_source -> wimlib_capture_source -> Z) ->
             list wimlib_capture_source -> list wimlib_capture_source)
    (sources : list wimlib_capture_source) : list wimlib_capture_source :=
  qsort capture_source_cmp sources.

(** [check_sorted_sources (sources, num_sources, add_image_flags)]. *)
Definition check_sorted_sources (sources : list wimlib_capture_source)
    (add_image_flags : Z) : wimlib_ret :=
  if flag_set add_image_flags WIMLIB_ADD_IMAGE_FLAG_NTFS then
    match sources with
    | [src] =>
        match default EmptyString (wim_target_path src) with
        | EmptyString => RET_OK
        | _ => WIMLIB_ERR_INVALID_PARAM
        end
    | _ => WIMLIB_ERR_INVALID_PARAM
    end
  else RET_OK.

(** The name a child is keyed by in the child set of its parent. *)
Definition child_key (d : wim_dentry) : string :=
  string_tolower (file_name_utf8 d).

Definition set_i_children (d : wim_dentry) (children : list wim_dentry)
  : wim_dentry :=
  Dentry (file_name_utf8 d) (d_inode d) children.

(** Modelled from the spec: [dentry_is_directory] of dentry.h, which is
    not under src/: the inode has the DIRECTORY attribute and is not a
    reparse point. *)
Definition dentry_is_directory (d : wim_dentry) : bool :=
  negb (Z.land (i_attributes (d_inode d)) FILE_ATTRIBUTE_DIRECTORY =? 0)
  && (Z.land (i_attributes (d_inode d)) FILE_ATTRIBUTE_REPARSE_POINT =? 0).

(** Modelled from the spec: [get_dentry_child_with_name] of dentry.c,
    which is not under src/: the child set is "keyed by case-insensitive
    name for lookup"; the position of the child among the children and
    the child. *)
Definition get_dentry_child_with_name (parent : wim_dentry) (name : string)
  : option (nat * wim_dentry) :=
  list_find (fun c => child_key c = string_tolower name) (i_children parent).

(** Modelled from the spec: [new_dentry_with_inode] of dentry.c, which is
    not under src/: as [new_dentry_with_timeless_inode]; the timestamps,
    about which the specification says nothing, are [now]. *)
Definition new_dentry_with_inode (now : Z) (name : string) : wim_dentry :=
  Dentry name
    {| i_attributes := 0; i_creation_time := now; i_last_write_time := now;
       i_last_access_time := now; i_ino := 0; i_resolved := false;
       i_security_id := -1; i_reparse_tag := 0; i_lte := None;
       i_ads_entries := [] |}
    [].

(** [new_filler_directory (name)]. *)
Definition new_filler_directory (now : Z) (name : string) : wim_dentry :=
  let dentry := new_dentry_with_inode now name in
  let inode := d_inode dentry in
  Dentry (file_name_utf8 dentry)
    {| i_attributes := FILE_ATTRIBUTE_DIRECTORY;
       i_creation_time := i_creation_time inode;
       i_last_write_time := i_last_write_time inode;
       i_last_access_time := i_last_access_time inode;
       i_ino := 0; i_resolved := true;
       i_security_id := i_security_id inode;
       i_reparse_tag := i_reparse_tag inode;
       i_lte := i_lte inode; i_ads_entries := i_ads_entries inode |}
    (i_children dentry).

(** [strchr (target_path, '/')]: what precedes the first slash and what
    follows it, or [None]. *)
Fixpoint strchr_slash (target_path : string) : option (string * string) :=
  match target_path with
  | EmptyString => None
  | String c rest =>
      if Ascii.eqb c SLASH then Some (EmptyString, rest)
      else match strchr_slash rest with
           | Some (name, rest) => Some (String c name, rest)
           | None => None
           end
  end.

(** The child at position [i] is replaced: the dentry a pointer to it
    designates was changed in place. *)
Definition set_child (parent : wim_dentry) (i : nat) (child : wim_dentry)
  : wim_dentry :=
  set_i_children parent (<[i := child]> (i_children parent)).

(** Modelled from the spec: [set_dentry_name] of dentry.c, which is not
    under src/: the dentry is given the name. *)
Definition set_dentry_name (dentry : wim_dentry) (new_name : string)
  : wim_dentry :=
  Dentry new_name (d_inode dentry) (i_children dentry).

Section Overlay.

(** [rb_root->rb_node] of a child set, with what [unlink_dentry] leaves
    of the set once this child is taken out: the dentry at the root of
    the red-black tree of rbtree.c, which is not under src/.  Which of
    the children it is depends on the history of the tree. *)
Variable rb_node : list wim_dentry -> option (wim_dentry * list wim_dentry).

(** The current time, which [new_dentry_with_inode] reads. *)
Variable now : Z.

(** The [while (rb_root->rb_node)] loop of [do_overlay]: the status,
    [target] and [branch].  Each iteration takes a child out of
    [branch]; [fuel] bounds their number. *)
Fixpoint do_overlay_loop (fuel : nat) (target branch : wim_dentry)
  : option (wimlib_ret * wim_dentry * wim_dentry) :=
  match rb_node (i_children branch) with
  | None => Some (RET_OK, target, branch)
  | Some (child, others) =>
    match fuel with
    | O => None
    | S fuel =>
      let branch := set_i_children branch others in
      let '(added, target') := dentry_add_child target child in
      if added then do_overlay_loop fuel target' branch
      else
        Some (WIMLIB_ERR_INVALID_OVERLAY, target,
              snd (dentry_add_child branch child))
    end
  end.

(** [do_overlay (target, branch)]. *)
Definition do_overlay (target branch : wim_dentry)
  : option (wimlib_ret * wim_dentry * wim_dentry) :=
  if negb (dentry_is_directory target)
  then Some (WIMLIB_ERR_INVALID_OVERLAY, target, branch)
  else do_overlay_loop (length (i_children branch)) target branch.

(** The walk of [attach_branch] from [parent] down [target_path], and
    what it does at the end of the path: the status, [parent] and
    [branch].  [fuel] bounds the number of components of the path. *)
Fixpoint attach_branch_walk (fuel : nat) (parent : wim_dentry)
    (branch : wim_dentry) (target_path : string)
  : option (wimlib_ret * wim_dentry * wim_dentry) :=
  match strchr_slash target_path with
  | Some (name, rest) =>
    match fuel with
    | O => None
    | S fuel =>
      let '(parent, i, dentry) :=
        match get_dentry_child_with_name parent name with
        | Some (i, dentry) => (parent, i, dentry)
        | None =>
            let dentry := new_filler_directory now name in
            (snd (dentry_add_child parent dentry),
             length (i_children parent), dentry)
        end in
      match attach_branch_walk fuel dentry branch (skip_slashes rest) with
      | None => None
      | Some (ret, dentry, branch) =>
          Some (ret, set_child parent i dentry, branch)
      end
    end
  | None =>
    match get_dentry_child_with_name parent (file_name_utf8 branch) with
    | Some (i, target) =>
      match do_overlay target branch with
      | None => None
      | Some (ret, target, branch) =>
          Some (ret, set_child parent i target, branch)
      end
    | None => Some (RET_OK, snd (dentry_add_child parent branch), branch)
    end
  end.

(** [attach_branch (root_p, branch, target_path)]: the status, [*root_p]
    and [branch]. *)
Definition attach_branch (root_p : option wim_dentry) (branch : wim_dentry)
    (target_path : string)
  : option (wimlib_ret * option wim_dentry * wim_dentry) :=
  match target_path with
  | EmptyString =>
    match root_p with
    | Some root =>
      match do_overlay root branch with
      | None => None
      | Some (ret, root, branch) => Some (ret, Some root, branch)
      end
    | None => Some (RET_OK, Some branch, branch)
    end
  | _ =>
    let root := default (new_filler_directory now EmptyString) root_p in
    match attach_branch_walk (String.length target_path) root branch
            target_path with
    | None => None
    | Some (ret, root, branch) => Some (ret, Some root, branch)
    end
  end.

End Overlay.

(** What [attach_branch] leaves in the buffer of the target path: the
    first slash it stopped at was overwritten with a NUL, so the C string
    ends there. *)
Definition target_path_after_attach (target_path : string) : string :=
  match strchr_slash target_path with
  | Some (name, _) => name
  | None => target_path
  end.

(** The dentry a path of names leads to from [root]. *)
Fixpoint lookup_path (root : wim_dentry) (names : list string)
  : option wim_dentry :=
  match names with
  | [] => Some root
  | name :: names =>
      match get_dentry_child_with_name root name with
      | Some (_, child) => lookup_path child names
      | None => None
      end
  end.

(** The directories of a target path: the names in front of its slashes;
    [fuel] bounds their number. *)
Fixpoint target_directories (fuel : nat) (target_path : string) : list string :=
  match strchr_slash target_path, fuel with
  | Some (name, rest), S fuel =>
      name :: target_directories fuel (skip_slashes rest)
  | _, _ => []
  end.

(** The names that lead from the root of the image to the place where
    [attach_branch] puts a branch: the directories of the target path,
    then the name of the branch; none for the root itself. *)
Definition branch_path (target_path : string) (branch : wim_dentry)
  : list string :=
  match target_path with
  | EmptyString => []
  | _ =>
      target_directories (String.length target_path) target_path
      ++ [file_name_utf8 branch]
  end.

(** A directory of the name [name] holding [below] and nothing else, as
    [new_filler_directory] makes it. *)
Definition filler_over (now : Z) (name : string) (below : wim_dentry)
  : wim_dentry :=
  set_i_children (new_filler_directory now name) [below].

(** The rule [rb_node] follows: an empty child set has no root, and the
    root of another is one of the children, the others staying in the
    order they have. *)
Definition rb_node_of_children
    (rb_node : list wim_dentry -> option (wim_dentry * list wim_dentry))
  : Prop :=
  forall children,
    match rb_node children with
    | None => children = []
    | Some (child, others) =>
        exists before after,
          children = before ++ child :: after /\ others = before ++ after
    end.

Section Sources.

Context `{env : capture_env}.
Variable fs : host_fs.
Variable rb_node : list wim_dentry -> option (wim_dentry * list wim_dentry).
Variable now : Z.

(** Whether the library is built [WITH_NTFS_3G]. *)
Variable with_ntfs_3g : bool.

(** [build_dentry_tree_ntfs] of ntfs-capture.c, which is not under src/,
    given [&w->ntfs_vol] as its last argument: the status, the dentry it
    stores in [*root_p] and the state it leaves. *)
Variable build_dentry_tree_ntfs :
  string -> capture_state -> capture_config -> Z -> bool ->
  wimlib_ret * option wim_dentry * capture_state.

(** The type of the function pointer [capture_tree]: the arguments are
    the path, the lookup table and the security data (the state), the
    configuration, the flags and whether there is a progress function. *)
Definition capture_tree_fn : Type :=
  string -> capture_state -> capture_config -> Z -> bool ->
  option (wimlib_ret * option wim_dentry * capture_state).

(** The first statement of [wimlib_add_image_multisource]: the choice of
    [capture_tree] by the flag NTFS, or the status returned at once.
    [fuel] is the one of [build_dentry_tree]. *)
Definition select_capture_tree (fuel : nat) (add_image_flags : Z)
  : wimlib_ret + capture_tree_fn :=
  if flag_set add_image_flags WIMLIB_ADD_IMAGE_FLAG_NTFS then
    if with_ntfs_3g then
      if flag_set add_image_flags WIMLIB_ADD_IMAGE_FLAG_DEREFERENCE
      then inl WIMLIB_ERR_INVALID_PARAM
      else if flag_set add_image_flags WIMLIB_ADD_IMAGE_FLAG_UNIX_DATA
      then inl WIMLIB_ERR_INVALID_PARAM
      else inr (fun path s config flags progress_func =>
                  Some (build_dentry_tree_ntfs path s config flags
                          progress_func))
    else inl WIMLIB_ERR_UNSUPPORTED
  else inr (build_dentry_tree fs fuel).

(** [free_dentry_tree (root, lookup_table)] for a tree that may be
    [NULL]. *)
Definition free_tree (root : option wim_dentry) (s : capture_state)
  : capture_state :=
  match root with
  | Some r => set_lookup_table s (free_dentry_tree r (lookup_table s))
  | None => s
  end.

(** [exclude_path] for a source itself, as [build_dentry_tree] asks it
    once [capture_config_set_prefix] has made the source the prefix. *)
Definition source_excluded (config : capture_config)
    (source : wimlib_capture_source) : bool :=
  exclude_path (fs_source_path source)
    (capture_config_set_prefix config (fs_source_path source)) true.

(** The [do ... while (++i != num_sources)] loop of
    [wimlib_add_image_multisource], from the source [sources[i]] on:
    the status, [root_dentry] and the state.  Each source is captured by
    [( *capture_tree)].  The sources have been through
    [canonicalize_targets], so no target is [NULL]. *)
Fixpoint capture_sources (capture_tree : capture_tree_fn)
    (sources : list wimlib_capture_source)
    (root_dentry : option wim_dentry) (s : capture_state)
    (config : capture_config) (add_image_flags : Z) (progress_func : bool)
  : option (wimlib_ret * option wim_dentry * capture_state) :=
  match sources with
  | [] => Some (RET_OK, root_dentry, s)
  | source :: sources =>
    let target := default EmptyString (wim_target_path source) in
    let s :=
      if progress_func
      then call_progress_func s
             (WIMLIB_PROGRESS_MSG_SCAN_BEGIN (fs_source_path source) target)
      else s in
    let config := capture_config_set_prefix config (fs_source_path source) in
    let flags := Z.lor add_image_flags WIMLIB_ADD_IMAGE_FLAG_SOURCE in
    let flags :=
      match target with
      | EmptyString => Z.lor flags WIMLIB_ADD_IMAGE_FLAG_ROOT
      | _ => flags
      end in
    match capture_tree (fs_source_path source) s config flags
            progress_func with
    | None => None
    | Some (ret, branch, s) =>
      if decide (ret = RET_OK) then
        match branch with
        | Some branch =>
          let branch := set_dentry_name branch (path_basename target) in
          match attach_branch rb_node now root_dentry branch target with
          | None => None
          | Some (ret, root_dentry, branch) =>
            if decide (ret = RET_OK) then
              let s :=
                if progress_func
                then call_progress_func s
                       (WIMLIB_PROGRESS_MSG_SCAN_END (fs_source_path source)
                          (target_path_after_attach target))
                else s in
              capture_sources capture_tree sources root_dentry s config
                add_image_flags progress_func
            else
              Some (ret, None,
                    free_tree root_dentry (free_tree (Some branch) s))
          end
        | None =>
          let s :=
            if progress_func
            then call_progress_func s
                   (WIMLIB_PROGRESS_MSG_SCAN_END (fs_source_path source)
                      target)
            else s in
          capture_sources capture_tree sources root_dentry s config
            add_image_flags progress_func
        end
      else Some (ret, None, free_tree root_dentry s)
    end
  end.

(** The parts of [wimlib_add_image_multisource] that make the tree of
    the image: the choice of [capture_tree], then the part under
    "Building dentry tree": without a source the image is an empty
    directory, otherwise the sources are captured one after the other.
    The checks between the two (the name of the image, the
    configuration, the sources) are taken to have passed. *)
Definition add_image_multisource_tree (fuel : nat)
    (sources : list wimlib_capture_source) (s : capture_state)
    (config : capture_config) (add_image_flags : Z) (progress_func : bool)
  : option (wimlib_ret * option wim_dentry * capture_state) :=
  match select_capture_tree fuel add_image_flags with
  | inl ret => Some (ret, None, s)
  | inr capture_tree =>
    match sources with
    | [] => Some (RET_OK, Some (new_filler_directory now EmptyString), s)
    | _ =>
        capture_sources capture_tree sources None s config add_image_flags
          progress_func
    end
  end.

End Sources.

(** ** Definitions the properties are stated with *)

(** A call of the progress function for the scan of a path under
    [root_disk_path]. *)
Definition scan_dentry_under (root_disk_path : string) (c : progress_call)
  : Prop :=
  match c with
  | WIMLIB_PROGRESS_MSG_SCAN_DENTRY cur_path _ =>
      exists rest, cur_path = (root_disk_path +:+ rest)%string
  | _ => False
  end.

(** From [s] to [s'] the security data is the same and the progress
    function was only called for the scan of paths under [path], and not
    at all unless [verbose]. *)
Definition progress_of (path : string) (verbose : bool) (s s' : capture_state)
  : Prop :=
  sd s' = sd s
  /\ exists calls,
       progress_calls s' = progress_calls s ++ calls
       /\ Forall (scan_dentry_under path) calls
       /\ (verbose = false -> calls = []).

(** The calls the progress function gets for one source: the scan
    begins, paths under the source are scanned, the scan ends. *)
Definition scan_of_source (source target target_end : string)
    (calls : list progress_call) : Prop :=
  exists dentries,
    calls = WIMLIB_PROGRESS_MSG_SCAN_BEGIN source target :: dentries
            ++ [WIMLIB_PROGRESS_MSG_SCAN_END source target_end]
    /\ Forall (scan_dentry_under source) dentries.

(** A string of [n] slashes. *)
Fixpoint slashes (n : nat) : string :=
  match n with
  | O => EmptyString
  | S n => String SLASH (slashes n)
  end.

(** A pattern as [init_capture_config] stores it: a C string without
    backslash and without newline. *)
Definition stored_pattern (p : string) : Prop :=
  strchr p BACKSLASH = false /\ strchr p LF = false /\ strchr p NUL = false.

Definition stored_patterns (config : capture_config) : Prop :=
  Forall stored_pattern (exclusion_list config)
  /\ Forall stored_pattern (exclusion_exception config)
  /\ Forall stored_pattern (compression_exclusion_list config)
  /\ Forall stored_pattern (alignment_list config).

(** The line with a carriage return after it. *)
Definition with_cr (line : string) : string :=
  (line +:+ String CR EmptyString)%string.

(** The dentries of a tree, the root first. *)
Fixpoint dentry_tree_list (root : wim_dentry) : list wim_dentry :=
  match root with
  | Dentry _ _ children => root :: flat_map dentry_tree_list children
  end.

(** The names of the children of a dentry are distinct, letter case
    apart. *)
Definition distinct_children (d : wim_dentry) : Prop :=
  NoDup (map child_key (i_children d)).

(** The streams an inode refers to are entries of the lookup table. *)
Definition inode_streams_in (table : wim_lookup_table) (inode : wim_inode)
  : Prop :=
  (forall a, i_lte inode = Some a -> is_Some (table !! a))
  /\ Forall (fun ads => forall a, ads_lte ads = Some a -> is_Some (table !! a))
            (i_ads_entries inode).

(** The streams of the dentries of a tree are entries of the table. *)
Definition tree_streams_in (table : wim_lookup_table) (root : wim_dentry)
  : Prop :=
  Forall (fun d => inode_streams_in table (d_inode d)) (dentry_tree_list root).

(** An entry of the lookup table is kept: the same digest, and at least
    as many references. *)
Definition entry_kept (e e' : wim_lookup_table_entry) : Prop :=
  hash e' = hash e /\ refcnt e <= refcnt e'.

Definition table_kept (t t' : wim_lookup_table) : Prop :=
  forall a e, t !! a = Some e -> exists e', t' !! a = Some e' /\ entry_kept e e'.

(** The two functions of the interface that are given the lookup table
    keep its entries when they succeed. *)
Definition collaborators_keep_table `{env : capture_env} : Prop :=
  (forall inode uid gid mode t inode' t',
     inode_set_unix_data inode uid gid mode t = (RET_OK, inode', t') ->
     table_kept t t')
  /\ (forall inode target t inode' t',
        inode_set_symlink inode target t = (RET_OK, inode', t') ->
        table_kept t t').

(** The same two functions, when they succeed on an inode whose streams
    are entries of the table, return an inode whose streams are entries
    of the table they return. *)
Definition collaborators_bind_streams `{env : capture_env} : Prop :=
  (forall inode uid gid mode t inode' t',
     inode_streams_in t inode ->
     inode_set_unix_data inode uid gid mode t = (RET_OK, inode', t') ->
     inode_streams_in t' inode')
  /\ (forall inode target t inode' t',
        inode_streams_in t inode ->
        inode_set_symlink inode target t = (RET_OK, inode', t') ->
        inode_streams_in t' inode').

End AddImage.

Module NtfsApply.

(** ** The NTFS apply engine ([ntfs-apply.c]) *)

(** Modelled from the spec: [WIM_CHUNK_SIZE] of wimlib_internal.h, which is
    not under src/: "chunked copy (32 KiB)". *)
Definition WIM_CHUNK_SIZE : N := 32768.

Definition FILE_ATTRIBUTE_DIRECTORY : Z := 0x10.
Definition FILE_ATTRIBUTE_REPARSE_POINT : Z := 0x400.
Definition S_IFDIR : Z := 0x4000.
Definition S_IFREG : Z := 0x8000.

(** [struct lookup_table_entry]: the recorded digest and what
    [wim_resource_size] returns; [lte_id] names the resource for
    [read_wim_resource]. *)
Record lookup_table_entry : Set := {
  lte_id : nat;
  hash : list Byte.byte;
  wim_resource_size : N
}.

Record ads_entry : Set := {
  stream_name : string;
  stream_name_len : Z;
  ads_hash : list Byte.byte
}.

(** [struct dentry] of this version of the library: the dentry carries
    the attributes itself and is linked into its hard-link group by
    [link_group_list].  A [struct dentry *] is an index into the array of
    dentries of the image; [link_group_list] lists the other members of
    the group in the order [list_for_each_entry] visits them from this
    dentry (empty when the list head points at itself). *)
Record dentry : Set := {
  file_name : string;
  file_name_len : Z;
  file_name_utf8 : string;
  full_path_utf8 : string;
  short_name : string;
  short_name_len : Z;
  attributes : Z;
  security_id : Z;
  reparse_tag : Z;
  creation_time : Z;
  last_write_time : Z;
  last_access_time : Z;
  stream_hash : list Byte.byte;
  ads_entries : list ads_entry;
  parent : nat;
  link_group_list : list nat;
  extracted_file : option string
}.

#[global] Instance dentry_inhabited : Inhabited dentry :=
  populate {| file_name := EmptyString; file_name_len := 0;
              file_name_utf8 := EmptyString; full_path_utf8 := EmptyString;
              short_name := EmptyString; short_name_len := 0;
              attributes := 0; security_id := -1; reparse_tag := 0;
              creation_time := 0; last_write_time := 0;
              last_access_time := 0; stream_hash := [];
              ads_entries := []; parent := O; link_group_list := [];
              extracted_file := None |}.

(** [dentry->extracted_file = STRDUP (path)]. *)
Definition set_extracted_file (d : dentry) (path : string) : dentry :=
  {| file_name := file_name d; file_name_len := file_name_len d;
     file_name_utf8 := file_name_utf8 d; full_path_utf8 := full_path_utf8 d;
     short_name := short_name d; short_name_len := short_name_len d;
     attributes := attributes d; security_id := security_id d;
     reparse_tag := reparse_tag d; creation_time := creation_time d;
     last_write_time := last_write_time d;
     last_access_time := last_access_time d;
     stream_hash := stream_hash d; ads_entries := ads_entries d;
     parent := parent d; link_group_list := link_group_list d;
     extracted_file := Some path |}.

(** [WIMStruct], the parts the apply engine reads. *)
Record WIMStruct : Set := {
  lookup_table : list lookup_table_entry;
  security_descriptors : list (list Byte.byte)
}.

(** Modelled from the spec: [__lookup_resource] of lookup_table.c, which
    is not under src/: "lookup(digest) -> StreamEntry?". *)
Definition __lookup_resource (table : list lookup_table_entry)
    (h : list Byte.byte) : option lookup_table_entry :=
  List.find (fun lte => bool_decide (hash lte = h)) table.

(** Modelled from the spec: [dentry_stream_lte] of dentry.h, which is not
    under src/: stream 0 is the unnamed stream, stream [i + 1] the
    alternate data stream [i]; the entry is found by digest. *)
Definition dentry_stream_lte (d : dentry) (stream_idx : nat)
    (table : list lookup_table_entry) : option lookup_table_entry :=
  match stream_idx with
  | O => __lookup_resource table (stream_hash d)
  | S i => match ads_entries d !! i with
           | Some ads => __lookup_resource table (ads_hash ads)
           | None => None
           end
  end.

(** Modelled from the spec: [dentry_first_lte] of dentry.h, which is not
    under src/: the entry of the first stream of the dentry that has
    one. *)
Definition dentry_first_lte (d : dentry) (table : list lookup_table_entry)
  : option lookup_table_entry :=
  (fix first (n : nat) (stream_idx : nat) :=
     match dentry_stream_lte d stream_idx table with
     | Some lte => Some lte
     | None => match n with
               | O => None
               | S n => first n (S stream_idx)
               end
     end) (length (ads_entries d)) O.

(** Modelled from the spec: [dentry_is_directory] of dentry.h, which is
    not under src/: a directory that is not a reparse point. *)
Definition dentry_is_directory (d : dentry) : bool :=
  negb (Z.land (attributes d) FILE_ATTRIBUTE_DIRECTORY =? 0)
  && (Z.land (attributes d) FILE_ATTRIBUTE_REPARSE_POINT =? 0).

(** Little-endian [put_u16] and [put_u32]. *)
Definition byte_of_Z (z : Z) : Byte.byte :=
  default Byte.x00 (Byte.of_N (Z.to_N (z mod 256))).
Definition put_u16 (z : Z) : list Byte.byte :=
  [byte_of_Z z; byte_of_Z (Z.shiftr z 8)].
Definition put_u32 (z : Z) : list Byte.byte :=
  [byte_of_Z z; byte_of_Z (Z.shiftr z 8); byte_of_Z (Z.shiftr z 16);
   byte_of_Z (Z.shiftr z 24)].

(** The directory part of a full path: what precedes its last slash
    ([do p--; while ( *p != '/'); *p = '\0';]). *)
Fixpoint dir_name_of (full_path : string) : string :=
  match full_path with
  | EmptyString => EmptyString
  | String c rest =>
      if strchr rest SLASH then String c (dir_name_of rest) else EmptyString
  end.

(** A call the engine makes on behalf of a dentry, as recorded in the
    trace of an apply.  Dentries are named by their index. *)
Inductive ntfs_call : Set :=
| call_puts (path : string)
| call_ntfs_pathname_to_inode (path : string)
| call_ntfs_create (dentry : nat) (type : Z)
| call_ntfs_link (from_dentry : nat) (extracted_file : string)
| call_ntfs_attr_open (dentry : nat) (stream_idx : nat)
| call_ntfs_attr_pwrite (offset : N) (buf : list Byte.byte)
| call_ntfs_attr_close
| call_ntfs_inode_set_attributes (dentry : nat) (attributes : Z)
| call_ntfs_inode_set_security (dentry : nat) (descriptor : list Byte.byte)
| call_ntfs_set_ntfs_reparse_data (dentry : nat) (buf : list Byte.byte)
| call_ntfs_set_ntfs_dos_name (dentry : nat) (short_name : string)
| call_ntfs_inode_close.

(** The chunks passed to [ntfs_attr_pwrite] for a resource of [size]
    bytes: chunk [k] starts at [k] times the chunk size, within the
    resource, and is no longer than a chunk or than what remains. *)
Definition chunked (size : N) (chunks : list (N * list Byte.byte)) : Prop :=
  forall k offset buf,
    chunks !! k = Some (offset, buf) ->
    offset = (N.of_nat k * WIM_CHUNK_SIZE)%N
    /\ (offset < size)%N
    /\ (N.of_nat (length buf) <= N.min (size - offset) WIM_CHUNK_SIZE)%N.

Definition pwrite_calls (chunks : list (N * list Byte.byte)) : list ntfs_call :=
  map (fun c => call_ntfs_attr_pwrite (fst c) (snd c)) chunks.

(** NTFS-3G and the functions of resource.c, which are not under src/.
    Every function takes the state of the mounted volume and returns the
    new one with its result; a [NULL] handle is [None]. *)
Class apply_env : Type := {
  ntfs_volume : Type;
  ntfs_inode : Type;
  ntfs_attr : Type;
  ntfs_pathname_to_inode :
    ntfs_volume -> option ntfs_inode -> string ->
    ntfs_volume * option ntfs_inode;
  ntfs_create :
    ntfs_volume -> ntfs_inode -> string -> Z -> ntfs_volume * option ntfs_inode;
  ntfs_link : ntfs_volume -> ntfs_inode -> ntfs_inode -> string -> ntfs_volume * Z;
  ntfs_attr_open :
    ntfs_volume -> ntfs_inode -> string -> ntfs_volume * option ntfs_attr;
  ntfs_attr_pwrite :
    ntfs_volume -> ntfs_attr -> N -> N -> list Byte.byte -> ntfs_volume * Z;
  ntfs_attr_close : ntfs_volume -> ntfs_attr -> ntfs_volume;
  ntfs_inode_close : ntfs_volume -> ntfs_inode -> ntfs_volume * Z;
  ntfs_inode_set_attributes : ntfs_volume -> ntfs_inode -> Z -> ntfs_volume * Z;
  ntfs_inode_set_security :
    ntfs_volume -> ntfs_inode -> list Byte.byte -> ntfs_volume * Z;
  ntfs_set_ntfs_reparse_data :
    ntfs_volume -> ntfs_inode -> list Byte.byte -> N -> ntfs_volume * Z;
  ntfs_set_ntfs_dos_name :
    ntfs_volume -> ntfs_inode -> ntfs_inode -> string -> ntfs_volume * Z;
  (** [read_wim_resource (lte, buf, size, offset, false)]: the status and
      the bytes put in [buf]. *)
  read_wim_resource :
    lookup_table_entry -> N -> N -> wimlib_ret * list Byte.byte;
  (** The SHA-1 message digest of a byte string. *)
  sha1 : list Byte.byte -> list Byte.byte
}.

(** ** Hard-link groups and the trace of an apply *)

(** The dentry a call is made for. *)
Definition call_dentry (c : ntfs_call) : option nat :=
  match c with
  | call_ntfs_create d _ | call_ntfs_link d _ | call_ntfs_attr_open d _
  | call_ntfs_inode_set_attributes d _ | call_ntfs_inode_set_security d _
  | call_ntfs_set_ntfs_reparse_data d _ | call_ntfs_set_ntfs_dos_name d _ =>
      Some d
  | _ => None
  end.

(** Calls made while a dentry is populated. *)
Definition populate_call (d : nat) (c : ntfs_call) : Prop :=
  match c with
  | call_ntfs_create _ _ | call_ntfs_link _ _ => False
  | _ => call_dentry c = None \/ call_dentry c = Some d
  end.

(** Calls made after a dentry was created or linked. *)
Definition tail_call (d : nat) (c : ntfs_call) : Prop :=
  match c with
  | call_puts _ | call_ntfs_pathname_to_inode _ | call_ntfs_inode_close => True
  | call_ntfs_set_ntfs_dos_name m _ => m = d
  | _ => False
  end.

Definition is_link (c : ntfs_call) : Prop :=
  match c with call_ntfs_link _ _ => True | _ => False end.

Definition clear_extracted_file (d : dentry) : dentry :=
  {| file_name := file_name d; file_name_len := file_name_len d;
     file_name_utf8 := file_name_utf8 d; full_path_utf8 := full_path_utf8 d;
     short_name := short_name d; short_name_len := short_name_len d;
     attributes := attributes d; security_id := security_id d;
     reparse_tag := reparse_tag d; creation_time := creation_time d;
     last_write_time := last_write_time d;
     last_access_time := last_access_time d;
     stream_hash := stream_hash d; ads_entries := ads_entries d;
     parent := parent d; link_group_list := link_group_list d;
     extracted_file := None |}.

Section Groups.

(** The dentries of the image before the apply. *)
Variable ds : list dentry.

Definition is_directory (d : nat) : Prop :=
  Z.land (attributes (ds !!! d)) FILE_ATTRIBUTE_DIRECTORY <> 0.

(** [o] is a name, in the directory of [d], with a short name. *)
Definition dos_name_beside (d o : nat) : Prop :=
  parent (ds !!! d) = parent (ds !!! o) /\ short_name_len (ds !!! o) <> 0.

(** The image is well formed: nothing is extracted yet; the hard-link
    groups are the classes of an equivalence on the dentries of the
    image, made of files only; the root is a directory; and, invariant
    (I4), a group has at most one short name per directory. *)
Record link_groups_wf : Prop := {
  wf_fresh : forall d, extracted_file (ds !!! d) = None;
  wf_range : forall d o, o ∈ link_group_list (ds !!! d) -> (o < length ds)%nat;
  wf_irrefl : forall d, d ∉ link_group_list (ds !!! d);
  wf_sym : forall d o,
    o ∈ link_group_list (ds !!! d) -> d ∈ link_group_list (ds !!! o);
  wf_trans : forall d o o',
    o ∈ link_group_list (ds !!! d) -> o' ∈ link_group_list (ds !!! d) ->
    o <> o' -> o' ∈ link_group_list (ds !!! o);
  wf_nodup : forall d, NoDup (link_group_list (ds !!! d));
  wf_files : forall d o, o ∈ link_group_list (ds !!! d) -> ~ is_directory d;
  wf_root : forall d,
    (d < length ds)%nat -> parent (ds !!! d) = d -> is_directory d;
  wf_dos_name : forall d o,
    o ∈ link_group_list (ds !!! d) -> dos_name_beside d o ->
    short_name_len (ds !!! d) = 0
}.

(** The primary [p] of a group whose first visited member is [f]: the
    member with a short name in the directory of [f] if there is one,
    otherwise [f]. *)
Definition primary_rule (f p : nat) : Prop :=
  (p = f /\ forall o, o ∈ link_group_list (ds !!! f) -> ~ dos_name_beside f o)
  \/ (p ∈ link_group_list (ds !!! f) /\ dos_name_beside f p).

Definition link_or_dos_name (c : ntfs_call) : Prop :=
  match c with
  | call_ntfs_link _ _ | call_ntfs_set_ntfs_dos_name _ _ => True
  | _ => False
  end.

(** What holds of the dentries [dl] and of the trace [tr] throughout an
    apply. *)
Record apply_inv (dl : list dentry) (tr : list ntfs_call) : Prop := {
  inv_static : map clear_extracted_file dl = ds;
  inv_primary : forall p x,
    extracted_file (dl !!! p) = Some x ->
    x = full_path_utf8 (ds !!! p) /\ ~ is_directory p
    /\ (forall o, o ∈ link_group_list (ds !!! p) ->
                  extracted_file (dl !!! o) = None)
    /\ exists j, tr !! j = Some (call_ntfs_create p S_IFREG);
  inv_link : forall i m path,
    tr !! i = Some (call_ntfs_link m path) ->
    extracted_file (dl !!! m) = None /\ ~ is_directory m
    /\ exists p, p ∈ link_group_list (ds !!! m)
         /\ extracted_file (dl !!! p) = Some path
         /\ (exists j, (j < i)%nat /\ tr !! j = Some (call_ntfs_create p S_IFREG))
         /\ (forall k c, (i <= k)%nat -> tr !! k = Some c ->
                         call_dentry c <> Some p);
  inv_calls : forall c m,
    c ∈ tr -> call_dentry c = Some m ->
    link_or_dos_name c \/ is_Some (extracted_file (dl !!! m)) \/ is_directory m
}.

(** Membership in the same hard-link group. *)
Definition same_group (a b : nat) : Prop :=
  a = b \/ b ∈ link_group_list (ds !!! a).

(** [f] is the member of its hard-link group that the walk [order]
    visits first. *)
Definition first_visited (order : list nat) (f : nat) : Prop :=
  exists pre post,
    order = pre ++ f :: post /\ forall x, x ∈ pre -> ~ same_group f x.

End Groups.

Section Apply.

Context `{env : apply_env}.

(** What an apply mutates: the dentries (their [extracted_file]), the
    volume, and the trace of the calls made so far. *)
Record apply_state : Type := {
  dentries : list dentry;
  vol : ntfs_volume;
  trace : list ntfs_call
}.

(** The state after a call that left the volume in state [v]. *)
Definition called (s : apply_state) (v : ntfs_volume) (c : ntfs_call)
  : apply_state :=
  {| dentries := dentries s; vol := v; trace := trace s ++ [c] |}.

Definition ret_or_ntfs_3g (ret : wimlib_ret) : wimlib_ret :=
  if decide (ret = RET_OK) then WIMLIB_ERR_NTFS_3G else ret.

(** The [while (bytes_remaining)] loop of
    [extract_wim_resource_to_ntfs_attr].  The [SHA_CTX] is the bytes
    given to [sha1_update] so far.  The result is [Some ret] when the
    loop is left by [return ret], [None] when it ends or is left by
    [break]. *)
Fixpoint extract_loop (fuel : nat) (lte : lookup_table_entry) (na : ntfs_attr)
    (bytes_remaining offset : N) (ctx : list Byte.byte) (s : apply_state)
  : option (option wimlib_ret * list Byte.byte * apply_state) :=
  if (bytes_remaining =? 0)%N then Some (None, ctx, s)
  else
    match fuel with
    | O => None
    | S fuel =>
      let to_read := N.min bytes_remaining WIM_CHUNK_SIZE in
      let '(ret, buf) := read_wim_resource lte to_read offset in
      if decide (ret = RET_OK) then
        let buf := take (N.to_nat to_read) buf in
        let ctx := ctx ++ buf in
        let '(v, written) := ntfs_attr_pwrite (vol s) na offset to_read buf in
        let s := called s v (call_ntfs_attr_pwrite offset buf) in
        if written =? Z.of_N to_read then
          extract_loop fuel lte na (bytes_remaining - to_read)%N
            (offset + to_read)%N ctx s
        else Some (Some WIMLIB_ERR_WRITE, ctx, s)
      else Some (None, ctx, s)
    end.

(** [extract_wim_resource_to_ntfs_attr (lte, na)].  The loop runs once
    per chunk of the resource. *)
Definition extract_wim_resource_to_ntfs_attr (lte : lookup_table_entry)
    (na : ntfs_attr) (s : apply_state) : option (wimlib_ret * apply_state) :=
  match extract_loop (S (N.to_nat (wim_resource_size lte / WIM_CHUNK_SIZE)))
          lte na (wim_resource_size lte) 0%N [] s with
  | None => None
  | Some (Some ret, _, s) => Some (ret, s)
  | Some (None, ctx, s) =>
      if bool_decide (sha1 ctx = hash lte) then Some (RET_OK, s)
      else Some (WIMLIB_ERR_INVALID_RESOURCE_HASH, s)
  end.

(** The [while (1)] loop of [write_ntfs_data_streams]; [rest] holds the
    alternate data streams from [stream_idx] on. *)
Fixpoint write_ntfs_data_streams_loop (ni : ntfs_inode) (dentry : nat)
    (w : WIMStruct) (rest : list ads_entry) (stream_idx : nat)
    (name : string) (s : apply_state)
  : option (wimlib_ret * apply_state) :=
  let lte := dentry_stream_lte (dentries s !!! dentry) stream_idx
               (lookup_table w) in
  let '(v, na) := ntfs_attr_open (vol s) ni name in
  let s := called s v (call_ntfs_attr_open dentry stream_idx) in
  match na with
  | None => Some (WIMLIB_ERR_NTFS_3G, s)
  | Some na =>
    match match lte with
          | Some lte => extract_wim_resource_to_ntfs_attr lte na s
          | None => Some (RET_OK, s)
          end with
    | None => None
    | Some (ret, s) =>
      let s := called s (ntfs_attr_close (vol s) na) call_ntfs_attr_close in
      if decide (ret = RET_OK) then
        match rest with
        | [] => Some (ret, s)
        | ads :: rest =>
            write_ntfs_data_streams_loop ni dentry w rest (S stream_idx)
              (stream_name ads) s
        end
      else Some (ret, s)
    end
  end.

(** [write_ntfs_data_streams (ni, dentry, w)]. *)
Definition write_ntfs_data_streams (ni : ntfs_inode) (dentry : nat)
    (w : WIMStruct) (s : apply_state) : option (wimlib_ret * apply_state) :=
  write_ntfs_data_streams_loop ni dentry w
    (ads_entries (dentries s !!! dentry)) O EmptyString s.

(** [wim_apply_hardlink_ntfs (from_dentry, to_dentry, dir_ni, &to_ni)]:
    the status and the value left in [to_ni]. *)
Definition wim_apply_hardlink_ntfs (from_dentry to_dentry : nat)
    (dir_ni : ntfs_inode) (s : apply_state)
  : wimlib_ret * option ntfs_inode * apply_state :=
  let to_path := default EmptyString
                   (extracted_file (dentries s !!! to_dentry)) in
  let '(v, to_ni) := ntfs_pathname_to_inode (vol s) None to_path in
  let s := called s v (call_ntfs_pathname_to_inode to_path) in
  match to_ni with
  | None => (WIMLIB_ERR_NTFS_3G, None, s)
  | Some to_ni =>
    let '(v, r) := ntfs_link (vol s) to_ni dir_ni
                     (file_name (dentries s !!! from_dentry)) in
    let s := called s v (call_ntfs_link from_dentry to_path) in
    (if r =? 0 then RET_OK else WIMLIB_ERR_NTFS_3G, Some to_ni, s)
  end.

(** [apply_file_attributes_and_security_data (ni, dentry, w)]. *)
Definition apply_file_attributes_and_security_data (ni : ntfs_inode)
    (dentry : nat) (w : WIMStruct) (s : apply_state)
  : wimlib_ret * apply_state :=
  let d := dentries s !!! dentry in
  let '(v, r) := ntfs_inode_set_attributes (vol s) ni (attributes d) in
  let s := called s v (call_ntfs_inode_set_attributes dentry (attributes d)) in
  if r =? 0 then (WIMLIB_ERR_NTFS_3G, s)
  else if security_id d =? -1 then (RET_OK, s)
  else
    let descriptor :=
      default [] (security_descriptors w !! Z.to_nat (security_id d)) in
    let '(v, r) := ntfs_inode_set_security (vol s) ni descriptor in
    let s := called s v (call_ntfs_inode_set_security dentry descriptor) in
    if r =? 0 then (WIMLIB_ERR_NTFS_3G, s) else (RET_OK, s).

(** [apply_reparse_data (ni, dentry, w)].  [read_full_wim_resource] reads
    the whole resource at offset 0. *)
Definition apply_reparse_data (ni : ntfs_inode) (dentry : nat)
    (w : WIMStruct) (s : apply_state) : wimlib_ret * apply_state :=
  let d := dentries s !!! dentry in
  match dentry_first_lte d (lookup_table w) with
  | None => (WIMLIB_ERR_INVALID_DENTRY, s)
  | Some lte =>
    if (0xffff <=? wim_resource_size lte)%N then (WIMLIB_ERR_INVALID_DENTRY, s)
    else
      let header :=
        put_u32 (reparse_tag d)
        ++ put_u16 (Z.of_N (wim_resource_size lte))
        ++ put_u16 0 in
      let '(ret, data) :=
        read_wim_resource lte (wim_resource_size lte) 0%N in
      if decide (ret = RET_OK) then
        let reparse_data_buf :=
          header ++ take (N.to_nat (wim_resource_size lte)) data in
        let '(v, r) :=
          ntfs_set_ntfs_reparse_data (vol s) ni reparse_data_buf
            (wim_resource_size lte + 8)%N in
        let s := called s v
                   (call_ntfs_set_ntfs_reparse_data dentry reparse_data_buf) in
        if r =? 0 then (RET_OK, s) else (WIMLIB_ERR_NTFS_3G, s)
      else (ret, s)
  end.

(** The [list_for_each_entry] loop of [preapply_dentry_with_dos_name]:
    [inl] is its [return WIMLIB_ERR_INVALID_DENTRY], [inr] the final
    [dentry_with_dos_name]. *)
Fixpoint find_dentry_with_dos_name (ds : list dentry) (dentry : nat)
    (others : list nat) (dentry_with_dos_name : option nat)
  : wimlib_ret + option nat :=
  match others with
  | [] => inr dentry_with_dos_name
  | other :: others =>
      if bool_decide (parent (ds !!! dentry) = parent (ds !!! other))
         && negb (short_name_len (ds !!! other) =? 0)
      then
        match dentry_with_dos_name with
        | Some _ => inl WIMLIB_ERR_INVALID_DENTRY
        | None => find_dentry_with_dos_name ds dentry others (Some other)
        end
      else find_dentry_with_dos_name ds dentry others dentry_with_dos_name
  end.

(** [preapply_dentry_with_dos_name (dentry, dir_ni_p, w)], with the call
    to [do_wim_apply_dentry_ntfs] as the parameter [apply]: the status
    and the value left in [*dir_ni_p]. *)
Definition preapply_dentry_with_dos_name
    (apply : nat -> ntfs_inode -> apply_state ->
             option (wimlib_ret * apply_state))
    (dentry : nat) (dir_ni : ntfs_inode) (s : apply_state)
  : option (wimlib_ret * option ntfs_inode * apply_state) :=
  let d := dentries s !!! dentry in
  match link_group_list d with
  | [] => Some (RET_OK, Some dir_ni, s)
  | others =>
    match find_dentry_with_dos_name (dentries s) dentry others None with
    | inl ret => Some (ret, Some dir_ni, s)
    | inr None => Some (RET_OK, Some dir_ni, s)
    | inr (Some dentry_with_dos_name) =>
      match extracted_file (dentries s !!! dentry_with_dos_name) with
      | Some _ => Some (RET_OK, Some dir_ni, s)
      | None =>
        match apply dentry_with_dos_name dir_ni s with
        | None => None
        | Some (ret, s) =>
          if decide (ret = RET_OK) then
            let dir_name := dir_name_of (full_path_utf8 d) in
            let '(v, ni) := ntfs_pathname_to_inode (vol s) None dir_name in
            let s := called s v (call_ntfs_pathname_to_inode dir_name) in
            match ni with
            | Some ni => Some (RET_OK, Some ni, s)
            | None => Some (WIMLIB_ERR_NTFS_3G, None, s)
            end
          else Some (ret, Some dir_ni, s)
        end
      end
    end
  end.

(** The labels [out_close_dir_ni] and [out_close_ni]. *)
Definition out_close_dir_ni (ret : wimlib_ret) (dir_ni : ntfs_inode)
    (ni : option ntfs_inode) (s : apply_state) : wimlib_ret * apply_state :=
  let '(v, r) := ntfs_inode_close (vol s) dir_ni in
  let s := called s v call_ntfs_inode_close in
  let ret := if r =? 0 then ret else ret_or_ntfs_3g ret in
  match ni with
  | None => (ret, s)
  | Some ni =>
    let '(v, r) := ntfs_inode_close (vol s) ni in
    let s := called s v call_ntfs_inode_close in
    (if r =? 0 then ret else ret_or_ntfs_3g ret, s)
  end.

(** The label [out_set_dos_name]. *)
Definition out_set_dos_name (ret : wimlib_ret) (dentry : nat)
    (dir_ni : ntfs_inode) (ni : ntfs_inode) (is_hardlink : bool)
    (s : apply_state) : wimlib_ret * apply_state :=
  let d := dentries s !!! dentry in
  if short_name_len d =? 0 then out_close_dir_ni ret dir_ni (Some ni) s
  else
    let set_dos_name (dir_ni ni : ntfs_inode) (s : apply_state) :=
      let '(v, r) := ntfs_set_ntfs_dos_name (vol s) ni dir_ni (short_name d) in
      let s := called s v (call_ntfs_set_ntfs_dos_name dentry (short_name d)) in
      (if r =? 0 then RET_OK else WIMLIB_ERR_NTFS_3G, s) in
    if is_hardlink then
      let '(v, _) := ntfs_inode_close (vol s) dir_ni in
      let s := called s v call_ntfs_inode_close in
      let '(v, _) := ntfs_inode_close (vol s) ni in
      let s := called s v call_ntfs_inode_close in
      let dir_name := dir_name_of (full_path_utf8 d) in
      let '(v, dir_ni) := ntfs_pathname_to_inode (vol s) None dir_name in
      let s := called s v (call_ntfs_pathname_to_inode dir_name) in
      match dir_ni with
      | None => (WIMLIB_ERR_NTFS_3G, s)
      | Some dir_ni =>
        let '(v, ni) :=
          ntfs_pathname_to_inode (vol s) (Some dir_ni) (file_name_utf8 d) in
        let s := called s v (call_ntfs_pathname_to_inode (file_name_utf8 d)) in
        match ni with
        | None => (WIMLIB_ERR_NTFS_3G, s)
        | Some ni => set_dos_name dir_ni ni s
        end
      end
    else set_dos_name dir_ni ni s.

(** The part of [do_wim_apply_dentry_ntfs] from the call of
    [ntfs_create] on. *)
Definition create_and_populate (dentry : nat) (dir_ni : ntfs_inode)
    (type : Z) (w : WIMStruct) (s : apply_state)
  : option (wimlib_ret * apply_state) :=
  let d := dentries s !!! dentry in
  let '(v, ni) := ntfs_create (vol s) dir_ni (file_name d) type in
  let s := called s v (call_ntfs_create dentry type) in
  match ni with
  | None => Some (out_close_dir_ni WIMLIB_ERR_NTFS_3G dir_ni None s)
  | Some ni =>
    match
      if negb (dentry_is_directory d)
         && (Z.land (attributes d) FILE_ATTRIBUTE_REPARSE_POINT =? 0)
      then write_ntfs_data_streams ni dentry w s
      else Some (RET_OK, s)
    with
    | None => None
    | Some (ret, s) =>
      if decide (ret = RET_OK) then
        let '(ret, s) := apply_file_attributes_and_security_data ni dentry w s in
        if decide (ret = RET_OK) then
          let '(ret, s) :=
            if Z.land (attributes d) FILE_ATTRIBUTE_REPARSE_POINT =? 0
            then (RET_OK, s)
            else apply_reparse_data ni dentry w s in
          if decide (ret = RET_OK) then
            Some (out_set_dos_name ret dentry dir_ni ni false s)
          else Some (out_close_dir_ni ret dir_ni (Some ni) s)
        else Some (out_close_dir_ni ret dir_ni (Some ni) s)
      else Some (out_close_dir_ni ret dir_ni (Some ni) s)
    end
  end.

(** The part of [do_wim_apply_dentry_ntfs] for a file, from the search
    of its hard-link group for an extracted dentry on; [d] is what
    [dentry] points to. *)
Definition link_or_create (dentry : nat) (d : NtfsApply.dentry)
    (dir_ni : ntfs_inode) (w : WIMStruct) (s : apply_state)
  : option (wimlib_ret * apply_state) :=
  match List.find (fun other =>
                     bool_decide (is_Some (extracted_file
                                             (dentries s !!! other))))
                  (link_group_list d) with
  | Some other =>
    let '(ret, ni, s) := wim_apply_hardlink_ntfs dentry other dir_ni s in
    match decide (ret = RET_OK), ni with
    | left _, Some ni => Some (out_set_dos_name ret dentry dir_ni ni true s)
    | _, _ => Some (out_close_dir_ni ret dir_ni ni s)
    end
  | None =>
    let s :=
      {| dentries := <[dentry := set_extracted_file d (full_path_utf8 d)]>
                       (dentries s);
         vol := vol s; trace := trace s |} in
    create_and_populate dentry dir_ni S_IFREG w s
  end.

(** [do_wim_apply_dentry_ntfs (dentry, dir_ni, w)].  It and
    [preapply_dentry_with_dos_name] call each other; [depth] bounds the
    nesting of these calls and [None] stands for exceeding it. *)
Fixpoint do_wim_apply_dentry_ntfs (depth : nat) (w : WIMStruct) (dentry : nat)
    (dir_ni : ntfs_inode) (s : apply_state)
  : option (wimlib_ret * apply_state) :=
  match depth with
  | O => None
  | S depth =>
    let d := dentries s !!! dentry in
    if negb (Z.land (attributes d) FILE_ATTRIBUTE_DIRECTORY =? 0) then
      create_and_populate dentry dir_ni S_IFDIR w s
    else
      match preapply_dentry_with_dos_name (do_wim_apply_dentry_ntfs depth w)
              dentry dir_ni s with
      | None => None
      | Some (ret, dir_ni', s) =>
        match decide (ret = RET_OK), dir_ni' with
        | left _, Some dir_ni => link_or_create dentry d dir_ni w s
        | _, _ => Some (ret, s)
        end
      end
  end.

(** [wim_apply_root_dentry_ntfs (dentry, vol, w)]. *)
Definition wim_apply_root_dentry_ntfs (dentry : nat) (w : WIMStruct)
    (s : apply_state) : wimlib_ret * apply_state :=
  let '(v, ni) := ntfs_pathname_to_inode (vol s) None "/" in
  let s := called s v (call_ntfs_pathname_to_inode "/") in
  match ni with
  | None => (WIMLIB_ERR_NTFS_3G, s)
  | Some ni =>
    let '(ret, s) := apply_file_attributes_and_security_data ni dentry w s in
    let '(v, r) := ntfs_inode_close (vol s) ni in
    let s := called s v call_ntfs_inode_close in
    (if r =? 0 then ret else WIMLIB_ERR_NTFS_3G, s)
  end.

(** Modelled from the spec: [dentry_is_root] of dentry.h, which is not
    under src/: the root dentry is the one that is its own parent. *)
Definition dentry_is_root (ds : list dentry) (dentry : nat) : bool :=
  bool_decide (parent (ds !!! dentry) = dentry).

(** [wim_apply_dentry_ntfs (dentry, arg)]; [verbose] is
    [extract_flags & WIMLIB_EXTRACT_FLAG_VERBOSE]. *)
Definition wim_apply_dentry_ntfs (depth : nat) (w : WIMStruct)
    (verbose : bool) (dentry : nat) (s : apply_state)
  : option (wimlib_ret * apply_state) :=
  let d := dentries s !!! dentry in
  match extracted_file d with
  | Some _ => Some (RET_OK, s)
  | None =>
    let s := if verbose then called s (vol s) (call_puts (full_path_utf8 d))
             else s in
    if dentry_is_root (dentries s) dentry then
      Some (wim_apply_root_dentry_ntfs dentry w s)
    else
      let dir_name := dir_name_of (full_path_utf8 d) in
      let '(v, dir_ni) := ntfs_pathname_to_inode (vol s) None dir_name in
      let s := called s v (call_ntfs_pathname_to_inode dir_name) in
      match dir_ni with
      | None => Some (WIMLIB_ERR_NTFS_3G, s)
      | Some dir_ni => do_wim_apply_dentry_ntfs depth w dentry dir_ni s
      end
  end.

(** Modelled from the spec: [for_dentry_in_tree] of dentry.c, which is not
    under src/: the visitor is called on the dentries in the order of
    the walk, given here as the list [order], until it fails. *)
Fixpoint for_dentry_in_tree (order : list nat)
    (visitor : nat -> apply_state -> option (wimlib_ret * apply_state))
    (s : apply_state) : option (wimlib_ret * apply_state) :=
  match order with
  | [] => Some (RET_OK, s)
  | dentry :: order =>
      match visitor dentry s with
      | None => None
      | Some (ret, s) =>
          if decide (ret = RET_OK) then for_dentry_in_tree order visitor s
          else Some (ret, s)
      end
  end.

(** ** What an apply leaves *)

(** [s'] is [s] after more calls, all satisfying [P]; the dentries are
    the same. *)
Definition extends_with (P : ntfs_call -> Prop) (s s' : apply_state) : Prop :=
  dentries s' = dentries s
  /\ exists cs, trace s' = trace s ++ cs /\ Forall P cs.

Section Order.

Variable ds : list dentry.

(** What applying the dentry [d] in the state [s] leaves: the state [s']
    and the status [ret]. *)
Definition apply_post (d : nat) (s s' : apply_state) (ret : wimlib_ret) : Prop :=
  apply_inv ds (dentries s') (trace s')
  /\ (exists cs, trace s' = trace s ++ cs)
  /\ (forall x y, extracted_file (dentries s !!! x) = Some y ->
                  extracted_file (dentries s' !!! x) = Some y)
  /\ (forall x, extracted_file (dentries s !!! x) = None ->
                is_Some (extracted_file (dentries s' !!! x)) ->
                (forall o, o ∈ link_group_list (ds !!! d) ->
                           extracted_file (dentries s !!! o) = None)
                /\ primary_rule ds d x)
  /\ (ret = RET_OK -> ~ is_directory ds d ->
      is_Some (extracted_file (dentries s' !!! d))
      \/ exists i path, trace s' !! i = Some (call_ntfs_link d path)).

(** Every extracted dentry is the primary of the group of a visited
    dentry. *)
Definition primaries_chosen (visited : list nat) (s : apply_state) : Prop :=
  forall p, is_Some (extracted_file (dentries s !!! p)) ->
            exists f, first_visited ds visited f /\ primary_rule ds f p.

(** Every visited file is extracted or linked. *)
Definition files_done (visited : list nat) (s : apply_state) : Prop :=
  forall m, m ∈ visited -> ~ is_directory ds m ->
            is_Some (extracted_file (dentries s !!! m))
            \/ exists i path, trace s !! i = Some (call_ntfs_link m path).

End Order.

End Apply.

(** ** The timestamps and the whole image *)

(** Little-endian [put_u64]. *)
Definition put_u64 (z : Z) : list Byte.byte :=
  [byte_of_Z z; byte_of_Z (Z.shiftr z 8); byte_of_Z (Z.shiftr z 16);
   byte_of_Z (Z.shiftr z 24); byte_of_Z (Z.shiftr z 32);
   byte_of_Z (Z.shiftr z 40); byte_of_Z (Z.shiftr z 48);
   byte_of_Z (Z.shiftr z 56)].

(** The number a little-endian byte string stands for. *)
Fixpoint le_decode (bytes : list Byte.byte) : Z :=
  match bytes with
  | [] => 0
  | b :: bytes => Z.of_N (Byte.to_N b) + 256 * le_decode bytes
  end.

(** A call made while an image is applied to a volume: a call of the
    first pass, or one of the calls only [do_wim_apply_image_ntfs] and
    [wim_apply_dentry_timestamps] make. *)
Inductive image_call : Set :=
| call_ntfs_mount (device : string)
| call_apply (c : ntfs_call)
| call_ntfs_inode_set_times (dentry : nat) (buf : list Byte.byte)
| call_ntfs_umount.

(** The functions of NTFS-3G that only the second pass and
    [do_wim_apply_image_ntfs] call. *)
Class apply_image_env (env : apply_env) : Type := {
  (** [ntfs_mount (device, 0)]. *)
  ntfs_mount : string -> option ntfs_volume;
  (** [ntfs_umount (vol, FALSE)]. *)
  ntfs_umount : ntfs_volume -> Z;
  (** [ntfs_inode_set_times (ni, buf, 3 * sizeof (u64), 0)]. *)
  ntfs_inode_set_times :
    ntfs_volume -> ntfs_inode -> list Byte.byte -> ntfs_volume * Z
}.

Section ApplyImage.

Context `{ienv : apply_image_env}.

(** What the second pass mutates: the volume and the trace. *)
Record image_state : Type := {
  ivol : ntfs_volume;
  itrace : list image_call
}.

Definition icalled (s : image_state) (v : ntfs_volume) (c : image_call)
  : image_state :=
  {| ivol := v; itrace := itrace s ++ [c] |}.

(** [wim_apply_dentry_timestamps (dentry, arg)]; [ds] holds the dentries
    of the image. *)
Definition wim_apply_dentry_timestamps (ds : list dentry) (dentry : nat)
    (s : image_state) : wimlib_ret * image_state :=
  let d := ds !!! dentry in
  let '(v, ni) := ntfs_pathname_to_inode (ivol s) None (full_path_utf8 d) in
  let s := icalled s v (call_apply (call_ntfs_pathname_to_inode
                                      (full_path_utf8 d))) in
  match ni with
  | None => (WIMLIB_ERR_NTFS_3G, s)
  | Some ni =>
    let buf := put_u64 (creation_time d) ++ put_u64 (last_write_time d)
               ++ put_u64 (last_access_time d) in
    let '(v, r) := ntfs_inode_set_times (ivol s) ni buf in
    let s := icalled s v (call_ntfs_inode_set_times dentry buf) in
    let ret := if r =? 0 then RET_OK else WIMLIB_ERR_NTFS_3G in
    let '(v, r) := ntfs_inode_close (ivol s) ni in
    let s := icalled s v (call_apply call_ntfs_inode_close) in
    (if r =? 0 then ret else ret_or_ntfs_3g ret, s)
  end.

(** Modelled from the spec: [for_dentry_in_tree_depth] of dentry.c, which
    is not under src/: the visitor is called on the dentries in the
    order of the bottom-up walk, given here as the list [order], until
    it fails. *)
Fixpoint for_dentry_in_tree_depth (order : list nat)
    (visitor : nat -> image_state -> wimlib_ret * image_state)
    (s : image_state) : wimlib_ret * image_state :=
  match order with
  | [] => (RET_OK, s)
  | dentry :: order =>
      let '(ret, s) := visitor dentry s in
      if decide (ret = RET_OK) then for_dentry_in_tree_depth order visitor s
      else (ret, s)
  end.

(** [do_wim_apply_image_ntfs (w, device, extract_flags)]: the status and
    the calls made.  [ds] holds the dentries of the selected image,
    [order] and [order_depth] the orders in which the two walks visit
    them; [verbose] is [extract_flags & WIMLIB_EXTRACT_FLAG_VERBOSE]. *)
Definition do_wim_apply_image_ntfs (depth : nat) (w : WIMStruct)
    (ds : list dentry) (order order_depth : list nat) (device : string)
    (verbose : bool) : option (wimlib_ret * list image_call) :=
  match ntfs_mount device with
  | None => Some (WIMLIB_ERR_NTFS_3G, [call_ntfs_mount device])
  | Some vol =>
    match for_dentry_in_tree order (wim_apply_dentry_ntfs depth w verbose)
            {| dentries := ds; vol := vol; trace := [] |} with
    | None => None
    | Some (ret, s1) =>
      let s := {| ivol := NtfsApply.vol s1;
                  itrace := call_ntfs_mount device
                            :: map call_apply (trace s1) |} in
      let '(ret, s) :=
        if decide (ret = RET_OK)
        then for_dentry_in_tree_depth order_depth
               (wim_apply_dentry_timestamps (dentries s1)) s
        else (ret, s) in
      let r := ntfs_umount (ivol s) in
      Some (if r =? 0 then ret else ret_or_ntfs_3g ret,
            itrace s ++ [call_ntfs_umount])
    end
  end.

(** A call of the second pass for the image [ds]: a lookup, a close, or
    [ntfs_inode_set_times] with the three timestamps of the dentry. *)
Definition timestamp_call (ds : list dentry) (c : image_call) : Prop :=
  match c with
  | call_apply (call_ntfs_pathname_to_inode _)
  | call_apply call_ntfs_inode_close => True
  | call_ntfs_inode_set_times d buf =>
      buf = put_u64 (creation_time (ds !!! d))
            ++ put_u64 (last_write_time (ds !!! d))
            ++ put_u64 (last_access_time (ds !!! d))
  | _ => False
  end.

(** The dentry whose timestamps a call sets. *)
Definition set_times_dentry (c : image_call) : option nat :=
  match c with
  | call_ntfs_inode_set_times d _ => Some d
  | _ => None
  end.

End ApplyImage.

(** ** Definitions the properties are stated with *)

(** The calls made for one data stream: it is opened, written chunk
    after chunk, and closed. *)
Definition stream_calls (dentry stream_idx : nat)
    (chunks : list (N * list Byte.byte)) : list ntfs_call :=
  call_ntfs_attr_open dentry stream_idx
  :: pwrite_calls chunks ++ [call_ntfs_attr_close].

(** A call that leaves the data streams alone. *)
Definition no_stream_call (c : ntfs_call) : Prop :=
  match c with
  | call_ntfs_attr_open _ _ | call_ntfs_attr_pwrite _ _
  | call_ntfs_attr_close => False
  | _ => True
  end.

Section Chunks.

Context `{env : apply_env}.

(** The count of the pass of the loop of
    [extract_wim_resource_to_ntfs_attr] that starts at [offset]:
    [min (bytes_remaining, WIM_CHUNK_SIZE)], where [bytes_remaining] is
    what the resource holds from [offset] on. *)
Definition to_read (lte : lookup_table_entry) (offset : N) : N :=
  N.min (wim_resource_size lte - offset) WIM_CHUNK_SIZE.

(** The chunks are copied from the resource: chunk [k] starts at [k]
    times the chunk size, within the resource, and holds the bytes that
    [read_wim_resource] gave, with success, for that offset. *)
Definition copied_from (lte : lookup_table_entry)
    (chunks : list (N * list Byte.byte)) : Prop :=
  forall k offset buf,
    chunks !! k = Some (offset, buf) ->
    offset = (N.of_nat k * WIM_CHUNK_SIZE)%N
    /\ (offset < wim_resource_size lte)%N
    /\ exists data,
         read_wim_resource lte (to_read lte offset) offset = (RET_OK, data)
         /\ buf = take (N.to_nat (to_read lte offset)) data.

(** [ntfs_attr_pwrite (na, offset, to_read, buf)] for a chunk. *)
Definition pwrite_chunk (lte : lookup_table_entry) (na : ntfs_attr)
    (v : ntfs_volume) (chunk : N * list Byte.byte) : ntfs_volume * Z :=
  ntfs_attr_pwrite v na (fst chunk) (to_read lte (fst chunk)) (snd chunk).

(** The write of a chunk returns the count it is given. *)
Definition whole_write (lte : lookup_table_entry) (na : ntfs_attr)
    (v : ntfs_volume) (chunk : N * list Byte.byte) : Prop :=
  snd (pwrite_chunk lte na v chunk) = Z.of_N (to_read lte (fst chunk)).

(** The volume once the chunks are written, in order. *)
Definition volume_after (lte : lookup_table_entry) (na : ntfs_attr)
    (v : ntfs_volume) (chunks : list (N * list Byte.byte)) : ntfs_volume :=
  fold_left (fun v chunk => fst (pwrite_chunk lte na v chunk)) chunks v.

(** Written in order from the volume [v] on, every chunk is written
    whole. *)
Fixpoint writes_whole (lte : lookup_table_entry) (na : ntfs_attr)
    (v : ntfs_volume) (chunks : list (N * list Byte.byte)) : Prop :=
  match chunks with
  | [] => True
  | chunk :: chunks =>
      whole_write lte na v chunk
      /\ writes_whole lte na (fst (pwrite_chunk lte na v chunk)) chunks
  end.

(** The read of the chunk that starts at [offset] fails. *)
Definition read_fails (lte : lookup_table_entry) (offset : N) : Prop :=
  fst (read_wim_resource lte (to_read lte offset) offset) <> RET_OK.

End Chunks.

End NtfsApply.

(** ** Reference collaborators

    A model of [fnmatch] and SHA-1 itself, with which the engines run on
    concrete inputs.  The theorems about the engines hold for every
    [capture_env] and [apply_env]; these instances serve the scenarios. *)

Module Fnmatch.

(** A pattern is a sequence of literals, [?], [*] and bracket
    expressions (a set of ranges, possibly negated). *)
Inductive token : Set :=
| TLit (c : ascii)
| TAny
| TStar
| TSet (negated : bool) (ranges : list (ascii * ascii)).

(** The items of a bracket expression up to the closing bracket, and the
    number of characters read; a [']'] in first position is an item. *)
Fixpoint bracket_items (s : string) (first : bool)
    (acc : list (ascii * ascii)) (consumed : nat)
  : option (list (ascii * ascii) * nat) :=
  match s with
  | EmptyString => None
  | String c rest =>
      if Ascii.eqb c "]" && negb first then Some (rev acc, S consumed)
      else
        match rest with
        | String "-" (String hi rest') =>
            if Ascii.eqb hi "]"
            then bracket_items rest false ((c, c) :: acc) (S consumed)
            else bracket_items rest' false ((c, hi) :: acc) (3 + consumed)
        | _ => bracket_items rest false ((c, c) :: acc) (S consumed)
        end
  end.

Definition parse_bracket (s : string) : option (token * nat) :=
  match s with
  | String "!" rest | String "^" rest =>
      match bracket_items rest true [] 1 with
      | Some (ranges, n) => Some (TSet true ranges, n)
      | None => None
      end
  | _ =>
      match bracket_items s true [] 0 with
      | Some (ranges, n) => Some (TSet false ranges, n)
      | None => None
      end
  end.

(** The tokens of a pattern; [skip] characters were read ahead.  A
    backslash quotes the next character, an unmatched ['['] is a
    literal. *)
Fixpoint tokenize (pat : string) (skip : nat) : list token :=
  match pat with
  | EmptyString => []
  | String c rest =>
      match skip with
      | S k => tokenize rest k
      | O =>
          if Ascii.eqb c "*" then TStar :: tokenize rest 0
          else if Ascii.eqb c "?" then TAny :: tokenize rest 0
          else if Ascii.eqb c "[" then
            match parse_bracket rest with
            | Some (tok, n) => tok :: tokenize rest n
            | None => TLit c :: tokenize rest 0
            end
          else if Ascii.eqb c BACKSLASH then
            match rest with
            | String d _ => TLit d :: tokenize rest 1
            | EmptyString => [TLit c]
            end
          else TLit c :: tokenize rest 0
      end
  end.

Definition fold_case (casefold : bool) (c : ascii) : ascii :=
  if casefold then tolower c else c.

Definition in_range (casefold : bool) (c : ascii) (r : ascii * ascii) : bool :=
  let n := nat_of_ascii (fold_case casefold c) in
  (nat_of_ascii (fold_case casefold (fst r)) <=? n)%nat
  && (n <=? nat_of_ascii (fold_case casefold (snd r)))%nat.

(** With [FNM_PATHNAME] a slash is matched by a slash of the pattern
    only. *)
Definition char_matches (pathname casefold : bool) (t : token) (c : ascii)
  : bool :=
  match t with
  | TLit l => Ascii.eqb (fold_case casefold l) (fold_case casefold c)
  | TAny => negb (pathname && Ascii.eqb c SLASH)
  | TSet negated ranges =>
      negb (pathname && Ascii.eqb c SLASH)
      && xorb negated (existsb (in_range casefold c) ranges)
  | TStar => false
  end.

Fixpoint match_tokens (pathname casefold : bool) (toks : list token)
  : string -> bool :=
  match toks with
  | [] => fun s => String.eqb s EmptyString
  | TStar :: toks =>
      fix star (s : string) : bool :=
        match_tokens pathname casefold toks s
        || match s with
           | String c s' => negb (pathname && Ascii.eqb c SLASH) && star s'
           | EmptyString => false
           end
  | t :: toks =>
      fun s =>
        match s with
        | String c s' =>
            char_matches pathname casefold t c
            && match_tokens pathname casefold toks s'
        | EmptyString => false
        end
  end.

Definition FNM_NOMATCH : Z := 1.

(** [fnmatch (pattern, string, flags)] for the flags [FNM_PATHNAME] and
    [FNM_CASEFOLD]. *)
Definition fnmatch (pattern string : string) (flags : Z) : Z :=
  if match_tokens (negb (Z.land flags AddImage.FNM_PATHNAME =? 0))
                  (negb (Z.land flags AddImage.FNM_CASEFOLD =? 0))
                  (tokenize pattern 0) string
  then 0 else FNM_NOMATCH.

End Fnmatch.

Module Sha1.

(** SHA-1 (FIPS 180-4) on 32-bit words held in [Z]. *)
Definition mask32 (x : Z) : Z := Z.land x 0xFFFFFFFF.
Definition rotl (n x : Z) : Z :=
  mask32 (Z.lor (Z.shiftl x n) (Z.shiftr x (32 - n))).

Definition pad (msg : list Z) : list Z :=
  let len := Z.of_nat (length msg) in
  let bits := 8 * len in
  msg ++ [0x80] ++ repeat 0 (Z.to_nat ((55 - len) mod 64))
      ++ map (fun i => Z.land (Z.shiftr bits (8 * (7 - Z.of_nat i))) 0xFF)
             (seq 0 8).

Fixpoint words (bytes : list Z) : list Z :=
  match bytes with
  | b0 :: b1 :: b2 :: b3 :: rest =>
      Z.lor (Z.shiftl b0 24) (Z.lor (Z.shiftl b1 16) (Z.lor (Z.shiftl b2 8) b3))
      :: words rest
  | _ => []
  end.

(** The message schedule, newest word first. *)
Fixpoint expand (n : nat) (wrev : list Z) : list Z :=
  match n with
  | O => wrev
  | S n =>
      expand n
        (rotl 1 (Z.lxor (nth 2 wrev 0)
                   (Z.lxor (nth 7 wrev 0)
                      (Z.lxor (nth 13 wrev 0) (nth 15 wrev 0))))
         :: wrev)
  end.

Definition round (st : Z * Z * Z * Z * Z) (tw : nat * Z) : Z * Z * Z * Z * Z :=
  let '(a, b, c, d, e) := st in
  let '(t, w) := tw in
  let '(f, k) :=
    if (t <? 20)%nat then
      (Z.lor (Z.land b c) (Z.land (Z.lxor b 0xFFFFFFFF) d), 0x5A827999)
    else if (t <? 40)%nat then (Z.lxor b (Z.lxor c d), 0x6ED9EBA1)
    else if (t <? 60)%nat then
      (Z.lor (Z.land b c) (Z.lor (Z.land b d) (Z.land c d)), 0x8F1BBCDC)
    else (Z.lxor b (Z.lxor c d), 0xCA62C1D6) in
  (mask32 (rotl 5 a + f + e + k + w), a, rotl 30 b, c, d).

Definition compress (h : Z * Z * Z * Z * Z) (block : list Z)
  : Z * Z * Z * Z * Z :=
  let w := rev (expand 64 (rev (words block))) in
  let '(a, b, c, d, e) := fold_left round (combine (seq 0 80) w) h in
  let '(h0, h1, h2, h3, h4) := h in
  (mask32 (h0 + a), mask32 (h1 + b), mask32 (h2 + c), mask32 (h3 + d),
   mask32 (h4 + e)).

Fixpoint blocks (n : nat) (bytes : list Z) (h : Z * Z * Z * Z * Z)
  : Z * Z * Z * Z * Z :=
  match n with
  | O => h
  | S n => blocks n (drop 64 bytes) (compress h (take 64 bytes))
  end.

Definition word_bytes (w : Z) : list Z :=
  [Z.land (Z.shiftr w 24) 0xFF; Z.land (Z.shiftr w 16) 0xFF;
   Z.land (Z.shiftr w 8) 0xFF; Z.land w 0xFF].

Definition byte_of_Z (z : Z) : Byte.byte :=
  default Byte.x00 (Byte.of_N (Z.to_N z)).

Definition sha1 (msg : list Byte.byte) : list Byte.byte :=
  let padded := pad (map (fun b => Z.of_N (Byte.to_N b)) msg) in
  let '(h0, h1, h2, h3, h4) :=
    blocks (length padded / 64) padded
      (0x67452301, 0xEFCDAB89, 0x98BADCFE, 0x10325476, 0xC3D2E1F0) in
  map byte_of_Z
    (word_bytes h0 ++ word_bytes h1 ++ word_bytes h2 ++ word_bytes h3
     ++ word_bytes h4).

(** A digest in hexadecimal. *)
Definition hex_digit (n : N) : ascii :=
  ascii_of_N (if (n <? 10)%N then 48 + n else 87 + n)%N.
Definition hex (bytes : list Byte.byte) : string :=
  fold_right (fun b acc =>
                String (hex_digit (Byte.to_N b / 16))
                       (String (hex_digit (Byte.to_N b mod 16)) acc))
             EmptyString bytes.

End Sha1.

(** ** Scenarios *)

Module Scenario.

Import AddImage.

Definition bytes_of_string (s : string) : list Byte.byte :=
  map byte_of_ascii (list_ascii_of_string s).

(** A capture environment with the reference [fnmatch] and SHA-1; UNIX
    data and symbolic links are outside of the scenarios. *)
Definition reference_capture_env : capture_env :=
  {| fnmatch := Fnmatch.fnmatch;
     sha1 := Sha1.sha1;
     inode_set_unix_data :=
       fun inode _ _ _ table => (WIMLIB_ERR_UNSUPPORTED, inode, table);
     inode_set_symlink :=
       fun inode _ table => (WIMLIB_ERR_UNSUPPORTED, inode, table) |}.

(** The default capture configuration of [add_image.c]. *)
Definition default_config_lines : list string :=
  [ "[ExclusionList]";
    "\$ntfs.log";
    "\hiberfil.sys";
    "\pagefile.sys";
    "\System Volume Information";
    "\RECYCLER";
    "\Windows\CSC";
    "";
    "[CompressionExclusionList]";
    "*.mp3";
    "*.zip";
    "*.cab";
    "\WINDOWS\inf\*.pnf" ]%string.

Definition default_config : string := unlines default_config_lines.

Definition directory_stat (ino : Z) : stat_buf :=
  {| st_mode := Z.lor S_IFDIR 0x1ED; st_size := 4096; st_ino := ino;
     st_uid := 0; st_gid := 0; st_mtime := 1356998400; st_atime := 1356998400 |}.

Definition regular_stat (ino size : Z) : stat_buf :=
  {| st_mode := Z.lor S_IFREG 0x1A4; st_size := size; st_ino := ino;
     st_uid := 0; st_gid := 0; st_mtime := 1356998400; st_atime := 1356998400 |}.

(** A directory [/src] holding regular files, given with their
    contents. *)
Definition src_directory (files : list (string * list Byte.byte)) : host_fs :=
  let stat_of path :=
    if String.eqb path "/src" then Some (directory_stat 2)
    else
      match list_find (fun f => path = ("/src/" +:+ fst f)%string) files with
      | Some (i, f) => Some (regular_stat (3 + Z.of_nat i)
                                          (Z.of_nat (length (snd f))))
      | None => None
      end in
  {| fs_lstat := stat_of;
     fs_stat := stat_of;
     fs_opendir := fun path =>
       if String.eqb path "/src"
       then Some ("."%string :: ".."%string :: map fst files, false)
       else None;
     fs_readlink := fun _ => None;
     fs_read_file := fun path =>
       snd <$> List.find (fun f => String.eqb path ("/src/" +:+ fst f)) files |}.

Definition empty_capture_state : capture_state :=
  {| lookup_table := ∅; sd := {| descriptors := [] |}; progress_calls := [] |}.

(** Scenario "Exclusion + exception": [*.log] is excluded, [/keep.log]
    excepted, and [/src] holds [keep.log] and [other.log]. *)
Definition exclusion_config : capture_config :=
  {| exclusion_list := ["*.log"%string];
     exclusion_exception := ["/keep.log"%string];
     compression_exclusion_list := [];
     alignment_list := [];
     prefix := "/src" |}.

Definition exclusion_fs : host_fs :=
  src_directory [("keep.log"%string, bytes_of_string "kept");
                 ("other.log"%string, bytes_of_string "other")].

(** Scenario "Dedup": [/src] holds [a.bin] and [b.bin], 1024 zero bytes
    each. *)
Definition dedup_fs : host_fs :=
  src_directory [("a.bin"%string, repeat Byte.x00 1024);
                 ("b.bin"%string, repeat Byte.x00 1024)].

Definition no_exclusion_config : capture_config :=
  capture_config_set_prefix zero_capture_config "/src".

(** An NTFS volume on which every call succeeds; an inode handle is the
    name it was opened or created by.  [content] gives the bytes of the
    resource of each lookup-table entry. *)
Definition obliging_apply_env (content : nat -> list Byte.byte)
  : NtfsApply.apply_env :=
  {| NtfsApply.ntfs_volume := unit;
     NtfsApply.ntfs_inode := string;
     NtfsApply.ntfs_attr := string;
     NtfsApply.ntfs_pathname_to_inode := fun v _ path => (v, Some path);
     NtfsApply.ntfs_create := fun v _ name _ => (v, Some name);
     NtfsApply.ntfs_link := fun v _ _ _ => (v, 0);
     NtfsApply.ntfs_attr_open := fun v _ name => (v, Some name);
     NtfsApply.ntfs_attr_pwrite := fun v _ _ count _ => (v, Z.of_N count);
     NtfsApply.ntfs_attr_close := fun v _ => v;
     NtfsApply.ntfs_inode_close := fun v _ => (v, 0);
     NtfsApply.ntfs_inode_set_attributes := fun v _ _ => (v, 1);
     NtfsApply.ntfs_inode_set_security := fun v _ _ => (v, 1);
     NtfsApply.ntfs_set_ntfs_reparse_data := fun v _ _ _ => (v, 0);
     NtfsApply.ntfs_set_ntfs_dos_name := fun v _ _ _ => (v, 0);
     NtfsApply.read_wim_resource := fun lte size offset =>
       (RET_OK,
        take (N.to_nat size)
             (drop (N.to_nat offset) (content (NtfsApply.lte_id lte))));
     NtfsApply.sha1 := Sha1.sha1 |}.

(** A file dentry [name] of the directory [/d], whose dentry is number 1,
    with the given short name and the other members of its hard-link
    group. *)
Definition file_in_d (name short : string) (attributes : Z)
    (stream_hash : list Byte.byte) (others : list nat) : NtfsApply.dentry :=
  {| NtfsApply.file_name := name;
     NtfsApply.file_name_len := 2 * Z.of_nat (String.length name);
     NtfsApply.file_name_utf8 := name;
     NtfsApply.full_path_utf8 := "/d/" +:+ name;
     NtfsApply.short_name := short;
     NtfsApply.short_name_len := 2 * Z.of_nat (String.length short);
     NtfsApply.attributes := attributes;
     NtfsApply.security_id := -1;
     NtfsApply.reparse_tag := 0xA000000C;
     NtfsApply.creation_time := 0;
     NtfsApply.last_write_time := 0;
     NtfsApply.last_access_time := 0;
     NtfsApply.stream_hash := stream_hash;
     NtfsApply.ads_entries := [];
     NtfsApply.parent := 1%nat;
     NtfsApply.link_group_list := others;
     NtfsApply.extracted_file := None |}.

Definition root_dentry : NtfsApply.dentry :=
  {| NtfsApply.file_name := EmptyString;
     NtfsApply.file_name_len := 0;
     NtfsApply.file_name_utf8 := EmptyString;
     NtfsApply.full_path_utf8 := "/";
     NtfsApply.short_name := EmptyString;
     NtfsApply.short_name_len := 0;
     NtfsApply.attributes := NtfsApply.FILE_ATTRIBUTE_DIRECTORY;
     NtfsApply.security_id := -1;
     NtfsApply.reparse_tag := 0;
     NtfsApply.creation_time := 0;
     NtfsApply.last_write_time := 0;
     NtfsApply.last_access_time := 0;
     NtfsApply.stream_hash := [];
     NtfsApply.ads_entries := [];
     NtfsApply.parent := 0%nat;
     NtfsApply.link_group_list := [];
     NtfsApply.extracted_file := None |}.

Definition directory_d : NtfsApply.dentry :=
  {| NtfsApply.file_name := "d";
     NtfsApply.file_name_len := 2;
     NtfsApply.file_name_utf8 := "d";
     NtfsApply.full_path_utf8 := "/d";
     NtfsApply.short_name := EmptyString;
     NtfsApply.short_name_len := 0;
     NtfsApply.attributes := NtfsApply.FILE_ATTRIBUTE_DIRECTORY;
     NtfsApply.security_id := -1;
     NtfsApply.reparse_tag := 0;
     NtfsApply.creation_time := 0;
     NtfsApply.last_write_time := 0;
     NtfsApply.last_access_time := 0;
     NtfsApply.stream_hash := [];
     NtfsApply.ads_entries := [];
     NtfsApply.parent := 0%nat;
     NtfsApply.link_group_list := [];
     NtfsApply.extracted_file := None |}.

(** The state before anything is applied to the obliging volume. *)
Definition initial_apply_state (content : nat -> list Byte.byte)
    (ds : list NtfsApply.dentry)
  : @NtfsApply.apply_state (obliging_apply_env content) :=
  @NtfsApply.Build_apply_state (obliging_apply_env content) ds tt [].

(** A reparse point whose payload is [size] zero bytes. *)
Definition reparse_payload (size : N) : list Byte.byte :=
  repeat Byte.x00 (N.to_nat size).

Definition reparse_wim (size : N) : NtfsApply.WIMStruct :=
  {| NtfsApply.lookup_table :=
       [ {| NtfsApply.lte_id := 0;
            NtfsApply.hash := Sha1.sha1 (reparse_payload size);
            NtfsApply.wim_resource_size := size |} ];
     NtfsApply.security_descriptors := [] |}.

Definition reparse_lte (size : N) : NtfsApply.lookup_table_entry :=
  {| NtfsApply.lte_id := 0;
     NtfsApply.hash := Sha1.sha1 (reparse_payload size);
     NtfsApply.wim_resource_size := size |}.

Definition reparse_env (size : N) : NtfsApply.apply_env :=
  obliging_apply_env (fun _ => reparse_payload size).

Definition reparse_dentries (size : N) : list NtfsApply.dentry :=
  [ root_dentry; directory_d;
    file_in_d "link" EmptyString NtfsApply.FILE_ATTRIBUTE_REPARSE_POINT
      (Sha1.sha1 (reparse_payload size)) [] ].

(** The reparse point [/d/link], dentry number 2, is about to be
    applied. *)
Definition reparse_state (size : N) : @NtfsApply.apply_state (reparse_env size) :=
  initial_apply_state (fun _ => reparse_payload size) (reparse_dentries size).

(** The status and the state [apply_reparse_data] returns for it. *)
Definition reparse_result (size : N)
  : wimlib_ret * @NtfsApply.apply_state (reparse_env size) :=
  @NtfsApply.apply_reparse_data (reparse_env size) "link"%string 2%nat
    (reparse_wim size) (reparse_state size).

(** Scenario "DOS-name ordering": three names of one file in [/d], of
    which [LONGNAME.TXT] has the short name. *)
Definition hello : list Byte.byte :=
  bytes_of_string ("hello" +:+ String LF EmptyString).

Definition hello_wim : NtfsApply.WIMStruct :=
  {| NtfsApply.lookup_table :=
       [ {| NtfsApply.lte_id := 0;
            NtfsApply.hash := Sha1.sha1 hello;
            NtfsApply.wim_resource_size := 6 |} ];
     NtfsApply.security_descriptors := [] |}.

Definition dos_name_dentries : list NtfsApply.dentry :=
  [ root_dentry; directory_d;
    file_in_d "other1" EmptyString 0x80 (Sha1.sha1 hello) [3; 4]%nat;
    file_in_d "LONGNAME.TXT" "LONGNA~1.TXT" 0x80 (Sha1.sha1 hello) [4; 2]%nat;
    file_in_d "other2" EmptyString 0x80 (Sha1.sha1 hello) [2; 3]%nat ].

(** Two names of one file in [/d], both with a short name. *)
Definition two_dos_names_dentries : list NtfsApply.dentry :=
  [ root_dentry; directory_d;
    file_in_d "LONGNAME.TXT" "LONGNA~1.TXT" 0x80 (Sha1.sha1 hello) [3%nat];
    file_in_d "LONGNAME.DOC" "LONGNA~1.DOC" 0x80 (Sha1.sha1 hello) [2%nat] ].

(** The second pass on the obliging volume: it is mounted, every
    timestamp is set, it is unmounted. *)
Definition obliging_image_env (content : nat -> list Byte.byte)
  : NtfsApply.apply_image_env (obliging_apply_env content) :=
  @NtfsApply.Build_apply_image_env (obliging_apply_env content)
    (fun _ => Some tt) (fun _ => 0) (fun v _ _ => (v, 0)).

(** The obliging volume and a WIM file of which nothing can be read. *)
Definition unreadable_apply_env : NtfsApply.apply_env :=
  {| NtfsApply.ntfs_volume := unit;
     NtfsApply.ntfs_inode := string;
     NtfsApply.ntfs_attr := string;
     NtfsApply.ntfs_pathname_to_inode := fun v _ path => (v, Some path);
     NtfsApply.ntfs_create := fun v _ name _ => (v, Some name);
     NtfsApply.ntfs_link := fun v _ _ _ => (v, 0);
     NtfsApply.ntfs_attr_open := fun v _ name => (v, Some name);
     NtfsApply.ntfs_attr_pwrite := fun v _ _ count _ => (v, Z.of_N count);
     NtfsApply.ntfs_attr_close := fun v _ => v;
     NtfsApply.ntfs_inode_close := fun v _ => (v, 0);
     NtfsApply.ntfs_inode_set_attributes := fun v _ _ => (v, 1);
     NtfsApply.ntfs_inode_set_security := fun v _ _ => (v, 1);
     NtfsApply.ntfs_set_ntfs_reparse_data := fun v _ _ _ => (v, 0);
     NtfsApply.ntfs_set_ntfs_dos_name := fun v _ _ _ => (v, 0);
     NtfsApply.read_wim_resource := fun _ _ _ => (WIMLIB_ERR_READ, []);
     NtfsApply.sha1 := Sha1.sha1 |}.

(** A volume on which no path leads to an inode. *)
Definition pathless_apply_env : NtfsApply.apply_env :=
  {| NtfsApply.ntfs_volume := unit;
     NtfsApply.ntfs_inode := string;
     NtfsApply.ntfs_attr := string;
     NtfsApply.ntfs_pathname_to_inode := fun v _ _ => (v, None);
     NtfsApply.ntfs_create := fun v _ name _ => (v, Some name);
     NtfsApply.ntfs_link := fun v _ _ _ => (v, 0);
     NtfsApply.ntfs_attr_open := fun v _ name => (v, Some name);
     NtfsApply.ntfs_attr_pwrite := fun v _ _ count _ => (v, Z.of_N count);
     NtfsApply.ntfs_attr_close := fun v _ => v;
     NtfsApply.ntfs_inode_close := fun v _ => (v, 0);
     NtfsApply.ntfs_inode_set_attributes := fun v _ _ => (v, 1);
     NtfsApply.ntfs_inode_set_security := fun v _ _ => (v, 1);
     NtfsApply.ntfs_set_ntfs_reparse_data := fun v _ _ _ => (v, 0);
     NtfsApply.ntfs_set_ntfs_dos_name := fun v _ _ _ => (v, 0);
     NtfsApply.read_wim_resource := fun _ _ _ => (RET_OK, []);
     NtfsApply.sha1 := Sha1.sha1 |}.

(** Scenario "Multi-source overlay with filler": dentries of an image
    that holds [os/a.txt], and branches to attach to it. *)
Definition plain_inode (attributes : Z) : wim_inode :=
  {| i_attributes := attributes; i_creation_time := 0;
     i_last_write_time := 0; i_last_access_time := 0; i_ino := 0;
     i_resolved := true; i_security_id := -1; i_reparse_tag := 0;
     i_lte := None; i_ads_entries := [] |}.

Definition directory (name : string) (children : list wim_dentry)
  : wim_dentry :=
  Dentry name (plain_inode FILE_ATTRIBUTE_DIRECTORY) children.

Definition regular_file (name : string) : wim_dentry :=
  Dentry name (plain_inode FILE_ATTRIBUTE_NORMAL) [].

Definition os_image : wim_dentry :=
  directory "" [directory "os" [regular_file "a.txt"]].

Definition drivers_branch : wim_dentry :=
  directory "drivers" [regular_file "b.sys"].

(** A child set whose tree has the first child at its root. *)
Definition first_child (children : list wim_dentry)
  : option (wim_dentry * list wim_dentry) :=
  match children with
  | [] => None
  | child :: others => Some (child, others)
  end.

(** The sources of the scenario: [/src] at the root of the image. *)
Definition src_at_root : wimlib_capture_source :=
  {| fs_source_path := "/src"; wim_target_path := None |}.

Definition keep_log_at_root : wimlib_capture_source :=
  {| fs_source_path := "/src/keep.log"; wim_target_path := Some EmptyString |}.

(** A library built with NTFS-3G that finds no volume to capture. *)
Definition no_ntfs_volume (path : string) (s : capture_state)
    (config : capture_config) (flags : Z) (progress_func : bool)
  : wimlib_ret * option wim_dentry * capture_state :=
  (WIMLIB_ERR_NTFS_3G, None, s).

(** The stream of the given bytes in a lookup table: the entry that has
    their digest, with one reference more, or else a new entry. *)
Definition stream_of_bytes (bytes : list Byte.byte) (table : wim_lookup_table)
  : nat * wim_lookup_table :=
  match __lookup_resource table (Sha1.sha1 bytes) with
  | Some lte => (lte, alter lte_refcnt_incr lte table)
  | None =>
      let '(lte, entry) := new_lookup_table_entry table in
      (lte,
       lookup_table_insert table lte
         {| hash := Sha1.sha1 bytes; refcnt := refcnt entry;
            file_on_disk := EmptyString;
            lte_location := RESOURCE_IN_ATTACHED_BUFFER;
            original_size := Z.of_nat (length bytes);
            size := Z.of_nat (length bytes) |})
  end.

(** A capture environment that stores UNIX data and symbolic links: the
    owner, group and mode of a file are the stream of an alternate data
    stream of its inode, and the target of a symbolic link is the
    unnamed stream of its inode. *)
Definition linking_capture_env : capture_env :=
  {| fnmatch := Fnmatch.fnmatch;
     sha1 := Sha1.sha1;
     inode_set_unix_data := fun inode uid gid mode table =>
       let '(lte, table) :=
         stream_of_bytes
           (NtfsApply.put_u16 0 ++ NtfsApply.put_u16 uid
            ++ NtfsApply.put_u16 gid ++ NtfsApply.put_u16 mode) table in
       (RET_OK,
        {| i_attributes := i_attributes inode;
           i_creation_time := i_creation_time inode;
           i_last_write_time := i_last_write_time inode;
           i_last_access_time := i_last_access_time inode;
           i_ino := i_ino inode; i_resolved := i_resolved inode;
           i_security_id := i_security_id inode;
           i_reparse_tag := i_reparse_tag inode;
           i_lte := i_lte inode;
           i_ads_entries :=
             i_ads_entries inode
             ++ [{| stream_name := "$$__wimlib_UNIX_data";
                    ads_lte := Some lte |}] |},
        table);
     inode_set_symlink := fun inode target table =>
       let '(lte, table) := stream_of_bytes (bytes_of_string target) table in
       (RET_OK, set_i_lte inode (Some lte), table) |}.

Definition symlink_stat (ino : Z) : stat_buf :=
  {| st_mode := Z.lor S_IFLNK 0x1FF; st_size := 9; st_ino := ino;
     st_uid := 0; st_gid := 0; st_mtime := 1356998400; st_atime := 1356998400 |}.

(** A directory [/src] that holds the file [hello.txt] and [link], a
    symbolic link to it. *)
Definition linked_fs : host_fs :=
  {| fs_lstat := fun path =>
       if String.eqb path "/src" then Some (directory_stat 2)
       else if String.eqb path "/src/hello.txt" then Some (regular_stat 3 6)
       else if String.eqb path "/src/link" then Some (symlink_stat 4)
       else None;
     fs_stat := fun path =>
       if String.eqb path "/src" then Some (directory_stat 2)
       else if String.eqb path "/src/hello.txt" then Some (regular_stat 3 6)
       else if String.eqb path "/src/link" then Some (regular_stat 3 6)
       else None;
     fs_opendir := fun path =>
       if String.eqb path "/src"
       then Some (["."; ".."; "hello.txt"; "link"]%string, false)
       else None;
     fs_readlink := fun path =>
       if String.eqb path "/src/link" then Some "hello.txt"%string else None;
     fs_read_file := fun path =>
       if String.eqb path "/src/hello.txt" then Some hello else None |}.

(** The state of a WIM file that already holds a stream with the
    content of [hello.txt], referred to once. *)
Definition stocked_capture_state : capture_state :=
  {| lookup_table :=
       {[ 0%nat := {| hash := Sha1.sha1 hello; refcnt := 1;
                      file_on_disk := "/old/hello.txt";
                      lte_location := RESOURCE_IN_FILE_ON_DISK;
                      original_size := 6; size := 6 |} ]};
     sd := {| descriptors := [] |};
     progress_calls := [] |}.

End Scenario.

(** * Properties of the capture configuration parser *)

Import AddImage.

Section ConfigParser.

Lemma memchr_newline_app (line rest : string) :
  strchr line LF = false ->
  memchr_newline (line +:+ String LF rest) = Some (line, rest).
Proof.
  induction line as [|c line IH]; simpl.
  - reflexivity.
  - intros H. apply orb_false_iff in H as [Hc Hl].
    rewrite Hc, (IH Hl). reflexivity.
Qed.

Lemma memchr_newline_split (p line rest : string) :
  memchr_newline p = Some (line, rest) ->
  p = (line +:+ String LF rest)%string /\ strchr line LF = false.
Proof.
  revert line. induction p as [|c p IH]; simpl; intros line H; [discriminate|].
  destruct (Ascii.eqb c LF) eqn:Ec.
  - apply Ascii.eqb_eq in Ec. inversion H; subst. auto.
  - destruct (memchr_newline p) as [[l r]|] eqn:Em; [|discriminate].
    inversion H; subst. destruct (IH l eq_refl) as [-> Hl].
    simpl. rewrite Ec, Hl. auto.
Qed.

Lemma memchr_newline_none (p : string) :
  memchr_newline p = None -> strchr p LF = false.
Proof.
  induction p as [|c p IH]; simpl; [reflexivity|].
  destruct (Ascii.eqb c LF); [discriminate|].
  destruct (memchr_newline p) as [[l r]|]; [discriminate|]. auto.
Qed.

Lemma length_app_string (a b : string) :
  String.length (a +:+ b) = (String.length a + String.length b)%nat.
Proof. induction a; simpl; auto. Qed.

Lemma cstr_no_nul (p : string) : strchr p NUL = false -> cstr p = p.
Proof.
  induction p as [|c p IH]; simpl; [reflexivity|].
  intros H. apply orb_false_iff in H as [-> H]. by rewrite IH.
Qed.

Lemma strip_cr_no_nul (p : string) :
  strchr p NUL = false -> strchr (strip_cr p) NUL = false.
Proof.
  induction p as [|c p IH]; simpl; [reflexivity|].
  intros H. apply orb_false_iff in H as [Hc H].
  destruct p as [|d p].
  - destruct (Ascii.eqb c CR); simpl; by rewrite ?Hc.
  - change (strchr (String c (strip_cr (String d p))) NUL = false).
    simpl strchr at 1. rewrite Hc. by apply IH.
Qed.

Lemma translate_backslash_no_nul (p : string) :
  strchr p NUL = false -> strchr (translate_backslash p) NUL = false.
Proof.
  induction p as [|c p IH]; simpl; [reflexivity|].
  intros H. apply orb_false_iff in H as [Hc H]. rewrite (IH H).
  destruct (Ascii.eqb c BACKSLASH); [reflexivity|]. by rewrite Hc.
Qed.

Lemma remove_drive_letter_followed (p : string) :
  remove_drive_letter p = strip_drive_letter_followed p.
Proof.
  unfold remove_drive_letter, strip_drive_letter_followed.
  destruct p as [|c0 [|c1 [|c2 p]]]; try reflexivity.
  - destruct c1 as [[] [] [] [] [] [] [] []]; reflexivity.
  - change ((2 <? String.length (String c0 (String c1 (String c2 p))))%nat)
      with true.
    cbv iota.
    destruct c1 as [[] [] [] [] [] [] [] []];
      rewrite ?andb_true_r, ?andb_false_r; reflexivity.
Qed.

Lemma strip_drive_letter_followed_no_nul (p : string) :
  strchr p NUL = false -> strchr (strip_drive_letter_followed p) NUL = false.
Proof.
  unfold strip_drive_letter_followed.
  destruct p as [|c0 [|c1 [|c2 p]]]; try done.
  - destruct c1 as [[] [] [] [] [] [] [] []]; done.
  - intros H.
    assert (strchr (String c2 p) NUL = false) as H2.
    { simpl in H. apply orb_false_iff in H as [_ H].
      apply orb_false_iff in H as [_ H]. exact H. }
    destruct c1 as [[] [] [] [] [] [] [] []]; try done.
    by destruct (isalpha c0).
Qed.

(** One pass of the loop on a text that begins with a whole line. *)
Lemma init_capture_config_loop_lines (lines : list string) :
  Forall (fun l => strchr l LF = false /\ strchr l NUL = false) lines ->
  forall fuel type config,
    (length lines <= fuel)%nat ->
    init_capture_config_loop fuel (unlines lines) type config
    = Some (parse_config_lines strip_drive_letter_followed lines type config).
Proof.
  induction 1 as [|line lines [Hlf Hnul] _ IH]; intros fuel type config Hfuel.
  - destruct fuel; reflexivity.
  - destruct fuel as [|fuel]; [simpl in Hfuel; lia|].
    assert (length lines <= fuel)%nat as Hf by (simpl in Hfuel; lia).
    cbn [unlines].
    assert (exists c t, (line +:+ String LF (unlines lines))%string = String c t)
      as (c & t & Et) by (destruct line; simpl; eauto).
    cbn [init_capture_config_loop]. rewrite Et, <- Et.
    rewrite (memchr_newline_app _ _ Hlf).
    cbn [parse_config_lines].
    destruct (String.eqb line EmptyString); [by apply IH|].
    rewrite remove_drive_letter_followed.
    rewrite cstr_no_nul
      by (apply strip_drive_letter_followed_no_nul,
            translate_backslash_no_nul, strip_cr_no_nul, Hnul).
    set (p := strip_drive_letter_followed (translate_backslash (strip_cr line))).
    unfold section_header.
    destruct (String.eqb p "[ExclusionList]"); [by apply IH|].
    destruct (String.eqb p "[ExclusionException]"); [by apply IH|].
    destruct (String.eqb p "[CompressionExclusionList]"); [by apply IH|].
    destruct (String.eqb p "[AlignmentList]"); [by apply IH|].
    assert ((match p with String c _ => Ascii.eqb c "[" | _ => false end
             && strchr p "]") = bracketed p) as ->.
    { unfold bracketed. destruct p as [|c0 p0]; [reflexivity|]. simpl.
      destruct (Ascii.eqb c0 "[") eqn:E; [|reflexivity].
      apply Ascii.eqb_eq in E as ->. reflexivity. }
    destruct (bracketed p); [reflexivity|].
    destruct type; simpl; first [reflexivity | by apply IH].
Qed.

Lemma length_unlines (lines : list string) :
  (length lines <= String.length (unlines lines))%nat.
Proof.
  induction lines as [|l ls IH]; simpl; [lia|].
  rewrite length_app_string. simpl. lia.
Qed.

(** The loop leaves an unterminated text with the error. *)
Lemma init_capture_config_loop_unterminated (fuel : nat) :
  forall p type config,
    (String.length p <= fuel)%nat ->
    p <> EmptyString ->
    ends_with_newline p = false ->
    init_capture_config_loop fuel p type config
    = Some (WIMLIB_ERR_INVALID_CAPTURE_CONFIG, zero_capture_config).
Proof.
  induction fuel as [|fuel IH]; intros p type config Hlen Hne Hend.
  - destruct p; [done | simpl in Hlen; lia].
  - destruct p as [|c0 p0]; [done|].
    cbn [init_capture_config_loop].
    destruct (memchr_newline (String c0 p0)) as [[line rest]|] eqn:Em;
      [|reflexivity].
    apply memchr_newline_split in Em as [Ep _].
    assert (String.length rest <= fuel)%nat as Hr.
    { rewrite Ep, length_app_string in Hlen. simpl in Hlen. lia. }
    assert (forall a b, b <> EmptyString ->
              ends_with_newline (a +:+ b) = ends_with_newline b) as Happ.
    { intros a b Hb. induction a as [|x a IHa]; [reflexivity|].
      simpl. destruct (a +:+ b)%string eqn:E; [|exact IHa].
      destruct a; simpl in E; [contradiction | discriminate]. }
    assert (rest <> EmptyString /\ ends_with_newline rest = false) as [Hr1 Hr2].
    { destruct rest as [|r0 rest].
      - rewrite Ep, Happ in Hend by done. discriminate.
      - split; [done|]. rewrite Ep, Happ in Hend by done.
        exact Hend. }
    repeat match goal with
           | |- (if ?b then _ else _) = _ => destruct b
           | |- match ?t with NONE => _ | _ => _ end = _ => destruct t
           | |- init_capture_config_loop _ _ _ _ = _ => by apply IH
           | |- Some _ = Some _ => reflexivity
           | |- (let _ := _ in _) = _ => cbv zeta
           end.
Qed.

Lemma init_capture_config_loop_total (fuel : nat) :
  forall p type config,
    (String.length p <= fuel)%nat ->
    is_Some (init_capture_config_loop fuel p type config).
Proof.
  induction fuel as [|fuel IH]; intros p type config Hlen.
  - destruct p; [by eexists | simpl in Hlen; lia].
  - destruct p as [|c0 p0]; [by eexists|].
    cbn [init_capture_config_loop].
    destruct (memchr_newline (String c0 p0)) as [[line rest]|] eqn:Em;
      [|by eexists].
    apply memchr_newline_split in Em as [Ep _].
    assert (String.length rest <= fuel)%nat as Hr.
    { rewrite Ep, length_app_string in Hlen. simpl in Hlen. lia. }
    repeat match goal with
           | |- is_Some (if ?b then _ else _) => destruct b
           | |- is_Some (match ?t with NONE => _ | _ => _ end) => destruct t
           | |- is_Some (init_capture_config_loop _ _ _ _) => by apply IH
           | |- is_Some (Some _) => by eexists
           | |- is_Some (let _ := _ in _) => cbv zeta
           end.
Qed.

(** The parser returns on every text. *)
Lemma init_capture_config_total (config_str : string) :
  is_Some (init_capture_config config_str).
Proof. by apply init_capture_config_loop_total. Qed.

(** C9 (amended).  On a text made of newline-terminated lines, the
    parser reads the lines in order: an empty line is skipped; any other
    line, once a trailing carriage return is dropped, backslashes are
    turned into slashes and a leading drive letter [X:] that is followed
    by at least one more character is removed, selects a list when it
    is one of the four section headers, makes the parse fail with
    [WIMLIB_ERR_INVALID_CAPTURE_CONFIG] when it is another bracketed
    header or stands before any section header, and otherwise joins the
    list selected by the most recent section header. *)
Theorem init_capture_config_by_lines (lines : list string) :
  Forall (fun l => strchr l LF = false /\ strchr l NUL = false) lines ->
  init_capture_config (unlines lines)
  = Some (parse_config_lines strip_drive_letter_followed lines NONE
            zero_capture_config).
Proof.
  intros H. apply init_capture_config_loop_lines; [exact H|].
  apply length_unlines.
Qed.

(** C10.  A non-empty text whose last character is not a newline makes
    the parser fail with [WIMLIB_ERR_INVALID_CAPTURE_CONFIG], whatever
    the lines before the last one are. *)
Theorem init_capture_config_unterminated (config_str : string) :
  config_str <> EmptyString ->
  ends_with_newline config_str = false ->
  init_capture_config config_str
  = Some (WIMLIB_ERR_INVALID_CAPTURE_CONFIG, zero_capture_config).
Proof.
  intros Hne Hend. by apply init_capture_config_loop_unterminated.
Qed.

End ConfigParser.

(** The default configuration of [add_image.c] is read line by line. *)
Lemma init_capture_config_by_lines_witness :
  Forall (fun l => strchr l LF = false /\ strchr l NUL = false)
    Scenario.default_config_lines
  /\ init_capture_config Scenario.default_config
     = Some (parse_config_lines strip_drive_letter_followed
               Scenario.default_config_lines NONE zero_capture_config).
Proof.
  assert (Forall (fun l => strchr l LF = false /\ strchr l NUL = false)
            Scenario.default_config_lines) as H
    by (repeat constructor).
  split; [exact H|].
  exact (init_capture_config_by_lines Scenario.default_config_lines H).
Defined.

(** C9 as stated fails on a line that is a drive letter and nothing
    else: the parser keeps ["C:"] as the pattern, where stripping the
    drive letter would leave the empty pattern. *)
Lemma lone_drive_letter_is_kept :
  init_capture_config (unlines ["[ExclusionList]"; "C:"]%string)
  = Some (RET_OK,
          {| exclusion_list := ["C:"%string]; exclusion_exception := [];
             compression_exclusion_list := []; alignment_list := [];
             prefix := EmptyString |})
  /\ parse_config_lines strip_drive_letter ["[ExclusionList]"; "C:"]%string
       NONE zero_capture_config
     = (RET_OK,
        {| exclusion_list := [EmptyString]; exclusion_exception := [];
           compression_exclusion_list := []; alignment_list := [];
           prefix := EmptyString |})
  /\ init_capture_config (unlines ["[ExclusionList]"; "C:"]%string)
     <> Some (parse_config_lines strip_drive_letter
                ["[ExclusionList]"; "C:"]%string NONE zero_capture_config).
Proof. split; [reflexivity|]. split; [reflexivity|]. discriminate. Qed.

(** A section header without its newline is refused. *)
Lemma init_capture_config_unterminated_witness :
  "[ExclusionList]"%string <> EmptyString
  /\ ends_with_newline "[ExclusionList]" = false
  /\ init_capture_config "[ExclusionList]"
     = Some (WIMLIB_ERR_INVALID_CAPTURE_CONFIG, zero_capture_config).
Proof.
  split; [discriminate|]. split; [reflexivity|].
  apply (init_capture_config_unterminated "[ExclusionList]");
    [discriminate | reflexivity].
Defined.

(** * Properties of path exclusion and of [build_dentry_tree] *)

Section CaptureProperties.

Context `{env : capture_env}.
Variable fs : host_fs.

Lemma skip_prefix_spec (pre path rest : string) :
  skip_prefix pre path = Some rest <-> path = (pre +:+ rest)%string.
Proof.
  revert path. induction pre as [|a pre IH]; intros path; simpl.
  - split; [by intros [= ->] | by intros ->].
  - destruct path as [|b path].
    + split; discriminate.
    + destruct (Ascii.eqb a b) eqn:E.
      * apply Ascii.eqb_eq in E as ->. rewrite IH.
        split; [by intros -> | by intros [= ->]].
      * apply Ascii.eqb_neq in E. split; [discriminate | by intros [= ? ?]].
Qed.

Lemma match_pattern_exists (path basename : string) (pats : list string) :
  match_pattern path basename pats = true <->
  exists pat, pat ∈ pats /\
    fnmatch pat (matched_string pat path basename)
      (Z.lor FNM_PATHNAME FNM_CASEFOLD) = 0.
Proof.
  induction pats as [|pat pats IH]; simpl.
  - split; [discriminate | intros (? & H & _); by apply elem_of_nil in H].
  - fold (matched_string pat path basename).
    destruct (Z.eqb_spec (fnmatch pat (matched_string pat path basename)
                            (Z.lor FNM_PATHNAME FNM_CASEFOLD)) 0) as [E|E].
    + split; [|done]. intros _. exists pat. rewrite elem_of_cons. auto.
    + rewrite IH. split.
      * intros (q & Hq & Hm). exists q. rewrite elem_of_cons. auto.
      * intros (q & Hq & Hm). apply elem_of_cons in Hq as [->|Hq]; [done|].
        exists q. done.
Qed.


Lemma exclude_path_path (path : string) (config : capture_config)
    (exclude_prefix : bool) :
  exists path',
    ((exclude_prefix = true
      /\ exists rest, path = (prefix config +:+ String SLASH rest)%string
                      /\ path' = String SLASH rest)
     \/ (~ (exclude_prefix = true
            /\ exists rest, path = (prefix config +:+ String SLASH rest)%string)
         /\ path' = path))
    /\ exclude_path path config exclude_prefix
       = match_pattern path' (path_basename path) (exclusion_list config)
         && negb (match_pattern path' (path_basename path)
                    (exclusion_exception config)).
Proof.
  unfold exclude_path. destruct exclude_prefix.
  - destruct (skip_prefix (prefix config) path) as [[|c rest]|] eqn:E.
    + exists path. split; [|done]. right. split; [|done].
      intros (_ & rest & Hr). apply skip_prefix_spec in Hr. congruence.
    + destruct (Ascii.eqb c SLASH) eqn:Ec.
      * apply Ascii.eqb_eq in Ec as ->. exists (String SLASH rest).
        split; [|done]. left. split; [done|]. exists rest.
        by apply skip_prefix_spec in E.
      * exists path. split; [|done]. right. split; [|done].
        intros (_ & rest' & Hr). apply skip_prefix_spec in Hr.
        rewrite Hr in E. inversion E; subst. by rewrite Ascii.eqb_refl in Ec.
    + exists path. split; [|done]. right. split; [|done].
      intros (_ & rest & Hr). apply skip_prefix_spec in Hr. congruence.
  - exists path. split; [|done]. right. split; [|done].
    intros H. destruct H as [H _]. discriminate.
Qed.

Lemma build_dentry_tree_excluded_eq (fuel : nat) (path : string)
    (s : capture_state) (config : capture_config) (flags : Z) (pf : bool) :
  exclude_path path config true = true ->
  build_dentry_tree fs (S fuel) path s config flags pf
  = if flag_set flags WIMLIB_ADD_IMAGE_FLAG_ROOT
    then Some (WIMLIB_ERR_INVALID_CAPTURE_CONFIG, None, s)
    else Some (RET_OK, None,
               if flag_set flags WIMLIB_ADD_IMAGE_FLAG_VERBOSE && pf
               then call_progress_func s
                      (WIMLIB_PROGRESS_MSG_SCAN_DENTRY path true)
               else s).
Proof.
  intros H. cbn [build_dentry_tree]. rewrite H.
  destruct (flag_set flags WIMLIB_ADD_IMAGE_FLAG_ROOT); reflexivity.
Qed.


Lemma lookup_resource_Some (table : wim_lookup_table) (h : list Byte.byte)
    (a : nat) :
  __lookup_resource table h = Some a ->
  exists e, table !! a = Some e /\ hash e = h.
Proof.
  unfold __lookup_resource. intros H.
  destruct (find _ _) as [[a' e]|] eqn:E; [|discriminate].
  simpl in H. injection H as ->.
  apply find_some in E as [Hin Hh]. exists e. split.
  - apply elem_of_map_to_list. by apply list_elem_of_In.
  - by apply bool_decide_eq_true in Hh.
Qed.

Lemma lookup_resource_None (table : wim_lookup_table) (h : list Byte.byte) :
  __lookup_resource table h = None <->
  forall a e, table !! a = Some e -> hash e <> h.
Proof.
  unfold __lookup_resource. split.
  - intros H a e Hae Hh.
    destruct (find _ _) as [[a' e']|] eqn:E; [discriminate|].
    assert (bool_decide (hash (snd (a, e)) = h) = false) as Hf.
    { apply (find_none _ _ E (a, e)).
      apply list_elem_of_In. by apply elem_of_map_to_list. }
    simpl in Hf. by apply bool_decide_eq_false in Hf.
  - intros H. destruct (find _ _) as [[a' e']|] eqn:E; [|reflexivity].
    apply find_some in E as [Hin Hh]. exfalso.
    apply (H a' e'); [|by apply bool_decide_eq_true in Hh].
    apply elem_of_map_to_list. by apply list_elem_of_In.
Qed.

Lemma new_lookup_table_entry_fresh (table : wim_lookup_table) :
  table !! fst (new_lookup_table_entry table) = None.
Proof. simpl. apply not_elem_of_dom, is_fresh. Qed.

Lemma build_dentry_tree_regular_eq (fuel : nat) (path : string)
    (s : capture_state) (config : capture_config) (flags : Z) (pf : bool)
    (st : stat_buf) (content : list Byte.byte) (inode : wim_inode)
    (table : wim_lookup_table) :
  exclude_path path config true = false ->
  flag_set flags WIMLIB_ADD_IMAGE_FLAG_ROOT = false ->
  (if flag_set flags WIMLIB_ADD_IMAGE_FLAG_DEREFERENCE
   then fs_stat fs else fs_lstat fs) path = Some st ->
  S_ISREG (st_mode st) = true ->
  st_size st <> 0 ->
  set_unix_data flags st
    (fill_inode (d_inode (new_dentry_with_timeless_inode (path_basename path))) st)
    (lookup_table s) = (RET_OK, inode, table) ->
  fs_read_file fs path = Some content ->
  build_dentry_tree fs (S fuel) path s config flags pf
  = Some (RET_OK,
          Some (Dentry (path_basename path)
                  (set_i_lte (set_i_attributes inode FILE_ATTRIBUTE_NORMAL)
                     (Some (fst (dedup_stream table (sha1 content) path
                                   (st_size st)))))
                  []),
          {| lookup_table :=
               snd (dedup_stream table (sha1 content) path (st_size st));
             sd := sd s;
             progress_calls :=
               progress_calls s
               ++ (if flag_set flags WIMLIB_ADD_IMAGE_FLAG_VERBOSE && pf
                   then [WIMLIB_PROGRESS_MSG_SCAN_DENTRY path false]
                   else []) |}).
Proof.
  intros Hex Hroot Hstat Hreg Hsize Hunix Hread.
  cbn [build_dentry_tree]. rewrite Hex.
  set (s1 := if flag_set flags WIMLIB_ADD_IMAGE_FLAG_VERBOSE && pf
             then _ else s).
  assert (lookup_table s1 = lookup_table s /\ sd s1 = sd s
          /\ progress_calls s1
             = progress_calls s
               ++ (if flag_set flags WIMLIB_ADD_IMAGE_FLAG_VERBOSE && pf
                   then [WIMLIB_PROGRESS_MSG_SCAN_DENTRY path false]
                   else [])) as (Ht & Hsd & Hp).
  { subst s1. destruct (_ && _); simpl; by rewrite ?app_nil_r. }
  clearbody s1. rewrite Hstat, Hroot. cbn [andb].
  rewrite Hreg. cbn [negb andb]. rewrite Ht, Hunix.
  rewrite decide_True by done.
  destruct (Z.eqb_spec (st_size st) 0) as [|_]; [done|].
  unfold sha1sum. rewrite Hread. rewrite decide_True by done.
  unfold dedup_stream. cbn [lookup_table set_lookup_table].
  destruct (__lookup_resource table (sha1 content)) as [lte|]; cbn.
  - unfold build_dentry_tree_out. rewrite decide_True by done.
    unfold set_lookup_table. cbn. by rewrite Hsd, Hp.
  - unfold build_dentry_tree_out. rewrite decide_True by done.
    unfold set_lookup_table, lookup_table_insert. cbn. by rewrite Hsd, Hp.
Qed.


Lemma alter_lookup_insert (table : wim_lookup_table) (a : nat)
    (e : wim_lookup_table_entry) (f : wim_lookup_table_entry -> wim_lookup_table_entry) :
  table !! a = Some e -> alter f a table = <[a := f e]> table.
Proof.
  intros H. apply map_eq. intros i. rewrite lookup_alter, lookup_insert.
  destruct (decide (a = i)) as [->|]; [by rewrite H | done].
Qed.

(** C1.  Capturing a regular file of nonzero size (not excluded, not the
    root of the capture, its stat data and contents readable, the UNIX
    data step done) succeeds and binds the unnamed stream of the inode
    to an entry of the lookup table found by the SHA-1 of the whole
    contents: when the table holds an entry of that digest, that entry,
    whose reference count grows by one; otherwise a new entry at an
    unused address, with reference count 1, residing in the file on disk
    at the captured path, of the size the file has.  Consequently, when
    no entry had the digest before, capturing a second file of the same
    contents binds it to the same entry, which then has reference count
    2 and is the only entry of that digest. *)
Theorem regular_file_stream_dedup (fuel : nat) (path : string)
    (s : capture_state) (config : capture_config) (flags : Z) (pf : bool)
    (st : stat_buf) (content : list Byte.byte) (inode : wim_inode)
    (table : wim_lookup_table) :
  exclude_path path config true = false ->
  flag_set flags WIMLIB_ADD_IMAGE_FLAG_ROOT = false ->
  (if flag_set flags WIMLIB_ADD_IMAGE_FLAG_DEREFERENCE
   then fs_stat fs else fs_lstat fs) path = Some st ->
  S_ISREG (st_mode st) = true ->
  st_size st <> 0 ->
  set_unix_data flags st
    (fill_inode (d_inode (new_dentry_with_timeless_inode (path_basename path))) st)
    (lookup_table s) = (RET_OK, inode, table) ->
  fs_read_file fs path = Some content ->
  exists lte root s',
    build_dentry_tree fs (S fuel) path s config flags pf
    = Some (RET_OK, Some root, s')
    /\ i_lte (d_inode root) = Some lte
    /\ sd s' = sd s
    /\ match __lookup_resource table (sha1 content) with
       | Some existing =>
           lte = existing
           /\ exists e,
                table !! existing = Some e /\ hash e = sha1 content
                /\ refcnt (lte_refcnt_incr e) = refcnt e + 1
                /\ lookup_table s' = <[existing := lte_refcnt_incr e]> table
       | None =>
           table !! lte = None
           /\ lookup_table s'
              = <[lte := {| hash := sha1 content; refcnt := 1;
                            file_on_disk := path;
                            lte_location := RESOURCE_IN_FILE_ON_DISK;
                            original_size := st_size st;
                            size := st_size st |}]> table
       end
    /\ (flag_set flags WIMLIB_ADD_IMAGE_FLAG_UNIX_DATA = false ->
        __lookup_resource table (sha1 content) = None ->
        forall fuel2 path2 st2,
          exclude_path path2 config true = false ->
          (if flag_set flags WIMLIB_ADD_IMAGE_FLAG_DEREFERENCE
           then fs_stat fs else fs_lstat fs) path2 = Some st2 ->
          S_ISREG (st_mode st2) = true ->
          st_size st2 <> 0 ->
          fs_read_file fs path2 = Some content ->
          exists root2 s'',
            build_dentry_tree fs (S fuel2) path2 s' config flags pf
            = Some (RET_OK, Some root2, s'')
            /\ i_lte (d_inode root2) = Some lte
            /\ (exists e, lookup_table s'' !! lte = Some e
                          /\ hash e = sha1 content /\ refcnt e = 2)
            /\ (forall a e, lookup_table s'' !! a = Some e ->
                            hash e = sha1 content -> a = lte)).
Proof.
  intros Hex Hroot Hstat Hreg Hsize Hunix Hread.
  eexists _, _, _. split.
  { by apply (build_dentry_tree_regular_eq fuel path s config flags pf st
                content inode table). }
  cbn [d_inode i_lte set_i_lte lookup_table sd].
  split; [reflexivity|]. split; [reflexivity|].
  unfold dedup_stream.
  destruct (__lookup_resource table (sha1 content)) as [existing|] eqn:El;
    cbn [fst snd].
  - split.
    + split; [reflexivity|].
      destruct (lookup_resource_Some _ _ _ El) as (e & He & Hh).
      exists e. repeat split; try done. by apply alter_lookup_insert.
    + intros _ [=].
  - split.
    + split; [|reflexivity]. apply not_elem_of_dom, is_fresh.
    + intros Hud _ fuel2 path2 st2 Hex2 Hstat2 Hreg2 Hsize2 Hread2.
      set (lte := fresh (dom table)).
      set (eA := {| hash := sha1 content; refcnt := 1; file_on_disk := path;
                    lte_location := RESOURCE_IN_FILE_ON_DISK;
                    original_size := st_size st; size := st_size st |}).
      set (s' := {| lookup_table := <[lte := eA]> table; sd := sd s;
                    progress_calls := _ |}).
      assert (table !! lte = None) as Hfresh
        by apply not_elem_of_dom, is_fresh.
      assert (__lookup_resource (<[lte := eA]> table) (sha1 content) = Some lte)
        as Hhit.
      { destruct (__lookup_resource (<[lte := eA]> table) (sha1 content))
          as [a|] eqn:E2.
        - f_equal. destruct (lookup_resource_Some _ _ _ E2) as (e & He & Hh).
          destruct (decide (a = lte)) as [|Hne]; [done|].
          rewrite lookup_insert_ne in He by done.
          by destruct (proj1 (lookup_resource_None _ _) El a e He).
        - exfalso.
          apply (proj1 (lookup_resource_None _ _) E2 lte eA);
            [apply lookup_insert_eq | reflexivity]. }
      eexists _, _. split.
      { eapply (build_dentry_tree_regular_eq fuel2 path2 s' config flags pf st2
                  content); try done.
        unfold set_unix_data. by rewrite Hud. }
      cbn [d_inode i_lte set_i_lte lookup_table].
      unfold dedup_stream. subst s'. cbn [lookup_table]. rewrite Hhit.
      cbn [fst snd].
      rewrite (alter_lookup_insert _ lte eA) by apply lookup_insert_eq.
      rewrite insert_insert_eq.
      split; [reflexivity|]. split.
      * exists (lte_refcnt_incr eA). rewrite lookup_insert_eq. done.
      * intros a e He Hh. destruct (decide (a = lte)) as [|Hne]; [done|].
        rewrite lookup_insert_ne in He by done.
        by destruct (proj1 (lookup_resource_None _ _) El a e He).
Qed.


(** C7.  When the entry is excluded by the capture configuration,
    [build_dentry_tree] fails with [WIMLIB_ERR_INVALID_CAPTURE_CONFIG] if
    the ROOT flag is set; otherwise it succeeds with a null dentry and
    leaves the lookup table and the security data as they were. *)
Theorem excluded_entry_adds_nothing (fuel : nat) (path : string)
    (s : capture_state) (config : capture_config) (flags : Z) (pf : bool) :
  exclude_path path config true = true ->
  (flag_set flags WIMLIB_ADD_IMAGE_FLAG_ROOT = true ->
   build_dentry_tree fs (S fuel) path s config flags pf
   = Some (WIMLIB_ERR_INVALID_CAPTURE_CONFIG, None, s))
  /\ (flag_set flags WIMLIB_ADD_IMAGE_FLAG_ROOT = false ->
      exists s',
        build_dentry_tree fs (S fuel) path s config flags pf
        = Some (RET_OK, None, s')
        /\ lookup_table s' = lookup_table s /\ sd s' = sd s).
Proof.
  intros H. rewrite (build_dentry_tree_excluded_eq fuel path s config flags pf H).
  split; intros ->; [reflexivity|].
  eexists. split; [reflexivity|]. by destruct (_ && _).
Qed.

(** C8 (amended).  When an entry that is not the root of the capture is
    excluded, [build_dentry_tree] returns a null dentry after calling
    the progress function once with [SCAN_DENTRY], the current path and
    [excluded = true], provided the VERBOSE flag is set and a progress
    function was supplied; otherwise it makes no call. *)
Theorem excluded_entry_progress (fuel : nat) (path : string)
    (s : capture_state) (config : capture_config) (flags : Z) (pf : bool) :
  exclude_path path config true = true ->
  flag_set flags WIMLIB_ADD_IMAGE_FLAG_ROOT = false ->
  exists s',
    build_dentry_tree fs (S fuel) path s config flags pf
    = Some (RET_OK, None, s')
    /\ progress_calls s'
       = progress_calls s
         ++ (if flag_set flags WIMLIB_ADD_IMAGE_FLAG_VERBOSE && pf
             then [WIMLIB_PROGRESS_MSG_SCAN_DENTRY path true]
             else []).
Proof.
  intros H Hroot.
  rewrite (build_dentry_tree_excluded_eq fuel path s config flags pf H), Hroot.
  eexists. split; [reflexivity|].
  destruct (_ && _); simpl; by rewrite ?app_nil_r.
Qed.

(** C6.  [exclude_path] is true exactly when the path, from which the
    prefix is stripped when this is requested and the path is the
    prefix followed by a slash and more, matches a pattern of the
    exclusion list and no pattern of the exception list.  A pattern
    that begins with a slash is matched against that path, a pattern
    with a slash elsewhere against it without its first character (the
    path relative to the capture root when the prefix was stripped),
    any other pattern against the basename, with [FNM_PATHNAME] and
    [FNM_CASEFOLD].  In the scenario, capturing [/src], which holds
    [keep.log] and [other.log], gives a tree whose only child is
    [keep.log]. *)
Theorem exclude_path_matches (path : string) (config : capture_config)
    (exclude_prefix : bool) :
  (exists path',
     ((exclude_prefix = true
       /\ exists rest, path = (prefix config +:+ String SLASH rest)%string
                       /\ path' = String SLASH rest)
      \/ (~ (exclude_prefix = true
             /\ exists rest, path = (prefix config +:+ String SLASH rest)%string)
          /\ path' = path))
     /\ (exclude_path path config exclude_prefix = true <->
         (exists pat, pat ∈ exclusion_list config
            /\ fnmatch pat (matched_string pat path' (path_basename path))
                 (Z.lor FNM_PATHNAME FNM_CASEFOLD) = 0)
         /\ ~ (exists pat, pat ∈ exclusion_exception config
                 /\ fnmatch pat (matched_string pat path' (path_basename path))
                      (Z.lor FNM_PATHNAME FNM_CASEFOLD) = 0)))
  /\ (forall pat p basename,
        matched_string (String SLASH pat) p basename = p
        /\ (strchr pat SLASH = false -> matched_string pat p basename = basename)
        /\ (forall c rest, c <> SLASH -> strchr rest SLASH = true ->
              matched_string (String c rest) (String SLASH p) basename = p))
  /\ (exists root s,
        @build_dentry_tree Scenario.reference_capture_env Scenario.exclusion_fs
          2 "/src" Scenario.empty_capture_state Scenario.exclusion_config
          (Z.lor WIMLIB_ADD_IMAGE_FLAG_ROOT WIMLIB_ADD_IMAGE_FLAG_SOURCE) false
        = Some (RET_OK, Some root, s)
        /\ map file_name_utf8 (i_children root) = ["keep.log"%string]).
Proof.
  split; [|split].
  - destruct (exclude_path_path path config exclude_prefix) as (p' & Hp & ->).
    exists p'. split; [exact Hp|].
    rewrite andb_true_iff, negb_true_iff, <- not_true_iff_false.
    by rewrite !match_pattern_exists.
  - intros pat p basename. split; [reflexivity|]. split.
    + intros H. unfold matched_string. rewrite H.
      destruct pat as [|c rest]; [reflexivity|].
      simpl in H. apply orb_false_iff in H as [Hc _].
      apply Ascii.eqb_neq in Hc.
      destruct c as [[] [] [] [] [] [] [] []]; try reflexivity. by destruct Hc.
    + intros c rest Hc Hr. unfold matched_string. simpl strchr. rewrite Hr.
      rewrite orb_true_r. simpl.
      destruct c as [[] [] [] [] [] [] [] []]; try reflexivity. by destruct Hc.
  - eexists _, _. split; [vm_compute; reflexivity|]. reflexivity.
Qed.

End CaptureProperties.

(** A file of [/src], not excluded, is bound to a new entry. *)
Lemma regular_file_stream_dedup_witness :
  exists lte root s',
    @build_dentry_tree Scenario.reference_capture_env Scenario.dedup_fs 1
      "/src/a.bin" Scenario.empty_capture_state Scenario.no_exclusion_config
      0 false
    = Some (RET_OK, Some root, s')
    /\ i_lte (d_inode root) = Some lte
    /\ lookup_table s' !! lte
       = Some {| hash := Sha1.sha1 (repeat Byte.x00 1024); refcnt := 1;
                 file_on_disk := "/src/a.bin";
                 lte_location := RESOURCE_IN_FILE_ON_DISK;
                 original_size := 1024; size := 1024 |}.
Proof.
  destruct (@regular_file_stream_dedup Scenario.reference_capture_env
              Scenario.dedup_fs 0 "/src/a.bin" Scenario.empty_capture_state
              Scenario.no_exclusion_config 0 false
              (Scenario.regular_stat 3 1024) (repeat Byte.x00 1024)
              (fill_inode
                 (d_inode (new_dentry_with_timeless_inode "a.bin"))
                 (Scenario.regular_stat 3 1024))
              ∅)
    as (lte & root & s' & Hb & Hl & _ & Ht & _);
    [reflexivity | reflexivity | reflexivity | reflexivity | discriminate
    | reflexivity | reflexivity |].
  exists lte, root, s'. split; [exact Hb|]. split; [exact Hl|].
  change (@sha1 Scenario.reference_capture_env) with Sha1.sha1 in Ht.
  change (__lookup_resource ∅ (Sha1.sha1 (repeat Byte.x00 1024)))
    with (@None nat) in Ht.
  destruct Ht as [_ ->]. apply lookup_insert_eq.
Defined.

(** The excluded [/src/other.log] adds nothing. *)
Lemma excluded_entry_adds_nothing_witness :
  @exclude_path Scenario.reference_capture_env "/src/other.log"
    Scenario.exclusion_config true = true
  /\ (exists s',
        @build_dentry_tree Scenario.reference_capture_env Scenario.exclusion_fs
          1 "/src/other.log" Scenario.empty_capture_state
          Scenario.exclusion_config 0 false
        = Some (RET_OK, None, s')
        /\ lookup_table s' = ∅).
Proof.
  split; [reflexivity|].
  destruct (@excluded_entry_adds_nothing Scenario.reference_capture_env
              Scenario.exclusion_fs 0 "/src/other.log"
              Scenario.empty_capture_state Scenario.exclusion_config 0 false
              eq_refl) as [_ H].
  destruct (H eq_refl) as (s' & Hb & Ht & _).
  exists s'. split; [exact Hb | exact Ht].
Defined.

(** With the VERBOSE flag and a progress function, the exclusion of
    [/src/other.log] is reported. *)
Lemma excluded_entry_progress_witness :
  @exclude_path Scenario.reference_capture_env "/src/other.log"
    Scenario.exclusion_config true = true
  /\ flag_set WIMLIB_ADD_IMAGE_FLAG_VERBOSE WIMLIB_ADD_IMAGE_FLAG_ROOT = false
  /\ exists s',
       @build_dentry_tree Scenario.reference_capture_env Scenario.exclusion_fs
         1 "/src/other.log" Scenario.empty_capture_state
         Scenario.exclusion_config WIMLIB_ADD_IMAGE_FLAG_VERBOSE true
       = Some (RET_OK, None, s')
       /\ progress_calls s'
          = [WIMLIB_PROGRESS_MSG_SCAN_DENTRY "/src/other.log" true].
Proof.
  split; [reflexivity|]. split; [reflexivity|].
  exact (@excluded_entry_progress Scenario.reference_capture_env
           Scenario.exclusion_fs 0 "/src/other.log"
           Scenario.empty_capture_state Scenario.exclusion_config
           WIMLIB_ADD_IMAGE_FLAG_VERBOSE true eq_refl eq_refl).
Defined.

(** C8 as stated fails without the VERBOSE flag: the exclusion of
    [/src/other.log] is not reported, although a progress function is
    supplied. *)
Lemma excluded_entry_without_verbose_is_silent :
  @exclude_path Scenario.reference_capture_env "/src/other.log"
    Scenario.exclusion_config true = true
  /\ flag_set 0 WIMLIB_ADD_IMAGE_FLAG_ROOT = false
  /\ ~ (exists s',
          @build_dentry_tree Scenario.reference_capture_env
            Scenario.exclusion_fs 1 "/src/other.log"
            Scenario.empty_capture_state Scenario.exclusion_config 0 true
          = Some (RET_OK, None, s')
          /\ WIMLIB_PROGRESS_MSG_SCAN_DENTRY "/src/other.log" true
             ∈ progress_calls s').
Proof.
  split; [reflexivity|]. split; [reflexivity|].
  intros (s' & Hb & Hin).
  assert (s' = Scenario.empty_capture_state) as -> by (by inversion Hb).
  by apply elem_of_nil in Hin.
Qed.

(** * Properties of the NTFS apply engine *)

Import NtfsApply.

Section ApplyProperties.

Context `{env : apply_env}.

Lemma extract_loop_spec (lte : lookup_table_entry) (na : ntfs_attr) (fuel : nat) :
  forall bytes_remaining offset ctx s,
    (bytes_remaining <= N.of_nat fuel * WIM_CHUNK_SIZE)%N ->
    exists exit ctx' s' chunks,
      extract_loop fuel lte na bytes_remaining offset ctx s
      = Some (exit, ctx', s')
      /\ dentries s' = dentries s
      /\ trace s' = trace s ++ pwrite_calls chunks
      /\ ctx' = ctx ++ concat (map snd chunks)
      /\ (forall k off buf,
            chunks !! k = Some (off, buf) ->
            off = (offset + N.of_nat k * WIM_CHUNK_SIZE)%N
            /\ (N.of_nat k * WIM_CHUNK_SIZE < bytes_remaining)%N
            /\ (N.of_nat (length buf)
                <= N.min (bytes_remaining - N.of_nat k * WIM_CHUNK_SIZE)
                         WIM_CHUNK_SIZE)%N)
      /\ (exit = None \/ exit = Some WIMLIB_ERR_WRITE).
Proof.
  unfold WIM_CHUNK_SIZE.
  induction fuel as [|fuel IH]; intros bytes_remaining offset ctx s Hfuel.
  - assert (bytes_remaining = 0%N) as -> by lia.
    exists None, ctx, s, []. simpl. rewrite !app_nil_r.
    repeat split; try done. by left.
  - cbn [extract_loop].
    destruct (N.eqb_spec bytes_remaining 0) as [->|Hpos].
    { exists None, ctx, s, []. simpl. rewrite !app_nil_r.
      repeat split; try done. by left. }
    set (to_read := N.min bytes_remaining WIM_CHUNK_SIZE).
    assert (0 < to_read <= 32768 /\ to_read <= bytes_remaining)%N as Hto
      by (unfold to_read, WIM_CHUNK_SIZE; lia).
    destruct (read_wim_resource lte to_read offset) as [ret buf].
    destruct (decide (ret = RET_OK)) as [_|_].
    2:{ exists None, ctx, s, []. simpl. rewrite !app_nil_r.
        repeat split; try done. by left. }
    set (buf' := take (N.to_nat to_read) buf).
    assert (N.of_nat (length buf') <= to_read)%N as Hlen.
    { unfold buf'. rewrite length_take. lia. }
    destruct (ntfs_attr_pwrite (vol s) na offset to_read buf') as [v written].
    set (s1 := called s v (call_ntfs_attr_pwrite offset buf')).
    destruct (written =? Z.of_N to_read).
    + destruct (IH (bytes_remaining - to_read)%N (offset + to_read)%N
                  (ctx ++ buf') s1) as (exit & ctx' & s' & chunks & He & Hd & Ht
                                         & Hc & Hk & Hx).
      { unfold to_read, WIM_CHUNK_SIZE in *. lia. }
      exists exit, ctx', s', ((offset, buf') :: chunks).
      split; [exact He|]. split; [by rewrite Hd|]. split.
      { rewrite Ht. unfold s1, called. simpl. by rewrite <- app_assoc. }
      split; [rewrite Hc; simpl; by rewrite <- app_assoc|].
      split; [|exact Hx].
      intros [|k] off b Hl.
      * simpl in Hl. injection Hl as <- <-.
        unfold to_read, WIM_CHUNK_SIZE in *. lia.
      * simpl in Hl. destruct (Hk k off b Hl) as (H1 & H2 & H3).
        assert (to_read = 32768%N) as E
          by (unfold to_read, WIM_CHUNK_SIZE in *; lia).
        rewrite E in *. lia.
    + exists (Some WIMLIB_ERR_WRITE), (ctx ++ buf'), s1, [(offset, buf')].
      simpl. rewrite app_nil_r.
      split; [reflexivity|]. split; [reflexivity|]. split; [reflexivity|].
      split; [reflexivity|]. split; [|by right].
      intros [|k] off b Hl; simpl in Hl; [|discriminate].
      injection Hl as <- <-. unfold to_read, WIM_CHUNK_SIZE in *. lia.
Qed.

(** The loop, chunk after chunk: what is copied, what is written, and
    how the loop is left. *)
Lemma extract_loop_exact (lte : lookup_table_entry) (na : ntfs_attr)
    (fuel : nat) :
  forall bytes_remaining offset ctx s,
    (bytes_remaining <= N.of_nat fuel * WIM_CHUNK_SIZE)%N ->
    (offset + bytes_remaining = wim_resource_size lte)%N ->
    exists exit ctx' s' chunks,
      extract_loop fuel lte na bytes_remaining offset ctx s
      = Some (exit, ctx', s')
      /\ dentries s' = dentries s
      /\ trace s' = trace s ++ pwrite_calls chunks
      /\ ctx' = ctx ++ concat (map snd chunks)
      /\ vol s' = volume_after lte na (vol s) chunks
      /\ (forall k off buf,
            chunks !! k = Some (off, buf) ->
            off = (offset + N.of_nat k * WIM_CHUNK_SIZE)%N
            /\ (off < wim_resource_size lte)%N
            /\ exists data,
                 read_wim_resource lte (to_read lte off) off = (RET_OK, data)
                 /\ buf = take (N.to_nat (to_read lte off)) data)
      /\ match exit with
         | Some ret =>
             ret = WIMLIB_ERR_WRITE
             /\ exists before chunk,
                  chunks = before ++ [chunk]
                  /\ writes_whole lte na (vol s) before
                  /\ ~ whole_write lte na
                         (volume_after lte na (vol s) before) chunk
         | None =>
             writes_whole lte na (vol s) chunks
             /\ let off :=
                  (offset + N.of_nat (length chunks) * WIM_CHUNK_SIZE)%N in
                ((wim_resource_size lte <= off)%N \/ read_fails lte off)
         end.
Proof.
  induction fuel as [|fuel IH]; intros bytes_remaining offset ctx s Hfuel Hsize.
  - assert (bytes_remaining = 0%N) as -> by lia.
    exists None, ctx, s, []. simpl. rewrite !app_nil_r.
    split_and!; try done. left. lia.
  - cbn [extract_loop].
    destruct (N.eqb_spec bytes_remaining 0) as [->|Hpos].
    { exists None, ctx, s, []. simpl. rewrite !app_nil_r.
      split_and!; try done. left. lia. }
    assert (to_read lte offset = N.min bytes_remaining WIM_CHUNK_SIZE) as Eto
      by (unfold to_read; f_equal; lia).
    rewrite <- Eto.
    assert (WIM_CHUNK_SIZE = 32768%N) as Echunk by done.
    destruct (read_wim_resource lte (to_read lte offset) offset)
      as [ret data] eqn:Hread.
    destruct (decide (ret = RET_OK)) as [->|Hret].
    2:{ exists None, ctx, s, []. simpl. rewrite !app_nil_r.
        split_and!; try done. right. unfold read_fails.
        rewrite N.mul_0_l, N.add_0_r, Hread. done. }
    set (buf := take (N.to_nat (to_read lte offset)) data).
    destruct (ntfs_attr_pwrite (vol s) na offset (to_read lte offset) buf)
      as [v written] eqn:Hwrite.
    set (s1 := called s v (call_ntfs_attr_pwrite offset buf)).
    assert (pwrite_chunk lte na (vol s) (offset, buf) = (v, written)) as Hchunk
      by exact Hwrite.
    destruct (Z.eqb_spec written (Z.of_N (to_read lte offset))) as [Hw|Hw].
    + destruct (IH (bytes_remaining - to_read lte offset)%N
                  (offset + to_read lte offset)%N (ctx ++ buf) s1)
        as (exit & ctx' & s' & chunks & He & Hd & Ht & Hc & Hv & Hk & Hx).
      { lia. }
      { lia. }
      exists exit, ctx', s', ((offset, buf) :: chunks).
      split; [exact He|]. split; [by rewrite Hd|]. split.
      { rewrite Ht. unfold s1, called. simpl. by rewrite <- app_assoc. }
      split; [rewrite Hc; simpl; by rewrite <- app_assoc|].
      split.
      { rewrite Hv. cbn [volume_after fold_left]. by rewrite Hchunk. }
      split.
      * intros [|k] off b Hl.
        -- simpl in Hl. injection Hl as <- <-.
           split; [lia|]. split; [lia|]. by exists data.
        -- simpl in Hl. destruct (Hk k off b Hl) as (H1 & H2 & H3).
           split; [|by split].
           assert (to_read lte offset = WIM_CHUNK_SIZE) as E by lia.
           rewrite E in H1. lia.
      * destruct exit as [ret|].
        -- destruct Hx as (-> & before & chunk & -> & Hb & Hn).
           split; [done|]. exists ((offset, buf) :: before), chunk.
           split; [done|]. cbn [writes_whole volume_after fold_left].
           rewrite Hchunk. split; [split; [|exact Hb]|exact Hn].
           unfold whole_write. by rewrite Hchunk.
        -- destruct Hx as [Hwh Hend]. split.
           ++ cbn [writes_whole]. rewrite Hchunk. split; [|exact Hwh].
              unfold whole_write. by rewrite Hchunk.
           ++ cbv zeta in *. cbn [length].
              destruct chunks as [|c chunks].
              ** cbn [length] in *.
                 rewrite N.mul_0_l, N.add_0_r in Hend.
                 assert ((offset + N.of_nat 1 * WIM_CHUNK_SIZE
                          = offset + to_read lte offset)%N
                         \/ (wim_resource_size lte
                             <= offset + to_read lte offset)%N) as [->|HH].
                 { lia. }
                 { exact Hend. }
                 { left. lia. }
              ** destruct c as [off0 b0].
                 destruct (Hk 0%nat off0 b0 eq_refl) as (H1 & H2 & _).
                 assert (to_read lte offset = WIM_CHUNK_SIZE) as E by lia.
                 rewrite E in Hend.
                 replace (offset + N.of_nat (S (length ((off0, b0) :: chunks)))
                                   * WIM_CHUNK_SIZE)%N
                   with (offset + WIM_CHUNK_SIZE
                         + N.of_nat (length ((off0, b0) :: chunks))
                           * WIM_CHUNK_SIZE)%N by lia.
                 exact Hend.
    + exists (Some WIMLIB_ERR_WRITE), (ctx ++ buf), s1, [(offset, buf)].
      simpl. rewrite app_nil_r.
      split; [reflexivity|]. split; [reflexivity|]. split; [reflexivity|].
      split; [reflexivity|]. split.
      { unfold volume_after. simpl. by rewrite Hchunk. }
      split.
      * intros [|k] off b Hl; simpl in Hl; [|discriminate].
        injection Hl as <- <-. split; [lia|]. split; [lia|]. by exists data.
      * split; [done|]. exists [], (offset, buf). split; [done|].
        split; [done|]. unfold whole_write. simpl.
        cbn [volume_after fold_left]. by rewrite Hchunk.
Qed.

(** C2.  Extracting a stream always returns.  The bytes are copied from
    the resource in chunks of 32 KiB, the last one shorter: each chunk
    is what [read_wim_resource] gave for its offset and is passed, as it
    is, to [ntfs_attr_pwrite], the chunks following each other from the
    start of the resource.  The result is WIMLIB_ERR_WRITE exactly when
    the last of these writes was not whole.  Otherwise the copy went on
    to the end of the resource, or to a chunk that could not be read,
    and the SHA-1 digest taken over exactly the bytes copied decides:
    success when it equals the digest recorded in the lookup-table
    entry, WIMLIB_ERR_INVALID_RESOURCE_HASH when it differs.  A stream
    whose digest differs is never extracted successfully. *)
Theorem extract_checks_digest (lte : lookup_table_entry) (na : ntfs_attr)
    (s : apply_state) :
  exists ret s' chunks,
    extract_wim_resource_to_ntfs_attr lte na s = Some (ret, s')
    /\ dentries s' = dentries s
    /\ trace s' = trace s ++ pwrite_calls chunks
    /\ vol s' = volume_after lte na (vol s) chunks
    /\ chunked (wim_resource_size lte) chunks
    /\ copied_from lte chunks
    /\ ((ret = WIMLIB_ERR_WRITE
         /\ exists before chunk,
              chunks = before ++ [chunk]
              /\ writes_whole lte na (vol s) before
              /\ ~ whole_write lte na (volume_after lte na (vol s) before)
                     chunk)
        \/ (writes_whole lte na (vol s) chunks
            /\ ((wim_resource_size lte
                 <= N.of_nat (length chunks) * WIM_CHUNK_SIZE)%N
                \/ read_fails lte (N.of_nat (length chunks) * WIM_CHUNK_SIZE))
            /\ ((ret = RET_OK /\ sha1 (concat (map snd chunks)) = hash lte)
                \/ (ret = WIMLIB_ERR_INVALID_RESOURCE_HASH
                    /\ sha1 (concat (map snd chunks)) <> hash lte))))
    /\ (sha1 (concat (map snd chunks)) <> hash lte -> ret <> RET_OK).
Proof.
  unfold extract_wim_resource_to_ntfs_attr.
  destruct (extract_loop_exact lte na
              (S (N.to_nat (wim_resource_size lte / WIM_CHUNK_SIZE)))
              (wim_resource_size lte) 0%N [] s)
    as (exit & ctx' & s' & chunks & He & Hd & Ht & Hc & Hv & Hk & Hx).
  { unfold WIM_CHUNK_SIZE.
    pose proof (N.div_mod (wim_resource_size lte) 32768).
    pose proof (N.mod_lt (wim_resource_size lte) 32768). lia. }
  { lia. }
  rewrite He. simpl in Hc. subst ctx'.
  assert (copied_from lte chunks) as Hcopied.
  { intros k off buf Hl. destruct (Hk k off buf Hl) as (-> & H2 & H3).
    by rewrite N.add_0_l in *. }
  assert (chunked (wim_resource_size lte) chunks) as Hch.
  { intros k off buf Hl.
    destruct (Hcopied k off buf Hl) as (-> & H2 & data & _ & ->).
    split; [done|]. split; [done|]. rewrite length_take.
    unfold to_read. lia. }
  destruct exit as [ret|].
  - destruct Hx as (-> & Hlast).
    exists WIMLIB_ERR_WRITE, s', chunks. split_and!; try done. by left.
  - destruct Hx as [Hwh Hend]. cbv zeta in Hend. rewrite N.add_0_l in Hend.
    destruct (bool_decide (sha1 (concat (map snd chunks)) = hash lte)) eqn:E.
    + apply bool_decide_eq_true in E.
      exists RET_OK, s', chunks. split_and!; try done.
      right. split_and!; try done. by left.
    + apply bool_decide_eq_false in E.
      exists WIMLIB_ERR_INVALID_RESOURCE_HASH, s', chunks.
      split_and!; try done. right. split_and!; try done. by right.
Qed.


(** C3 (amended).  For a reparse point whose data is found, the payload
    is refused with WIMLIB_ERR_INVALID_DENTRY exactly when it is 0xFFFF
    bytes long or longer.  A payload of at most 0xFFFE bytes that can be
    read -- of 16384 bytes and, just as well, of 16385 bytes -- is passed
    to [ntfs_set_ntfs_reparse_data] after the eight bytes of the header:
    the tag on 32 bits, the length of the payload on 16 bits and a zero
    on 16 bits; the result is success when that call succeeds. *)
Theorem apply_reparse_data_length (ni : ntfs_inode) (dentry : nat)
    (w : WIMStruct) (s : apply_state) (lte : lookup_table_entry) :
  dentry_first_lte (dentries s !!! dentry) (lookup_table w) = Some lte ->
  ((0xFFFF <= wim_resource_size lte)%N ->
   apply_reparse_data ni dentry w s = (WIMLIB_ERR_INVALID_DENTRY, s))
  /\ ((wim_resource_size lte <= 0xFFFE)%N ->
      forall data,
        read_wim_resource lte (wim_resource_size lte) 0%N = (RET_OK, data) ->
        let header :=
          put_u32 (reparse_tag (dentries s !!! dentry))
          ++ put_u16 (Z.of_N (wim_resource_size lte)) ++ put_u16 0 in
        let buf := header ++ take (N.to_nat (wim_resource_size lte)) data in
        length header = 8%nat
        /\ apply_reparse_data ni dentry w s
           = (if snd (ntfs_set_ntfs_reparse_data (vol s) ni buf
                        (wim_resource_size lte + 8)%N) =? 0
              then RET_OK else WIMLIB_ERR_NTFS_3G,
              called s
                (fst (ntfs_set_ntfs_reparse_data (vol s) ni buf
                        (wim_resource_size lte + 8)%N))
                (call_ntfs_set_ntfs_reparse_data dentry buf))).
Proof.
  intros Hlte. unfold apply_reparse_data. rewrite Hlte. split.
  - intros Hbig.
    destruct (N.leb_spec 0xffff (wim_resource_size lte)); [reflexivity | lia].
  - intros Hsmall data Hread. cbv zeta. split; [reflexivity|].
    destruct (N.leb_spec 0xffff (wim_resource_size lte)); [lia|].
    rewrite Hread. rewrite decide_True by done.
    destruct (ntfs_set_ntfs_reparse_data _ _ _ _) as [v r]. simpl.
    by destruct (r =? 0).
Qed.

Lemma two_dos_names_diverge (ds : list dentry) (w : WIMStruct) (a b : nat) :
  link_group_list (ds !!! a) = [b] ->
  link_group_list (ds !!! b) = [a] ->
  parent (ds !!! a) = parent (ds !!! b) ->
  short_name_len (ds !!! a) <> 0 ->
  short_name_len (ds !!! b) <> 0 ->
  Z.land (attributes (ds !!! a)) FILE_ATTRIBUTE_DIRECTORY = 0 ->
  Z.land (attributes (ds !!! b)) FILE_ATTRIBUTE_DIRECTORY = 0 ->
  extracted_file (ds !!! a) = None ->
  extracted_file (ds !!! b) = None ->
  forall depth dir_ni s,
    dentries s = ds ->
    do_wim_apply_dentry_ntfs depth w a dir_ni s = None
    /\ do_wim_apply_dentry_ntfs depth w b dir_ni s = None.
Proof.
  intros Hga Hgb Hp Hsa Hsb Hda Hdb Hea Heb.
  induction depth as [|depth IH]; intros dir_ni s Hs; [done|].
  cbn [do_wim_apply_dentry_ntfs]. rewrite Hs, Hda, Hdb. cbn [Z.eqb negb].
  unfold preapply_dentry_with_dos_name. rewrite Hs, Hga, Hgb.
  cbn [find_dentry_with_dos_name].
  rewrite (bool_decide_eq_true_2 _ Hp), (bool_decide_eq_true_2 _ (eq_sym Hp)).
  apply Z.eqb_neq in Hsa, Hsb. rewrite Hsa, Hsb. cbn [negb andb].
  rewrite Hea, Heb.
  destruct (IH dir_ni s Hs) as [-> ->]. done.
Qed.

End ApplyProperties.

(** A payload of exactly 16 KiB is accepted. *)
Lemma apply_reparse_data_length_witness :
  dentry_first_lte (dentries (Scenario.reparse_state 16384) !!! 2%nat)
    (lookup_table (Scenario.reparse_wim 16384))
  = Some (Scenario.reparse_lte 16384)
  /\ (wim_resource_size (Scenario.reparse_lte 16384) <= 0xFFFE)%N
  /\ fst (Scenario.reparse_result 16384) = RET_OK.
Proof.
  assert (dentry_first_lte (dentries (Scenario.reparse_state 16384) !!! 2%nat)
            (lookup_table (Scenario.reparse_wim 16384))
          = Some (Scenario.reparse_lte 16384)) as Hlte
    by (vm_compute; reflexivity).
  assert (wim_resource_size (Scenario.reparse_lte 16384) <= 0xFFFE)%N as Hsize
    by (vm_compute; discriminate).
  split; [exact Hlte|]. split; [exact Hsize|].
  destruct (@apply_reparse_data_length (Scenario.reparse_env 16384)
              "link"%string 2%nat (Scenario.reparse_wim 16384)
              (Scenario.reparse_state 16384) (Scenario.reparse_lte 16384) Hlte)
    as [_ H].
  unfold Scenario.reparse_result.
  destruct (H Hsize
              (take (N.to_nat 16384)
                 (drop (N.to_nat 0) (Scenario.reparse_payload 16384))))
    as [_ ->]; reflexivity.
Defined.

(** C3 as stated fails on a payload of 16 KiB + 1 bytes: it is accepted,
    and the 8 + 16385 bytes passed to [ntfs_set_ntfs_reparse_data] begin
    with the header (tag, length 0x4001, zero). *)
Lemma reparse_payload_16385_accepted :
  fst (Scenario.reparse_result 16385) = RET_OK
  /\ match trace (snd (Scenario.reparse_result 16385)) return Prop with
     | [call_ntfs_set_ntfs_reparse_data d buf] =>
         d = 2%nat /\ length buf = (8 + N.to_nat 16385)%nat
         /\ take 8 buf
            = [Byte.x0c; Byte.x00; Byte.x00; Byte.xa0;
               Byte.x01; Byte.x40; Byte.x00; Byte.x00]
     | _ => False
     end.
Proof. split; [vm_compute; reflexivity|]. vm_compute. auto. Qed.

(** C4, at the failing input: a hard-link group of two dentries of one
    directory, both with a short name.  Applying the first one never
    returns, whatever the bound on the nesting of the calls of
    [do_wim_apply_dentry_ntfs] and [preapply_dentry_with_dos_name]: each
    of the two dentries asks for the other one to be applied first.  In
    particular WIMLIB_ERR_INVALID_DENTRY is never returned. *)
Theorem two_dos_names_never_rejected `{env : apply_env} (depth : nat)
    (w : WIMStruct) (dir_ni : ntfs_inode) (v : ntfs_volume)
    (t : list ntfs_call) :
  do_wim_apply_dentry_ntfs depth w 2 dir_ni
    {| dentries := Scenario.two_dos_names_dentries; vol := v; trace := t |}
  = None.
Proof.
  apply (two_dos_names_diverge Scenario.two_dos_names_dentries w 2 3);
    first [reflexivity | discriminate].
Qed.

(** * The order of an apply within a hard-link group *)

Section Static.

Variable ds : list dentry.

Lemma clear_extracted_file_default :
  clear_extracted_file inhabitant = inhabitant.
Proof. reflexivity. Qed.

Lemma static_lookup (dl : list dentry) (d : nat) :
  map clear_extracted_file dl = ds ->
  ds !!! d = clear_extracted_file (dl !!! d).
Proof.
  intros <-. rewrite !list_lookup_total_alt, list_lookup_fmap.
  by destruct (dl !! d).
Qed.

Lemma static_length (dl : list dentry) :
  map clear_extracted_file dl = ds -> length dl = length ds.
Proof. intros <-. by rewrite length_map. Qed.

Lemma static_fields (dl : list dentry) (d : nat) :
  map clear_extracted_file dl = ds ->
  attributes (dl !!! d) = attributes (ds !!! d)
  /\ link_group_list (dl !!! d) = link_group_list (ds !!! d)
  /\ parent (dl !!! d) = parent (ds !!! d)
  /\ short_name_len (dl !!! d) = short_name_len (ds !!! d)
  /\ full_path_utf8 (dl !!! d) = full_path_utf8 (ds !!! d).
Proof. intros H. rewrite (static_lookup dl d H). by destruct (dl !!! d). Qed.

Lemma static_insert (dl : list dentry) (d : nat) (path : string) :
  map clear_extracted_file dl = ds ->
  map clear_extracted_file (<[d := set_extracted_file (dl !!! d) path]> dl) = ds.
Proof.
  intros H. rewrite <- H. clear H.
  change (map clear_extracted_file) with (fmap (M:=list) clear_extracted_file).
  rewrite list_fmap_insert.
  apply list_eq. intros i.
  destruct (decide (i = d)) as [->|Hne].
  - destruct (decide (d < length dl)%nat) as [Hlt|Hge].
    + rewrite list_lookup_insert_eq by (by rewrite length_fmap).
      rewrite list_lookup_fmap.
      destruct (lookup_lt_is_Some_2 dl d Hlt) as [x Hx].
      rewrite Hx. simpl. rewrite (list_lookup_total_correct _ _ _ Hx).
      by destruct x.
    + by rewrite list_insert_ge by (rewrite length_fmap; lia).
  - by rewrite list_lookup_insert_ne.
Qed.

Lemma lookup_total_insert_eq (dl : list dentry) (d : nat) (x : dentry) :
  (d < length dl)%nat -> <[d := x]> dl !!! d = x.
Proof.
  intros H. apply list_lookup_total_correct. by apply list_lookup_insert_eq.
Qed.

Lemma lookup_total_insert_ne (dl : list dentry) (d i : nat) (x : dentry) :
  d <> i -> <[d := x]> dl !!! i = dl !!! i.
Proof.
  intros H. rewrite !list_lookup_total_alt. by rewrite list_lookup_insert_ne.
Qed.

End Static.

Section SameGroup.

Variable ds : list dentry.
Hypothesis wf : link_groups_wf ds.

Lemma same_group_sym (a b : nat) : same_group ds a b -> same_group ds b a.
Proof. intros [->|H]; [by left | right; by apply wf_sym]. Qed.

Lemma same_group_trans (a b c : nat) :
  same_group ds a b -> same_group ds b c -> same_group ds a c.
Proof.
  intros [->|Hab] [->|Hbc]; [by left | by right | by right |].
  destruct (decide (a = c)) as [|Hne]; [by left | right].
  apply (wf_sym ds wf). apply (wf_trans ds wf b c a); [done| |congruence].
  by apply wf_sym.
Qed.

End SameGroup.

Section ApplyTrace.

Context `{env : apply_env}.

(** ** What each function adds to the trace *)

Lemma extends_refl P s : extends_with P s s.
Proof. split; [done|]. exists []. by rewrite app_nil_r. Qed.

Lemma extends_trans P s1 s2 s3 :
  extends_with P s1 s2 -> extends_with P s2 s3 -> extends_with P s1 s3.
Proof.
  intros [Hd1 (c1 & Ht1 & Hp1)] [Hd2 (c2 & Ht2 & Hp2)]. split; [congruence|].
  exists (c1 ++ c2). split; [by rewrite Ht2, Ht1, app_assoc|].
  by apply Forall_app.
Qed.

Lemma extends_called P s v c : P c -> extends_with P s (called s v c).
Proof. intros H. split; [done|]. exists [c]. split; [done|]. by constructor. Qed.

Lemma extends_step P s v c s' :
  P c -> extends_with P (called s v c) s' -> extends_with P s s'.
Proof. intros H. apply extends_trans. by apply extends_called. Qed.

Lemma extends_mono (P Q : ntfs_call -> Prop) s s' :
  (forall c, P c -> Q c) -> extends_with P s s' -> extends_with Q s s'.
Proof.
  intros H [Hd (cs & Ht & Hp)]. split; [done|]. exists cs. split; [done|].
  eapply Forall_impl; eauto.
Qed.

Lemma tail_populate (d : nat) (c : ntfs_call) : tail_call d c -> populate_call d c.
Proof. destruct c; simpl; try done; auto. Qed.

Lemma extends_called_r P s s1 v c :
  extends_with P s s1 -> P c -> extends_with P s (called s1 v c).
Proof. intros H Hc. eapply extends_trans; [exact H|]. by apply extends_called. Qed.

Lemma extract_extends (d : nat) (lte : lookup_table_entry) (na : ntfs_attr)
    (s : apply_state) :
  exists ret s',
    extract_wim_resource_to_ntfs_attr lte na s = Some (ret, s')
    /\ extends_with (populate_call d) s s'.
Proof.
  unfold extract_wim_resource_to_ntfs_attr.
  destruct (extract_loop_spec lte na
              (S (N.to_nat (wim_resource_size lte / WIM_CHUNK_SIZE)))
              (wim_resource_size lte) 0%N [] s)
    as (exit & ctx' & s' & chunks & -> & Hd & Ht & _).
  { unfold WIM_CHUNK_SIZE.
    pose proof (N.div_mod (wim_resource_size lte) 32768).
    pose proof (N.mod_lt (wim_resource_size lte) 32768). lia. }
  assert (extends_with (populate_call d) s s') as Hext.
  2:{ destruct exit as [ret|]; [by exists ret, s'|].
      destruct (bool_decide _); by eexists _, s'. }
  split; [done|].
  exists (pwrite_calls chunks). split; [done|].
  unfold pwrite_calls. apply Forall_forall. intros c Hc.
  apply list_elem_of_fmap in Hc as ([o b] & -> & _).
  simpl. by left.
Qed.

Lemma write_ntfs_data_streams_loop_extends (ni : ntfs_inode) (dentry : nat)
    (w : WIMStruct) (rest : list ads_entry) :
  forall stream_idx name s,
  exists ret s',
    write_ntfs_data_streams_loop ni dentry w rest stream_idx name s
    = Some (ret, s')
    /\ extends_with (populate_call dentry) s s'.
Proof.
  induction rest as [|ads rest IH]; intros stream_idx name s;
    cbn [write_ntfs_data_streams_loop];
    destruct (ntfs_attr_open (vol s) ni name) as [v [na|]];
    try (exists WIMLIB_ERR_NTFS_3G,
                (called s v (call_ntfs_attr_open dentry stream_idx));
         split; [reflexivity|]; apply extends_called; simpl; by right).
  all: set (s1 := called s v (call_ntfs_attr_open dentry stream_idx)).
  all: assert (extends_with (populate_call dentry) s s1) as H1
         by (apply extends_called; simpl; by right).
  all: destruct (dentry_stream_lte (dentries s !!! dentry) stream_idx
                   (lookup_table w)) as [lte|].
  all: try (destruct (extract_extends dentry lte na s1) as (ret & s2 & -> & H2)).
  all: try (set (ret := RET_OK); set (s2 := s1);
            assert (extends_with (populate_call dentry) s1 s2) as H2
              by apply extends_refl; cbv zeta).
  all: set (s3 := called s2 (ntfs_attr_close (vol s2) na) call_ntfs_attr_close).
  all: assert (extends_with (populate_call dentry) s s3) as H3
         by (eapply extends_trans; [exact H1|];
             eapply extends_trans; [exact H2|];
             apply extends_called; simpl; by left).
  all: destruct (decide (ret = RET_OK));
         try (exists ret, s3; split; [reflexivity | exact H3]).
  all: destruct (IH (S stream_idx) (stream_name ads) s3) as (r & s4 & -> & H4).
  all: exists r, s4; split; [done|]; by eapply extends_trans.
Qed.

End ApplyTrace.

Ltac solve_extends :=
  cbn [snd fst];
  repeat first
    [ apply extends_refl
    | eassumption
    | apply extends_called_r; [|simpl; auto; fail] ].

Section ApplyCalls.

Context `{env : apply_env}.

Lemma apply_file_attributes_extends (ni : ntfs_inode) (dentry : nat)
    (w : WIMStruct) (s : apply_state) :
  extends_with (populate_call dentry) s
    (snd (apply_file_attributes_and_security_data ni dentry w s)).
Proof.
  unfold apply_file_attributes_and_security_data.
  destruct (ntfs_inode_set_attributes _ _ _) as [v r].
  destruct (r =? 0); [solve_extends|].
  destruct (security_id _ =? -1); [solve_extends|].
  destruct (ntfs_inode_set_security _ _ _) as [v' r'].
  destruct (r' =? 0); solve_extends.
Qed.

Lemma apply_reparse_data_extends (ni : ntfs_inode) (dentry : nat)
    (w : WIMStruct) (s : apply_state) :
  extends_with (populate_call dentry) s (snd (apply_reparse_data ni dentry w s)).
Proof.
  unfold apply_reparse_data.
  destruct (dentry_first_lte _ _) as [lte|]; [|solve_extends].
  destruct (_ <=? _)%N; [solve_extends|].
  destruct (read_wim_resource _ _ _) as [ret data].
  destruct (decide (ret = RET_OK)); [|solve_extends].
  destruct (ntfs_set_ntfs_reparse_data _ _ _ _) as [v r].
  destruct (r =? 0); solve_extends.
Qed.

Lemma out_close_dir_ni_extends (d : nat) (ret : wimlib_ret) (dir_ni : ntfs_inode)
    (ni : option ntfs_inode) (s : apply_state) :
  extends_with (tail_call d) s (snd (out_close_dir_ni ret dir_ni ni s)).
Proof.
  unfold out_close_dir_ni.
  destruct (ntfs_inode_close (vol s) dir_ni) as [v r].
  destruct ni as [ni|]; [|solve_extends].
  destruct (ntfs_inode_close _ ni) as [v' r']. solve_extends.
Qed.

Lemma out_set_dos_name_extends (ret : wimlib_ret) (dentry : nat)
    (dir_ni ni : ntfs_inode) (is_hardlink : bool) (s : apply_state) :
  extends_with (tail_call dentry) s
    (snd (out_set_dos_name ret dentry dir_ni ni is_hardlink s)).
Proof.
  unfold out_set_dos_name.
  destruct (short_name_len _ =? 0); [apply out_close_dir_ni_extends|].
  destruct is_hardlink.
  - destruct (ntfs_inode_close (vol s) dir_ni) as [v1 r1].
    destruct (ntfs_inode_close _ ni) as [v2 r2].
    destruct (ntfs_pathname_to_inode _ None _) as [v3 [dir_ni'|]];
      [|solve_extends].
    destruct (ntfs_pathname_to_inode _ (Some dir_ni') _) as [v4 [ni'|]];
      [|solve_extends].
    destruct (ntfs_set_ntfs_dos_name _ _ _ _) as [v5 r5]. solve_extends.
  - destruct (ntfs_set_ntfs_dos_name _ _ _ _) as [v5 r5]. solve_extends.
Qed.

Lemma write_ntfs_data_streams_extends (ni : ntfs_inode) (dentry : nat)
    (w : WIMStruct) (s : apply_state) :
  exists ret s',
    write_ntfs_data_streams ni dentry w s = Some (ret, s')
    /\ extends_with (populate_call dentry) s s'.
Proof. apply write_ntfs_data_streams_loop_extends. Qed.

Lemma some_pair {A B : Type} (x : A * B) : Some x = Some (fst x, snd x).
Proof. by destruct x. Qed.

(** [create_and_populate] returns; it calls [ntfs_create] first and then
    only populates. *)
Lemma create_and_populate_extends (dentry : nat) (dir_ni : ntfs_inode)
    (type : Z) (w : WIMStruct) (s : apply_state) :
  exists ret s' v,
    create_and_populate dentry dir_ni type w s = Some (ret, s')
    /\ extends_with (populate_call dentry)
         (called s v (call_ntfs_create dentry type)) s'.
Proof.
  unfold create_and_populate.
  destruct (ntfs_create _ _ _ _) as [v [ni|]].
  2:{ eexists _, _, v. split; [apply some_pair|].
      eapply extends_mono; [apply tail_populate|].
      apply out_close_dir_ni_extends. }
  set (s1 := called s v (call_ntfs_create dentry type)).
  assert (exists ret s2,
            (if negb (dentry_is_directory (dentries s !!! dentry))
                && (Z.land (attributes (dentries s !!! dentry))
                      FILE_ATTRIBUTE_REPARSE_POINT =? 0)
             then write_ntfs_data_streams ni dentry w s1
             else Some (RET_OK, s1)) = Some (ret, s2)
            /\ extends_with (populate_call dentry) s1 s2)
    as (ret & s2 & -> & H2).
  { destruct (_ && _).
    - apply write_ntfs_data_streams_extends.
    - eexists _, _. split; [reflexivity|]. apply extends_refl. }
  assert (forall r, extends_with (populate_call dentry) s1
                      (snd (out_close_dir_ni r dir_ni (Some ni) s2))) as Hclose2.
  { intros r. eapply extends_trans; [exact H2|].
    eapply extends_mono; [apply tail_populate|]. apply out_close_dir_ni_extends. }
  destruct (decide (ret = RET_OK));
    [|eexists _, _, v; split; [apply some_pair | apply Hclose2]].
  pose proof (apply_file_attributes_extends ni dentry w s2) as H3.
  destruct (apply_file_attributes_and_security_data ni dentry w s2) as [ret3 s3].
  simpl in H3.
  assert (extends_with (populate_call dentry) s1 s3) as H13
    by (by eapply extends_trans).
  destruct (decide (ret3 = RET_OK)).
  2:{ eexists _, _, v. split; [apply some_pair|].
      eapply extends_trans; [exact H13|].
      eapply extends_mono; [apply tail_populate|]. apply out_close_dir_ni_extends. }
  assert (exists ret4 s4,
            (if Z.land (attributes (dentries s !!! dentry))
                  FILE_ATTRIBUTE_REPARSE_POINT =? 0
             then (RET_OK, s3)
             else apply_reparse_data ni dentry w s3) = (ret4, s4)
            /\ extends_with (populate_call dentry) s1 s4)
    as (ret4 & s4 & -> & H4).
  { destruct (_ =? 0).
    - by eexists _, _.
    - pose proof (apply_reparse_data_extends ni dentry w s3) as H.
      destruct (apply_reparse_data ni dentry w s3) as [r4 s4]. simpl in H.
      eexists _, _. split; [reflexivity|]. by eapply extends_trans. }
  destruct (decide (ret4 = RET_OK)).
  - eexists _, _, v. split; [apply some_pair|].
    eapply extends_trans; [exact H4|].
    eapply extends_mono; [apply tail_populate|]. apply out_set_dos_name_extends.
  - eexists _, _, v. split; [apply some_pair|].
    eapply extends_trans; [exact H4|].
    eapply extends_mono; [apply tail_populate|]. apply out_close_dir_ni_extends.
Qed.

End ApplyCalls.

Section Invariant.

Variable ds : list dentry.
Hypothesis wf : link_groups_wf ds.

(** Calls that are not links, made for [d], may be added to the trace
    when [d] is being populated as the primary of its group or is a
    directory, or when they leave the contents alone. *)
Lemma apply_inv_extend (dl : list dentry) (tr cs : list ntfs_call) (d : nat) :
  apply_inv ds dl tr ->
  Forall (fun c =>
            ~ is_link c
            /\ forall m, call_dentry c = Some m ->
                 m = d /\ (link_or_dos_name c
                           \/ is_Some (extracted_file (dl !!! d))
                           \/ is_directory ds d)) cs ->
  (forall i m path, tr !! i = Some (call_ntfs_link m path) ->
     d ∉ link_group_list (ds !!! m) \/ extracted_file (dl !!! d) = None) ->
  apply_inv ds dl (tr ++ cs).
Proof.
  intros [Hst Hprim Hlink Hcalls] Hcs Hside.
  rewrite Forall_forall in Hcs. split.
  - exact Hst.
  - intros p x Hx. destruct (Hprim p x Hx) as (H1 & H2 & H3 & j & Hj).
    split_and!; try done. exists j. by apply lookup_app_l_Some.
  - intros i m path Hi.
    apply lookup_app_Some in Hi as [Hi | [Hge Hi]].
    + destruct (Hlink i m path Hi) as (H1 & H2 & p & Hp & Hpx & (j & Hj & Hjc) & Hk).
      split_and!; try done. exists p. split_and!; try done.
      * exists j. split; [done|]. by apply lookup_app_l_Some.
      * intros k c Hik Hkc Hc.
        apply lookup_app_Some in Hkc as [Hkc | [_ Hkc]].
        { by apply (Hk k c Hik Hkc). }
        apply list_elem_of_lookup_2 in Hkc.
        destruct (Hcs c Hkc) as [_ Hm].
        destruct (Hm p Hc) as [-> _].
        destruct (Hside i m path Hi) as [Hn | Hn]; [done | congruence].
    + apply list_elem_of_lookup_2 in Hi.
      destruct (Hcs _ Hi) as [Hnl _].
      by destruct Hnl.
  - intros c m Hc Hm. apply elem_of_app in Hc as [Hc | Hc].
    + by apply Hcalls.
    + destruct (Hcs c Hc) as [_ H].
      destruct (H m Hm) as [-> H']. exact H'.
Qed.

(** [d] becomes the primary of its group: its path is recorded and
    [ntfs_create] is called for it. *)
Lemma apply_inv_primary (dl : list dentry) (tr : list ntfs_call) (d : nat) :
  apply_inv ds dl tr ->
  (d < length ds)%nat ->
  extracted_file (dl !!! d) = None ->
  ~ is_directory ds d ->
  (forall o, o ∈ link_group_list (ds !!! d) -> extracted_file (dl !!! o) = None) ->
  apply_inv ds
    (<[d := set_extracted_file (dl !!! d) (full_path_utf8 (dl !!! d))]> dl)
    (tr ++ [call_ntfs_create d S_IFREG]).
Proof.
  intros [Hst Hprim Hlink Hcalls] Hlt Hnone Hnd Hothers.
  assert (d < length dl)%nat as Hlt' by (by rewrite (static_length ds dl Hst)).
  set (dl' := <[d := _]> dl).
  assert (forall x, x <> d -> dl' !!! x = dl !!! x) as Hne
    by (intros x Hx; by apply lookup_total_insert_ne).
  assert (extracted_file (dl' !!! d) = Some (full_path_utf8 (ds !!! d))) as Hd.
  { unfold dl'. rewrite lookup_total_insert_eq by done. simpl.
    by destruct (static_fields ds dl d Hst) as (_ & _ & _ & _ & ->). }
  assert (forall p x, extracted_file (dl !!! p) = Some x -> p <> d) as Hpd
    by (intros p x Hx ->; congruence).
  split.
  - by apply static_insert.
  - intros p x Hx. destruct (decide (p = d)) as [->|Hp].
    + rewrite Hd in Hx. injection Hx as <-. split_and!; try done.
      * intros o Ho. rewrite Hne; [by apply Hothers|].
        intros ->. by apply (wf_irrefl ds wf d).
      * exists (length tr). by rewrite lookup_app_r, Nat.sub_diag by lia.
    + rewrite Hne in Hx by done.
      destruct (Hprim p x Hx) as (H1 & H2 & H3 & j & Hj).
      split_and!; try done.
      * intros o Ho. destruct (decide (o = d)) as [->|Ho'].
        { apply (wf_sym ds wf) in Ho. rewrite (Hothers p Ho) in Hx. done. }
        rewrite Hne by done. by apply H3.
      * exists j. by apply lookup_app_l_Some.
  - intros i m path Hi.
    apply lookup_app_Some in Hi as [Hi | [Hge Hi]].
    2:{ apply list_lookup_singleton_Some in Hi as [_ Hi]. discriminate. }
    destruct (Hlink i m path Hi) as (H1 & H2 & p & Hp & Hpx & (j & Hj & Hjc) & Hk).
    assert (m <> d) as Hmd.
    { intros ->. rewrite (Hothers p Hp) in Hpx. done. }
    rewrite (Hne m Hmd). split_and!; try done.
    exists p. rewrite (Hne p (Hpd p path Hpx)). split_and!; try done.
    + exists j. split; [done|]. by apply lookup_app_l_Some.
    + intros k c Hik Hkc Hc.
      apply lookup_app_Some in Hkc as [Hkc | [_ Hkc]].
      { by apply (Hk k c Hik Hkc). }
      apply list_lookup_singleton_Some in Hkc as [_ <-].
      simpl in Hc. injection Hc as <-. by apply (Hpd d path).
  - intros c m Hc Hm. apply elem_of_app in Hc as [Hc | Hc].
    + destruct (decide (m = d)) as [->|Hmd].
      * right. left. rewrite Hd. by eexists.
      * rewrite (Hne m Hmd). by apply Hcalls.
    + apply list_elem_of_singleton in Hc as ->. simpl in Hm.
      injection Hm as <-. right. left. rewrite Hd. by eexists.
Qed.

(** [d] is linked to the extracted file of another member of its
    group. *)
Lemma apply_inv_link (dl : list dentry) (tr : list ntfs_call) (d p : nat)
    (path : string) :
  apply_inv ds dl tr ->
  extracted_file (dl !!! d) = None ->
  ~ is_directory ds d ->
  p ∈ link_group_list (ds !!! d) ->
  extracted_file (dl !!! p) = Some path ->
  apply_inv ds dl (tr ++ [call_ntfs_link d path]).
Proof.
  intros [Hst Hprim Hlink Hcalls] Hnone Hnd Hp Hpx. split.
  - exact Hst.
  - intros q x Hx. destruct (Hprim q x Hx) as (H1 & H2 & H3 & j & Hj).
    split_and!; try done. exists j. by apply lookup_app_l_Some.
  - intros i m path' Hi.
    apply lookup_app_Some in Hi as [Hi | [Hge Hi]].
    + destruct (Hlink i m path' Hi)
        as (H1 & H2 & q & Hq & Hqx & (j & Hj & Hjc) & Hk).
      split_and!; try done. exists q. split_and!; try done.
      * exists j. split; [done|]. by apply lookup_app_l_Some.
      * intros k c Hik Hkc Hc.
        apply lookup_app_Some in Hkc as [Hkc | [_ Hkc]].
        { by apply (Hk k c Hik Hkc). }
        apply list_lookup_singleton_Some in Hkc as [_ <-].
        simpl in Hc. injection Hc as ->. congruence.
    + apply list_lookup_singleton_Some in Hi as [Hi' [= <- <-]].
      split_and!; try done. exists p. split_and!; try done.
      * destruct (Hprim p path Hpx) as (_ & _ & _ & j & Hj).
        exists j. split; [|by apply lookup_app_l_Some].
        apply lookup_lt_Some in Hj. lia.
      * intros k c Hik Hkc Hc.
        apply lookup_app_Some in Hkc as [Hkc | [_ Hkc]].
        { apply lookup_lt_Some in Hkc. lia. }
        apply list_lookup_singleton_Some in Hkc as [_ <-].
        simpl in Hc. injection Hc as ->. congruence.
  - intros c m Hc Hm. apply elem_of_app in Hc as [Hc | Hc].
    + by apply Hcalls.
    + apply list_elem_of_singleton in Hc as ->. by left.
Qed.

End Invariant.

Section DoApply.

Context `{env : apply_env}.
Variable ds : list dentry.
Hypothesis wf : link_groups_wf ds.
Variable w : WIMStruct.

Lemma populate_call_facts (d : nat) (c : ntfs_call) :
  populate_call d c ->
  ~ is_link c /\ forall m, call_dentry c = Some m -> m = d.
Proof.
  destruct c; simpl; try done; intros H; (split; [tauto|]);
    intros m' Hm; destruct H; congruence.
Qed.

Lemma tail_call_facts (d : nat) (c : ntfs_call) :
  tail_call d c ->
  ~ is_link c /\ forall m, call_dentry c = Some m -> m = d /\ link_or_dos_name c.
Proof.
  destruct c; simpl; try done; intros H; (split; [tauto|]);
    intros m' Hm; try discriminate.
  injection Hm as <-. done.
Qed.

(** What the scan of the group for a short name returns. *)
Lemma find_dentry_with_dos_name_spec (dl : list dentry) (d : nat)
    (others : list nat) :
  map clear_extracted_file dl = ds ->
  forall acc r,
    find_dentry_with_dos_name dl d others acc = inr r ->
    (r = acc /\ forall o, o ∈ others -> ~ dos_name_beside ds d o)
    \/ (acc = None /\ exists L, r = Some L /\ L ∈ others /\ dos_name_beside ds d L).
Proof.
  intros Hst. induction others as [|o others IH]; intros acc r Hf.
  - simpl in Hf. injection Hf as <-. left. split; [done|].
    intros o Ho. by apply elem_of_nil in Ho.
  - cbn [find_dentry_with_dos_name] in Hf.
    destruct (static_fields ds dl d Hst) as (_ & _ & Hpd & _ & _).
    destruct (static_fields ds dl o Hst) as (_ & _ & Hpo & Hso & _).
    rewrite Hpd, Hpo, Hso in Hf.
    destruct (bool_decide (parent (ds !!! d) = parent (ds !!! o))
              && negb (short_name_len (ds !!! o) =? 0)) eqn:E.
    + apply andb_true_iff in E as [Ep Es].
      apply bool_decide_eq_true in Ep. apply negb_true_iff, Z.eqb_neq in Es.
      destruct acc as [a|]; [discriminate|].
      destruct (IH _ _ Hf) as [[-> Hno] | [[=] _]].
      right. split; [done|]. exists o. split; [done|].
      split; [apply elem_of_cons; by left | done].
    + assert (~ dos_name_beside ds d o) as Hn.
      { intros [Hp Hs]. apply andb_false_iff in E as [E|E].
        - by apply bool_decide_eq_false in E.
        - apply negb_false_iff, Z.eqb_eq in E. done. }
      destruct (IH _ _ Hf) as [[-> Hno] | (-> & L & -> & HL & HbL)].
      * left. split; [done|]. intros o' Ho'.
        apply elem_of_cons in Ho' as [->|Ho']; [done | by apply Hno].
      * right. split; [done|]. exists L. split; [done|].
        split; [apply elem_of_cons; by right | done].
Qed.

(** The primary that applying a short-named neighbour [L] of [d]
    produced is the primary of [d]. *)
Lemma primary_rule_transfer (dl : list dentry) (d L x : nat) :
  L ∈ link_group_list (ds !!! d) ->
  dos_name_beside ds d L ->
  extracted_file (dl !!! L) = None ->
  (forall o, o ∈ link_group_list (ds !!! L) -> extracted_file (dl !!! o) = None) ->
  primary_rule ds L x ->
  (forall o, o ∈ link_group_list (ds !!! d) -> extracted_file (dl !!! o) = None)
  /\ primary_rule ds d x /\ x = L.
Proof.
  intros HL [Hp Hs] HLn Hothers Hrule. split; [|split].
  - intros o Ho. destruct (decide (o = L)) as [->|Hne]; [done|].
    apply Hothers. apply (wf_trans ds wf d L o); [done|done|congruence].
  - destruct Hrule as [[-> _] | [Hx Hb]].
    + right. by split.
    + destruct (Hs (wf_dos_name ds wf L x Hx Hb)).
  - destruct Hrule as [[-> _] | [Hx Hb]]; [done|].
    destruct (Hs (wf_dos_name ds wf L x Hx Hb)).
Qed.

End DoApply.

Section LinkOrCreate.

Context `{env : apply_env}.
Variable ds : list dentry.
Hypothesis wf : link_groups_wf ds.
Variable w : WIMStruct.

Lemma out_close_dir_ni_failure (ret : wimlib_ret) (dir_ni : ntfs_inode)
    (ni : option ntfs_inode) (s : apply_state) :
  ret <> RET_OK -> fst (out_close_dir_ni ret dir_ni ni s) <> RET_OK.
Proof.
  intros Hr. unfold out_close_dir_ni, ret_or_ntfs_3g.
  destruct (ntfs_inode_close (vol s) dir_ni) as [v r].
  destruct ni as [ni|].
  - destruct (ntfs_inode_close _ ni) as [v' r']. simpl.
    destruct (r =? 0), (r' =? 0); repeat (destruct (decide _)); congruence.
  - simpl. destruct (r =? 0); repeat (destruct (decide _)); congruence.
Qed.

Lemma apply_inv_tail (dl : list dentry) (tr cs : list ntfs_call) (d : nat) :
  apply_inv ds dl tr ->
  extracted_file (dl !!! d) = None ->
  Forall (tail_call d) cs ->
  apply_inv ds dl (tr ++ cs).
Proof.
  intros Hinv Hnone Hcs. apply (apply_inv_extend ds dl tr cs d Hinv).
  - eapply Forall_impl; [exact Hcs|]. intros c Hc.
    destruct (tail_call_facts d c Hc) as [H1 H2]. split; [done|].
    intros m Hm. destruct (H2 m Hm) as [-> H3]. split; [done | by left].
  - intros i m path _. by right.
Qed.

Lemma apply_inv_populate (dl : list dentry) (tr cs : list ntfs_call) (d : nat) :
  apply_inv ds dl tr ->
  is_Some (extracted_file (dl !!! d)) \/ is_directory ds d ->
  Forall (populate_call d) cs ->
  (forall i m path, tr !! i = Some (call_ntfs_link m path) ->
     d ∉ link_group_list (ds !!! m)) ->
  apply_inv ds dl (tr ++ cs).
Proof.
  intros Hinv Hd Hcs Hside. apply (apply_inv_extend ds dl tr cs d Hinv).
  - eapply Forall_impl; [exact Hcs|]. intros c Hc.
    destruct (populate_call_facts d c Hc) as [H1 H2]. split; [done|].
    intros m Hm. rewrite (H2 m Hm). split; [done | by right].
  - intros i m path Hi. left. by apply (Hside i m path).
Qed.

(** A directory is in no hard-link group. *)
Lemma directory_not_linked (d m : nat) :
  is_directory ds d -> d ∉ link_group_list (ds !!! m).
Proof.
  intros Hdir Hin. apply (wf_sym ds wf) in Hin.
  by apply (wf_files ds wf d m Hin).
Qed.

End LinkOrCreate.

Section LinkOrCreatePost.

Context `{env : apply_env}.
Variable ds : list dentry.
Hypothesis wf : link_groups_wf ds.
Variable w : WIMStruct.

(** The trace of [wim_apply_hardlink_ntfs], with what it returns. *)
Lemma wim_apply_hardlink_ntfs_spec (d other : nat) (dir_ni : ntfs_inode)
    (s : apply_state) (path : string) :
  extracted_file (dentries s !!! other) = Some path ->
  exists ret ni s',
    wim_apply_hardlink_ntfs d other dir_ni s = (ret, ni, s')
    /\ dentries s' = dentries s
    /\ ((ret <> RET_OK /\ ni = None
         /\ trace s' = trace s ++ [call_ntfs_pathname_to_inode path])
        \/ trace s'
           = (trace s ++ [call_ntfs_pathname_to_inode path])
             ++ [call_ntfs_link d path]).
Proof.
  intros Hx. unfold wim_apply_hardlink_ntfs. rewrite Hx. simpl.
  destruct (ntfs_pathname_to_inode _ _ _) as [v [to_ni|]].
  - cbn [vol called dentries].
    destruct (ntfs_link _ _ _ _) as [v' r].
    eexists _, _, _. split; [reflexivity|]. simpl. by auto.
  - eexists _, _, _. split; [reflexivity|]. simpl. split; [done|]. by left.
Qed.

Lemma link_or_create_post (d : nat) (dir_ni : ntfs_inode) (s sc : apply_state) :
  map clear_extracted_file (dentries s) = ds ->
  apply_inv ds (dentries sc) (trace sc) ->
  (d < length ds)%nat ->
  ~ is_directory ds d ->
  extracted_file (dentries sc !!! d) = None ->
  (exists cs, trace sc = trace s ++ cs) ->
  (forall x y, extracted_file (dentries s !!! x) = Some y ->
               extracted_file (dentries sc !!! x) = Some y) ->
  (forall x, extracted_file (dentries s !!! x) = None ->
             is_Some (extracted_file (dentries sc !!! x)) ->
             (forall o, o ∈ link_group_list (ds !!! d) ->
                        extracted_file (dentries s !!! o) = None)
             /\ primary_rule ds d x) ->
  ((forall o, o ∈ link_group_list (ds !!! d) ->
              extracted_file (dentries sc !!! o) = None) ->
   dentries sc = dentries s
   /\ forall o, o ∈ link_group_list (ds !!! d) -> ~ dos_name_beside ds d o) ->
  exists ret s',
    link_or_create d (dentries s !!! d) dir_ni w sc = Some (ret, s')
    /\ apply_post ds d s s' ret.
Proof.
  intros Hst Hinv Hlt Hnd Hnone [c0 Hc0] Hmono Hnews Hfresh.
  unfold link_or_create.
  destruct (static_fields ds (dentries s) d Hst) as (_ & -> & _ & _ & Hpath).
  destruct (List.find _ _) as [other|] eqn:Hfind.
  - apply find_some in Hfind as [Hin Hsome].
    apply list_elem_of_In in Hin. apply bool_decide_eq_true in Hsome.
    destruct Hsome as [path Hpath'].
    destruct (wim_apply_hardlink_ntfs_spec d other dir_ni sc path Hpath')
      as (r & ni & s3 & -> & Hd3 & Htr3).
    assert (apply_inv ds (dentries sc)
              (trace sc ++ [call_ntfs_pathname_to_inode path])) as Hinv1.
    { apply (apply_inv_tail ds _ _ _ d Hinv Hnone).
      by repeat constructor. }
    assert (apply_inv ds (dentries s3) (trace s3)) as Hinv3.
    { rewrite Hd3. destruct Htr3 as [(_ & _ & ->) | ->]; [done|].
      by apply (apply_inv_link ds _ _ d other path). }
    assert (forall t : wimlib_ret * apply_state,
              extends_with (tail_call d) s3 (snd t) ->
              (fst t = RET_OK ->
               exists i p, trace s3 !! i = Some (call_ntfs_link d p)) ->
              exists ret s', Some t = Some (ret, s') /\ apply_post ds d s s' ret)
      as Hfinish.
    { intros [ret s'] [Hd' (cs & Htr' & Hcs)] Hlink. simpl in *.
      exists ret, s'. split; [done|]. unfold apply_post. split_and!.
      - rewrite Hd', Htr'. apply (apply_inv_tail ds _ _ _ d); try done.
        by rewrite Hd3.
      - rewrite Htr'.
        destruct Htr3 as [(_ & _ & ->) | ->]; rewrite Hc0;
          rewrite <- ?app_assoc; by eexists.
      - intros x y Hx. rewrite Hd', Hd3. by apply Hmono.
      - intros x Hx. rewrite Hd', Hd3. by apply Hnews.
      - intros Hret _. right. destruct (Hlink Hret) as (i & p & Hi).
        exists i, p. rewrite Htr'. by apply lookup_app_l_Some. }
    assert (trace s3 = (trace sc ++ [call_ntfs_pathname_to_inode path])
                       ++ [call_ntfs_link d path] ->
            exists i p, trace s3 !! i = Some (call_ntfs_link d p)) as Hhas.
    { intros ->. eexists _, path.
      by apply (list_lookup_middle _ []). }
    destruct (decide (r = RET_OK)) as [Hr|Hr].
    + destruct ni as [ni|].
      * apply Hfinish; [apply out_set_dos_name_extends|].
        intros _. destruct Htr3 as [(_ & [=] & _) | Htr3]. by apply Hhas.
      * apply Hfinish; [apply out_close_dir_ni_extends|].
        intros _. destruct Htr3 as [(Hr' & _) | Htr3]; [done | by apply Hhas].
    + apply Hfinish; [apply out_close_dir_ni_extends|].
      intros Hok. by destruct (out_close_dir_ni_failure r dir_ni ni s3 Hr).
  - assert (forall o, o ∈ link_group_list (ds !!! d) ->
                      extracted_file (dentries sc !!! o) = None) as Hothers.
    { intros o Ho. apply list_elem_of_In in Ho.
      pose proof (find_none _ _ Hfind o Ho) as Hf. simpl in Hf.
      apply bool_decide_eq_false in Hf.
      destruct (extracted_file (dentries sc !!! o)); [|done].
      destruct Hf. by eexists. }
    destruct (Hfresh Hothers) as [Hsame Hnobeside].
    rewrite <- Hsame in *. clear Hmono Hnews Hfresh.
    set (s1 := {| dentries := _; vol := vol sc; trace := trace sc |}).
    destruct (create_and_populate_extends d dir_ni S_IFREG w s1)
      as (ret & s' & v & -> & Hd' & cs & Htr' & Hcs).
    cbn [called dentries trace s1] in Hd', Htr'.
    pose proof (apply_inv_primary ds wf _ _ d Hinv Hlt Hnone Hnd Hothers) as Hinv1.
    set (dl' := <[d := _]> (dentries sc)) in *.
    assert (extracted_file (dl' !!! d) = Some (full_path_utf8 (dentries sc !!! d)))
      as Hd.
    { unfold dl'. rewrite lookup_total_insert_eq; [done|].
      by rewrite (static_length ds _ (inv_static _ _ _ Hinv)). }
    assert (forall x, x <> d -> dl' !!! x = dentries sc !!! x) as Hne
      by (intros x Hx; by apply lookup_total_insert_ne).
    exists ret, s'. split; [done|]. unfold apply_post. rewrite <- Hsame.
    split_and!.
    + rewrite Hd', Htr'. apply (apply_inv_populate ds _ _ _ d Hinv1).
      * left. rewrite Hd. by eexists.
      * exact Hcs.
      * intros i m path Hi Hdm.
        destruct (inv_link _ _ _ Hinv1 i m path Hi)
          as (_ & _ & p & Hp & Hpx & _ & Hk).
        destruct (decide (p = d)) as [->|Hpd].
        -- apply (Hk (length (trace sc)) (call_ntfs_create d S_IFREG)).
           ++ apply lookup_lt_Some in Hi as Hlen. rewrite length_app in Hlen.
              simpl in Hlen.
              destruct (decide (i = length (trace sc))) as [->|]; [|lia].
              rewrite (list_lookup_middle _ [] _ _ eq_refl) in Hi. done.
           ++ by apply (list_lookup_middle _ []).
           ++ done.
        -- destruct (inv_primary _ _ _ Hinv1 p path Hpx) as (_ & _ & H3 & _).
           rewrite (H3 d) in Hd; [done|].
           apply (wf_trans ds wf m p d); done.
    + rewrite Htr', Hc0. rewrite <- !app_assoc. by eexists.
    + intros x y Hx. rewrite Hd', Hne; [done|]. intros ->. congruence.
    + intros x Hx Hx'. rewrite Hd' in Hx'.
      destruct (decide (x = d)) as [->|Hxd].
      * split; [done|]. by left.
      * rewrite (Hne x Hxd), Hx in Hx'. by destruct Hx'.
    + intros _ _. left. rewrite Hd', Hd. by eexists.
Qed.

End LinkOrCreatePost.

Section DoApplyPost.

Context `{env : apply_env}.
Variable ds : list dentry.
Hypothesis wf : link_groups_wf ds.
Variable w : WIMStruct.

Lemma find_dentry_with_dos_name_inl (dl : list dentry) (d : nat)
    (others : list nat) :
  forall acc r,
    find_dentry_with_dos_name dl d others acc = inl r ->
    r = WIMLIB_ERR_INVALID_DENTRY.
Proof.
  induction others as [|o others IH]; intros acc r; simpl; [done|].
  destruct (_ && _); [|by apply IH].
  destruct acc; [congruence | by apply IH].
Qed.

(** What the apply of the short-named neighbour [L] of [d] means for
    [d]. *)
Lemma nested_apply_facts (d L : nat) (s s1 : apply_state) (ret1 : wimlib_ret) :
  apply_post ds L s s1 ret1 ->
  L ∈ link_group_list (ds !!! d) ->
  dos_name_beside ds d L ->
  extracted_file (dentries s !!! L) = None ->
  extracted_file (dentries s !!! d) = None ->
  extracted_file (dentries s1 !!! d) = None
  /\ (forall x, extracted_file (dentries s !!! x) = None ->
                is_Some (extracted_file (dentries s1 !!! x)) ->
                (forall o, o ∈ link_group_list (ds !!! d) ->
                           extracted_file (dentries s !!! o) = None)
                /\ primary_rule ds d x)
  /\ (ret1 = RET_OK ->
      ~ forall o, o ∈ link_group_list (ds !!! d) ->
                  extracted_file (dentries s1 !!! o) = None).
Proof.
  intros (Hinv1 & Htr1 & Hmono1 & Hnews1 & Hg1) HL Hb HLn Hdn.
  assert (forall x, extracted_file (dentries s !!! x) = None ->
                    is_Some (extracted_file (dentries s1 !!! x)) ->
                    (forall o, o ∈ link_group_list (ds !!! d) ->
                               extracted_file (dentries s !!! o) = None)
                    /\ primary_rule ds d x /\ x = L) as Hnews.
  { intros x Hx Hx'. destruct (Hnews1 x Hx Hx') as [Ho Hr].
    by apply (primary_rule_transfer ds wf (dentries s) d L x). }
  assert (extracted_file (dentries s1 !!! d) = None) as Hd1.
  { destruct (extracted_file (dentries s1 !!! d)) as [y|] eqn:E; [|done].
    destruct (Hnews d Hdn) as (_ & _ & ->); [by rewrite E; eexists|].
    by destruct (wf_irrefl ds wf L). }
  split_and!.
  - exact Hd1.
  - intros x Hx Hx'. destruct (Hnews x Hx Hx') as (H1 & H2 & _). done.
  - intros Hok Hall.
    assert (~ is_directory ds L) as HLd
      by (apply (wf_files ds wf L d); by apply (wf_sym ds wf)).
    destruct (Hg1 Hok HLd) as [[y Hy] | (i & path & Hi)].
    + rewrite (Hall L HL) in Hy. done.
    + destruct (inv_link _ _ _ Hinv1 i L path Hi) as (_ & _ & p & Hp & Hpx & _).
      destruct (decide (p = d)) as [->|Hpd]; [congruence|].
      rewrite (Hall p) in Hpx; [done|].
      apply (wf_trans ds wf L d p); [by apply (wf_sym ds wf) | done | congruence].
Qed.

Lemma apply_post_failure (d : nat) (s s1 : apply_state) (ret : wimlib_ret) :
  apply_inv ds (dentries s1) (trace s1) ->
  (exists cs, trace s1 = trace s ++ cs) ->
  (forall x y, extracted_file (dentries s !!! x) = Some y ->
               extracted_file (dentries s1 !!! x) = Some y) ->
  (forall x, extracted_file (dentries s !!! x) = None ->
             is_Some (extracted_file (dentries s1 !!! x)) ->
             (forall o, o ∈ link_group_list (ds !!! d) ->
                        extracted_file (dentries s !!! o) = None)
             /\ primary_rule ds d x) ->
  ret <> RET_OK ->
  apply_post ds d s s1 ret.
Proof. intros. unfold apply_post. split_and!; done. Qed.

Lemma apply_post_unchanged (d : nat) (s : apply_state) (ret : wimlib_ret) :
  apply_inv ds (dentries s) (trace s) ->
  ret <> RET_OK ->
  apply_post ds d s s ret.
Proof.
  intros Hinv Hret. apply apply_post_failure; try done.
  - exists []. by rewrite app_nil_r.
  - intros x Hx [y Hy]. congruence.
Qed.

End DoApplyPost.

Section DoApplyStep.

Context `{env : apply_env}.
Variable ds : list dentry.
Hypothesis wf : link_groups_wf ds.
Variable w : WIMStruct.

(** One level of [do_wim_apply_dentry_ntfs], given that the nested call
    for a short-named neighbour returns. *)
Lemma do_wim_apply_dentry_ntfs_step (n d : nat) (dir_ni : ntfs_inode)
    (s : apply_state) :
  apply_inv ds (dentries s) (trace s) ->
  (d < length ds)%nat ->
  extracted_file (dentries s !!! d) = None ->
  (forall L, L ∈ link_group_list (ds !!! d) -> dos_name_beside ds d L ->
             extracted_file (dentries s !!! L) = None ->
             exists ret s',
               do_wim_apply_dentry_ntfs n w L dir_ni s = Some (ret, s')
               /\ apply_post ds L s s' ret) ->
  exists ret s',
    do_wim_apply_dentry_ntfs (S n) w d dir_ni s = Some (ret, s')
    /\ apply_post ds d s s' ret.
Proof.
  intros Hinv Hlt Hnone Hnested.
  pose proof (inv_static _ _ _ Hinv) as Hst.
  cbn [do_wim_apply_dentry_ntfs].
  destruct (static_fields ds (dentries s) d Hst) as (Hattr & Hgrp & _).
  rewrite Hattr.
  destruct (Z.eqb_spec (Z.land (attributes (ds !!! d)) FILE_ATTRIBUTE_DIRECTORY) 0)
    as [Hfile | Hdir]; cbn [negb].
  2:{ (* a directory *)
    destruct (create_and_populate_extends d dir_ni S_IFDIR w s)
      as (ret & s' & v & -> & Hd' & cs & Htr' & Hcs).
    cbn [called dentries trace] in Hd', Htr'.
    exists ret, s'. split; [done|]. unfold apply_post. rewrite Hd', Htr'.
    split_and!.
    - apply (apply_inv_populate ds _ _ _ d); try done; [|by right|].
      + apply (apply_inv_extend ds _ _ _ d Hinv).
        * constructor; [|constructor]. split; [simpl; tauto|].
          simpl. intros m [= <-]. split; [done|]. right. by right.
        * intros i m path _. left. by apply directory_not_linked.
      + intros i m path _. by apply directory_not_linked.
    - rewrite <- app_assoc. by eexists.
    - done.
    - intros x Hx [y Hy]. congruence.
    - intros _ Hnd. by destruct Hnd. }
  assert (~ is_directory ds d) as Hnd by (intros H; by apply H).
  assert (forall sc dir_ni',
            sc = s ->
            ((forall o, o ∈ link_group_list (ds !!! d) ->
                        extracted_file (dentries s !!! o) = None) ->
             forall o, o ∈ link_group_list (ds !!! d) -> ~ dos_name_beside ds d o) ->
            exists ret s',
              link_or_create d (dentries s !!! d) dir_ni' w sc = Some (ret, s')
              /\ apply_post ds d s s' ret) as Hdirect.
  { intros sc dir_ni' -> Hfresh.
    apply (link_or_create_post ds wf w d dir_ni' s s); try done.
    - exists []. by rewrite app_nil_r.
    - intros x Hx [y Hy]. congruence.
    - intros Hall. split; [done | by apply Hfresh]. }
  unfold preapply_dentry_with_dos_name. rewrite Hgrp.
  destruct (link_group_list (ds !!! d)) as [|o1 os] eqn:Hg.
  { destruct (decide (RET_OK = RET_OK)); [|done].
    apply Hdirect; [done|]. intros _ o Ho.
    by apply elem_of_nil in Ho. }
  rewrite <- Hg in *.
  destruct (find_dentry_with_dos_name _ _ _ _) as [r | [L|]] eqn:Hfind.
  - apply find_dentry_with_dos_name_inl in Hfind as ->.
    destruct (decide (_ = RET_OK)) as [|Hne]; [done|].
    eexists _, _. split; [reflexivity|]. by apply apply_post_unchanged.
  - destruct (find_dentry_with_dos_name_spec ds _ _ _ Hst _ _ Hfind)
      as [[[=] _] | (_ & L' & [= <-] & HL & Hb)].
    destruct (extracted_file (dentries s !!! L)) as [y|] eqn:HLx.
    + destruct (decide (RET_OK = RET_OK)); [|done].
      apply Hdirect; [done|]. intros Hall. rewrite (Hall L HL) in HLx. done.
    + destruct (Hnested L HL Hb HLx) as (ret1 & s1 & -> & Hpost).
      destruct (nested_apply_facts ds wf d L s s1 ret1 Hpost HL Hb HLx Hnone)
        as (Hd1 & Hnews & Hsome).
      destruct Hpost as (Hinv1 & [c1 Htr1] & Hmono1 & _ & _).
      destruct (decide (ret1 = RET_OK)) as [Hok|Hfail].
      2:{ destruct (decide (ret1 = RET_OK)); [done|].
          eexists _, _. split; [reflexivity|].
          apply apply_post_failure; try done. by exists c1. }
      destruct (ntfs_pathname_to_inode _ _ _) as [v ni].
      set (s2 := called s1 v _).
      assert (apply_inv ds (dentries s2) (trace s2)) as Hinv2.
      { apply (apply_inv_tail ds _ _ _ d); try done. by repeat constructor. }
      assert (exists cs, trace s2 = trace s ++ cs) as Htr2.
      { unfold s2. simpl. rewrite Htr1, <- app_assoc. by eexists. }
      destruct ni as [ni|].
      * destruct (decide (RET_OK = RET_OK)); [|done].
        apply (link_or_create_post ds wf w d ni s s2); try done.
        intros Hall. by destruct (Hsome Hok).
      * destruct (decide (_ = RET_OK)) as [|Hne]; [done|].
        eexists _, _. split; [reflexivity|].
        by apply apply_post_failure.
  - destruct (find_dentry_with_dos_name_spec ds _ _ _ Hst _ _ Hfind)
      as [[_ Hno] | (_ & L' & [=] & _)].
    destruct (decide (RET_OK = RET_OK)); [|done].
    apply Hdirect; [done|]. intros _. exact Hno.
Qed.

End DoApplyStep.

Section Walk.

Context `{env : apply_env}.
Variable ds : list dentry.
Hypothesis wf : link_groups_wf ds.
Variable w : WIMStruct.

(** A dentry without a short-named neighbour is applied without
    nesting. *)
Lemma do_wim_apply_dentry_ntfs_flat (n d : nat) (dir_ni : ntfs_inode)
    (s : apply_state) :
  apply_inv ds (dentries s) (trace s) ->
  (d < length ds)%nat ->
  extracted_file (dentries s !!! d) = None ->
  (forall o, o ∈ link_group_list (ds !!! d) -> ~ dos_name_beside ds d o) ->
  exists ret s',
    do_wim_apply_dentry_ntfs (S n) w d dir_ni s = Some (ret, s')
    /\ apply_post ds d s s' ret.
Proof.
  intros Hinv Hlt Hnone Hflat.
  apply (do_wim_apply_dentry_ntfs_step ds wf w); try done.
  intros L HL Hb _. by destruct (Hflat L HL).
Qed.

(** [do_wim_apply_dentry_ntfs] returns when two nested calls are
    allowed. *)
Lemma do_wim_apply_dentry_ntfs_post (depth d : nat) (dir_ni : ntfs_inode)
    (s : apply_state) :
  (2 <= depth)%nat ->
  apply_inv ds (dentries s) (trace s) ->
  (d < length ds)%nat ->
  extracted_file (dentries s !!! d) = None ->
  exists ret s',
    do_wim_apply_dentry_ntfs depth w d dir_ni s = Some (ret, s')
    /\ apply_post ds d s s' ret.
Proof.
  intros Hdepth Hinv Hlt Hnone.
  destruct depth as [|[|n]]; [lia | lia |].
  apply (do_wim_apply_dentry_ntfs_step ds wf w); try done.
  intros L HL [Hp Hs] HLn.
  apply do_wim_apply_dentry_ntfs_flat; try done.
  - by apply (wf_range ds wf d).
  - intros o Ho Hb. by apply Hs, (wf_dos_name ds wf L o).
Qed.

Lemma wim_apply_root_dentry_ntfs_extends (d : nat) (s : apply_state) :
  extends_with (populate_call d) s (snd (wim_apply_root_dentry_ntfs d w s)).
Proof.
  unfold wim_apply_root_dentry_ntfs.
  destruct (ntfs_pathname_to_inode _ _ _) as [v [ni|]]; [|solve_extends].
  set (s1 := called s v _).
  pose proof (apply_file_attributes_extends ni d w s1) as H.
  destruct (apply_file_attributes_and_security_data ni d w s1) as [ret s2].
  destruct (ntfs_inode_close _ _) as [v' r]. simpl in *.
  apply extends_called_r; [|simpl; by left].
  eapply extends_trans; [|exact H]. apply extends_called. simpl. by left.
Qed.

(** The state [s1] differs from [s] by calls only. *)
Lemma apply_post_prefix (d : nat) (s s1 s' : apply_state) (ret : wimlib_ret) :
  dentries s1 = dentries s ->
  (exists cs, trace s1 = trace s ++ cs) ->
  apply_post ds d s1 s' ret ->
  apply_post ds d s s' ret.
Proof.
  intros Hd [c Hc] (H1 & [c' H2] & H3 & H4 & H5).
  rewrite Hd in H3, H4. unfold apply_post. split_and!; try done.
  rewrite H2, Hc, <- app_assoc. by eexists.
Qed.

(** The visitor of the walk returns. *)
Lemma wim_apply_dentry_ntfs_post (depth : nat) (verbose : bool) (d : nat)
    (s : apply_state) :
  (2 <= depth)%nat ->
  apply_inv ds (dentries s) (trace s) ->
  (d < length ds)%nat ->
  exists ret s',
    wim_apply_dentry_ntfs depth w verbose d s = Some (ret, s')
    /\ apply_post ds d s s' ret
    /\ (extracted_file (dentries s !!! d) = None \/ dentries s' = dentries s).
Proof.
  intros Hdepth Hinv Hlt. unfold wim_apply_dentry_ntfs.
  destruct (extracted_file (dentries s !!! d)) as [y|] eqn:Hx.
  { exists RET_OK, s. split; [done|]. split; [|by right].
    unfold apply_post. split_and!; try done.
    - exists []. by rewrite app_nil_r.
    - intros x Hn [z Hz]. congruence.
    - intros _ _. left. rewrite Hx. by eexists. }
  set (s0 := if verbose then _ else s).
  assert (dentries s0 = dentries s) as Hd0 by (unfold s0; by destruct verbose).
  assert (exists cs, trace s0 = trace s ++ cs /\ Forall (tail_call d) cs)
    as (c0 & Hc0 & Ht0).
  { unfold s0. destruct verbose.
    - eexists. split; [reflexivity|]. by repeat constructor.
    - exists []. split; [by rewrite app_nil_r | constructor]. }
  assert (apply_inv ds (dentries s0) (trace s0)) as Hinv0.
  { rewrite Hd0, Hc0. by apply (apply_inv_tail ds _ _ _ d). }
  assert (forall ret s',
            apply_post ds d s0 s' ret -> apply_post ds d s s' ret) as Hback.
  { intros ret s'. apply apply_post_prefix; [done | by exists c0]. }
  pose proof (inv_static _ _ _ Hinv) as Hst.
  destruct (static_fields ds (dentries s) d Hst) as (_ & _ & Hpar & _).
  unfold dentry_is_root. rewrite Hd0, Hpar.
  destruct (bool_decide_reflect (parent (ds !!! d) = d)) as [Hroot|Hnr].
  - pose proof (wim_apply_root_dentry_ntfs_extends d s0) as [Hd' (cs & Htr' & Hcs)].
    destruct (wim_apply_root_dentry_ntfs d w s0) as [ret s']. simpl in *.
    exists ret, s'. split; [done|]. split; [|by left].
    assert (is_directory ds d) as Hdir by (by apply (wf_root ds wf)).
    apply Hback. unfold apply_post. rewrite Hd', Htr'. split_and!; try done.
    + apply (apply_inv_populate ds _ _ _ d); try done; [by right|].
      intros i m path _. by apply (directory_not_linked ds wf).
    + by eexists.
    + intros x Hn [z Hz]. congruence.
  - assert (forall c, tail_call d c ->
                      apply_inv ds (dentries s0) (trace s0 ++ [c])) as Hinv1.
    { intros c Hc. apply (apply_inv_tail ds _ _ _ d); try done.
      - by rewrite Hd0.
      - by repeat constructor. }
    destruct (ntfs_pathname_to_inode _ _ _) as [v [dir_ni|]].
    + destruct (do_wim_apply_dentry_ntfs_post depth d dir_ni
                  (called s0 v (call_ntfs_pathname_to_inode
                                  (dir_name_of (full_path_utf8 (dentries s !!! d))))))
        as (ret & s' & -> & Hpost); try done.
      { by apply Hinv1. }
      { cbn [called dentries]. by rewrite Hd0. }
      exists ret, s'. split; [done|]. split; [|by left].
      apply Hback. eapply apply_post_prefix; [| |exact Hpost]; [done|].
      by eexists.
    + eexists _, _. split; [reflexivity|]. split; [|by left].
      apply Hback. apply (apply_post_failure ds); try done.
      * by apply Hinv1.
      * by eexists.
      * intros x Hn [z Hz]. simpl in Hz. congruence.
Qed.

End Walk.

Section WalkOrder.

Context `{env : apply_env}.
Variable ds : list dentry.
Hypothesis wf : link_groups_wf ds.
Variable w : WIMStruct.

Lemma first_visited_app (visited more : list nat) (f : nat) :
  first_visited ds visited f -> first_visited ds (visited ++ more) f.
Proof.
  intros (pre & post & -> & H). exists pre, (post ++ more).
  split; [|done]. by rewrite <- app_assoc.
Qed.

Lemma primaries_chosen_app (visited more : list nat) (s : apply_state) :
  primaries_chosen ds visited s -> primaries_chosen ds (visited ++ more) s.
Proof.
  intros H p Hp. destruct (H p Hp) as (f & Hf & Hr).
  exists f. split; [by apply first_visited_app | done].
Qed.

(** A visited file has an extracted member in its group. *)
Lemma files_done_extracted (visited : list nat) (s : apply_state) (m : nat) :
  apply_inv ds (dentries s) (trace s) ->
  files_done ds visited s ->
  m ∈ visited -> ~ is_directory ds m ->
  exists p, same_group ds m p /\ is_Some (extracted_file (dentries s !!! p)).
Proof.
  intros Hinv Hdone Hm Hnd.
  destruct (Hdone m Hm Hnd) as [Hx | (i & path & Hi)].
  - exists m. split; [by left | done].
  - destruct (inv_link _ _ _ Hinv i m path Hi) as (_ & _ & p & Hp & Hpx & _).
    exists p. split; [by right|]. rewrite Hpx. by eexists.
Qed.

Lemma visit_primaries_chosen (visited : list nat) (d : nat)
    (s s' : apply_state) (ret : wimlib_ret) :
  apply_inv ds (dentries s) (trace s) ->
  files_done ds visited s ->
  primaries_chosen ds visited s ->
  apply_post ds d s s' ret ->
  extracted_file (dentries s !!! d) = None \/ dentries s' = dentries s ->
  primaries_chosen ds (visited ++ [d]) s'.
Proof.
  intros Hinv Hdone Hchosen (Hinv' & _ & Hmono & Hnews & _) Hd p Hp.
  destruct (extracted_file (dentries s !!! p)) as [y|] eqn:Hps.
  { destruct (Hchosen p) as (f & Hf & Hr); [rewrite Hps; by eexists|].
    exists f. split; [by apply first_visited_app | done]. }
  destruct Hd as [Hd|Hd]; [|rewrite Hd, Hps in Hp; by destruct Hp].
  destruct (Hnews p Hps Hp) as [Hothers Hrule].
  exists d. split; [|done].
  exists visited, []. split; [done|]. intros x Hx Hsame.
  assert (forall q, same_group ds d q ->
                    extracted_file (dentries s !!! q) = None) as Hnone.
  { intros q [<-|Hq]; [done | by apply Hothers]. }
  assert (~ is_directory ds x) as Hnd.
  { destruct Hp as [z Hz].
    destruct (inv_primary _ _ _ Hinv' p z Hz) as (_ & Hpd & _).
    destruct Hsame as [<-|Hx'].
    - destruct Hrule as [[-> _] | [Hpg _]]; [done|].
      by apply (wf_files ds wf d p).
    - apply (wf_files ds wf x d). by apply (wf_sym ds wf). }
  destruct (files_done_extracted visited s x Hinv Hdone Hx Hnd)
    as (q & Hxq & [z Hz]).
  rewrite (Hnone q) in Hz; [done|].
  by apply (same_group_trans ds wf d x q).
Qed.

Lemma visit_files_done (visited : list nat) (d : nat)
    (s s' : apply_state) :
  files_done ds visited s ->
  apply_post ds d s s' RET_OK ->
  files_done ds (visited ++ [d]) s'.
Proof.
  intros Hdone (_ & [cs Htr] & Hmono & _ & Hg) m Hm Hnd.
  apply elem_of_app in Hm as [Hm|Hm].
  - destruct (Hdone m Hm Hnd) as [[y Hy] | (i & path & Hi)].
    + left. rewrite (Hmono m y Hy). by eexists.
    + right. exists i, path. rewrite Htr. by apply lookup_app_l_Some.
  - apply list_elem_of_singleton in Hm as ->. by apply Hg.
Qed.

(** The walk returns; the invariant of the apply holds of what it
    leaves. *)
Lemma for_dentry_in_tree_walk (depth : nat) (verbose : bool) (order : list nat) :
  (2 <= depth)%nat ->
  forall visited s,
    Forall (fun d => (d < length ds)%nat) order ->
    apply_inv ds (dentries s) (trace s) ->
    files_done ds visited s ->
    primaries_chosen ds visited s ->
    exists ret s',
      for_dentry_in_tree order (wim_apply_dentry_ntfs depth w verbose) s
      = Some (ret, s')
      /\ apply_inv ds (dentries s') (trace s')
      /\ primaries_chosen ds (visited ++ order) s'
      /\ (ret = RET_OK -> files_done ds (visited ++ order) s').
Proof.
  intros Hdepth. induction order as [|d order IH];
    intros visited s Hrange Hinv Hdone Hchosen.
  - exists RET_OK, s. rewrite app_nil_r. by split_and!.
  - apply Forall_cons in Hrange as [Hd Hrange].
    cbn [for_dentry_in_tree].
    destruct (wim_apply_dentry_ntfs_post ds wf w depth verbose d s Hdepth Hinv Hd)
      as (ret & s1 & -> & Hpost & Hfresh).
    pose proof (visit_primaries_chosen visited d s s1 ret
                  Hinv Hdone Hchosen Hpost Hfresh) as Hchosen1.
    destruct (decide (ret = RET_OK)) as [->|Hfail].
    + destruct (IH (visited ++ [d]) s1) as (ret & s' & -> & H1 & H2 & H3);
        try done.
      * by destruct Hpost.
      * by apply (visit_files_done visited d s).
      * exists ret, s'. rewrite <- app_assoc in H2, H3. by split_and!.
    + exists ret, s1. split_and!; try done.
      * by destruct Hpost.
      * rewrite (cons_middle d), app_assoc. by apply primaries_chosen_app.
Qed.

End WalkOrder.

Section HardLinks.

Context `{env : apply_env}.

Lemma apply_inv_initial (ds : list dentry) :
  link_groups_wf ds -> apply_inv ds ds [].
Proof.
  intros wf. split.
  - apply list_eq. intros i.
    change (map clear_extracted_file ds) with (clear_extracted_file <$> ds).
    rewrite list_lookup_fmap.
    destruct (ds !! i) as [x|] eqn:E; [|done]. simpl. f_equal.
    pose proof (wf_fresh ds wf i) as H.
    rewrite (list_lookup_total_correct _ _ _ E) in H.
    destruct x. simpl in H. by subst.
  - intros p x Hx. by rewrite (wf_fresh ds wf p) in Hx.
  - intros i m path Hi. done.
  - intros c m Hc. by apply elem_of_nil in Hc.
Qed.

(** C5.  Take an image whose hard-link groups are well formed, with at
    most one short name per group and directory, and walk its dentries
    in any order with [wim_apply_dentry_ntfs], two nested applies being
    allowed.  The walk returns, and in the trace of the calls made on the
    volume:
    - a dentry whose [extracted_file] is recorded, a primary, holds its
      own full path; it is the primary of the first visited member [f]
      of its group, that is the member with a short name in the
      directory of [f] if there is one and [f] itself otherwise; it was
      created by [ntfs_create], and no other member of its group is a
      primary;
    - every [ntfs_link] made for a dentry [m] links it to the recorded
      path of the primary [p] of its group; [p] was created before, and
      no call is made for [p] from that link on: [p] is fully populated
      before any other member is created;
    - for a member [m] of the group of a primary nothing is called but
      [ntfs_link] and [ntfs_set_ntfs_dos_name]: it is never created by
      [ntfs_create] and none of its streams is opened or written;
    - when the walk succeeds, every visited file is a primary or was
      linked. *)
Theorem hard_link_primary_first (ds : list dentry) (w : WIMStruct)
    (verbose : bool) (order : list nat) (depth : nat) (v0 : ntfs_volume) :
  link_groups_wf ds ->
  Forall (fun d => (d < length ds)%nat) order ->
  (2 <= depth)%nat ->
  exists ret s',
    for_dentry_in_tree order (wim_apply_dentry_ntfs depth w verbose)
      {| dentries := ds; vol := v0; trace := [] |}
    = Some (ret, s')
    /\ (forall p path,
          extracted_file (dentries s' !!! p) = Some path ->
          path = full_path_utf8 (ds !!! p)
          /\ (exists f, first_visited ds order f /\ primary_rule ds f p)
          /\ (exists j, trace s' !! j = Some (call_ntfs_create p S_IFREG))
          /\ forall o, o ∈ link_group_list (ds !!! p) ->
                       extracted_file (dentries s' !!! o) = None)
    /\ (forall i m path,
          trace s' !! i = Some (call_ntfs_link m path) ->
          exists p,
            p ∈ link_group_list (ds !!! m)
            /\ extracted_file (dentries s' !!! p) = Some path
            /\ (exists j, (j < i)%nat
                          /\ trace s' !! j = Some (call_ntfs_create p S_IFREG))
            /\ forall k c, (i <= k)%nat -> trace s' !! k = Some c ->
                           call_dentry c <> Some p)
    /\ (forall m p c,
          p ∈ link_group_list (ds !!! m) ->
          is_Some (extracted_file (dentries s' !!! p)) ->
          c ∈ trace s' -> call_dentry c = Some m ->
          link_or_dos_name c)
    /\ (ret = RET_OK ->
        forall m, m ∈ order -> ~ is_directory ds m ->
          is_Some (extracted_file (dentries s' !!! m))
          \/ exists i path, trace s' !! i = Some (call_ntfs_link m path)).
Proof.
  intros wf Hrange Hdepth.
  destruct (for_dentry_in_tree_walk ds wf w depth verbose order Hdepth []
              {| dentries := ds; vol := v0; trace := [] |} Hrange)
    as (ret & s' & Hrun & Hinv & Hchosen & Hdone).
  - by apply apply_inv_initial.
  - intros m Hm. by apply elem_of_nil in Hm.
  - intros p [y Hy]. simpl in Hy. by rewrite (wf_fresh ds wf p) in Hy.
  - exists ret, s'. split; [exact Hrun|]. simpl in Hchosen, Hdone.
    split_and!.
    + intros p path Hp.
      destruct (inv_primary _ _ _ Hinv p path Hp) as (H1 & _ & H3 & H4).
      split_and!; try done. apply Hchosen. rewrite Hp. by eexists.
    + intros i m path Hi.
      destruct (inv_link _ _ _ Hinv i m path Hi) as (_ & _ & p & H).
      by exists p.
    + intros m p c Hp [y Hy] Hc Hm.
      destruct (inv_primary _ _ _ Hinv p y Hy) as (_ & _ & H3 & _).
      destruct (inv_calls _ _ _ Hinv c m Hc Hm) as [H | [[z Hz] | H]].
      * done.
      * rewrite (H3 m) in Hz; [done|]. by apply (wf_sym ds wf).
      * by destruct (wf_files ds wf m p Hp).
    + exact Hdone.
Qed.

End HardLinks.

(** The hard-link groups of the scenario "DOS-name ordering". *)
Lemma dos_name_groups (d : nat) :
  link_group_list (Scenario.dos_name_dentries !!! d)
  = match d with
    | 2 => [3; 4]
    | 3 => [4; 2]
    | 4 => [2; 3]
    | _ => []
    end%nat.
Proof. do 5 (destruct d as [|d]; [reflexivity|]). reflexivity. Qed.

Ltac members H :=
  simpl in H;
  repeat (let E := fresh "E" in
          apply elem_of_cons in H as [E|H]; [try discriminate E; subst|]);
  try (by apply elem_of_nil in H).

Lemma dos_name_dentries_wf : link_groups_wf Scenario.dos_name_dentries.
Proof.
  split.
  - intros d. do 5 (destruct d as [|d]; [reflexivity|]). reflexivity.
  - intros d o H. rewrite (dos_name_groups d) in H.
    destruct d as [|[|[|[|[|d]]]]]; members H; vm_compute; lia.
  - intros d H. rewrite (dos_name_groups d) in H.
    destruct d as [|[|[|[|[|d]]]]]; members H.
  - intros d o H. rewrite (dos_name_groups d) in H.
    destruct d as [|[|[|[|[|d]]]]]; members H;
      rewrite dos_name_groups; compute_done.
  - intros d o o' H H' Hne. rewrite (dos_name_groups d) in H, H'.
    destruct d as [|[|[|[|[|d]]]]]; members H; members H';
      try done; rewrite dos_name_groups; compute_done.
  - intros d. rewrite dos_name_groups.
    destruct d as [|[|[|[|[|d]]]]]; compute_done.
  - intros d o H. rewrite (dos_name_groups d) in H.
    destruct d as [|[|[|[|[|d]]]]]; members H; intros Hd; by apply Hd.
  - intros d Hlt Hp.
    destruct d as [|[|[|[|[|d]]]]]; try discriminate Hp.
    vm_compute. discriminate.
  - intros d o H [Hp Hs]. rewrite (dos_name_groups d) in H.
    destruct d as [|[|[|[|[|d]]]]]; members H;
      first [reflexivity | destruct Hs; reflexivity].
Qed.

(** The three names of the scenario "DOS-name ordering", walked from the
    root on the obliging volume: [LONGNAME.TXT] is created and the two
    other names are linked to it. *)
Lemma hard_link_primary_first_witness :
  link_groups_wf Scenario.dos_name_dentries
  /\ Forall (fun d => (d < length Scenario.dos_name_dentries)%nat)
            [0; 1; 2; 3; 4]%nat
  /\ (2 <= 2)%nat
  /\ exists ret s',
       @for_dentry_in_tree (Scenario.obliging_apply_env (fun _ => Scenario.hello))
         [0; 1; 2; 3; 4]%nat
         (wim_apply_dentry_ntfs 2 Scenario.hello_wim false)
         (Scenario.initial_apply_state (fun _ => Scenario.hello)
            Scenario.dos_name_dentries)
       = Some (ret, s')
       /\ forall i m path,
            trace s' !! i = Some (call_ntfs_link m path) ->
            exists p,
              p ∈ link_group_list (Scenario.dos_name_dentries !!! m)
              /\ extracted_file (dentries s' !!! p) = Some path
              /\ (exists j, (j < i)%nat
                            /\ trace s' !! j
                               = Some (call_ntfs_create p S_IFREG))
              /\ forall k c, (i <= k)%nat -> trace s' !! k = Some c ->
                             call_dentry c <> Some p.
Proof.
  assert (Forall (fun d => (d < length Scenario.dos_name_dentries)%nat)
                 [0; 1; 2; 3; 4]%nat) as Hrange
    by (repeat constructor; vm_compute; lia).
  split; [exact dos_name_dentries_wf|]. split; [exact Hrange|].
  split; [lia|].
  destruct (@hard_link_primary_first
              (Scenario.obliging_apply_env (fun _ => Scenario.hello))
              Scenario.dos_name_dentries Scenario.hello_wim false
              [0; 1; 2; 3; 4]%nat 2%nat tt dos_name_dentries_wf Hrange
              (le_n 2))
    as (ret & s' & Hrun & _ & Hlinks & _).
  exists ret, s'. split; [exact Hrun | exact Hlinks].
Defined.

(** * Further properties of the capture configuration parser *)

Import AddImage.

Section ConfigParserMore.

Lemma init_capture_config_loop_status (fuel : nat) :
  forall p type config,
    (String.length p <= fuel)%nat ->
    (exists config', init_capture_config_loop fuel p type config
                     = Some (RET_OK, config'))
    \/ init_capture_config_loop fuel p type config
       = Some (WIMLIB_ERR_INVALID_CAPTURE_CONFIG, zero_capture_config).
Proof.
  induction fuel as [|fuel IH]; intros p type config Hlen.
  - destruct p; [left; by eexists | simpl in Hlen; lia].
  - destruct p as [|c0 p0]; [left; by eexists|].
    cbn [init_capture_config_loop].
    destruct (memchr_newline (String c0 p0)) as [[line rest]|] eqn:Em;
      [|by right].
    apply memchr_newline_split in Em as [Ep _].
    assert (String.length rest <= fuel)%nat as Hr.
    { rewrite Ep, length_app_string in Hlen. simpl in Hlen. lia. }
    repeat match goal with
           | |- context [if ?b then _ else _] => destruct b
           | |- context [match ?t with NONE => _ | _ => _ end] => destruct t
           | |- context [init_capture_config_loop _ _ _ _] => by apply IH
           | |- _ \/ Some _ = Some _ => by right
           end.
Qed.

(** X1.  [init_capture_config] returns on every text, with one of two
    results: success, or [WIMLIB_ERR_INVALID_CAPTURE_CONFIG] with the
    configuration destroyed, that is, without any pattern, whatever was
    read before the offending line. *)
Theorem init_capture_config_failure_leaves_nothing (config_str : string) :
  (exists config, init_capture_config config_str = Some (RET_OK, config))
  \/ init_capture_config config_str
     = Some (WIMLIB_ERR_INVALID_CAPTURE_CONFIG, zero_capture_config).
Proof. by apply init_capture_config_loop_status. Qed.

Lemma strchr_cstr (p : string) (c : ascii) :
  strchr p c = false -> strchr (cstr p) c = false.
Proof.
  induction p as [|d p IH]; simpl; [done|].
  intros H. apply orb_false_iff in H as [Hd H].
  destruct (Ascii.eqb d NUL); [done|]. simpl. by rewrite Hd, IH.
Qed.

Lemma strchr_cstr_nul (p : string) : strchr (cstr p) NUL = false.
Proof.
  induction p as [|d p IH]; simpl; [done|].
  destruct (Ascii.eqb d NUL) eqn:E; [done|]. simpl. by rewrite E, IH.
Qed.

Lemma strchr_remove_drive_letter (p : string) (c : ascii) :
  strchr p c = false -> strchr (remove_drive_letter p) c = false.
Proof.
  unfold remove_drive_letter. destruct (_ <? _)%nat; [|done].
  destruct p as [|c0 [|c1 p]]; try done.
  destruct (isalpha c0 && Ascii.eqb c1 ":"); [|done].
  simpl. intros H. apply orb_false_iff in H as [_ H].
  by apply orb_false_iff in H as [_ H].
Qed.

Lemma strchr_translate_backslash (p : string) :
  strchr (translate_backslash p) BACKSLASH = false.
Proof.
  induction p as [|d p IH]; simpl; [done|]. rewrite IH, orb_false_r.
  destruct (Ascii.eqb d BACKSLASH) eqn:E; [done | exact E].
Qed.

Lemma strchr_translate_backslash_lf (p : string) :
  strchr p LF = false -> strchr (translate_backslash p) LF = false.
Proof.
  induction p as [|d p IH]; simpl; [done|].
  intros H. apply orb_false_iff in H as [Hd H]. rewrite (IH H), orb_false_r.
  destruct (Ascii.eqb d BACKSLASH); [done | exact Hd].
Qed.

Lemma strchr_strip_cr (p : string) (c : ascii) :
  strchr p c = false -> strchr (strip_cr p) c = false.
Proof.
  induction p as [|d p IH]; simpl; [done|].
  intros H. apply orb_false_iff in H as [Hd H].
  destruct p as [|e p].
  - destruct (Ascii.eqb d CR); simpl; by rewrite ?Hd.
  - change (strchr (String d (strip_cr (String e p))) c = false).
    simpl strchr at 1. rewrite Hd. by apply IH.
Qed.

Lemma stored_pattern_line (line : string) :
  strchr line LF = false ->
  stored_pattern
    (cstr (remove_drive_letter (translate_backslash (strip_cr line)))).
Proof.
  intros H. split; [|split].
  - apply strchr_cstr, strchr_remove_drive_letter, strchr_translate_backslash.
  - by apply strchr_cstr, strchr_remove_drive_letter,
      strchr_translate_backslash_lf, strchr_strip_cr.
  - apply strchr_cstr_nul.
Qed.

Lemma init_capture_config_loop_patterns (fuel : nat) :
  forall p type config config',
    init_capture_config_loop fuel p type config = Some (RET_OK, config') ->
    stored_patterns config -> stored_patterns config'.
Proof.
  induction fuel as [|fuel IH]; intros p type config config' Hrun Hc.
  - destruct p; simpl in Hrun; [by injection Hrun as <- | done].
  - destruct p as [|c0 p0]; [simpl in Hrun; by injection Hrun as <-|].
    cbn [init_capture_config_loop] in Hrun.
    destruct (memchr_newline (String c0 p0)) as [[line rest]|] eqn:Em;
      [|done].
    apply memchr_newline_split in Em as [_ Hlf].
    pose proof (stored_pattern_line line Hlf) as Hp.
    destruct Hc as (H1 & H2 & H3 & H4).
    repeat match type of Hrun with
           | context [if ?b then _ else _] => destruct b
           | context [match ?t with NONE => _ | _ => _ end] => destruct t
           end;
      try discriminate Hrun;
      (eapply IH; [exact Hrun|]); unfold stored_patterns; cbn;
      unfold pattern_list_add_pattern;
      split_and!; try done; apply Forall_app; split; try done;
      by constructor.
Qed.

(** X2.  Every pattern of a configuration that [init_capture_config]
    accepted is a C string without backslash and without newline: the
    patterns are stored with forward slashes only. *)
Theorem init_capture_config_patterns (config_str : string)
    (config : capture_config) :
  init_capture_config config_str = Some (RET_OK, config) ->
  stored_patterns config.
Proof.
  intros H. apply (init_capture_config_loop_patterns _ _ _ _ _ H).
  by repeat split.
Qed.

Lemma strip_cr_with_cr (line : string) : strip_cr (with_cr line) = line.
Proof.
  induction line as [|c line IH]; [reflexivity|].
  unfold with_cr in *. simpl.
  destruct (line +:+ String CR "")%string eqn:E.
  - destruct line; discriminate.
  - by rewrite <- IH.
Qed.

Lemma strip_cr_no_cr (line : string) :
  strchr line CR = false -> strip_cr line = line.
Proof.
  induction line as [|c line IH]; [reflexivity|]. simpl.
  intros H. apply orb_false_iff in H as [Hc H].
  destruct line; [by rewrite Hc | by rewrite IH].
Qed.

Lemma strchr_app (a b : string) (c : ascii) :
  strchr (a +:+ b) c = strchr a c || strchr b c.
Proof. induction a as [|d a IH]; simpl; [done|]. by rewrite IH, orb_assoc. Qed.

Lemma parse_config_lines_with_cr (strip : string -> string) (lines : list string) :
  Forall (fun l => l <> EmptyString /\ strchr l CR = false) lines ->
  forall type config,
    parse_config_lines strip (map with_cr lines) type config
    = parse_config_lines strip lines type config.
Proof.
  induction 1 as [|line lines [Hne Hcr] _ IH]; intros type config; [done|].
  cbn [map parse_config_lines].
  rewrite strip_cr_with_cr, (strip_cr_no_cr line Hcr).
  assert (String.eqb (with_cr line) "" = false) as ->.
  { apply String.eqb_neq. destruct line; discriminate. }
  assert (String.eqb line "" = false) as -> by (by apply String.eqb_neq).
  destruct (section_header _); [by apply IH|].
  destruct (bracketed _); [done|].
  destruct (add_pattern _ _ _); [by apply IH | done].
Qed.

(** X3.  Windows line endings.  A text whose lines are not empty and end
    with carriage return and line feed is read as the same text with
    line feeds only. *)
Theorem init_capture_config_crlf (lines : list string) :
  Forall (fun l => l <> EmptyString /\ strchr l LF = false
                   /\ strchr l NUL = false /\ strchr l CR = false) lines ->
  init_capture_config (unlines (map with_cr lines))
  = init_capture_config (unlines lines).
Proof.
  intros H. unfold init_capture_config.
  rewrite !init_capture_config_loop_lines; try apply length_unlines.
  - f_equal. apply parse_config_lines_with_cr.
    eapply Forall_impl; [exact H|]. by intros l (? & _ & _ & ?).
  - eapply Forall_impl; [exact H|]. by intros l (_ & ? & ? & _).
  - apply Forall_forall. intros l' Hl.
    apply list_elem_of_fmap in Hl as (l & -> & Hl).
    rewrite Forall_forall in H. destruct (H l Hl) as (_ & H1 & H2 & _).
    unfold with_cr. rewrite !strchr_app, H1, H2. done.
Qed.

(** A blank line that ends with carriage return and line feed is not
    skipped: before any section it is refused. *)
Lemma init_capture_config_crlf_blank_line (rest : string) :
  init_capture_config (String CR (String LF rest))
  = Some (WIMLIB_ERR_INVALID_CAPTURE_CONFIG, zero_capture_config).
Proof. reflexivity. Qed.

End ConfigParserMore.

(** The default configuration is accepted, and what it stores holds no
    backslash. *)
Lemma init_capture_config_patterns_witness :
  exists config,
    init_capture_config Scenario.default_config = Some (RET_OK, config)
    /\ stored_patterns config.
Proof.
  assert (exists config,
            init_capture_config Scenario.default_config
            = Some (RET_OK, config)) as [config H]
    by (vm_compute; eexists; reflexivity).
  exists config. split; [exact H|].
  exact (init_capture_config_patterns Scenario.default_config config H).
Defined.

(** Two lines, with line feeds or with carriage returns and line
    feeds. *)
Lemma init_capture_config_crlf_witness :
  Forall (fun l => l <> EmptyString /\ strchr l LF = false
                   /\ strchr l NUL = false /\ strchr l CR = false)
         ["[ExclusionList]"; "*.log"]%string
  /\ init_capture_config
       (unlines (map with_cr ["[ExclusionList]"; "*.log"]%string))
     = init_capture_config (unlines ["[ExclusionList]"; "*.log"]%string).
Proof.
  assert (Forall (fun l => l <> EmptyString /\ strchr l LF = false
                           /\ strchr l NUL = false /\ strchr l CR = false)
                 ["[ExclusionList]"; "*.log"]%string) as H
    by (repeat constructor; discriminate).
  split; [exact H|].
  exact (init_capture_config_crlf ["[ExclusionList]"; "*.log"]%string H).
Defined.

(** * Properties of the targets of the capture sources *)

Import AddImage.

Section TargetPaths.

Lemma append_cons (c : ascii) (a b : string) :
  (String c a +:+ b)%string = String c (a +:+ b).
Proof. reflexivity. Qed.

Lemma append_nil (b : string) : (EmptyString +:+ b)%string = b.
Proof. reflexivity. Qed.

Lemma string_app_nil_r (a : string) : (a +:+ EmptyString)%string = a.
Proof.
  induction a as [|x a IH]; [done|]. by rewrite append_cons, IH.
Qed.

Lemma skip_slashes_spec (t : string) :
  exists n, t = (slashes n +:+ skip_slashes t)%string
            /\ forall rest, skip_slashes t <> String SLASH rest.
Proof.
  induction t as [|c t (n & Ht & Hn)]; simpl.
  - exists O. by split.
  - destruct (Ascii.eqb c SLASH) eqn:E.
    + apply Ascii.eqb_eq in E as ->. exists (S n). cbn [slashes].
      rewrite append_cons. split; [cbn [slashes] in *; congruence|].
      exact Hn.
    + exists O. split; [done|]. intros rest [= -> _].
      by rewrite Ascii.eqb_refl in E.
Qed.

Lemma cut_trailing_slashes_spec (t : string) :
  exists m, t = (cut_trailing_slashes t +:+ slashes m)%string
            /\ forall pre, cut_trailing_slashes t
                           <> (pre +:+ String SLASH EmptyString)%string.
Proof.
  induction t as [|c t (m & Ht & Hm)]; simpl.
  - exists O. split; [done|]. intros [|? ?]; discriminate.
  - destruct (cut_trailing_slashes t) as [|c' t'] eqn:Ec.
    + destruct (Ascii.eqb c SLASH) eqn:E.
      * apply Ascii.eqb_eq in E as ->. exists (S m).
        rewrite append_nil in *. split; [cbn [slashes] in *; congruence|].
        intros [|? ?]; discriminate.
      * exists m. rewrite append_nil in Ht. rewrite append_cons, append_nil.
        split; [cbn [slashes] in *; congruence|].
        intros [|? [|? ?]]; rewrite ?append_cons, ?append_nil;
          try discriminate.
        intros [= ->]. by rewrite Ascii.eqb_refl in E.
    + exists m. rewrite append_cons. split; [cbn [slashes] in *; congruence|].
      intros [|x pre]; rewrite ?append_cons, ?append_nil; [discriminate|].
      intros [= -> H]. by apply (Hm pre).
Qed.

Lemma cut_trailing_slashes_head (c : ascii) (t : string) :
  c <> SLASH ->
  exists t', cut_trailing_slashes (String c t) = String c t'.
Proof.
  intros Hc. simpl. destruct (cut_trailing_slashes t); [|by eexists].
  apply Ascii.eqb_neq in Hc. rewrite Hc. by eexists.
Qed.

Lemma skip_slashes_fixed (t : string) :
  (forall rest, t <> String SLASH rest) -> skip_slashes t = t.
Proof.
  destruct t as [|c t]; [done|]. simpl. intros H.
  destruct (Ascii.eqb c SLASH) eqn:E; [|done].
  apply Ascii.eqb_eq in E as ->. by destruct (H t).
Qed.

Lemma cut_trailing_slashes_fixed (t : string) :
  (forall pre, t <> (pre +:+ String SLASH EmptyString)%string) ->
  cut_trailing_slashes t = t.
Proof.
  induction t as [|c t IH]; [done|]. intros H.
  cbn [cut_trailing_slashes]. rewrite IH.
  - destruct t as [|c' t']; [|done].
    destruct (Ascii.eqb c SLASH) eqn:E; [|done].
    apply Ascii.eqb_eq in E as ->. by destruct (H EmptyString).
  - intros pre ->. by apply (H (String c pre)).
Qed.

(** X4.  [canonicalize_target_path] strips the leading and the trailing
    slashes and nothing else: the path is the result between two runs of
    slashes, and the result neither begins nor ends with a slash (it is
    empty for a path made of slashes only, and for [NULL]).  Slashes
    inside the path are kept, and canonicalizing twice changes nothing
    more. *)
Theorem canonicalize_target_path_strips (target_path : string) :
  (exists n m,
     target_path
     = (slashes n +:+ canonicalize_target_path (Some target_path)
        +:+ slashes m)%string)
  /\ (forall rest,
        canonicalize_target_path (Some target_path) <> String SLASH rest)
  /\ (forall pre,
        canonicalize_target_path (Some target_path)
        <> (pre +:+ String SLASH EmptyString)%string)
  /\ canonicalize_target_path (Some (canonicalize_target_path (Some target_path)))
     = canonicalize_target_path (Some target_path)
  /\ canonicalize_target_path None = EmptyString.
Proof.
  assert (forall t, canonicalize_target_path (Some t)
                    = cut_trailing_slashes (skip_slashes t)) as Hc'.
  { intros t. unfold canonicalize_target_path. simpl.
    by destruct (skip_slashes t). }
  pose proof (Hc' target_path) as Hc.
  destruct (skip_slashes_spec target_path) as (n & Hn & Hhead).
  destruct (cut_trailing_slashes_spec (skip_slashes target_path))
    as (m & Hm & Htail).
  assert (forall rest,
            cut_trailing_slashes (skip_slashes target_path)
            <> String SLASH rest) as Hhead'.
  { destruct (skip_slashes target_path) as [|c t] eqn:E; [done|].
    assert (c <> SLASH) as Hne by (intros ->; by destruct (Hhead t)).
    destruct (cut_trailing_slashes_head c t Hne) as (t' & ->).
    intros rest [= ? _]. done. }
  split_and!.
  - exists n, m. by rewrite Hc, <- Hm.
  - by rewrite Hc.
  - by rewrite Hc.
  - rewrite Hc, Hc', (skip_slashes_fixed _ Hhead').
    by apply cut_trailing_slashes_fixed.
  - done.
Qed.

Lemma skip_slashes_slashes (n : nat) (t : string) :
  skip_slashes (slashes n +:+ t) = skip_slashes t.
Proof. induction n as [|n IH]; [done|]. by cbn [slashes]. Qed.

Lemma canonicalize_target_path_root (target_path : option string) :
  canonicalize_target_path target_path = EmptyString
  <-> exists n, default EmptyString target_path = slashes n.
Proof.
  unfold canonicalize_target_path.
  set (t := default EmptyString target_path). split.
  - intros Hc. destruct (skip_slashes_spec t) as (n & Hn & Hhead).
    exists n. destruct (skip_slashes t) as [|c t'] eqn:E.
    { by rewrite Hn, string_app_nil_r. }
    exfalso.
    assert (c <> SLASH) as Hne by (intros ->; by destruct (Hhead t')).
    destruct (cut_trailing_slashes_head c t' Hne) as (t'' & Ht'').
    by rewrite Ht'' in Hc.
  - intros [n ->]. rewrite <- (string_app_nil_r (slashes n)).
    by rewrite skip_slashes_slashes.
Qed.

(** X5.  A capture from an NTFS volume takes one source, targeted at the
    root.  After [canonicalize_targets], [check_sorted_sources] accepts
    any sources without the flag NTFS; with it, it accepts exactly one
    source whose target was [NULL], empty or made of slashes only, and
    answers [WIMLIB_ERR_INVALID_PARAM] to anything else. *)
Theorem ntfs_capture_takes_one_root_source
    (sources : list wimlib_capture_source) (add_image_flags : Z) :
  (check_sorted_sources (canonicalize_targets sources) add_image_flags
   = RET_OK
   \/ check_sorted_sources (canonicalize_targets sources) add_image_flags
      = WIMLIB_ERR_INVALID_PARAM)
  /\ (check_sorted_sources (canonicalize_targets sources) add_image_flags
      = RET_OK
      <-> flag_set add_image_flags WIMLIB_ADD_IMAGE_FLAG_NTFS = false
          \/ exists source n,
               sources = [source]
               /\ default EmptyString (wim_target_path source) = slashes n).
Proof.
  unfold check_sorted_sources.
  destruct (flag_set add_image_flags WIMLIB_ADD_IMAGE_FLAG_NTFS).
  2: { split; [by left|]. split; [by left|done]. }
  destruct sources as [|source [|source2 sources]]; cbn [canonicalize_targets map].
  - split; [by right|]. split; [done|]. by intros [|(? & ? & ? & _)].
  - cbn [wim_target_path default].
    pose proof (canonicalize_target_path_root (wim_target_path source)) as Hc.
    destruct (canonicalize_target_path (wim_target_path source)).
    + split; [by left|]. split; [|done]. intros _. right.
      destruct (proj1 Hc eq_refl) as [n Hn]. by exists source, n.
    + split; [by right|]. split; [done|].
      intros [|(src & n & [= <-] & Hn)]; [done|].
      by specialize (proj2 Hc (ex_intro _ n Hn)).
  - split; [by right|]. split; [done|]. by intros [|(? & ? & ? & _)].
Qed.

End TargetPaths.

Import AddImage.

Section SortedSources.

Lemma strcmp_antisym (a b : string) : strcmp b a = - strcmp a b.
Proof.
  revert b. induction a as [|x a IH]; intros [|y b]; cbn [strcmp]; try lia.
  rewrite (Ascii.eqb_sym y x). destruct (Ascii.eqb x y); [apply IH | lia].
Qed.

Lemma strcmp_refl (a : string) : strcmp a a = 0.
Proof.
  induction a as [|x a IH]; [done|]. cbn [strcmp].
  by rewrite Ascii.eqb_refl.
Qed.

(** A path is below the paths it is in. *)
Lemma strcmp_inside (a rest : string) :
  strcmp a (a +:+ String SLASH rest) < 0.
Proof.
  induction a as [|x a IH].
  - rewrite append_nil. reflexivity.
  - rewrite append_cons. cbn [strcmp]. by rewrite Ascii.eqb_refl.
Qed.

(** X6.  Targets are attached before the targets inside them.  In the
    order [sort_sources] leaves, a source whose target lies inside the
    target of another source, that is, continues it with a slash, comes
    after that source, wherever [qsort] puts sources of equal targets. *)
Theorem contained_targets_come_later
    (qsort : (wimlib_capture_source -> wimlib_capture_source -> Z) ->
             list wimlib_capture_source -> list wimlib_capture_source)
    (sources : list wimlib_capture_source) (i j : nat)
    (outer inner : wimlib_capture_source) (rest : string) :
  StronglySorted (fun a b => capture_source_cmp a b <= 0)
                 (sort_sources qsort sources) ->
  sort_sources qsort sources !! i = Some outer ->
  sort_sources qsort sources !! j = Some inner ->
  default EmptyString (wim_target_path inner)
  = (default EmptyString (wim_target_path outer) +:+ String SLASH rest)%string ->
  (i < j)%nat.
Proof.
  intros Hsorted Hi Hj Hin.
  assert (capture_source_cmp outer inner < 0) as Hlt.
  { unfold capture_source_cmp. rewrite Hin. apply strcmp_inside. }
  destruct (decide (i < j)%nat) as [|Hge]; [done|]. exfalso.
  destruct (decide (i = j)) as [->|Hne].
  - rewrite Hi in Hj. injection Hj as ->.
    unfold capture_source_cmp in Hlt. rewrite strcmp_refl in Hlt. lia.
  - assert (j < i)%nat as Hji by lia.
    assert (capture_source_cmp inner outer <= 0) as Hle.
    { revert Hsorted i j Hi Hj Hji Hge Hne.
      generalize (sort_sources qsort sources). intros l Hsorted.
      induction Hsorted as [|x l Hs IH Hall]; intros i j Hi Hj Hji _ _;
        [done|].
      destruct j as [|j]; destruct i as [|i]; try lia.
      - injection Hj as ->. rewrite Forall_forall in Hall.
        apply Hall. by eapply list_elem_of_lookup_2.
      - apply (IH i j); try done; lia. }
    unfold capture_source_cmp in *. rewrite strcmp_antisym in Hle. lia.
Qed.

End SortedSources.

(** The sources of the scenario "Multi-source overlay with filler",
    which [qsort] finds in order. *)
Lemma contained_targets_come_later_witness :
  let os := {| fs_source_path := "/a"; wim_target_path := Some "os"%string |} in
  let drivers :=
    {| fs_source_path := "/b";
       wim_target_path := Some "os/drivers"%string |} in
  let qsort := fun (_ : wimlib_capture_source -> wimlib_capture_source -> Z)
                   (l : list wimlib_capture_source) => l in
  StronglySorted (fun a b => capture_source_cmp a b <= 0)
                 (sort_sources qsort [os; drivers])
  /\ sort_sources qsort [os; drivers] !! 0%nat = Some os
  /\ sort_sources qsort [os; drivers] !! 1%nat = Some drivers
  /\ default EmptyString (wim_target_path drivers)
     = (default EmptyString (wim_target_path os)
        +:+ String SLASH "drivers")%string
  /\ (0 < 1)%nat.
Proof.
  intros os drivers qsort.
  assert (StronglySorted (fun a b => capture_source_cmp a b <= 0)
                         (sort_sources qsort [os; drivers])) as H
    by (repeat constructor; vm_compute; discriminate).
  split; [exact H|]. split; [reflexivity|]. split; [reflexivity|].
  split; [reflexivity|].
  exact (contained_targets_come_later qsort [os; drivers] 0 1 os drivers
           "drivers" H eq_refl eq_refl eq_refl).
Defined.

(** * Further properties of [build_dentry_tree] *)

Import AddImage.

Section CaptureTree.

Context `{env : capture_env}.
Variable fs : host_fs.

Lemma build_dentry_tree_out_result (ret : wimlib_ret) (root : option wim_dentry)
    (s : capture_state) (ret' : wimlib_ret) (root' : option wim_dentry)
    (s' : capture_state) :
  build_dentry_tree_out ret root s = (ret', root', s') ->
  ret' = ret
  /\ (ret = RET_OK -> root' = root /\ s' = s)
  /\ (ret <> RET_OK -> root' = None).
Proof.
  unfold build_dentry_tree_out. destruct (decide (ret = RET_OK)) as [->|Hne];
    intros [= <- <- <-]; by split_and!.
Qed.

(** Every result of [build_dentry_tree] comes from its [out:] label,
    which is reached with success and without a dentry for an excluded
    path only. *)
Lemma build_dentry_tree_exit (fuel : nat) (path : string)
    (s : capture_state) (config : capture_config) (flags : Z) (pf : bool)
    (ret : wimlib_ret) (root : option wim_dentry) (s' : capture_state) :
  build_dentry_tree fs fuel path s config flags pf = Some (ret, root, s') ->
  exists ret0 root0 s0,
    build_dentry_tree_out ret0 root0 s0 = (ret, root, s')
    /\ (ret0 = RET_OK ->
        (root0 = None <-> exclude_path path config true = true)).
Proof.
  destruct fuel as [|fuel]; [done|]. cbn [build_dentry_tree].
  intros Hrun.
  destruct (exclude_path path config true) eqn:Hex.
  all: repeat case_match; simplify_eq.
  all: eexists _, _, _; (split; [exact Hrun|]); done.
Qed.

(** X7.  A dentry for what is captured.  [build_dentry_tree] never returns a
    dentry with a failure, and returns success without a dentry for an
    excluded path only. *)
Theorem build_dentry_tree_dentry_iff_captured (fuel : nat) (path : string)
    (s : capture_state) (config : capture_config) (flags : Z) (pf : bool)
    (ret : wimlib_ret) (root : option wim_dentry) (s' : capture_state) :
  build_dentry_tree fs fuel path s config flags pf = Some (ret, root, s') ->
  (ret <> RET_OK -> root = None)
  /\ (ret = RET_OK ->
      (root = None <-> exclude_path path config true = true)).
Proof.
  intros Hrun.
  apply build_dentry_tree_exit in Hrun as (ret0 & root0 & s0 & Hout & Hroot).
  apply build_dentry_tree_out_result in Hout as (-> & Hsame & Hnone).
  split; [done|]. intros Hok. destruct (Hsame Hok) as [-> _]. by apply Hroot.
Qed.

(** The loop over the entries of a directory keeps what each
    successful capture of an entry keeps. *)
Lemma readdir_loop_invariant
    (build : string -> capture_state ->
             option (wimlib_ret * option wim_dentry * capture_state))
    (read_error : bool) (root_disk_path : string)
    (I : wim_dentry -> capture_state -> Prop) (names : list string) :
  (forall root s d_name child s',
     d_name ∈ names -> d_name <> "."%string -> d_name <> ".."%string ->
     I root s ->
     build (root_disk_path +:+ "/" +:+ d_name)%string s
     = Some (RET_OK, child, s') ->
     I match child with
       | Some child => snd (dentry_add_child root child)
       | None => root
       end s') ->
  forall root s ret root' s',
    I root s ->
    (fix readdir_loop (names : list string) (root : wim_dentry)
         (s : capture_state)
       : option (wimlib_ret * wim_dentry * capture_state) :=
       match names with
       | [] => Some (if read_error then WIMLIB_ERR_READ else RET_OK, root, s)
       | d_name :: names =>
           if String.eqb d_name "." || String.eqb d_name ".."
           then readdir_loop names root s
           else
             match build (root_disk_path +:+ "/" +:+ d_name)%string s with
             | None => None
             | Some (ret, child, s) =>
                 if decide (ret = RET_OK) then
                   readdir_loop names
                     match child with
                     | Some child => snd (dentry_add_child root child)
                     | None => root
                     end s
                 else Some (ret, root, s)
             end
       end) names root s = Some (ret, root', s') ->
    ret = RET_OK -> I root' s'.
Proof.
  induction names as [|d_name names IH]; intros Hstep root s ret root' s' HI Hrun Hok.
  - by injection Hrun as _ <- <-.
  - assert (forall root s d_name child s',
              d_name ∈ names -> d_name <> "."%string -> d_name <> ".."%string ->
              I root s ->
              build (root_disk_path +:+ "/" +:+ d_name)%string s
              = Some (RET_OK, child, s') ->
              I match child with
                | Some child => snd (dentry_add_child root child)
                | None => root
                end s') as Hstep'.
    { intros r0 s0 n c s0' Hn. apply Hstep. apply elem_of_cons. by right. }
    destruct (String.eqb d_name "." || String.eqb d_name "..") eqn:Edot.
    { by apply (IH Hstep' root s ret root' s'). }
    apply orb_false_iff in Edot as [E1 E2].
    apply String.eqb_neq in E1, E2.
    destruct (build (root_disk_path +:+ "/" +:+ d_name)%string s)
      as [[[r child] s1]|] eqn:Eb; [|done].
    destruct (decide (r = RET_OK)) as [->|Hne].
    + eapply (IH Hstep'); [|exact Hrun|done].
      apply (Hstep root s d_name child s1); try done.
      apply elem_of_cons. by left.
    + injection Hrun as <- _ _. done.
Qed.


Lemma table_kept_refl (t : wim_lookup_table) : table_kept t t.
Proof. intros a e H. exists e. split; [done|]. split; [done | lia]. Qed.

Lemma table_kept_trans (t1 t2 t3 : wim_lookup_table) :
  table_kept t1 t2 -> table_kept t2 t3 -> table_kept t1 t3.
Proof.
  intros H12 H23 a e H. destruct (H12 a e H) as (e2 & H2 & Hh2 & Hr2).
  destruct (H23 a e2 H2) as (e3 & H3 & Hh3 & Hr3).
  exists e3. split; [done|]. split; [congruence | lia].
Qed.

Lemma table_kept_incr (t : wim_lookup_table) (a : nat) :
  table_kept t (alter lte_refcnt_incr a t).
Proof.
  intros b e H. destruct (decide (b = a)) as [->|Hne].
  - exists (lte_refcnt_incr e). rewrite lookup_alter_eq, H. split; [done|].
    split; [done | simpl; lia].
  - exists e. rewrite lookup_alter_ne by done. split; [done|].
    split; [done | lia].
Qed.

Lemma table_kept_insert_fresh (t : wim_lookup_table)
    (e : wim_lookup_table_entry) :
  table_kept t (lookup_table_insert t (fresh (dom t)) e).
Proof.
  intros b e0 H. exists e0. unfold lookup_table_insert.
  rewrite lookup_insert_ne.
  - split; [done|]. split; [done | lia].
  - intros <-. apply (is_fresh (dom t)). by apply elem_of_dom_2 in H.
Qed.

Lemma set_unix_data_kept (flags : Z) (st : stat_buf) (inode inode' : wim_inode)
    (t t' : wim_lookup_table) :
  collaborators_keep_table ->
  set_unix_data flags st inode t = (RET_OK, inode', t') -> table_kept t t'.
Proof.
  intros [Hu _]. unfold set_unix_data. destruct (flag_set _ _).
  - apply Hu.
  - intros [= _ <-]. apply table_kept_refl.
Qed.

(** X8.  When the collaborators keep the entries of the lookup table, so
    does a successful [build_dentry_tree], over the whole tree it
    captures: every entry the table had is still there, with the same
    digest and at least as many references. *)
Theorem build_dentry_tree_keeps_table (fuel : nat) (path : string)
    (s : capture_state) (config : capture_config) (flags : Z) (pf : bool)
    (root : option wim_dentry) (s' : capture_state) :
  collaborators_keep_table ->
  build_dentry_tree fs fuel path s config flags pf = Some (RET_OK, root, s') ->
  table_kept (lookup_table s) (lookup_table s').
Proof.
  intros Hkeep. revert path s flags root s'.
  induction fuel as [|fuel IH]; intros path s flags root s' Hrun; [done|].
  cbn [build_dentry_tree] in Hrun.
  destruct (exclude_path path config true) eqn:Hex.
  all: repeat case_match; simplify_eq.
  all: apply build_dentry_tree_out_result in Hrun as (? & Hsame & _);
       subst; try done; destruct (Hsame eq_refl) as [-> ->].
  all: try apply table_kept_refl.
  all: repeat match goal with
         | H : set_unix_data _ _ _ _ = (RET_OK, _, _) |- _ =>
             apply (set_unix_data_kept _ _ _ _ _ _ Hkeep) in H
         | H : inode_set_symlink _ _ _ = (RET_OK, _, _) |- _ =>
             apply (proj2 Hkeep) in H
         end.
  all: cbn [lookup_table set_lookup_table call_progress_func] in *.
  all: try assumption.
  all: try (eapply table_kept_trans; [eassumption|];
            first [apply table_kept_incr | assumption]).
  all: try match goal with
           | H : new_lookup_table_entry _ = (_, _) |- _ =>
               unfold new_lookup_table_entry in H; injection H as <- <-;
               eapply table_kept_trans; [eassumption|];
               apply table_kept_insert_fresh
           end.
  all: try match goal with
           | H : ?f ?names ?r0 ?s0 = Some (RET_OK, ?d, ?c) |- _ =>
               is_fix f;
               first
                 [ unshelve eapply (readdir_loop_invariant
                         (fun p st => build_dentry_tree fs fuel p st config _ pf)
                         true _
                         (fun _ st => table_kept (lookup_table s)
                                        (lookup_table st))
                         _ _ _ _ _ _ _ _ H eq_refl)
                 | unshelve eapply (readdir_loop_invariant
                         (fun p st => build_dentry_tree fs fuel p st config _ pf)
                         false _
                         (fun _ st => table_kept (lookup_table s)
                                        (lookup_table st))
                         _ _ _ _ _ _ _ _ H eq_refl) ]
           end.
  all: cbv beta; cbn [lookup_table set_lookup_table call_progress_func].
  all: try assumption.
  all: intros r0 st d_name child st' _ _ _ Hst Hb;
       eapply table_kept_trans; [exact Hst | by eapply IH].
Qed.

End CaptureTree.

(** The capture of [/src] in the scenario "Exclusion + exception". *)
Lemma build_dentry_tree_dentry_iff_captured_witness :
  exists ret root s',
    @build_dentry_tree Scenario.reference_capture_env Scenario.exclusion_fs
      2 "/src" Scenario.empty_capture_state Scenario.exclusion_config 0 false
    = Some (ret, root, s')
    /\ (ret <> RET_OK -> root = None)
    /\ (ret = RET_OK ->
        (root = None
         <-> @exclude_path Scenario.reference_capture_env "/src"
               Scenario.exclusion_config true = true)).
Proof.
  assert (exists ret root s',
            @build_dentry_tree Scenario.reference_capture_env
              Scenario.exclusion_fs 2 "/src" Scenario.empty_capture_state
              Scenario.exclusion_config 0 false
            = Some (ret, root, s')) as (ret & root & s' & H)
    by (vm_compute; eexists _, _, _; reflexivity).
  exists ret, root, s'. split; [exact H|].
  exact (@build_dentry_tree_dentry_iff_captured Scenario.reference_capture_env
           Scenario.exclusion_fs 2 "/src" Scenario.empty_capture_state
           Scenario.exclusion_config 0 false ret root s' H).
Defined.

(** The environment that stores UNIX data and symbolic links keeps the
    entries of the table: it adds a reference to an entry or inserts a
    new one. *)
Lemma stream_of_bytes_kept (bytes : list Byte.byte) (t : wim_lookup_table) :
  table_kept t (snd (Scenario.stream_of_bytes bytes t)).
Proof.
  unfold Scenario.stream_of_bytes.
  destruct (__lookup_resource t (Sha1.sha1 bytes)) as [lte|].
  - apply table_kept_incr.
  - apply table_kept_insert_fresh.
Qed.

Lemma linking_collaborators_keep_table :
  @collaborators_keep_table Scenario.linking_capture_env.
Proof.
  split.
  - intros inode uid gid mode t inode' t'. cbn [inode_set_unix_data
      Scenario.linking_capture_env].
    pose proof (stream_of_bytes_kept
                  (NtfsApply.put_u16 0 ++ NtfsApply.put_u16 uid
                   ++ NtfsApply.put_u16 gid ++ NtfsApply.put_u16 mode) t) as H.
    destruct (Scenario.stream_of_bytes _ t) as [lte t1].
    by intros [= _ <-].
  - intros inode target t inode' t'. cbn [inode_set_symlink
      Scenario.linking_capture_env].
    pose proof (stream_of_bytes_kept (Scenario.bytes_of_string target) t) as H.
    destruct (Scenario.stream_of_bytes _ t) as [lte t1].
    by intros [= _ <-].
Qed.

(** The capture, with its UNIX data, of a directory that holds a file
    and a symbolic link, into a WIM file that already has a stream with
    the content of the file: the stream is still there afterwards. *)
Lemma build_dentry_tree_keeps_table_witness :
  @collaborators_keep_table Scenario.linking_capture_env
  /\ is_Some (lookup_table Scenario.stocked_capture_state !! 0%nat)
  /\ exists root s',
       @build_dentry_tree Scenario.linking_capture_env Scenario.linked_fs
         2 "/src" Scenario.stocked_capture_state Scenario.no_exclusion_config
         WIMLIB_ADD_IMAGE_FLAG_UNIX_DATA false
       = Some (RET_OK, root, s')
       /\ table_kept (lookup_table Scenario.stocked_capture_state)
                     (lookup_table s').
Proof.
  split; [exact linking_collaborators_keep_table|].
  split; [by eexists|].
  assert (exists root s',
            @build_dentry_tree Scenario.linking_capture_env
              Scenario.linked_fs 2 "/src" Scenario.stocked_capture_state
              Scenario.no_exclusion_config WIMLIB_ADD_IMAGE_FLAG_UNIX_DATA
              false
            = Some (RET_OK, root, s')) as (root & s' & H)
    by (vm_compute; eexists _, _; reflexivity).
  exists root, s'. split; [exact H|].
  exact (@build_dentry_tree_keeps_table Scenario.linking_capture_env
           Scenario.linked_fs 2 "/src" Scenario.stocked_capture_state
           Scenario.no_exclusion_config WIMLIB_ADD_IMAGE_FLAG_UNIX_DATA false
           root s' linking_collaborators_keep_table H).
Defined.

Import AddImage.

Section CaptureChildren.

Context `{env : capture_env}.
Variable fs : host_fs.

Lemma dentry_add_child_name (parent child : wim_dentry) :
  file_name_utf8 (snd (dentry_add_child parent child)) = file_name_utf8 parent.
Proof. unfold dentry_add_child. by destruct (existsb _ _). Qed.

Lemma dentry_add_child_children (parent child c : wim_dentry) :
  c ∈ i_children (snd (dentry_add_child parent child)) ->
  c ∈ i_children parent \/ c = child.
Proof.
  unfold dentry_add_child. destruct (existsb _ _); simpl; [by left|].
  intros H. apply elem_of_app in H as [H|H]; [by left|].
  apply list_elem_of_singleton in H. by right.
Qed.

(** The dentry of a captured path carries its basename. *)
Lemma build_dentry_tree_name (fuel : nat) (path : string)
    (s : capture_state) (config : capture_config) (flags : Z) (pf : bool)
    (root : wim_dentry) (s' : capture_state) :
  build_dentry_tree fs fuel path s config flags pf
  = Some (RET_OK, Some root, s') ->
  file_name_utf8 root = path_basename path
  /\ exclude_path path config true = false.
Proof.
  destruct fuel as [|fuel]; [done|]. cbn [build_dentry_tree]. intros Hrun.
  destruct (exclude_path path config true) eqn:Hex.
  all: repeat case_match; simplify_eq.
  all: apply build_dentry_tree_out_result in Hrun as (? & Hsame & _);
       subst; try done; destruct (Hsame eq_refl) as [[= ->] _].
  all: try done.
  all: split; [|done].

  all: match goal with
       | H : ?f ?names ?r0 ?s0 = Some (RET_OK, ?d, ?c) |- _ =>
           is_fix f;
           first
             [ unshelve eapply (readdir_loop_invariant
                     (fun p st => build_dentry_tree fs fuel p st config _ pf)
                     true _
                     (fun r _ => file_name_utf8 r = path_basename path)
                     _ _ _ _ _ _ _ _ H eq_refl)
             | unshelve eapply (readdir_loop_invariant
                     (fun p st => build_dentry_tree fs fuel p st config _ pf)
                     false _
                     (fun r _ => file_name_utf8 r = path_basename path)
                     _ _ _ _ _ _ _ _ H eq_refl) ]
       end.
  all: cbv beta; try done.
  all: intros r0 st d_name [child|] st' _ _ _ Hst Hb; [|done].
  all: by rewrite dentry_add_child_name.
Qed.


(** X9.  The children of a captured directory.  Every child of the dentry
    [build_dentry_tree] returns for a path was captured from an entry
    that [readdir_r] returned for that path, other than [.] and [..],
    and that the configuration does not exclude; the child carries the
    name of the entry (the basename of its path).  The dentry itself
    carries the basename of the path. *)
Theorem build_dentry_tree_children (fuel : nat) (path : string)
    (s : capture_state) (config : capture_config) (flags : Z) (pf : bool)
    (root : wim_dentry) (s' : capture_state) :
  build_dentry_tree fs fuel path s config flags pf
  = Some (RET_OK, Some root, s') ->
  file_name_utf8 root = path_basename path
  /\ forall child, child ∈ i_children root ->
       exists names read_error d_name,
         fs_opendir fs path = Some (names, read_error)
         /\ d_name ∈ names
         /\ d_name <> "."%string /\ d_name <> ".."%string
         /\ exclude_path (path +:+ "/" +:+ d_name) config true = false
         /\ file_name_utf8 child = path_basename (path +:+ "/" +:+ d_name).
Proof.
  intros Hrun. split; [by apply (build_dentry_tree_name _ _ _ _ _ _ _ _ Hrun)|].
  revert Hrun.
  destruct fuel as [|fuel]; [done|]. cbn [build_dentry_tree]. intros Hrun.
  destruct (exclude_path path config true) eqn:Hex.
  all: repeat case_match; simplify_eq.
  all: apply build_dentry_tree_out_result in Hrun as (? & Hsame & _);
       subst; try done; destruct (Hsame eq_refl) as [[= ->] _].
  all: try (intros child Hc; by apply elem_of_nil in Hc).
  all: match goal with
       | H : ?f ?names ?r0 ?s0 = Some (RET_OK, ?d, ?c),
         Hdir : fs_opendir fs _ = Some (?l, ?re) |- _ =>
           is_fix f;
           unshelve eapply (readdir_loop_invariant
                   (fun p st => build_dentry_tree fs fuel p st config _ pf)
                   re _
                   (fun r _ =>
                      forall child, child ∈ i_children r ->
                        exists names read_error d_name,
                          Some (l, re) = Some (names, read_error)
                          /\ d_name ∈ names
                          /\ d_name <> "."%string /\ d_name <> ".."%string
                          /\ exclude_path (path +:+ "/" +:+ d_name) config true
                             = false
                          /\ file_name_utf8 child
                             = path_basename (path +:+ "/" +:+ d_name))
                   _ _ _ _ _ _ _ _ H eq_refl)
       end.
  all: cbv beta.
  all: try (intros child Hc; by apply elem_of_nil in Hc).
  all: intros r0 st d_name [child|] st' Hin Hd1 Hd2 Hst Hb; [|done].
  all: intros ch Hch; apply dentry_add_child_children in Hch as [Hch| ->];
       [by apply Hst|].
  all: destruct (build_dentry_tree_name _ _ _ _ _ _ _ _ Hb) as [Hn Hx].
  all: by eexists _, _, d_name.
Qed.

End CaptureChildren.

(** The capture of [/src] in the scenario "Exclusion + exception": the
    children of the dentry of [/src] come from entries of [/src]. *)
Lemma build_dentry_tree_children_witness :
  exists root s',
    @build_dentry_tree Scenario.reference_capture_env Scenario.exclusion_fs
      2 "/src" Scenario.empty_capture_state Scenario.exclusion_config 0 false
    = Some (RET_OK, Some root, s')
    /\ file_name_utf8 root = path_basename "/src"
    /\ forall child, child ∈ i_children root ->
         exists names read_error d_name,
           fs_opendir Scenario.exclusion_fs "/src" = Some (names, read_error)
           /\ d_name ∈ names
           /\ d_name <> "."%string /\ d_name <> ".."%string
           /\ @exclude_path Scenario.reference_capture_env
                ("/src" +:+ "/" +:+ d_name) Scenario.exclusion_config true
              = false
           /\ file_name_utf8 child
              = path_basename ("/src" +:+ "/" +:+ d_name).
Proof.
  assert (exists root s',
            @build_dentry_tree Scenario.reference_capture_env
              Scenario.exclusion_fs 2 "/src" Scenario.empty_capture_state
              Scenario.exclusion_config 0 false
            = Some (RET_OK, Some root, s')) as (root & s' & H)
    by (vm_compute; eexists _, _; reflexivity).
  exists root, s'. split; [exact H|].
  exact (@build_dentry_tree_children Scenario.reference_capture_env
           Scenario.exclusion_fs 2 "/src" Scenario.empty_capture_state
           Scenario.exclusion_config 0 false root s' H).
Defined.

Import AddImage.

Section CaptureProgress.

Context `{env : capture_env}.
Variable fs : host_fs.

Lemma string_app_assoc (a b c : string) :
  ((a +:+ b) +:+ c = a +:+ (b +:+ c))%string.
Proof.
  induction a as [|x a IH]; [done|].
  change (String x ((a +:+ b) +:+ c) = String x (a +:+ (b +:+ c)))%string.
  by rewrite IH.
Qed.

(** The loop over the entries of a directory keeps what the capture of
    an entry keeps of the state, whatever its outcome. *)
Lemma readdir_loop_state
    (build : string -> capture_state ->
             option (wimlib_ret * option wim_dentry * capture_state))
    (read_error : bool) (root_disk_path : string)
    (I : capture_state -> Prop) (names : list string) :
  (forall s d_name ret child s',
     I s ->
     build (root_disk_path +:+ "/" +:+ d_name)%string s
     = Some (ret, child, s') ->
     I s') ->
  forall root s ret root' s',
    I s ->
    (fix readdir_loop (names : list string) (root : wim_dentry)
         (s : capture_state)
       : option (wimlib_ret * wim_dentry * capture_state) :=
       match names with
       | [] => Some (if read_error then WIMLIB_ERR_READ else RET_OK, root, s)
       | d_name :: names =>
           if String.eqb d_name "." || String.eqb d_name ".."
           then readdir_loop names root s
           else
             match build (root_disk_path +:+ "/" +:+ d_name)%string s with
             | None => None
             | Some (ret, child, s) =>
                 if decide (ret = RET_OK) then
                   readdir_loop names
                     match child with
                     | Some child => snd (dentry_add_child root child)
                     | None => root
                     end s
                 else Some (ret, root, s)
             end
       end) names root s = Some (ret, root', s') ->
    I s'.
Proof.
  intros Hstep. induction names as [|d_name names IH];
    intros root s ret root' s' HI Hrun.
  - by injection Hrun as _ _ <-.
  - destruct (String.eqb d_name "." || String.eqb d_name "..").
    { by apply (IH root s ret root' s'). }
    destruct (build (root_disk_path +:+ "/" +:+ d_name)%string s)
      as [[[r child] s1]|] eqn:Eb; [|done].
    pose proof (Hstep _ _ _ _ _ HI Eb) as HI1.
    destruct (decide (r = RET_OK)) as [->|Hne].
    + by eapply IH.
    + by injection Hrun as _ _ <-.
Qed.

Lemma progress_of_refl (path : string) (verbose : bool) (s : capture_state) :
  progress_of path verbose s s.
Proof. split; [done|]. exists []. by rewrite app_nil_r. Qed.

Lemma scan_dentry_under_app (path more : string) (c : progress_call) :
  scan_dentry_under (path +:+ more) c -> scan_dentry_under path c.
Proof.
  destruct c; try done. intros [rest ->]. exists (more +:+ rest)%string.
  apply string_app_assoc.
Qed.

Lemma progress_of_trans (path more : string) (verbose : bool)
    (s1 s2 s3 : capture_state) :
  progress_of path verbose s1 s2 ->
  progress_of (path +:+ more) verbose s2 s3 ->
  progress_of path verbose s1 s3.
Proof.
  intros (Hsd1 & c1 & Hp1 & Hf1 & Hv1) (Hsd2 & c2 & Hp2 & Hf2 & Hv2).
  split; [congruence|]. exists (c1 ++ c2).
  rewrite Hp2, Hp1, app_assoc. split; [done|]. split.
  - apply Forall_app. split; [done|].
    eapply Forall_impl; [exact Hf2|]. intros c. apply scan_dentry_under_app.
  - intros Hv. by rewrite (Hv1 Hv), (Hv2 Hv).
Qed.

Lemma progress_of_table (path : string) (verbose : bool)
    (s1 s2 : capture_state) (t : wim_lookup_table) :
  progress_of path verbose s1 s2 ->
  progress_of path verbose s1 (set_lookup_table s2 t).
Proof. done. Qed.

Lemma progress_of_call (path : string) (s1 s2 : capture_state) (e : bool) :
  progress_of path true s1 s2 ->
  progress_of path true s1
    (call_progress_func s2 (WIMLIB_PROGRESS_MSG_SCAN_DENTRY path e)).
Proof.
  intros (Hsd & c & Hp & Hf & _). split; [done|].
  exists (c ++ [WIMLIB_PROGRESS_MSG_SCAN_DENTRY path e]).
  cbn [progress_calls call_progress_func]. rewrite Hp, app_assoc.
  split; [done|]. split; [|done]. apply Forall_app. split; [done|].
  constructor; [|done]. exists EmptyString. by rewrite string_app_nil_r.
Qed.

Lemma build_dentry_tree_out_progress (path : string) (verbose : bool)
    (ret : wimlib_ret) (root : option wim_dentry) (s0 s : capture_state) :
  progress_of path verbose s0 s ->
  progress_of path verbose s0 (build_dentry_tree_out ret root s).2.
Proof.
  unfold build_dentry_tree_out. destruct (decide _); [done|].
  by destruct root.
Qed.

Lemma verbose_kept (flags : Z) :
  flag_set (Z.land flags
              (Z.lnot (Z.lor WIMLIB_ADD_IMAGE_FLAG_ROOT
                             WIMLIB_ADD_IMAGE_FLAG_SOURCE)))
           WIMLIB_ADD_IMAGE_FLAG_VERBOSE
  = flag_set flags WIMLIB_ADD_IMAGE_FLAG_VERBOSE.
Proof. unfold flag_set. by rewrite <- Z.land_assoc. Qed.

Lemma build_dentry_tree_progress_of (fuel : nat) :
  forall path s config flags pf ret root s',
    build_dentry_tree fs fuel path s config flags pf = Some (ret, root, s') ->
    progress_of path (flag_set flags WIMLIB_ADD_IMAGE_FLAG_VERBOSE && pf) s s'.
Proof.
  induction fuel as [|fuel IH]; intros path s config flags pf ret root s';
    [done|].
  cbn [build_dentry_tree]. intros Hrun.
  pose proof (verbose_kept flags) as Hv.
  destruct (flag_set flags WIMLIB_ADD_IMAGE_FLAG_VERBOSE && pf) eqn:Hverbose.
  all: repeat case_match; simplify_eq.
  all: apply (f_equal snd) in Hrun; cbn [snd] in Hrun; subst s'.
  all: apply build_dentry_tree_out_progress.
  all: repeat first [ apply progress_of_refl
                    | apply progress_of_table
                    | apply progress_of_call ].
  all: match goal with
       | H : ?f ?names ?r0 ?s0 = Some (_, _, ?s1) |- progress_of ?p ?v ?s ?s1 =>
           is_fix f;
           first
             [ unshelve eapply (readdir_loop_state
                     (fun p st => build_dentry_tree fs fuel p st config _ pf)
                     true _ (fun st => progress_of p v s st)
                     _ _ _ _ _ _ _ _ H)
             | unshelve eapply (readdir_loop_state
                     (fun p st => build_dentry_tree fs fuel p st config _ pf)
                     false _ (fun st => progress_of p v s st)
                     _ _ _ _ _ _ _ _ H) ]
       end.
  all: cbv beta.
  all: repeat first [ apply progress_of_refl
                    | apply progress_of_table
                    | apply progress_of_call ].
  all: intros st d_name r child st' Hst Hb; apply IH in Hb;
       rewrite Hv, Hverbose in Hb; by eapply progress_of_trans.
Qed.

Lemma build_dentry_tree_out_calls (ret : wimlib_ret)
    (root : option wim_dentry) (s : capture_state) :
  progress_calls (build_dentry_tree_out ret root s).2 = progress_calls s.
Proof.
  unfold build_dentry_tree_out. destruct (decide _); [done|].
  by destruct root.
Qed.

(** The first call of the progress function is for the path itself. *)
Lemma build_dentry_tree_first_call (fuel : nat) (path : string)
    (s : capture_state) (config : capture_config) (flags : Z) (pf : bool)
    (ret : wimlib_ret) (root : option wim_dentry) (s' : capture_state) :
  build_dentry_tree fs fuel path s config flags pf = Some (ret, root, s') ->
  flag_set flags WIMLIB_ADD_IMAGE_FLAG_VERBOSE && pf = true ->
  if exclude_path path config true
     && flag_set flags WIMLIB_ADD_IMAGE_FLAG_ROOT
  then progress_calls s' = progress_calls s
  else exists rest,
         progress_calls s'
         = progress_calls s
           ++ WIMLIB_PROGRESS_MSG_SCAN_DENTRY path
                (exclude_path path config true) :: rest.
Proof.
  destruct fuel as [|fuel]; [done|]. cbn [build_dentry_tree].
  intros Hrun Hverbose. rewrite Hverbose in Hrun.
  destruct (exclude_path path config true);
    destruct (flag_set flags WIMLIB_ADD_IMAGE_FLAG_ROOT) eqn:Hroot;
    cbn [andb].
  all: repeat case_match; simplify_eq.
  all: apply (f_equal snd) in Hrun; cbn [snd] in Hrun; subst s'.
  all: rewrite build_dentry_tree_out_calls.
  all: cbn [progress_calls set_lookup_table call_progress_func].
  all: try done.
  all: try by exists [].
  all: match goal with
       | H : ?f ?names ?r0 ?s0 = Some (_, _, ?s1)
         |- exists rest, progress_calls ?s1 = progress_calls ?s ++ ?c :: rest =>
           is_fix f;
           first
             [ unshelve eapply (readdir_loop_state
                     (fun p st => build_dentry_tree fs fuel p st config _ pf)
                     true _
                     (fun st => exists rest,
                        progress_calls st = progress_calls s ++ c :: rest)
                     _ _ _ _ _ _ _ _ H)
             | unshelve eapply (readdir_loop_state
                     (fun p st => build_dentry_tree fs fuel p st config _ pf)
                     false _
                     (fun st => exists rest,
                        progress_calls st = progress_calls s ++ c :: rest)
                     _ _ _ _ _ _ _ _ H) ]
       end.
  all: cbv beta; cbn [progress_calls set_lookup_table call_progress_func].
  all: try by exists [].
  all: intros st d_name r child st' [rest Hst] Hb;
       apply build_dentry_tree_progress_of in Hb as (_ & calls & Hc & _);
       exists (rest ++ calls); rewrite Hc, Hst, <- app_assoc; done.
Qed.

(** X10.  What the capture of a path tells the progress function.
    [build_dentry_tree] leaves the security data of the image alone and
    only adds calls of the progress function, each of them for the scan
    of a path that begins with the path captured.  There is none
    without a progress function or without the flag VERBOSE.  With both,
    the first call is for the path itself and tells whether it is
    excluded; only for an excluded root of the capture, which is an
    error, there is none. *)
Theorem build_dentry_tree_progress (fuel : nat) (path : string)
    (s : capture_state) (config : capture_config) (flags : Z) (pf : bool)
    (ret : wimlib_ret) (root : option wim_dentry) (s' : capture_state) :
  build_dentry_tree fs fuel path s config flags pf = Some (ret, root, s') ->
  sd s' = sd s
  /\ exists calls,
       progress_calls s' = progress_calls s ++ calls
       /\ Forall (scan_dentry_under path) calls
       /\ (flag_set flags WIMLIB_ADD_IMAGE_FLAG_VERBOSE && pf = false ->
           calls = [])
       /\ (flag_set flags WIMLIB_ADD_IMAGE_FLAG_VERBOSE && pf = true ->
           if exclude_path path config true
              && flag_set flags WIMLIB_ADD_IMAGE_FLAG_ROOT
           then calls = []
           else exists rest,
                  calls = WIMLIB_PROGRESS_MSG_SCAN_DENTRY path
                            (exclude_path path config true) :: rest).
Proof.
  intros Hrun.
  destruct (build_dentry_tree_progress_of _ _ _ _ _ _ _ _ _ Hrun)
    as (Hsd & calls & Hc & Hf & Hv).
  split; [done|]. exists calls. split; [done|]. split; [done|].
  split; [done|]. intros Hverbose.
  pose proof (build_dentry_tree_first_call _ _ _ _ _ _ _ _ _ Hrun Hverbose)
    as Hfirst.
  destruct (exclude_path path config true
            && flag_set flags WIMLIB_ADD_IMAGE_FLAG_ROOT).
  - rewrite Hc in Hfirst. rewrite <- (app_nil_r (progress_calls s)) in Hfirst
      at 2. by apply app_inv_head in Hfirst.
  - destruct Hfirst as [rest Hrest]. exists rest. rewrite Hc in Hrest.
    by apply app_inv_head in Hrest.
Qed.

End CaptureProgress.

(** The capture of [/src] in the scenario "Exclusion + exception", with
    a progress function and the flag VERBOSE. *)
Lemma build_dentry_tree_progress_witness :
  exists ret root s',
    @build_dentry_tree Scenario.reference_capture_env Scenario.exclusion_fs
      2 "/src" Scenario.empty_capture_state Scenario.exclusion_config
      WIMLIB_ADD_IMAGE_FLAG_VERBOSE true
    = Some (ret, root, s')
    /\ sd s' = sd Scenario.empty_capture_state
    /\ exists calls,
         progress_calls s'
         = progress_calls Scenario.empty_capture_state ++ calls
         /\ Forall (scan_dentry_under "/src") calls
         /\ (flag_set WIMLIB_ADD_IMAGE_FLAG_VERBOSE
               WIMLIB_ADD_IMAGE_FLAG_VERBOSE && true = false ->
             calls = [])
         /\ (flag_set WIMLIB_ADD_IMAGE_FLAG_VERBOSE
               WIMLIB_ADD_IMAGE_FLAG_VERBOSE && true = true ->
             if @exclude_path Scenario.reference_capture_env "/src"
                  Scenario.exclusion_config true
                && flag_set WIMLIB_ADD_IMAGE_FLAG_VERBOSE
                     WIMLIB_ADD_IMAGE_FLAG_ROOT
             then calls = []
             else exists rest,
                    calls
                    = WIMLIB_PROGRESS_MSG_SCAN_DENTRY "/src"
                        (@exclude_path Scenario.reference_capture_env "/src"
                           Scenario.exclusion_config true) :: rest).
Proof.
  assert (exists ret root s',
            @build_dentry_tree Scenario.reference_capture_env
              Scenario.exclusion_fs 2 "/src" Scenario.empty_capture_state
              Scenario.exclusion_config WIMLIB_ADD_IMAGE_FLAG_VERBOSE true
            = Some (ret, root, s')) as (ret & root & s' & H)
    by (vm_compute; eexists _, _, _; reflexivity).
  exists ret, root, s'. split; [exact H|].
  exact (@build_dentry_tree_progress Scenario.reference_capture_env
           Scenario.exclusion_fs 2 "/src" Scenario.empty_capture_state
           Scenario.exclusion_config WIMLIB_ADD_IMAGE_FLAG_VERBOSE true
           ret root s' H).
Defined.

(** * Properties of the overlay of branches *)

Import AddImage.

Section OverlayProperties.

Variable rb_node : list wim_dentry -> option (wim_dentry * list wim_dentry).
Variable now : Z.

Lemma dentry_add_child_spec (parent child : wim_dentry) :
  dentry_add_child parent child
  = if bool_decide (child_key child ∈ map child_key (i_children parent))
    then (false, parent)
    else (true, set_i_children parent (i_children parent ++ [child])).
Proof.
  unfold dentry_add_child.
  destruct (existsb _ _) eqn:E; case_bool_decide as H; try done; exfalso.
  - apply H. apply existsb_exists in E as (c & Hin & Hc).
    apply String.eqb_eq in Hc. apply list_elem_of_fmap.
    exists c. split; [done|]. by apply list_elem_of_In.
  - apply list_elem_of_fmap in H as (c & Hc & Hin).
    assert (existsb (fun c => String.eqb (string_tolower (file_name_utf8 c))
                                (string_tolower (file_name_utf8 child)))
                    (i_children parent) = true) as E'; [|congruence].
    apply existsb_exists. exists c. split; [by apply list_elem_of_In|].
    apply String.eqb_eq. by symmetry.
Qed.

Lemma set_i_children_fields (d : wim_dentry) (l : list wim_dentry) :
  file_name_utf8 (set_i_children d l) = file_name_utf8 d
  /\ d_inode (set_i_children d l) = d_inode d
  /\ i_children (set_i_children d l) = l.
Proof. by destruct d. Qed.

(** The loop of [do_overlay]. *)
Lemma do_overlay_loop_spec (fuel : nat) :
  rb_node_of_children rb_node ->
  forall target branch,
    (length (i_children branch) <= fuel)%nat ->
    exists ret target' branch' moved,
      do_overlay_loop rb_node fuel target branch = Some (ret, target', branch')
      /\ (file_name_utf8 target' = file_name_utf8 target
          /\ d_inode target' = d_inode target)
      /\ (file_name_utf8 branch' = file_name_utf8 branch
          /\ d_inode branch' = d_inode branch)
      /\ i_children target' = i_children target ++ moved
      /\ Forall (fun c => child_key c ∉ map child_key (i_children target)) moved
      /\ NoDup (map child_key moved)
      /\ (ret = RET_OK /\ i_children branch' = []
          /\ moved ≡ₚ i_children branch
          \/ ret = WIMLIB_ERR_INVALID_OVERLAY
             /\ (exists c, c ∈ i_children branch
                           /\ child_key c ∈ map child_key (i_children target')
                           /\ (NoDup (map child_key (i_children branch)) ->
                               child_key c ∉ map child_key moved))
             /\ (NoDup (map child_key (i_children branch)) ->
                 moved ++ i_children branch' ≡ₚ i_children branch)).
Proof.
  intros Hrb. induction fuel as [|fuel IH]; intros target branch Hlen.
  - pose proof (Hrb (i_children branch)) as Hc. cbn [do_overlay_loop].
    destruct (rb_node (i_children branch)) as [[child others]|].
    + destruct Hc as (before & after & Hc & _). rewrite Hc in Hlen.
      rewrite length_app in Hlen. simpl in Hlen. lia.
    + exists RET_OK, target, branch, []. rewrite app_nil_r, Hc.
      split_and!; try done;
        first [apply Forall_nil_2 | apply NoDup_nil_2 | left; by split_and!].
  - pose proof (Hrb (i_children branch)) as Hc. cbn [do_overlay_loop].
    destruct (rb_node (i_children branch)) as [[child others]|].
    + destruct Hc as (before & after & Hc & Ho).
      rewrite dentry_add_child_spec.
      case_bool_decide as Hkey.
      * (* the name is taken *)
        rewrite dentry_add_child_spec.
        destruct (set_i_children_fields branch others) as (Hn & Hi & Hch).
        exists WIMLIB_ERR_INVALID_OVERLAY, target.
        eexists _, []. split; [reflexivity|]. rewrite app_nil_r.
        split; [done|]. cbn [snd]. rewrite Hch.
        split; [by case_bool_decide; cbn [snd];
                  rewrite ?(proj1 (set_i_children_fields _ _)),
                          ?(proj1 (proj2 (set_i_children_fields _ _)))|].
        split; [done|]. split; [constructor|]. split; [constructor|].
        right. split; [done|]. split.
        { exists child. split; [|split; [done|]].
          - rewrite Hc. apply elem_of_app. right. by left.
          - intros _. apply not_elem_of_nil. }
        intros Hnd. rewrite Hc, fmap_app, fmap_cons in Hnd.
        apply NoDup_app in Hnd as (_ & Hd1 & Hd2).
        apply NoDup_cons in Hd2 as (Hd2 & _).
        case_bool_decide as Hk.
        { exfalso. rewrite Ho, fmap_app in Hk.
          apply elem_of_app in Hk as [Hk|Hk]; [|done].
          apply (Hd1 _ Hk). by left. }
        cbn [snd app].
        rewrite (proj2 (proj2 (set_i_children_fields _ _))), Hc, Ho.
        rewrite <- app_assoc. apply Permutation_app_head.
        symmetry. apply Permutation_cons_append.
      * (* the child is moved *)
        set (target1 := set_i_children target (i_children target ++ [child])).
        set (branch1 := set_i_children branch others).
        destruct (set_i_children_fields branch others) as (Hn & Hi & Hch).
        destruct (set_i_children_fields target (i_children target ++ [child]))
          as (Hn' & Hi' & Hch').
        fold target1 in Hn', Hi', Hch'. fold branch1 in Hn, Hi, Hch.
        destruct (IH target1 branch1)
          as (ret & target' & branch' & moved & Hrun & Ht & Hb & Hm & Hab
              & Hnd & Hres).
        { rewrite Hch, Ho. rewrite Hc, !length_app in Hlen. simpl in Hlen.
          rewrite length_app. lia. }
        exists ret, target', branch', (child :: moved).
        split; [done|]. split; [by rewrite <- Hn', <- Hi'|].
        split; [by rewrite <- Hn, <- Hi|].
        split; [by rewrite Hm, Hch', <- app_assoc|].
        assert (Forall (fun c => (child_key c ∉ map child_key (i_children target))
                                 /\ child_key c <> child_key child) moved)
          as Hab'.
        { eapply Forall_impl; [exact Hab|]. intros c Hcn. cbn beta in *.
          rewrite Hch', fmap_app in Hcn. split.
          - intros Hin. apply Hcn, elem_of_app. by left.
          - intros Heq. apply Hcn, elem_of_app. right. rewrite Heq.
            by left. }
        split.
        { constructor; [done|]. eapply Forall_impl; [exact Hab'|].
          by intros c [? _]. }
        split.
        { cbn [map fmap list_fmap]. apply NoDup_cons. split; [|done].
          intros Hin. apply list_elem_of_fmap in Hin as (c & Hceq & Hcin).
          rewrite Forall_forall in Hab'. destruct (Hab' c Hcin) as [_ Hne].
          by apply Hne. }
        assert (NoDup (map child_key (i_children branch)) ->
                NoDup (map child_key (i_children branch1))
                /\ child_key child ∉ map child_key (i_children branch1))
          as Hsub.
        { intros Hndb. rewrite Hch, Ho.
          rewrite Hc, fmap_app, fmap_cons in Hndb.
          rewrite fmap_app. apply NoDup_app in Hndb as (Hd1 & Hd2 & Hd3).
          apply NoDup_cons in Hd3 as (Hd3 & Hd4). split.
          - apply NoDup_app. split; [done|]. split; [|done].
            intros k Hk Hk'. apply (Hd2 k Hk). by right.
          - intros Hin. apply elem_of_app in Hin as [Hin|Hin]; [|done].
            apply (Hd2 _ Hin). by left. }
        destruct Hres
          as [(-> & Hbe & Hperm)|(-> & (c & Hcin & Hck & Hcm) & Hperm)].
        -- left. split; [done|]. split; [done|].
           rewrite Hc, Hperm, Hch, Ho. apply Permutation_middle.
        -- right. split; [done|]. split.
           { exists c. split; [|split; [done|]].
             - rewrite Hch, Ho in Hcin. rewrite Hc.
               apply elem_of_app in Hcin as [Hcin|Hcin];
                 apply elem_of_app; [by left|right; by right].
             - intros Hndb. destruct (Hsub Hndb) as [Hnd1 Hnc].
               cbn [map]. apply not_elem_of_cons. split; [|by apply Hcm].
               intros Heq. apply Hnc. rewrite <- Heq.
               apply list_elem_of_fmap. by exists c. }
           intros Hndb. destruct (Hsub Hndb) as [Hnd1 Hnc]. cbn [app].
           rewrite (Hperm Hnd1), Hch, Ho, Hc. apply Permutation_middle.
    + exists RET_OK, target, branch, []. rewrite app_nil_r, Hc.
      split_and!; try done;
        first [apply Forall_nil_2 | apply NoDup_nil_2 | left; by split_and!].
Qed.

(** X11.  [do_overlay] loses no child.  Whichever child the root of the tree
    of children is at each step, [do_overlay] returns, with success or
    [WIMLIB_ERR_INVALID_OVERLAY]; the target keeps its name, its inode
    and its children, in front of the children [moved] to it, and
    [moved] with the children the branch is left with are the children
    the branch had: none is lost, none is in both.  On success the
    branch is left without a child.  Distinct names among the children
    of the target stay distinct. *)
Theorem do_overlay_keeps_every_child (target branch : wim_dentry) :
  rb_node_of_children rb_node ->
  NoDup (map child_key (i_children branch)) ->
  exists ret target' branch' moved,
    do_overlay rb_node target branch = Some (ret, target', branch')
    /\ (ret = RET_OK \/ ret = WIMLIB_ERR_INVALID_OVERLAY)
    /\ (file_name_utf8 target' = file_name_utf8 target
        /\ d_inode target' = d_inode target
        /\ i_children target' = i_children target ++ moved)
    /\ (file_name_utf8 branch' = file_name_utf8 branch
        /\ d_inode branch' = d_inode branch
        /\ moved ++ i_children branch' ≡ₚ i_children branch)
    /\ (ret = RET_OK -> i_children branch' = [])
    /\ (NoDup (map child_key (i_children target)) ->
        NoDup (map child_key (i_children target'))).
Proof.
  intros Hrb Hnd. unfold do_overlay.
  destruct (dentry_is_directory target); cbn [negb].
  - destruct (do_overlay_loop_spec (length (i_children branch)) Hrb
                target branch (le_n _))
      as (ret & target' & branch' & moved & Hrun & (Ht1 & Ht2)
          & (Hb1 & Hb2) & Hm & Hab & Hndm & Hres).
    exists ret, target', branch', moved. split; [done|].
    split; [destruct Hres as [(-> & _)|(-> & _)]; [by left|by right]|].
    split; [done|]. split.
    { split; [done|]. split; [done|].
      destruct Hres as [(_ & -> & Hp)|(_ & _ & Hp)]; [|by apply Hp].
      by rewrite app_nil_r. }
    split.
    { destruct Hres as [(_ & Hbe & _)|(-> & _)]; [done|]. by intros. }
    intros Hndt. rewrite Hm, fmap_app. apply NoDup_app.
    split; [done|]. split; [|done].
    intros k Hk Hk'. apply list_elem_of_fmap in Hk' as (c & -> & Hc).
    rewrite Forall_forall in Hab. by apply (Hab c Hc).
  - exists WIMLIB_ERR_INVALID_OVERLAY, target, branch, [].
    rewrite app_nil_r. split_and!; try done. by right.
Qed.

(** X12.  When [do_overlay] succeeds.  It does exactly when the target is a
    directory and no child of the branch has, letter case apart, the
    name of a child of the target. *)
Theorem do_overlay_succeeds_iff (target branch : wim_dentry) :
  rb_node_of_children rb_node ->
  NoDup (map child_key (i_children branch)) ->
  exists ret target' branch',
    do_overlay rb_node target branch = Some (ret, target', branch')
    /\ (ret = RET_OK <->
        dentry_is_directory target = true
        /\ Forall (fun c => child_key c ∉ map child_key (i_children target))
                  (i_children branch)).
Proof.
  intros Hrb Hnd. unfold do_overlay.
  destruct (dentry_is_directory target); cbn [negb].
  - destruct (do_overlay_loop_spec (length (i_children branch)) Hrb
                target branch (le_n _))
      as (ret & target' & branch' & moved & Hrun & _ & _ & Hm & Hab & _
          & Hres).
    exists ret, target', branch'. split; [done|].
    destruct Hres as [(-> & _ & Hp)|(-> & (c & Hc & Hk & Hnk) & _)].
    + split; [|done]. intros _. split; [done|]. by rewrite <- Hp.
    + split; [done|]. intros [_ Hall]. exfalso.
      rewrite Forall_forall in Hall. rewrite Hm, fmap_app in Hk.
      apply elem_of_app in Hk as [Hk|Hk]; [by apply (Hall c Hc)|].
      by apply (Hnk Hnd).
  - exists WIMLIB_ERR_INVALID_OVERLAY, target, branch. split; [done|].
    split; [done|]. by intros [? _].
Qed.

(** What the callers of [do_overlay] rely on. *)
Lemma do_overlay_spec (target branch : wim_dentry) :
  rb_node_of_children rb_node ->
  exists ret target' branch' moved,
    do_overlay rb_node target branch = Some (ret, target', branch')
    /\ (ret = RET_OK \/ ret = WIMLIB_ERR_INVALID_OVERLAY)
    /\ file_name_utf8 target' = file_name_utf8 target
    /\ d_inode target' = d_inode target
    /\ i_children target' = i_children target ++ moved
    /\ (ret = RET_OK -> moved ≡ₚ i_children branch).
Proof.
  intros Hrb. unfold do_overlay.
  destruct (dentry_is_directory target); cbn [negb].
  - destruct (do_overlay_loop_spec (length (i_children branch)) Hrb
                target branch (le_n _))
      as (ret & target' & branch' & moved & Hrun & (Ht1 & Ht2)
          & _ & Hm & _ & _ & Hres).
    exists ret, target', branch', moved. split; [done|].
    destruct Hres as [(-> & _ & Hp)|(-> & _)]; split_and!; try done;
      first [by left | by right].
  - exists WIMLIB_ERR_INVALID_OVERLAY, target, branch, [].
    rewrite app_nil_r. split_and!; try done. by right.
Qed.

Lemma get_dentry_child_set_child (parent c c' : wim_dentry) (name : string)
    (i : nat) :
  get_dentry_child_with_name parent name = Some (i, c) ->
  file_name_utf8 c' = file_name_utf8 c ->
  get_dentry_child_with_name (set_child parent i c') name = Some (i, c').
Proof.
  unfold get_dentry_child_with_name, set_child. intros Hget Hname.
  rewrite (proj2 (proj2 (set_i_children_fields _ _))).
  apply list_find_Some in Hget as (Hi & Hkey & Hbefore).
  apply list_find_Some. split.
  { apply list_lookup_insert_eq. by apply lookup_lt_Some in Hi. }
  split; [unfold child_key in *; by rewrite Hname|].
  intros j y Hj Hlt. rewrite list_lookup_insert_ne in Hj by lia.
  by apply (Hbefore j).
Qed.

Lemma get_dentry_child_add (parent c : wim_dentry) (name : string) :
  get_dentry_child_with_name parent name = None ->
  child_key c = string_tolower name ->
  snd (dentry_add_child parent c)
  = set_i_children parent (i_children parent ++ [c])
  /\ get_dentry_child_with_name (snd (dentry_add_child parent c)) name
     = Some (length (i_children parent), c).
Proof.
  unfold get_dentry_child_with_name. intros Hget Hkey.
  apply list_find_None in Hget. rewrite dentry_add_child_spec.
  case_bool_decide as Hin.
  { exfalso. apply list_elem_of_fmap in Hin as (y & Hy & Hyin).
    rewrite Forall_forall in Hget. apply (Hget y Hyin). congruence. }
  cbn [snd]. split; [done|].
  rewrite (proj2 (proj2 (set_i_children_fields _ _))).
  apply list_find_Some. split; [by apply list_lookup_middle|].
  split; [done|]. intros j y Hj Hlt.
  rewrite lookup_app_l in Hj by done.
  rewrite Forall_forall in Hget. apply Hget. by eapply list_elem_of_lookup_2.
Qed.

Lemma strchr_slash_length (target_path name rest : string) :
  strchr_slash target_path = Some (name, rest) ->
  (String.length rest < String.length target_path)%nat.
Proof.
  revert name. induction target_path as [|c t IH]; intros name; [done|].
  cbn [strchr_slash String.length]. destruct (Ascii.eqb c SLASH).
  - intros [= _ ->]. lia.
  - destruct (strchr_slash t) as [[n r]|]; [|done].
    intros [= _ <-]. specialize (IH n eq_refl). lia.
Qed.

Lemma skip_slashes_length (t : string) :
  (String.length (skip_slashes t) <= String.length t)%nat.
Proof.
  induction t as [|c t IH]; [done|]. cbn [skip_slashes].
  destruct (Ascii.eqb c SLASH); cbn [String.length]; lia.
Qed.

(** The walk of [attach_branch]: it returns, the dentry it starts from
    keeps its name and its inode, after a success the branch or the
    directory it was overlaid on is found where the walk led, and the
    walk succeeds when nothing was found there before. *)
Lemma attach_branch_walk_spec (branch : wim_dentry) (fuel : nat) :
  rb_node_of_children rb_node ->
  forall parent target_path,
    (String.length target_path <= fuel)%nat ->
    let names := target_directories fuel target_path
                 ++ [file_name_utf8 branch] in
    exists ret parent' branch',
      attach_branch_walk rb_node now fuel parent branch target_path
      = Some (ret, parent', branch')
      /\ (ret = RET_OK \/ ret = WIMLIB_ERR_INVALID_OVERLAY)
      /\ file_name_utf8 parent' = file_name_utf8 parent
      /\ d_inode parent' = d_inode parent
      /\ (ret = RET_OK ->
          exists x own moved,
            lookup_path parent' names = Some x
            /\ i_children x = own ++ moved
            /\ moved ≡ₚ i_children branch)
      /\ (lookup_path parent names = None ->
          ret = RET_OK /\ branch' = branch
          /\ lookup_path parent' names = Some branch).
Proof.
  intros Hrb. induction fuel as [|fuel IH]; intros parent target_path Hlen.
  all: cbn zeta; cbn [attach_branch_walk target_directories].
  all: destruct (strchr_slash target_path) as [[name rest]|] eqn:Hslash.
  all: try (apply strchr_slash_length in Hslash; exfalso; lia).
  1, 3: cbn [app lookup_path].
  1, 2: destruct (get_dentry_child_with_name parent (file_name_utf8 branch))
          as [[i target]|] eqn:Hget.
  1, 3: destruct (do_overlay_spec target branch Hrb)
          as (ret & target' & branch' & moved & -> & Hret & Hn & Hi & Hch & Hp);
        exists ret, (set_child parent i target'), branch';
        (split; [done|]); (split; [done|]);
        unfold set_child at 1 2;
        (split; [apply set_i_children_fields|]);
        (split; [apply set_i_children_fields|]);
        (split; [|done]); intros Hok;
        exists target', (i_children target), moved;
        rewrite (get_dentry_child_set_child _ _ _ _ _ Hget Hn);
        by split_and!; [| |apply Hp].
  1, 2: destruct (get_dentry_child_add parent branch (file_name_utf8 branch)
                    Hget eq_refl) as [Hadd Hfound];
        exists RET_OK, (snd (dentry_add_child parent branch)), branch;
        (split; [done|]); (split; [by left|]);
        rewrite Hfound; rewrite Hadd;
        (split; [apply set_i_children_fields|]);
        (split; [apply set_i_children_fields|]);
        (split; [|done]); intros _;
        by exists branch, [], (i_children branch).
  (* a directory of the path *)
  assert (String.length (skip_slashes rest) <= fuel)%nat as Hlen'.
  { pose proof (strchr_slash_length _ _ _ Hslash).
    pose proof (skip_slashes_length rest). lia. }
  cbn [app lookup_path].
  destruct (get_dentry_child_with_name parent name) as [[i dentry]|] eqn:Hget.
  - destruct (IH dentry (skip_slashes rest) Hlen')
      as (ret & dentry' & branch' & -> & Hret & Hn & Hi & Hok & Hfresh).
    exists ret, (set_child parent i dentry'), branch'.
    split; [done|]. split; [done|]. unfold set_child at 1 2.
    split; [apply set_i_children_fields|].
    split; [apply set_i_children_fields|].
    by rewrite (get_dentry_child_set_child _ _ _ _ _ Hget Hn).
  - set (filler := new_filler_directory now name).
    destruct (get_dentry_child_add parent filler name Hget eq_refl)
      as [Hadd Hfound].
    destruct (IH filler (skip_slashes rest) Hlen')
      as (ret & dentry' & branch' & -> & Hret & Hn & Hi & Hok & Hfresh).
    exists ret, (set_child (snd (dentry_add_child parent filler))
                   (length (i_children parent)) dentry'), branch'.
    split; [done|]. split; [done|]. unfold set_child at 1 2.
    split; [rewrite Hadd; etrans; apply set_i_children_fields|].
    split; [rewrite Hadd; etrans; apply set_i_children_fields|].
    rewrite (get_dentry_child_set_child _ _ _ _ _ Hfound Hn).
    split; [done|]. intros _. apply Hfresh.
    destruct (target_directories fuel (skip_slashes rest)); done.
Qed.

(** X13.  A branch is found where it was attached.  [attach_branch] returns,
    with success or [WIMLIB_ERR_INVALID_OVERLAY], and the image has a
    root afterwards.  After a success the names of the target path,
    followed by the name of the branch, lead from the root to a dentry
    that has every child of the branch among its children: the branch
    itself, or the directory the branch was overlaid on. *)
Theorem attach_branch_reachable (root_p : option wim_dentry)
    (branch : wim_dentry) (target_path : string) :
  rb_node_of_children rb_node ->
  exists ret root branch',
    attach_branch rb_node now root_p branch target_path
    = Some (ret, Some root, branch')
    /\ (ret = RET_OK \/ ret = WIMLIB_ERR_INVALID_OVERLAY)
    /\ (ret = RET_OK ->
        exists x own moved,
          lookup_path root (branch_path target_path branch) = Some x
          /\ i_children x = own ++ moved
          /\ moved ≡ₚ i_children branch).
Proof.
  intros Hrb. unfold attach_branch, branch_path.
  destruct target_path as [|c t].
  - destruct root_p as [root|].
    + destruct (do_overlay_spec root branch Hrb)
        as (ret & root' & branch' & moved & -> & Hret & _ & _ & Hch & Hp).
      exists ret, root', branch'. split; [done|]. split; [done|].
      intros Hok. exists root', (i_children root), moved.
      by split_and!; [| |apply Hp].
    + exists RET_OK, branch, branch. split; [done|]. split; [by left|].
      intros _. by exists branch, [], (i_children branch).
  - set (target_path := String c t).
    destruct (attach_branch_walk_spec branch (String.length target_path) Hrb
                (default (new_filler_directory now EmptyString) root_p)
                target_path (le_n _))
      as (ret & root' & branch' & -> & Hret & _ & _ & Hok & _).
    by exists ret, root', branch'.
Qed.

(** X14.  Attaching where nothing was.  When the names of a target path that
    is not the root, followed by the name of the branch, lead to no
    dentry of the image, [attach_branch] succeeds, leaves the branch as
    it is, and the same names lead to the branch afterwards; the root
    keeps its name and its inode.  Nothing is asked of the dentries on
    the way: they need not be directories. *)
Theorem attach_branch_where_nothing_was (root_p : option wim_dentry)
    (branch : wim_dentry) (target_path : string) :
  rb_node_of_children rb_node ->
  target_path <> EmptyString ->
  let old_root := default (new_filler_directory now EmptyString) root_p in
  lookup_path old_root (branch_path target_path branch) = None ->
  exists root,
    attach_branch rb_node now root_p branch target_path
    = Some (RET_OK, Some root, branch)
    /\ lookup_path root (branch_path target_path branch) = Some branch
    /\ file_name_utf8 root = file_name_utf8 old_root
    /\ d_inode root = d_inode old_root.
Proof.
  intros Hrb Hne old_root Hnone. unfold attach_branch, branch_path in *.
  destruct target_path as [|c t]; [done|].
  set (target_path := String c t) in *.
  destruct (attach_branch_walk_spec branch (String.length target_path) Hrb
              old_root target_path (le_n _))
    as (ret & root' & branch' & Hrun & _ & Hn & Hi & _ & Hfresh).
  destruct (Hfresh Hnone) as (-> & -> & Hfound).
  fold old_root. rewrite Hrun. by exists root'.
Qed.

Lemma attach_branch_walk_fillers (branch : wim_dentry) (fuel : nat) :
  forall name target_path,
    (String.length target_path <= fuel)%nat ->
    attach_branch_walk rb_node now fuel (new_filler_directory now name)
      branch target_path
    = Some (RET_OK,
            foldr (filler_over now) branch
                  (name :: target_directories fuel target_path),
            branch).
Proof.
  induction fuel as [|fuel IH]; intros name target_path Hlen.
  all: cbn [attach_branch_walk target_directories].
  all: destruct (strchr_slash target_path) as [[dir rest]|] eqn:Hslash.
  all: try (apply strchr_slash_length in Hslash; exfalso; lia).
  1, 3: done.
  assert (String.length (skip_slashes rest) <= fuel)%nat as Hlen'.
  { pose proof (strchr_slash_length _ _ _ Hslash).
    pose proof (skip_slashes_length rest). lia. }
  cbn [get_dentry_child_with_name new_filler_directory i_children
       new_dentry_with_inode list_find].
  fold (new_filler_directory now dir). by rewrite (IH dir _ Hlen').
Qed.

(** X15.  The first branch of an image.  Attached to an image that has no
    root yet, at a target path that is not the root, the branch ends up
    under a chain of filler directories and nothing else: an unnamed
    root, then one directory for each directory of the target path,
    each holding the next one only, the last one holding the branch. *)
Theorem attach_branch_to_empty_image (branch : wim_dentry)
    (target_path : string) :
  target_path <> EmptyString ->
  attach_branch rb_node now None branch target_path
  = Some (RET_OK,
          Some (foldr (filler_over now) branch
                  (EmptyString
                   :: target_directories (String.length target_path)
                        target_path)),
          branch).
Proof.
  intros Hne. unfold attach_branch. destruct target_path as [|c t]; [done|].
  cbn [default]. by rewrite attach_branch_walk_fillers.
Qed.

End OverlayProperties.

(** The first child of a child set is one of its children. *)
Lemma first_child_of_children : rb_node_of_children Scenario.first_child.
Proof.
  intros [|child others]; [done|]. by exists [], others.
Qed.

Lemma drivers_branch_names :
  NoDup (map child_key (i_children Scenario.drivers_branch)).
Proof. apply NoDup_singleton. Qed.

(** The children of the branch [drivers] are moved to the directory
    [os]. *)
Lemma do_overlay_keeps_every_child_witness :
  let target := Scenario.directory "os" [Scenario.regular_file "a.txt"] in
  let branch := Scenario.drivers_branch in
  rb_node_of_children Scenario.first_child
  /\ NoDup (map child_key (i_children branch))
  /\ exists ret target' branch' moved,
       do_overlay Scenario.first_child target branch
       = Some (ret, target', branch')
       /\ (ret = RET_OK \/ ret = WIMLIB_ERR_INVALID_OVERLAY)
       /\ (file_name_utf8 target' = file_name_utf8 target
           /\ d_inode target' = d_inode target
           /\ i_children target' = i_children target ++ moved)
       /\ (file_name_utf8 branch' = file_name_utf8 branch
           /\ d_inode branch' = d_inode branch
           /\ moved ++ i_children branch' ≡ₚ i_children branch)
       /\ (ret = RET_OK -> i_children branch' = [])
       /\ (NoDup (map child_key (i_children target)) ->
           NoDup (map child_key (i_children target'))).
Proof.
  intros target branch.
  split; [exact first_child_of_children|].
  split; [exact drivers_branch_names|].
  exact (do_overlay_keeps_every_child Scenario.first_child target branch
           first_child_of_children drivers_branch_names).
Defined.

(** The branch [drivers] overlaid on the directory [os]. *)
Lemma do_overlay_succeeds_iff_witness :
  let target := Scenario.directory "os" [Scenario.regular_file "a.txt"] in
  let branch := Scenario.drivers_branch in
  rb_node_of_children Scenario.first_child
  /\ NoDup (map child_key (i_children branch))
  /\ exists ret target' branch',
       do_overlay Scenario.first_child target branch
       = Some (ret, target', branch')
       /\ (ret = RET_OK <->
           dentry_is_directory target = true
           /\ Forall (fun c => child_key c
                               ∉ map child_key (i_children target))
                     (i_children branch)).
Proof.
  intros target branch.
  split; [exact first_child_of_children|].
  split; [exact drivers_branch_names|].
  exact (do_overlay_succeeds_iff Scenario.first_child target branch
           first_child_of_children drivers_branch_names).
Defined.

(** The branch [drivers] attached at [os/drivers] to the image that
    holds [os/a.txt]. *)
Lemma attach_branch_reachable_witness :
  rb_node_of_children Scenario.first_child
  /\ exists ret root branch',
       attach_branch Scenario.first_child 0 (Some Scenario.os_image)
         Scenario.drivers_branch "os/drivers"
       = Some (ret, Some root, branch')
       /\ (ret = RET_OK \/ ret = WIMLIB_ERR_INVALID_OVERLAY)
       /\ (ret = RET_OK ->
           exists x own moved,
             lookup_path root
               (branch_path "os/drivers" Scenario.drivers_branch) = Some x
             /\ i_children x = own ++ moved
             /\ moved ≡ₚ i_children Scenario.drivers_branch).
Proof.
  split; [exact first_child_of_children|].
  exact (attach_branch_reachable Scenario.first_child 0
           (Some Scenario.os_image) Scenario.drivers_branch "os/drivers"
           first_child_of_children).
Defined.

(** The same attachment: nothing was at [os/drivers] before. *)
Lemma attach_branch_where_nothing_was_witness :
  let old_root :=
    default (new_filler_directory 0 EmptyString) (Some Scenario.os_image) in
  rb_node_of_children Scenario.first_child
  /\ "os/drivers"%string <> EmptyString
  /\ lookup_path old_root (branch_path "os/drivers" Scenario.drivers_branch)
     = None
  /\ exists root,
       attach_branch Scenario.first_child 0 (Some Scenario.os_image)
         Scenario.drivers_branch "os/drivers"
       = Some (RET_OK, Some root, Scenario.drivers_branch)
       /\ lookup_path root (branch_path "os/drivers" Scenario.drivers_branch)
          = Some Scenario.drivers_branch
       /\ file_name_utf8 root = file_name_utf8 old_root
       /\ d_inode root = d_inode old_root.
Proof.
  intros old_root.
  assert ("os/drivers"%string <> EmptyString) as Hne by discriminate.
  split; [exact first_child_of_children|]. split; [exact Hne|].
  split; [reflexivity|].
  exact (attach_branch_where_nothing_was Scenario.first_child 0
           (Some Scenario.os_image) Scenario.drivers_branch "os/drivers"
           first_child_of_children Hne eq_refl).
Defined.

(** The branch [drivers] attached at [os/drivers] to an image that has
    no root yet. *)
Lemma attach_branch_to_empty_image_witness :
  "os/drivers"%string <> EmptyString
  /\ attach_branch Scenario.first_child 0 None Scenario.drivers_branch
       "os/drivers"
     = Some (RET_OK,
             Some (foldr (filler_over 0) Scenario.drivers_branch
                     (EmptyString
                      :: target_directories (String.length "os/drivers")
                           "os/drivers")),
             Scenario.drivers_branch).
Proof.
  assert ("os/drivers"%string <> EmptyString) as Hne by discriminate.
  split; [exact Hne|].
  exact (attach_branch_to_empty_image Scenario.first_child 0
           Scenario.drivers_branch "os/drivers" Hne).
Defined.

(** * The shape of a captured tree *)

Import AddImage.

Section CaptureTreeShape.

Context `{env : capture_env}.
Variable fs : host_fs.

Lemma dentry_tree_list_eq (d : wim_dentry) :
  dentry_tree_list d = d :: flat_map dentry_tree_list (i_children d).
Proof. by destruct d. Qed.

Lemma dentry_add_child_distinct (root child : wim_dentry) :
  Forall distinct_children (dentry_tree_list root) ->
  Forall distinct_children (dentry_tree_list child) ->
  Forall distinct_children
         (dentry_tree_list (snd (dentry_add_child root child))).
Proof.
  intros Hroot Hchild. rewrite dentry_add_child_spec.
  case_bool_decide as Hkey; [done|]. cbn [snd].
  rewrite dentry_tree_list_eq in Hroot. apply Forall_cons in Hroot as [Hd Hc].
  rewrite dentry_tree_list_eq.
  rewrite (proj2 (proj2 (set_i_children_fields _ _))).
  rewrite flat_map_app. cbn [flat_map]. rewrite app_nil_r.
  apply Forall_cons. split; [|by apply Forall_app].
  unfold distinct_children in *.
  rewrite (proj2 (proj2 (set_i_children_fields _ _))).
  rewrite fmap_app. apply NoDup_app. split; [done|]. split.
  - intros k Hk Hk'. apply list_elem_of_singleton in Hk'. by subst k.
  - apply NoDup_singleton.
Qed.

Lemma build_dentry_tree_distinct (fuel : nat) :
  forall path s config flags pf root s',
    build_dentry_tree fs fuel path s config flags pf
    = Some (RET_OK, Some root, s') ->
    Forall distinct_children (dentry_tree_list root).
Proof.
  induction fuel as [|fuel IH]; intros path s config flags pf root s';
    [done|].
  cbn [build_dentry_tree]. intros Hrun.
  destruct (exclude_path path config true) eqn:Hex.
  all: repeat case_match; simplify_eq.
  all: apply build_dentry_tree_out_result in Hrun as (? & Hsame & _);
       subst; try done; destruct (Hsame eq_refl) as [[= ->] _].
  all: try (by repeat constructor).
  all: match goal with
       | H : ?f ?names ?r0 ?s0 = Some (RET_OK, ?d, ?c) |- _ =>
           is_fix f;
           first
             [ unshelve eapply (readdir_loop_invariant
                     (fun p st => build_dentry_tree fs fuel p st config _ pf)
                     true _
                     (fun r _ => Forall distinct_children (dentry_tree_list r))
                     _ _ _ _ _ _ _ _ H eq_refl)
             | unshelve eapply (readdir_loop_invariant
                     (fun p st => build_dentry_tree fs fuel p st config _ pf)
                     false _
                     (fun r _ => Forall distinct_children (dentry_tree_list r))
                     _ _ _ _ _ _ _ _ H eq_refl) ]
       end.
  all: cbv beta; try (by repeat constructor).
  all: intros r0 st d_name [child|] st' _ _ _ Hst Hb; [|done].
  all: apply dentry_add_child_distinct; [done|]; by eapply IH.
Qed.

(** X16.  Sibling names are distinct.  In the tree a successful
    [build_dentry_tree] returns, no two children of a dentry have the
    same name, letter case apart, at any depth. *)
Theorem build_dentry_tree_sibling_names (fuel : nat) (path : string)
    (s : capture_state) (config : capture_config) (flags : Z) (pf : bool)
    (root : wim_dentry) (s' : capture_state) :
  build_dentry_tree fs fuel path s config flags pf
  = Some (RET_OK, Some root, s') ->
  forall d, d ∈ dentry_tree_list root ->
    NoDup (map string_tolower (map file_name_utf8 (i_children d))).
Proof.
  intros Hrun d Hd. apply build_dentry_tree_distinct in Hrun.
  rewrite Forall_forall in Hrun. specialize (Hrun d Hd).
  unfold distinct_children in Hrun.
  by rewrite <- list_fmap_compose.
Qed.

(** The loop over the entries of a directory, entry after entry. *)
Lemma readdir_loop_names
    (build : string -> capture_state ->
             option (wimlib_ret * option wim_dentry * capture_state))
    (read_error : bool) (root_disk_path : string)
    (I : list string -> wim_dentry -> Prop) :
  (forall seen root d_name,
     I seen root -> d_name = "."%string \/ d_name = ".."%string ->
     I (seen ++ [d_name]) root) ->
  (forall seen root s d_name child s',
     I seen root -> d_name <> "."%string -> d_name <> ".."%string ->
     build (root_disk_path +:+ "/" +:+ d_name)%string s
     = Some (RET_OK, child, s') ->
     I (seen ++ [d_name])
       match child with
       | Some child => snd (dentry_add_child root child)
       | None => root
       end) ->
  forall names seen root s root' s',
    I seen root ->
    (fix readdir_loop (names : list string) (root : wim_dentry)
         (s : capture_state)
       : option (wimlib_ret * wim_dentry * capture_state) :=
       match names with
       | [] => Some (if read_error then WIMLIB_ERR_READ else RET_OK, root, s)
       | d_name :: names =>
           if String.eqb d_name "." || String.eqb d_name ".."
           then readdir_loop names root s
           else
             match build (root_disk_path +:+ "/" +:+ d_name)%string s with
             | None => None
             | Some (ret, child, s) =>
                 if decide (ret = RET_OK) then
                   readdir_loop names
                     match child with
                     | Some child => snd (dentry_add_child root child)
                     | None => root
                     end s
                 else Some (ret, root, s)
             end
       end) names root s = Some (RET_OK, root', s') ->
    I (seen ++ names) root' /\ read_error = false.
Proof.
  intros Hdot Hstep names.
  induction names as [|d_name names IH]; intros seen root s root' s' HI Hrun.
  - rewrite app_nil_r. destruct read_error; [done|].
    by injection Hrun as <- <-.
  - replace (seen ++ d_name :: names) with ((seen ++ [d_name]) ++ names)
      by (by rewrite <- app_assoc).
    destruct (String.eqb d_name "." || String.eqb d_name "..") eqn:Edot.
    { apply (IH _ root s root' s'); [|done]. apply Hdot; [done|].
      apply orb_true_iff in Edot as [E|E]; apply String.eqb_eq in E; auto. }
    apply orb_false_iff in Edot as [E1 E2].
    apply String.eqb_neq in E1, E2.
    destruct (build (root_disk_path +:+ "/" +:+ d_name)%string s)
      as [[[r child] s1]|] eqn:Eb; [|done].
    destruct (decide (r = RET_OK)) as [->|Hne]; [|by injection Hrun].
    eapply IH; [|exact Hrun]. by eapply Hstep.
Qed.

Lemma S_ISDIR_not_S_ISREG (m : Z) : S_ISDIR m = true -> S_ISREG m = false.
Proof.
  unfold S_ISDIR, S_ISREG. intros H. apply Z.eqb_eq in H. by rewrite H.
Qed.

Lemma dentry_add_child_keeps (root child c : wim_dentry) :
  c ∈ i_children root -> c ∈ i_children (snd (dentry_add_child root child)).
Proof.
  intros Hc. rewrite dentry_add_child_spec. case_bool_decide; [done|].
  cbn [snd]. rewrite (proj2 (proj2 (set_i_children_fields _ _))).
  apply elem_of_app. by left.
Qed.

Lemma dentry_add_child_named (root child : wim_dentry) :
  exists c, c ∈ i_children (snd (dentry_add_child root child))
            /\ child_key c = child_key child.
Proof.
  rewrite dentry_add_child_spec. case_bool_decide as Hkey; cbn [snd].
  - apply list_elem_of_fmap in Hkey as (c & Hk & Hc). by exists c.
  - exists child. split; [|done].
    rewrite (proj2 (proj2 (set_i_children_fields _ _))).
    apply elem_of_app. right. by left.
Qed.

(** X17.  No entry of a directory is forgotten.  When a directory is
    captured with success, [readdir_r] has reported no error, and for
    every entry it returned, other than [.] and [..], that the
    configuration does not exclude, the dentry of the directory has a
    child with the name of the entry, letter case apart: the dentry
    captured from the entry, or a child captured before it whose name
    differs by case only, in which case the later one is dropped
    without an error. *)
Theorem build_dentry_tree_directory_complete (fuel : nat) (path : string)
    (s : capture_state) (config : capture_config) (flags : Z) (pf : bool)
    (root : wim_dentry) (s' : capture_state) (st : stat_buf)
    (names : list string) (read_error : bool) :
  build_dentry_tree fs fuel path s config flags pf
  = Some (RET_OK, Some root, s') ->
  (if flag_set flags WIMLIB_ADD_IMAGE_FLAG_DEREFERENCE
   then fs_stat fs else fs_lstat fs) path = Some st ->
  S_ISDIR (st_mode st) = true ->
  fs_opendir fs path = Some (names, read_error) ->
  read_error = false
  /\ forall d_name,
       d_name ∈ names -> d_name <> "."%string -> d_name <> ".."%string ->
       exclude_path (path +:+ "/" +:+ d_name) config true = false ->
       exists child,
         child ∈ i_children root
         /\ string_tolower (file_name_utf8 child)
            = string_tolower (path_basename (path +:+ "/" +:+ d_name)).
Proof.
  intros Hrun Hstat Hdir Hopen.
  destruct (build_dentry_tree_name fs _ _ _ _ _ _ _ _ Hrun) as [_ Hex].
  revert Hrun. destruct fuel as [|fuel]; [done|].
  cbn [build_dentry_tree]. rewrite Hex, Hstat. cbv zeta.
  rewrite Hdir. cbn [negb]. rewrite andb_false_r.
  rewrite (S_ISDIR_not_S_ISREG _ Hdir), Hdir, Hopen. cbn [negb andb].
  destruct (set_unix_data _ _ _ _) as [[ret0 inode] table].
  destruct (decide (ret0 = RET_OK)) as [->|];
    [|intros [= Hrun];
      apply build_dentry_tree_out_result in Hrun as (Hr & _); congruence].
  match goal with
  | |- match ?f names ?r0 ?s0 with _ => _ end = _ -> _ =>
      destruct (f names r0 s0) as [[[ret1 root1] s1]|] eqn:Hloop; [|done]
  end.
  intros [= Hout].
  apply build_dentry_tree_out_result in Hout as (<- & Hsame & _).
  destruct (Hsame eq_refl) as [[= ->] ->].
  set (I := fun (seen : list string) (r : wim_dentry) =>
              forall d_name,
                d_name ∈ seen -> d_name <> "."%string ->
                d_name <> ".."%string ->
                exclude_path (path +:+ "/" +:+ d_name) config true = false ->
                exists child,
                  child ∈ i_children r
                  /\ string_tolower (file_name_utf8 child)
                     = string_tolower
                         (path_basename (path +:+ "/" +:+ d_name))).
  set (build := fun p st =>
                  build_dentry_tree fs fuel p st config
                    (Z.land flags
                       (Z.lnot (Z.lor WIMLIB_ADD_IMAGE_FLAG_ROOT
                                      WIMLIB_ADD_IMAGE_FLAG_SOURCE))) pf).
  assert (forall seen r d_name,
            I seen r -> d_name = "."%string \/ d_name = ".."%string ->
            I (seen ++ [d_name]) r) as Hdot.
  { intros seen r d_name HI Hdot d Hd Hn1 Hn2 Hexd.
    apply elem_of_app in Hd as [Hd|Hd]; [by apply HI|].
    apply list_elem_of_singleton in Hd as ->. by destruct Hdot. }
  assert (forall seen r st0 d_name child st1,
            I seen r -> d_name <> "."%string -> d_name <> ".."%string ->
            build (path +:+ "/" +:+ d_name)%string st0
            = Some (RET_OK, child, st1) ->
            I (seen ++ [d_name])
              match child with
              | Some child => snd (dentry_add_child r child)
              | None => r
              end) as Hstep.
  { intros seen r st0 d_name child st1 HI Hn1 Hn2 Hb d Hd Hd1 Hd2 Hexd.
    unfold build in Hb.
    apply elem_of_app in Hd as [Hd|Hd].
    - destruct (HI d Hd Hd1 Hd2 Hexd) as (c & Hc & Hk).
      exists c. split; [|done].
      destruct child; [by apply dentry_add_child_keeps|done].
    - apply list_elem_of_singleton in Hd as ->.
      destruct child as [child|].
      + destruct (build_dentry_tree_name fs _ _ _ _ _ _ _ _ Hb) as [Hn _].
        destruct (dentry_add_child_named r child) as (c & Hc & Hk).
        exists c. split; [done|]. unfold child_key in Hk. by rewrite Hk, Hn.
      + apply build_dentry_tree_exit in Hb as (r0 & c0 & s0 & Hout & Hroot).
        apply build_dentry_tree_out_result in Hout as (<- & Hsame' & _).
        destruct (Hsame' eq_refl) as [<- _].
        destruct (Hroot eq_refl) as [Hroot' _]. specialize (Hroot' eq_refl).
        congruence. }
  assert (I [] (Dentry (path_basename path)
                  (set_i_attributes inode FILE_ATTRIBUTE_DIRECTORY) []))
    as Hinit by (intros d Hd; by apply elem_of_nil in Hd).
  destruct (readdir_loop_names build read_error path I Hdot Hstep names []
              _ _ _ _ Hinit Hloop) as [Hall Hread].
  by split.
Qed.

End CaptureTreeShape.

(** The capture of [/src] in the scenario "Dedup". *)
Lemma build_dentry_tree_sibling_names_witness :
  exists root s',
    @build_dentry_tree Scenario.reference_capture_env Scenario.dedup_fs
      2 "/src" Scenario.empty_capture_state Scenario.no_exclusion_config
      0 false
    = Some (RET_OK, Some root, s')
    /\ forall d, d ∈ dentry_tree_list root ->
         NoDup (map string_tolower (map file_name_utf8 (i_children d))).
Proof.
  assert (exists root s',
            @build_dentry_tree Scenario.reference_capture_env
              Scenario.dedup_fs 2 "/src" Scenario.empty_capture_state
              Scenario.no_exclusion_config 0 false
            = Some (RET_OK, Some root, s')) as (root & s' & H)
    by (vm_compute; eexists _, _; reflexivity).
  exists root, s'. split; [exact H|].
  exact (@build_dentry_tree_sibling_names Scenario.reference_capture_env
           Scenario.dedup_fs 2 "/src" Scenario.empty_capture_state
           Scenario.no_exclusion_config 0 false root s' H).
Defined.

(** The capture of [/src] in the scenario "Exclusion + exception": of
    its two files, [keep.log] is not excluded. *)
Lemma build_dentry_tree_directory_complete_witness :
  let names := ["."; ".."; "keep.log"; "other.log"]%string in
  (if flag_set 0 WIMLIB_ADD_IMAGE_FLAG_DEREFERENCE
   then fs_stat Scenario.exclusion_fs
   else fs_lstat Scenario.exclusion_fs) "/src"
  = Some (Scenario.directory_stat 2)
  /\ S_ISDIR (st_mode (Scenario.directory_stat 2)) = true
  /\ fs_opendir Scenario.exclusion_fs "/src" = Some (names, false)
  /\ exists root s',
       @build_dentry_tree Scenario.reference_capture_env Scenario.exclusion_fs
         2 "/src" Scenario.empty_capture_state Scenario.exclusion_config
         0 false
       = Some (RET_OK, Some root, s')
       /\ false = false
       /\ forall d_name,
            d_name ∈ names -> d_name <> "."%string -> d_name <> ".."%string ->
            @exclude_path Scenario.reference_capture_env
              ("/src" +:+ "/" +:+ d_name) Scenario.exclusion_config true
            = false ->
            exists child,
              child ∈ i_children root
              /\ string_tolower (file_name_utf8 child)
                 = string_tolower (path_basename ("/src" +:+ "/" +:+ d_name)).
Proof.
  intros names.
  split; [reflexivity|]. split; [reflexivity|]. split; [reflexivity|].
  assert (exists root s',
            @build_dentry_tree Scenario.reference_capture_env
              Scenario.exclusion_fs 2 "/src" Scenario.empty_capture_state
              Scenario.exclusion_config 0 false
            = Some (RET_OK, Some root, s')) as (root & s' & H)
    by (vm_compute; eexists _, _; reflexivity).
  exists root, s'. split; [exact H|].
  exact (@build_dentry_tree_directory_complete Scenario.reference_capture_env
           Scenario.exclusion_fs 2 "/src" Scenario.empty_capture_state
           Scenario.exclusion_config 0 false root s'
           (Scenario.directory_stat 2) names false H eq_refl eq_refl eq_refl).
Defined.

Import AddImage.

Section CaptureStreams.

Context `{env : capture_env}.
Variable fs : host_fs.

Lemma inode_streams_in_kept (t t' : wim_lookup_table) (inode : wim_inode) :
  table_kept t t' -> inode_streams_in t inode -> inode_streams_in t' inode.
Proof.
  intros Hk [Hl Ha]. split.
  - intros a Hlte. destruct (Hl a Hlte) as [e He].
    destruct (Hk a e He) as (e' & He' & _). by exists e'.
  - eapply Forall_impl; [exact Ha|]. intros ads Hads a Hlte.
    destruct (Hads a Hlte) as [e He].
    destruct (Hk a e He) as (e' & He' & _). by exists e'.
Qed.

Lemma inode_streams_in_new (t : wim_lookup_table) (name : string)
    (st : stat_buf) :
  inode_streams_in t
    (fill_inode (d_inode (new_dentry_with_timeless_inode name)) st).
Proof. split; [done|constructor]. Qed.

Lemma set_unix_data_streams (flags : Z) (st : stat_buf)
    (inode inode' : wim_inode) (t t' : wim_lookup_table) :
  collaborators_bind_streams ->
  inode_streams_in t inode ->
  set_unix_data flags st inode t = (RET_OK, inode', t') ->
  inode_streams_in t' inode'.
Proof.
  intros [Hu _] Hin. unfold set_unix_data. destruct (flag_set _ _).
  - by apply Hu.
  - by intros [= <- <-].
Qed.

Lemma inode_streams_in_attributes (t : wim_lookup_table) (inode : wim_inode)
    (a : Z) :
  inode_streams_in t inode -> inode_streams_in t (set_i_attributes inode a).
Proof. done. Qed.

Lemma inode_streams_in_reparse_tag (t : wim_lookup_table) (inode : wim_inode)
    (tag : Z) :
  inode_streams_in t inode -> inode_streams_in t (set_i_reparse_tag inode tag).
Proof. done. Qed.

Lemma inode_streams_in_set_lte (t : wim_lookup_table) (inode : wim_inode)
    (a : nat) :
  inode_streams_in t inode -> is_Some (t !! a) ->
  inode_streams_in t (set_i_lte inode (Some a)).
Proof.
  intros [_ Ha] Hsome. split; [|done]. by intros ? [= <-].
Qed.

Lemma tree_streams_in_kept (t t' : wim_lookup_table) (root : wim_dentry) :
  table_kept t t' -> tree_streams_in t root -> tree_streams_in t' root.
Proof.
  intros Hk H. eapply Forall_impl; [exact H|].
  intros d. by apply inode_streams_in_kept.
Qed.

Lemma tree_streams_in_leaf (t : wim_lookup_table) (name : string)
    (inode : wim_inode) :
  inode_streams_in t inode -> tree_streams_in t (Dentry name inode []).
Proof. intros H. apply Forall_cons. split; [done|]. apply Forall_nil_2. Qed.

Lemma tree_streams_in_add (t : wim_lookup_table) (root child : wim_dentry) :
  tree_streams_in t root -> tree_streams_in t child ->
  tree_streams_in t (snd (dentry_add_child root child)).
Proof.
  unfold tree_streams_in. intros Hroot Hchild. rewrite dentry_add_child_spec.
  case_bool_decide as Hkey; [done|]. cbn [snd].
  rewrite dentry_tree_list_eq in Hroot. apply Forall_cons in Hroot as [Hd Hc].
  rewrite dentry_tree_list_eq.
  rewrite (proj2 (proj2 (set_i_children_fields _ _))).
  rewrite flat_map_app. cbn [flat_map]. rewrite app_nil_r.
  apply Forall_cons. split; [|by apply Forall_app].
  by rewrite (proj1 (proj2 (set_i_children_fields _ _))).
Qed.

Lemma build_dentry_tree_table (fuel : nat) (config : capture_config)
    (pf : bool) :
  collaborators_keep_table ->
  collaborators_bind_streams ->
  forall path s flags root s',
    build_dentry_tree fs fuel path s config flags pf
    = Some (RET_OK, root, s') ->
    table_kept (lookup_table s) (lookup_table s')
    /\ forall r, root = Some r -> tree_streams_in (lookup_table s') r.
Proof.
  intros Hkeep Hbind.
  induction fuel as [|fuel IH]; intros path s flags root s' Hrun; [done|].
  cbn [build_dentry_tree] in Hrun.
  destruct (exclude_path path config true) eqn:Hex.
  all: repeat case_match; simplify_eq.
  all: apply build_dentry_tree_out_result in Hrun as (? & Hsame & _);
       subst; try done; destruct (Hsame eq_refl) as [-> ->].
  all: try (split; [apply table_kept_refl|done]).
  all: repeat match goal with
         | H : set_unix_data _ _ _ _ = (RET_OK, _, _) |- _ =>
             pose proof (set_unix_data_streams _ _ _ _ _ _ Hbind
                           (inode_streams_in_new _ _ _) H);
             apply (set_unix_data_kept _ _ _ _ _ _ Hkeep) in H
         end.
  all: cbn [lookup_table set_lookup_table call_progress_func] in *.
  all: repeat match goal with
         | H : inode_set_symlink ?i ?tg ?t = (RET_OK, ?i', ?t') |- _ =>
             let Hpre := fresh "Hpre" in
             assert (inode_streams_in t i) as Hpre
               by (repeat first
                     [ apply inode_streams_in_attributes
                     | apply inode_streams_in_reparse_tag ];
                   assumption);
             pose proof (proj2 Hbind i tg t i' t' Hpre H);
             apply (proj2 Hkeep) in H
         end.
  all: cbn [lookup_table set_lookup_table call_progress_func] in *.
  (* a directory: the loop over its entries *)
  all: lazymatch goal with
       | H : ?f ?names ?r0 ?s0 = Some (RET_OK, ?d, ?c)
         |- table_kept ?t0 _ /\ _ =>
           is_fix f;
           cut (table_kept t0 (lookup_table c)
                /\ tree_streams_in (lookup_table c) d);
           [ intros [? ?]; split; [assumption | by intros ? [= <-]]
           | first
               [ unshelve eapply (readdir_loop_invariant
                       (fun p st => build_dentry_tree fs fuel p st config _ pf)
                       true _
                       (fun r st => table_kept t0 (lookup_table st)
                                    /\ tree_streams_in (lookup_table st) r)
                       _ _ _ _ _ _ _ _ H eq_refl)
               | unshelve eapply (readdir_loop_invariant
                       (fun p st => build_dentry_tree fs fuel p st config _ pf)
                       false _
                       (fun r st => table_kept t0 (lookup_table st)
                                    /\ tree_streams_in (lookup_table st) r)
                       _ _ _ _ _ _ _ _ H eq_refl) ];
             cbv beta;
             cbn [lookup_table set_lookup_table call_progress_func];
             first
               [ split; [assumption|];
                 apply tree_streams_in_leaf, inode_streams_in_attributes;
                 assumption
               | intros r1 st d_name child st' _ _ _ [Hst Htree] Hb;
                 apply IH in Hb as [Hk Hchild];
                 split; [by eapply table_kept_trans|];
                 destruct child as [child|];
                 [ apply tree_streams_in_add;
                   [by eapply tree_streams_in_kept | by apply Hchild]
                 | by eapply tree_streams_in_kept ] ] ]
       | _ => idtac
       end.
  all: split.
  (* the entries are kept *)
  all: try assumption.
  all: try (eapply table_kept_trans; [eassumption|];
            first [apply table_kept_incr | assumption]).
  all: try match goal with
           | H : new_lookup_table_entry _ = (_, _) |- table_kept _ _ =>
               unfold new_lookup_table_entry in H; injection H as <- <-;
               eapply table_kept_trans; [eassumption|];
               apply table_kept_insert_fresh
           end.
  (* the streams of the dentry are entries *)
  all: intros r [= <-]; apply tree_streams_in_leaf.
  all: try (repeat first [ apply inode_streams_in_attributes
                         | apply inode_streams_in_reparse_tag ];
            assumption).
  all: apply inode_streams_in_set_lte.
  all: try apply inode_streams_in_attributes.
  all: try match goal with
           | H : new_lookup_table_entry _ = (_, _) |- _ =>
               unfold new_lookup_table_entry in H; injection H as <- <-
           end.
  all: try (eapply inode_streams_in_kept; [|eassumption];
            first [apply table_kept_incr | apply table_kept_insert_fresh]).
  all: try (unfold lookup_table_insert; rewrite lookup_insert_eq; by eexists).
  all: match goal with
       | H : __lookup_resource _ _ = Some _ |- _ =>
           destruct (lookup_resource_Some _ _ _ H) as (e & He & _);
           rewrite lookup_alter_eq, He; by eexists
       end.
Qed.

(** X18.  Every stream of a captured tree is in the lookup table.  After
    a successful [build_dentry_tree], the streams the inodes of the
    returned tree are bound to, at any depth, the unnamed one and the
    named ones, are entries of the lookup table as the capture leaves
    it. *)
Theorem build_dentry_tree_streams_present (fuel : nat) (path : string)
    (s : capture_state) (config : capture_config) (flags : Z) (pf : bool)
    (root : wim_dentry) (s' : capture_state) :
  collaborators_keep_table ->
  collaborators_bind_streams ->
  build_dentry_tree fs fuel path s config flags pf
  = Some (RET_OK, Some root, s') ->
  forall d,
    d ∈ dentry_tree_list root ->
    (forall a, i_lte (d_inode d) = Some a -> is_Some (lookup_table s' !! a))
    /\ forall ads a,
         ads ∈ i_ads_entries (d_inode d) -> ads_lte ads = Some a ->
         is_Some (lookup_table s' !! a).
Proof.
  intros Hkeep Hbind Hrun d Hd.
  destruct (build_dentry_tree_table fuel config pf Hkeep Hbind _ _ _ _ _ Hrun)
    as [_ Htree].
  specialize (Htree root eq_refl). unfold tree_streams_in in Htree.
  rewrite Forall_forall in Htree. destruct (Htree d Hd) as [Hl Ha].
  split; [done|]. intros ads a Hads. rewrite Forall_forall in Ha.
  by apply Ha.
Qed.

End CaptureStreams.

Lemma reference_collaborators_keep_table :
  @collaborators_keep_table Scenario.reference_capture_env.
Proof. split; intros; discriminate. Qed.

Lemma reference_collaborators_bind_streams :
  @collaborators_bind_streams Scenario.reference_capture_env.
Proof. split; intros; discriminate. Qed.

(** The capture of [/src] in the scenario "Dedup". *)
Lemma build_dentry_tree_streams_present_witness :
  @collaborators_keep_table Scenario.reference_capture_env
  /\ @collaborators_bind_streams Scenario.reference_capture_env
  /\ exists root s',
       @build_dentry_tree Scenario.reference_capture_env Scenario.dedup_fs
         2 "/src" Scenario.empty_capture_state Scenario.no_exclusion_config
         0 false
       = Some (RET_OK, Some root, s')
       /\ forall d,
            d ∈ dentry_tree_list root ->
            (forall a, i_lte (d_inode d) = Some a ->
                       is_Some (lookup_table s' !! a))
            /\ forall ads a,
                 ads ∈ i_ads_entries (d_inode d) -> ads_lte ads = Some a ->
                 is_Some (lookup_table s' !! a).
Proof.
  split; [exact reference_collaborators_keep_table|].
  split; [exact reference_collaborators_bind_streams|].
  assert (exists root s',
            @build_dentry_tree Scenario.reference_capture_env
              Scenario.dedup_fs 2 "/src" Scenario.empty_capture_state
              Scenario.no_exclusion_config 0 false
            = Some (RET_OK, Some root, s')) as (root & s' & H)
    by (vm_compute; eexists _, _; reflexivity).
  exists root, s'. split; [exact H|].
  exact (@build_dentry_tree_streams_present Scenario.reference_capture_env
           Scenario.dedup_fs 2 "/src" Scenario.empty_capture_state
           Scenario.no_exclusion_config 0 false root s'
           reference_collaborators_keep_table
           reference_collaborators_bind_streams H).
Defined.

(** * Properties of the capture of the sources *)

Import AddImage.

Section SourcesProperties.

Context `{env : capture_env}.
Variable fs : host_fs.
Variable rb_node : list wim_dentry -> option (wim_dentry * list wim_dentry).
Variable now : Z.
Variable with_ntfs_3g : bool.
Variable build_dentry_tree_ntfs :
  string -> capture_state -> capture_config -> Z -> bool ->
  wimlib_ret * option wim_dentry * capture_state.

(** The name of the root after [attach_branch]. *)
Lemma attach_branch_root_name (root_p : option wim_dentry)
    (branch : wim_dentry) (target_path : string) (ret : wimlib_ret)
    (root' : option wim_dentry) (branch' : wim_dentry) :
  rb_node_of_children rb_node ->
  attach_branch rb_node now root_p branch target_path
  = Some (ret, root', branch') ->
  exists root,
    root' = Some root
    /\ file_name_utf8 root
       = match root_p, target_path with
         | Some r0, _ => file_name_utf8 r0
         | None, EmptyString => file_name_utf8 branch
         | None, _ => EmptyString
         end.
Proof.
  intros Hrb. unfold attach_branch. destruct target_path as [|c t].
  - destruct root_p as [r0|].
    + destruct (do_overlay_spec rb_node r0 branch Hrb)
        as (ret1 & r1 & b1 & moved & -> & _ & Hn & _).
      intros [= <- <- <-]. by exists r1.
    + intros [= <- <- <-]. by exists branch.
  - set (target_path := String c t).
    destruct (attach_branch_walk_spec rb_node now branch
                (String.length target_path) Hrb
                (default (new_filler_directory now EmptyString) root_p)
                target_path (le_n _))
      as (ret1 & r1 & b1 & -> & _ & Hn & _).
    intros [= <- <- <-]. exists r1. split; [done|]. rewrite Hn.
    by destruct root_p.
Qed.

(** One source of the loop: what its capture returns. *)
Lemma capture_sources_cons (fuel : nat) (source : wimlib_capture_source)
    (sources : list wimlib_capture_source) (root0 : option wim_dentry)
    (s : capture_state) (config : capture_config) (flags : Z) (pf : bool)
    (root : option wim_dentry) (s' : capture_state) :
  rb_node_of_children rb_node ->
  capture_sources rb_node now (build_dentry_tree fs fuel) (source :: sources)
    root0 s config flags pf = Some (RET_OK, root, s') ->
  let target := default EmptyString (wim_target_path source) in
  let config1 := capture_config_set_prefix config (fs_source_path source) in
  exists root1 s1 s2,
    capture_sources rb_node now (build_dentry_tree fs fuel) sources root1 s2
      config1 flags pf
    = Some (RET_OK, root, s')
    /\ progress_of (fs_source_path source) pf
         (if pf
          then call_progress_func s
                 (WIMLIB_PROGRESS_MSG_SCAN_BEGIN (fs_source_path source) target)
          else s) s1
    /\ s2 = (if pf
             then call_progress_func s1
                    (WIMLIB_PROGRESS_MSG_SCAN_END (fs_source_path source)
                       (if source_excluded config source then target
                        else target_path_after_attach target))
             else s1)
    /\ (if source_excluded config source then root1 = root0
        else exists r1,
               root1 = Some r1
               /\ file_name_utf8 r1
                  = match root0 with
                    | Some r0 => file_name_utf8 r0
                    | None => EmptyString
                    end).
Proof.
  intros Hrb. cbn [capture_sources]. cbv zeta.
  set (target := default EmptyString (wim_target_path source)).
  set (config1 := capture_config_set_prefix config (fs_source_path source)).
  set (s0 := if pf then call_progress_func s _ else s).
  set (flags1 := match target with
                 | EmptyString => _
                 | _ => _
                 end).
  destruct (build_dentry_tree fs fuel (fs_source_path source) s0 config1
              flags1 pf) as [[[ret branch] s1]|] eqn:Hbuild; [|done].
  destruct (decide (ret = RET_OK)) as [->|];
    [|intros [= ? ? ?]; congruence].
  pose proof (build_dentry_tree_progress_of fs _ _ _ _ _ _ _ _ _ Hbuild)
    as Hprog.
  assert (progress_of (fs_source_path source) pf s0 s1) as Hprog'.
  { destruct Hprog as (Hsd & calls & Hc & Hf & Hv). split; [done|].
    exists calls. split; [done|]. split; [done|]. intros ->. apply Hv.
    apply andb_false_r. }
  apply build_dentry_tree_exit in Hbuild as (ret0 & b0 & s00 & Hout & Hex).
  apply build_dentry_tree_out_result in Hout as (Hret & Hsame & _).
  subst ret0. destruct (Hsame eq_refl) as [<- <-]. specialize (Hex eq_refl).
  change (source_excluded config source)
    with (exclude_path (fs_source_path source) config1 true).
  destruct branch as [branch|].
  - destruct (exclude_path (fs_source_path source) config1 true);
      [by destruct Hex as [_ Hex]; specialize (Hex eq_refl)|].
    destruct (attach_branch rb_node now root0 _ target)
      as [[[ret root1] branch1]|] eqn:Hattach; [|done].
    destruct (decide (ret = RET_OK)) as [->|];
    [|intros [= ? ? ?]; congruence].
    intros Hrun. eexists root1, s1, _. split; [exact Hrun|].
    split; [done|]. split; [done|].
    apply (attach_branch_root_name _ _ _ _ _ _ Hrb) in Hattach
      as (r1 & -> & Hn).
    exists r1. split; [done|]. rewrite Hn.
    destruct root0; [done|]. by destruct target.
  - destruct Hex as [Hex _]. rewrite (Hex eq_refl).
    intros Hrun. by eexists root0, s1, _.
Qed.

(** The root the loop over the sources leaves. *)
Lemma capture_sources_root (fuel : nat) (flags : Z) (pf : bool)
    (sources : list wimlib_capture_source) :
  rb_node_of_children rb_node ->
  forall root0 s config root s',
    capture_sources rb_node now (build_dentry_tree fs fuel) sources root0 s
      config flags pf
    = Some (RET_OK, root, s') ->
    match root0 with
    | Some r0 =>
        exists r, root = Some r /\ file_name_utf8 r = file_name_utf8 r0
    | None =>
        (forall r, root = Some r -> file_name_utf8 r = EmptyString)
        /\ (root = None <->
            Forall (fun source => source_excluded config source = true)
                   sources)
    end.
Proof.
  intros Hrb. induction sources as [|source sources IH];
    intros root0 s config root s' Hrun.
  - injection Hrun as <- _. destruct root0 as [r0|]; [by exists r0|].
    by split.
  - apply (capture_sources_cons _ _ _ _ _ _ _ _ _ _ Hrb) in Hrun
      as (root1 & s1 & s2 & Hrun & _ & _ & Hroot1).
    apply IH in Hrun.
    assert (forall src,
              source_excluded
                (capture_config_set_prefix config (fs_source_path source)) src
              = source_excluded config src) as Hsame by done.
    destruct (source_excluded config source) eqn:Hex.
    + subst root1. destruct root0 as [r0|]; [done|].
      destruct Hrun as [Hname Hiff]. split; [done|]. rewrite Hiff.
      rewrite Forall_cons. setoid_rewrite Hsame. tauto.
    + destruct Hroot1 as (r1 & -> & Hn1).
      destruct Hrun as (r & -> & Hn). destruct root0 as [r0|].
      * exists r. split; [done|]. congruence.
      * split; [intros ? [= <-]; congruence|].
        split; [done|]. intros Hall. apply Forall_cons in Hall as [Hx _].
        congruence.
Qed.

(** The root the loop leaves has the name of the root it was given, and
    no name when it was given none, whichever function captures the
    sources. *)
Lemma capture_sources_root_name (capture_tree : capture_tree_fn) (flags : Z)
    (pf : bool) (sources : list wimlib_capture_source) :
  rb_node_of_children rb_node ->
  forall root0 s config root s',
    capture_sources rb_node now capture_tree sources root0 s config flags pf
    = Some (RET_OK, root, s') ->
    match root0 with
    | Some r0 =>
        exists r, root = Some r /\ file_name_utf8 r = file_name_utf8 r0
    | None => forall r, root = Some r -> file_name_utf8 r = EmptyString
    end.
Proof.
  intros Hrb. induction sources as [|source sources IH];
    intros root0 s config root s' Hrun.
  - injection Hrun as <- _. destruct root0 as [r0|]; [by exists r0|done].
  - cbn [capture_sources] in Hrun. cbv zeta in Hrun.
    set (target := default EmptyString (wim_target_path source)) in *.
    destruct (capture_tree _ _ _ _ _) as [[[ret branch] s1]|]; [|done].
    destruct (decide (ret = RET_OK)) as [->|]; [|by injection Hrun].
    destruct branch as [branch|]; [|by apply IH in Hrun].
    destruct (attach_branch rb_node now root0 _ target)
      as [[[ret root1] branch1]|] eqn:Hattach; [|done].
    destruct (decide (ret = RET_OK)) as [->|]; [|by injection Hrun].
    apply (attach_branch_root_name _ _ _ _ _ _ Hrb) in Hattach
      as (r1 & -> & Hn).
    apply IH in Hrun as (r & -> & Hr). rewrite Hn in Hr.
    destruct root0 as [r0|]; [by exists r|].
    intros ? [= <-]. rewrite Hr. by destruct target.
Qed.

(** The choice of [capture_tree]: a status returned at once is a failure,
    and without the flag NTFS the sources are captured by
    [build_dentry_tree]. *)
Lemma select_capture_tree_failure (fuel : nat) (flags : Z) (ret : wimlib_ret) :
  select_capture_tree fs with_ntfs_3g build_dentry_tree_ntfs fuel flags
  = inl ret -> ret <> RET_OK.
Proof.
  unfold select_capture_tree. repeat case_match; by intros [= <-].
Qed.

Lemma select_capture_tree_unix (fuel : nat) (flags : Z) :
  flag_set flags WIMLIB_ADD_IMAGE_FLAG_NTFS = false ->
  select_capture_tree fs with_ntfs_3g build_dentry_tree_ntfs fuel flags
  = inr (build_dentry_tree fs fuel).
Proof. unfold select_capture_tree. by intros ->. Qed.

(** X19.  The root of a new image has no name.  When the tree of an image is
    built from its sources with success, its root is unnamed, whatever
    the sources and their targets are, and whether they are captured
    from directory trees or from an NTFS volume.  When they are captured
    from directory trees (the flag NTFS is not set), there is no root at
    all exactly when there are sources and each of them is itself
    excluded by the capture configuration. *)
Theorem image_root_is_unnamed (fuel : nat)
    (sources : list wimlib_capture_source) (s : capture_state)
    (config : capture_config) (flags : Z) (pf : bool)
    (root : option wim_dentry) (s' : capture_state) :
  rb_node_of_children rb_node ->
  add_image_multisource_tree fs rb_node now with_ntfs_3g
    build_dentry_tree_ntfs fuel sources s config flags pf
  = Some (RET_OK, root, s') ->
  (forall r, root = Some r -> file_name_utf8 r = EmptyString)
  /\ (flag_set flags WIMLIB_ADD_IMAGE_FLAG_NTFS = false ->
      (root = None <->
       sources <> []
       /\ Forall (fun source => source_excluded config source = true)
                 sources)).
Proof.
  intros Hrb. unfold add_image_multisource_tree.
  destruct (select_capture_tree _ _ _ _ _) as [ret|capture_tree] eqn:Hsel.
  { apply select_capture_tree_failure in Hsel. by intros [= -> _ _]. }
  destruct sources as [|source sources].
  - intros [= <- _]. split; [by intros r [= <-]|]. intros _.
    split; [done|]. by intros [? _].
  - intros Hrun. split.
    + exact (capture_sources_root_name _ _ _ _ Hrb _ _ _ _ _ Hrun).
    + intros Hunix. rewrite (select_capture_tree_unix _ _ Hunix) in Hsel.
      injection Hsel as <-.
      apply (capture_sources_root _ _ _ _ Hrb) in Hrun as [_ Hiff].
      rewrite Hiff. split; [done|]. by intros [_ ?].
Qed.

(** The progress messages of the loop over the sources when each is
    captured by [build_dentry_tree]. *)
Lemma capture_sources_scans (fuel : nat) (flags : Z) (pf : bool)
    (sources : list wimlib_capture_source) (root0 : option wim_dentry)
    (s : capture_state) (config : capture_config)
    (root : option wim_dentry) (s' : capture_state) :
  rb_node_of_children rb_node ->
  capture_sources rb_node now (build_dentry_tree fs fuel) sources root0 s
    config flags pf
  = Some (RET_OK, root, s') ->
  sd s' = sd s
  /\ if pf
     then exists scans,
            progress_calls s' = progress_calls s ++ concat scans
            /\ Forall2
                 (fun source calls =>
                    let target := default EmptyString (wim_target_path source) in
                    scan_of_source (fs_source_path source) target
                      (if source_excluded config source then target
                       else target_path_after_attach target)
                      calls)
                 sources scans
     else progress_calls s' = progress_calls s.
Proof.
  intros Hrb. revert root0 s config.
  induction sources as [|source sources IH]; intros root0 s config Hrun.
  - injection Hrun as _ <-. split; [done|]. destruct pf; [|done].
    exists []. by rewrite app_nil_r.
  - apply (capture_sources_cons _ _ _ _ _ _ _ _ _ _ Hrb) in Hrun
      as (root1 & s1 & s2 & Hrun & (Hsd & calls & Hc & Hf & Hv) & -> & _).
    apply IH in Hrun as [Hsd' Hrest]. destruct pf.
    + split; [by rewrite Hsd'; cbn [sd call_progress_func]; rewrite Hsd|].
      destruct Hrest as (scans & Hs & Hall).
      cbn [progress_calls call_progress_func] in Hs, Hc.
      match type of Hs with
      | _ = (_ ++ [?e]) ++ _ =>
          match type of Hc with
          | _ = (_ ++ [?b]) ++ _ => exists ((b :: calls ++ [e]) :: scans)
          end
      end.
      split.
      * rewrite Hs, Hc. cbn [concat]. rewrite <- !app_assoc. cbn [app].
        by rewrite <- ?app_assoc.
      * constructor; [by exists calls|done].
    + split; [by rewrite Hsd', Hsd|]. rewrite Hrest, Hc.
      by rewrite (Hv eq_refl), app_nil_r.
Qed.

(** X20.  The progress messages of the sources.  When the sources are
    captured from directory trees (the flag NTFS is not set) and the
    tree of the image is built with success, the security data is as
    before, and with a progress function the calls it got are, source
    after source, those of the scan of this source: the scan begins,
    with the source and its target; paths under the source are scanned;
    the scan ends.  The target the end of a scan reports is the target
    of the source only when the source is excluded; otherwise it is what
    [attach_branch] left of it, the target cut at its first slash.
    Without a progress function nothing is reported. *)
Theorem capture_sources_progress (fuel : nat) (flags : Z) (pf : bool)
    (sources : list wimlib_capture_source)
    (s : capture_state) (config : capture_config)
    (root : option wim_dentry) (s' : capture_state) :
  rb_node_of_children rb_node ->
  flag_set flags WIMLIB_ADD_IMAGE_FLAG_NTFS = false ->
  add_image_multisource_tree fs rb_node now with_ntfs_3g
    build_dentry_tree_ntfs fuel sources s config flags pf
  = Some (RET_OK, root, s') ->
  sd s' = sd s
  /\ if pf
     then exists scans,
            progress_calls s' = progress_calls s ++ concat scans
            /\ Forall2
                 (fun source calls =>
                    let target := default EmptyString (wim_target_path source) in
                    scan_of_source (fs_source_path source) target
                      (if source_excluded config source then target
                       else target_path_after_attach target)
                      calls)
                 sources scans
     else progress_calls s' = progress_calls s.
Proof.
  intros Hrb Hunix. unfold add_image_multisource_tree.
  rewrite (select_capture_tree_unix _ _ Hunix).
  destruct sources as [|source sources].
  - intros [= _ <-]. split; [done|]. destruct pf; [|done].
    exists []. by rewrite app_nil_r.
  - by apply capture_sources_scans.
Qed.

Lemma flag_set_root (flags : Z) :
  flag_set (Z.lor (Z.lor flags WIMLIB_ADD_IMAGE_FLAG_SOURCE)
                  WIMLIB_ADD_IMAGE_FLAG_ROOT)
           WIMLIB_ADD_IMAGE_FLAG_ROOT = true.
Proof.
  unfold flag_set. apply negb_true_iff, Z.eqb_neq. intros H.
  apply (f_equal (fun z => Z.testbit z 31)) in H.
  by rewrite Z.land_spec, Z.lor_spec, orb_true_r in H.
Qed.

Lemma flag_set_dereference (flags : Z) :
  flag_set (Z.lor (Z.lor flags WIMLIB_ADD_IMAGE_FLAG_SOURCE)
                  WIMLIB_ADD_IMAGE_FLAG_ROOT)
           WIMLIB_ADD_IMAGE_FLAG_DEREFERENCE
  = flag_set flags WIMLIB_ADD_IMAGE_FLAG_DEREFERENCE.
Proof.
  unfold flag_set. rewrite !Z.land_lor_distr_l.
  change (Z.land WIMLIB_ADD_IMAGE_FLAG_SOURCE WIMLIB_ADD_IMAGE_FLAG_DEREFERENCE)
    with 0.
  change (Z.land WIMLIB_ADD_IMAGE_FLAG_ROOT WIMLIB_ADD_IMAGE_FLAG_DEREFERENCE)
    with 0.
  by rewrite !Z.lor_0_r.
Qed.

(** X21.  The source of the root must be a directory.  When the sources
    are captured from directory trees (the flag NTFS is not set) and the
    first source is targeted at the root of the image, is not excluded,
    and is not a directory, nor a symbolic link to one, building the
    tree of the image fails with [WIMLIB_ERR_NOTDIR] before any other
    source is looked at; the lookup table and the security data are as
    before. *)
Theorem root_source_must_be_directory (fuel : nat)
    (source : wimlib_capture_source) (sources : list wimlib_capture_source)
    (s : capture_state) (config : capture_config) (flags : Z) (pf : bool)
    (st st' : stat_buf) :
  flag_set flags WIMLIB_ADD_IMAGE_FLAG_NTFS = false ->
  default EmptyString (wim_target_path source) = EmptyString ->
  source_excluded config source = false ->
  (if flag_set flags WIMLIB_ADD_IMAGE_FLAG_DEREFERENCE
   then fs_stat fs else fs_lstat fs) (fs_source_path source) = Some st ->
  fs_stat fs (fs_source_path source) = Some st' ->
  S_ISDIR (st_mode st) = false ->
  S_ISDIR (st_mode st') = false ->
  exists s',
    add_image_multisource_tree fs rb_node now with_ntfs_3g
      build_dentry_tree_ntfs (S fuel) (source :: sources) s config flags pf
    = Some (WIMLIB_ERR_NOTDIR, None, s')
    /\ lookup_table s' = lookup_table s
    /\ sd s' = sd s
    /\ Forall (fun c => forall src target,
                 c = WIMLIB_PROGRESS_MSG_SCAN_BEGIN src target ->
                 src = fs_source_path source)
              (drop (length (progress_calls s)) (progress_calls s')).
Proof.
  unfold source_excluded. intros Hunix Htarget Hex Hstat Hstat' Hdir Hdir'.
  unfold add_image_multisource_tree.
  rewrite (select_capture_tree_unix _ _ Hunix).
  cbn [capture_sources]. cbv zeta.
  rewrite Htarget. cbn [build_dentry_tree]. rewrite Hex.
  rewrite flag_set_root, flag_set_dereference, Hstat. cbn [andb].
  rewrite Hdir. cbn [negb]. rewrite Hstat', Hdir'. cbn [negb].
  unfold build_dentry_tree_out.
  destruct (decide (WIMLIB_ERR_NOTDIR = RET_OK)) as [|_]; [done|].
  destruct (decide (WIMLIB_ERR_NOTDIR = RET_OK)) as [|_]; [done|].
  eexists. split; [reflexivity|]. cbn [free_tree].
  destruct pf, (flag_set _ WIMLIB_ADD_IMAGE_FLAG_VERBOSE);
    cbn [andb lookup_table sd progress_calls call_progress_func].
  all: split; [done|]; split; [done|].
  all: rewrite <- ?app_assoc, ?drop_app_length, ?drop_all.
  all: repeat constructor; try done.
  all: by intros ? ? [= <- _].
Qed.

End SourcesProperties.

(** The image of the source [/src] of the scenario "Exclusion +
    exception", targeted at the root. *)
Lemma image_root_is_unnamed_witness :
  rb_node_of_children Scenario.first_child
  /\ exists root s',
       @add_image_multisource_tree Scenario.reference_capture_env
         Scenario.exclusion_fs Scenario.first_child 0 true
         Scenario.no_ntfs_volume 2
         (canonicalize_targets [Scenario.src_at_root])
         Scenario.empty_capture_state Scenario.exclusion_config 0 false
       = Some (RET_OK, root, s')
       /\ (forall r, root = Some r -> file_name_utf8 r = EmptyString)
       /\ (flag_set 0 WIMLIB_ADD_IMAGE_FLAG_NTFS = false ->
           (root = None <->
            canonicalize_targets [Scenario.src_at_root] <> []
            /\ Forall
                 (fun source =>
                    @source_excluded Scenario.reference_capture_env
                      Scenario.exclusion_config source = true)
                 (canonicalize_targets [Scenario.src_at_root]))).
Proof.
  split; [exact first_child_of_children|].
  assert (exists root s',
            @add_image_multisource_tree Scenario.reference_capture_env
              Scenario.exclusion_fs Scenario.first_child 0 true
              Scenario.no_ntfs_volume 2
              (canonicalize_targets [Scenario.src_at_root])
              Scenario.empty_capture_state Scenario.exclusion_config 0 false
            = Some (RET_OK, root, s')) as (root & s' & H)
    by (vm_compute; eexists _, _; reflexivity).
  exists root, s'. split; [exact H|].
  exact (@image_root_is_unnamed Scenario.reference_capture_env
           Scenario.exclusion_fs Scenario.first_child 0 true
           Scenario.no_ntfs_volume 2
           (canonicalize_targets [Scenario.src_at_root])
           Scenario.empty_capture_state Scenario.exclusion_config 0 false
           root s' first_child_of_children H).
Defined.

(** The same capture with a progress function. *)
Lemma capture_sources_progress_witness :
  rb_node_of_children Scenario.first_child
  /\ flag_set 0 WIMLIB_ADD_IMAGE_FLAG_NTFS = false
  /\ exists root s',
       @add_image_multisource_tree Scenario.reference_capture_env
         Scenario.exclusion_fs Scenario.first_child 0 true
         Scenario.no_ntfs_volume 2
         (canonicalize_targets [Scenario.src_at_root])
         Scenario.empty_capture_state Scenario.exclusion_config 0 true
       = Some (RET_OK, root, s')
       /\ sd s' = sd Scenario.empty_capture_state
       /\ exists scans,
            progress_calls s'
            = progress_calls Scenario.empty_capture_state ++ concat scans
            /\ Forall2
                 (fun source calls =>
                    let target :=
                      default EmptyString (wim_target_path source) in
                    scan_of_source (fs_source_path source) target
                      (if @source_excluded Scenario.reference_capture_env
                            Scenario.exclusion_config source
                       then target
                       else target_path_after_attach target)
                      calls)
                 (canonicalize_targets [Scenario.src_at_root]) scans.
Proof.
  split; [exact first_child_of_children|]. split; [reflexivity|].
  assert (exists root s',
            @add_image_multisource_tree Scenario.reference_capture_env
              Scenario.exclusion_fs Scenario.first_child 0 true
              Scenario.no_ntfs_volume 2
              (canonicalize_targets [Scenario.src_at_root])
              Scenario.empty_capture_state Scenario.exclusion_config 0 true
            = Some (RET_OK, root, s')) as (root & s' & H)
    by (vm_compute; eexists _, _; reflexivity).
  exists root, s'. split; [exact H|].
  exact (@capture_sources_progress Scenario.reference_capture_env
           Scenario.exclusion_fs Scenario.first_child 0 true
           Scenario.no_ntfs_volume 2 0 true
           (canonicalize_targets [Scenario.src_at_root])
           Scenario.empty_capture_state Scenario.exclusion_config
           root s' first_child_of_children eq_refl H).
Defined.

(** The regular file [/src/keep.log] as the source of the root. *)
Lemma root_source_must_be_directory_witness :
  let source := Scenario.keep_log_at_root in
  let st := Scenario.regular_stat 3 4 in
  flag_set 0 WIMLIB_ADD_IMAGE_FLAG_NTFS = false
  /\ default EmptyString (wim_target_path source) = EmptyString
  /\ @source_excluded Scenario.reference_capture_env
       Scenario.no_exclusion_config source = false
  /\ (if flag_set 0 WIMLIB_ADD_IMAGE_FLAG_DEREFERENCE
      then fs_stat Scenario.exclusion_fs
      else fs_lstat Scenario.exclusion_fs) (fs_source_path source) = Some st
  /\ fs_stat Scenario.exclusion_fs (fs_source_path source) = Some st
  /\ S_ISDIR (st_mode st) = false
  /\ exists s',
       @add_image_multisource_tree Scenario.reference_capture_env
         Scenario.exclusion_fs Scenario.first_child 0 true
         Scenario.no_ntfs_volume 1 [source]
         Scenario.empty_capture_state Scenario.no_exclusion_config 0 true
       = Some (WIMLIB_ERR_NOTDIR, None, s')
       /\ lookup_table s' = lookup_table Scenario.empty_capture_state
       /\ sd s' = sd Scenario.empty_capture_state
       /\ Forall (fun c => forall src target,
                    c = WIMLIB_PROGRESS_MSG_SCAN_BEGIN src target ->
                    src = fs_source_path source)
                 (drop (length (progress_calls Scenario.empty_capture_state))
                       (progress_calls s')).
Proof.
  intros source st. split; [reflexivity|].
  split; [reflexivity|]. split; [reflexivity|]. split; [reflexivity|].
  split; [reflexivity|]. split; [reflexivity|].
  exact (@root_source_must_be_directory Scenario.reference_capture_env
           Scenario.exclusion_fs Scenario.first_child 0 true
           Scenario.no_ntfs_volume 0 source []
           Scenario.empty_capture_state Scenario.no_exclusion_config 0 true
           st st eq_refl eq_refl eq_refl eq_refl eq_refl eq_refl eq_refl).
Defined.

(** * Properties of the apply of a whole image *)

Import NtfsApply.

Section ApplyImageProperties.

Context `{ienv : apply_image_env}.

Lemma byte_of_Z_to_N (z : Z) : Z.of_N (Byte.to_N (byte_of_Z z)) = z mod 256.
Proof.
  unfold byte_of_Z.
  assert (0 <= z mod 256 < 256) as H by (apply Z.mod_pos_bound; lia).
  destruct (Byte.of_N (Z.to_N (z mod 256))) as [b|] eqn:E.
  - simpl. apply Byte.to_of_N in E. rewrite E. lia.
  - exfalso. apply Byte.of_N_None_iff in E. lia.
Qed.

Lemma le_decode_put_u64 (z : Z) : le_decode (put_u64 z) = z mod 2 ^ 64.
Proof.
  unfold put_u64. cbn [le_decode]. rewrite !byte_of_Z_to_N.
  rewrite !Z.shiftr_div_pow2 by lia.
  change (2 ^ 64) with (256 * (256 * (256 * (256 * (256 * (256 * (256 * 256))))))).
  change (2 ^ 8) with 256. change (2 ^ 16) with (256 * 256).
  change (2 ^ 24) with (256 * 256 * 256).
  change (2 ^ 32) with (256 * 256 * 256 * 256).
  change (2 ^ 40) with (256 * 256 * 256 * 256 * 256).
  change (2 ^ 48) with (256 * 256 * 256 * 256 * 256 * 256).
  change (2 ^ 56) with (256 * 256 * 256 * 256 * 256 * 256 * 256).
  rewrite <- !Z.div_div by lia.
  set (a0 := z). set (a1 := a0 / 256). set (a2 := a1 / 256).
  set (a3 := a2 / 256). set (a4 := a3 / 256). set (a5 := a4 / 256).
  set (a6 := a5 / 256). set (a7 := a6 / 256).
  rewrite !Z.rem_mul_r by lia.
  fold a1. fold a2. fold a3. fold a4. fold a5. fold a6. fold a7.
  lia.
Qed.


(** One visit of the second pass. *)
Lemma wim_apply_dentry_timestamps_calls (ds dl : list dentry) (d : nat)
    (s : image_state) :
  map clear_extracted_file dl = ds ->
  exists cs,
    itrace (snd (wim_apply_dentry_timestamps dl d s)) = itrace s ++ cs
    /\ Forall (timestamp_call ds) cs
    /\ (omap set_times_dentry cs = [] \/ omap set_times_dentry cs = [d])
    /\ (fst (wim_apply_dentry_timestamps dl d s) = RET_OK ->
        omap set_times_dentry cs = [d]).
Proof.
  intros Hst. unfold wim_apply_dentry_timestamps.
  pose proof (static_lookup ds dl d Hst) as Hd.
  assert (creation_time (dl !!! d) = creation_time (ds !!! d)
          /\ last_write_time (dl !!! d) = last_write_time (ds !!! d)
          /\ last_access_time (dl !!! d) = last_access_time (ds !!! d))
    as (-> & -> & ->) by (by rewrite Hd).
  destruct (ntfs_pathname_to_inode _ _ _) as [v [ni|]].
  - cbn [ivol icalled].
    destruct (ntfs_inode_set_times _ _ _) as [v1 r1].
    destruct (ntfs_inode_close _ _) as [v2 r2]. cbn [snd fst itrace icalled].
    eexists [_; _; _]. rewrite <- !app_assoc. split; [reflexivity|].
    split; [by repeat constructor|]. split; [by right | done].
  - cbn [snd fst itrace icalled]. eexists [_]. split; [reflexivity|].
    split; [by repeat constructor|]. split; [by left | done].
Qed.

(** The second pass: the timestamps are set in the order of the walk. *)
Lemma for_dentry_in_tree_depth_calls (ds dl : list dentry) (order : list nat) :
  map clear_extracted_file dl = ds ->
  forall s,
  exists cs,
    itrace (snd (for_dentry_in_tree_depth order
                   (wim_apply_dentry_timestamps dl) s)) = itrace s ++ cs
    /\ Forall (timestamp_call ds) cs
    /\ omap set_times_dentry cs `prefix_of` order
    /\ (fst (for_dentry_in_tree_depth order
               (wim_apply_dentry_timestamps dl) s) = RET_OK ->
        omap set_times_dentry cs = order).
Proof.
  intros Hst. induction order as [|d order IH]; intros s.
  - exists []. rewrite app_nil_r. by split_and!.
  - cbn [for_dentry_in_tree_depth].
    destruct (wim_apply_dentry_timestamps_calls ds dl d s Hst)
      as (c1 & Ht1 & Hc1 & Hd1 & Hok1).
    destruct (wim_apply_dentry_timestamps dl d s) as [ret s1].
    cbn [fst snd] in *.
    destruct (decide (ret = RET_OK)) as [Hret|Hret].
    + destruct (IH s1) as (c2 & Ht2 & Hc2 & Hp2 & Hok2).
      exists (c1 ++ c2). rewrite Ht2, Ht1, app_assoc. split; [done|].
      split; [by apply Forall_app|].
      rewrite omap_app, (Hok1 Hret). split.
      * by apply prefix_cons.
      * intros H. by rewrite (Hok2 H).
    + exists c1. cbn [fst snd]. split; [done|]. split; [done|].
      split; [|done].
      destruct Hd1 as [->| ->]; [apply prefix_nil|].
      apply prefix_cons, prefix_nil.
Qed.

(** X22.  Applying an image to a volume.  When the volume cannot be
    mounted nothing else is called.  Otherwise the trace is the mount,
    the calls of the first pass, the calls of the second pass and the
    unmount, in this order: no timestamp is set before the first pass
    has made its last call, and the volume is unmounted exactly once,
    last.  The second pass only looks inodes up, sets timestamps and
    closes inodes; each [ntfs_inode_set_times] carries the creation,
    last-write and last-access times of its dentry; the timestamps are
    set in the order of the bottom-up walk, for all its dentries
    when the apply succeeds, and for none when the first pass fails,
    whose status is then the result even if the unmount fails too. *)
Theorem timestamps_follow_the_apply (ds : list dentry) (w : WIMStruct)
    (verbose : bool) (order order_depth : list nat) (depth : nat)
    (device : string) :
  link_groups_wf ds ->
  Forall (fun d => (d < length ds)%nat) order ->
  (2 <= depth)%nat ->
  match ntfs_mount device with
  | None =>
      do_wim_apply_image_ntfs depth w ds order order_depth device verbose
      = Some (WIMLIB_ERR_NTFS_3G, [call_ntfs_mount device])
  | Some v0 =>
      exists ret1 s1 ret times,
        for_dentry_in_tree order (wim_apply_dentry_ntfs depth w verbose)
          {| dentries := ds; vol := v0; trace := [] |} = Some (ret1, s1)
        /\ do_wim_apply_image_ntfs depth w ds order order_depth device verbose
           = Some (ret,
                   call_ntfs_mount device :: map call_apply (trace s1)
                   ++ times ++ [call_ntfs_umount])
        /\ Forall (timestamp_call ds) times
        /\ omap set_times_dentry times `prefix_of` order_depth
        /\ (ret1 <> RET_OK -> times = [] /\ ret = ret1)
        /\ (ret = RET_OK ->
            ret1 = RET_OK /\ omap set_times_dentry times = order_depth)
  end.
Proof.
  intros wf Hrange Hdepth. unfold do_wim_apply_image_ntfs.
  destruct (ntfs_mount device) as [v0|]; [|reflexivity].
  destruct (for_dentry_in_tree_walk ds wf w depth verbose order Hdepth []
              {| dentries := ds; vol := v0; trace := [] |} Hrange)
    as (ret1 & s1 & -> & Hinv & _).
  - by apply apply_inv_initial.
  - intros m Hm. by apply elem_of_nil in Hm.
  - intros p [y Hy]. simpl in Hy. by rewrite (wf_fresh ds wf p) in Hy.
  - pose proof (inv_static _ _ _ Hinv) as Hst.
    exists ret1, s1.
    set (s := {| ivol := vol s1; itrace := _ |}).
    destruct (decide (ret1 = RET_OK)) as [->|Hfail].
    + destruct (for_dentry_in_tree_depth_calls ds (dentries s1) order_depth
                  Hst s) as (cs & Ht & Hc & Hp & Hok).
      destruct (for_dentry_in_tree_depth _ _ s) as [ret2 s2].
      cbn [fst snd] in *. eexists _, cs. split; [done|].
      split; [by rewrite Ht, <- app_assoc|]. split; [done|]. split; [done|].
      split; [done|]. intros Hret. split; [done|]. apply Hok.
      unfold ret_or_ntfs_3g in Hret.
      destruct (_ =? 0); [done|]. by destruct (decide (ret2 = RET_OK)).
    + eexists _, []. split; [done|]. split; [done|]. split; [constructor|].
      split; [apply prefix_nil|]. split.
      * intros _. split; [done|]. unfold ret_or_ntfs_3g.
        destruct (_ =? 0); [done|]. by destruct (decide (ret1 = RET_OK)).
      * intros Hret. unfold ret_or_ntfs_3g in Hret.
        destruct (_ =? 0); [done|]. by destruct (decide (ret1 = RET_OK)).
Qed.

(** X23.  The timestamps on the wire.  When the inode of a dentry is found,
    [wim_apply_dentry_timestamps] looks it up, sets its times and closes
    it, in this order, and succeeds exactly when the last two calls
    return 0.  The buffer it passes holds 24 bytes: three little-endian
    numbers of 8 bytes that decode to the creation time, the last write
    time and the last access time of the dentry, modulo 2^64.  When the
    inode is not found nothing else is called. *)
Theorem timestamps_on_the_wire (ds : list dentry) (dentry : nat)
    (s : image_state) :
  let d := ds !!! dentry in
  let lookup := call_apply (call_ntfs_pathname_to_inode (full_path_utf8 d)) in
  match ntfs_pathname_to_inode (ivol s) None (full_path_utf8 d) with
  | (_, None) =>
      fst (wim_apply_dentry_timestamps ds dentry s) = WIMLIB_ERR_NTFS_3G
      /\ itrace (snd (wim_apply_dentry_timestamps ds dentry s))
         = itrace s ++ [lookup]
  | (v, Some ni) =>
      exists buf,
        itrace (snd (wim_apply_dentry_timestamps ds dentry s))
        = itrace s ++ [lookup; call_ntfs_inode_set_times dentry buf;
                       call_apply call_ntfs_inode_close]
        /\ length buf = 24%nat
        /\ le_decode (take 8 buf) = creation_time d mod 2 ^ 64
        /\ le_decode (take 8 (drop 8 buf)) = last_write_time d mod 2 ^ 64
        /\ le_decode (drop 16 buf) = last_access_time d mod 2 ^ 64
        /\ (fst (wim_apply_dentry_timestamps ds dentry s) = RET_OK
            <-> snd (ntfs_inode_set_times v ni buf) = 0
                /\ snd (ntfs_inode_close
                          (fst (ntfs_inode_set_times v ni buf)) ni) = 0)
  end.
Proof.
  intros d lookup. unfold wim_apply_dentry_timestamps. fold d.
  destruct (ntfs_pathname_to_inode _ _ _) as [v [ni|]]; [|done].
  cbn [ivol icalled].
  set (buf := put_u64 (creation_time d) ++ put_u64 (last_write_time d)
              ++ put_u64 (last_access_time d)).
  exists buf.
  destruct (ntfs_inode_set_times v ni buf) as [v1 r1].
  destruct (ntfs_inode_close v1 ni) as [v2 r2] eqn:Hclose.
  cbn [fst snd itrace icalled]. rewrite Hclose. cbn [fst snd].
  split; [by rewrite <- !app_assoc|]. split; [done|].
  split; [apply le_decode_put_u64|]. split; [apply le_decode_put_u64|].
  split; [apply le_decode_put_u64|].
  unfold ret_or_ntfs_3g.
  destruct (r1 =? 0) eqn:E1; destruct (r2 =? 0) eqn:E2;
    try destruct (decide _); split; try done; try lia.
  all: intros; try lia.
Qed.

End ApplyImageProperties.

(** The three names of the scenario "DOS-name ordering" applied to the
    obliging volume [/dev/sdb1]: the timestamps are set bottom-up once
    the names are applied. *)
Lemma timestamps_follow_the_apply_witness :
  let env := Scenario.obliging_apply_env (fun _ => Scenario.hello) in
  let ienv := Scenario.obliging_image_env (fun _ => Scenario.hello) in
  let ds := Scenario.dos_name_dentries in
  link_groups_wf ds
  /\ Forall (fun d => (d < length ds)%nat) [0; 1; 2; 3; 4]%nat
  /\ (2 <= 2)%nat
  /\ exists ret1 s1 ret times,
       @for_dentry_in_tree env [0; 1; 2; 3; 4]%nat
         (wim_apply_dentry_ntfs 2 Scenario.hello_wim false)
         {| dentries := ds; vol := tt; trace := [] |} = Some (ret1, s1)
       /\ @do_wim_apply_image_ntfs env ienv 2 Scenario.hello_wim ds
            [0; 1; 2; 3; 4]%nat [2; 3; 4; 1; 0]%nat "/dev/sdb1" false
          = Some (ret,
                  call_ntfs_mount "/dev/sdb1" :: map call_apply (trace s1)
                  ++ times ++ [call_ntfs_umount])
       /\ Forall (timestamp_call ds) times
       /\ omap set_times_dentry times `prefix_of` [2; 3; 4; 1; 0]%nat
       /\ (ret1 <> RET_OK -> times = [] /\ ret = ret1)
       /\ (ret = RET_OK ->
           ret1 = RET_OK
           /\ omap set_times_dentry times = [2; 3; 4; 1; 0]%nat).
Proof.
  intros env ienv ds.
  assert (Forall (fun d => (d < length ds)%nat) [0; 1; 2; 3; 4]%nat) as Hrange
    by (repeat constructor; vm_compute; lia).
  split; [exact dos_name_dentries_wf|]. split; [exact Hrange|].
  split; [lia|].
  exact (@timestamps_follow_the_apply env ienv ds Scenario.hello_wim false
           [0; 1; 2; 3; 4]%nat [2; 3; 4; 1; 0]%nat 2%nat "/dev/sdb1"
           dos_name_dentries_wf Hrange (le_n 2)).
Defined.

(** * Further properties of the NTFS apply engine *)

Import NtfsApply.

Section StreamProperties.

Context `{env : apply_env}.

Lemma extract_returns (lte : lookup_table_entry) (na : ntfs_attr)
    (s : apply_state) :
  exists ret s' chunks,
    extract_wim_resource_to_ntfs_attr lte na s = Some (ret, s')
    /\ dentries s' = dentries s
    /\ trace s' = trace s ++ pwrite_calls chunks.
Proof.
  unfold extract_wim_resource_to_ntfs_attr.
  destruct (extract_loop_spec lte na
              (S (N.to_nat (wim_resource_size lte / WIM_CHUNK_SIZE)))
              (wim_resource_size lte) 0%N [] s)
    as (exit & ctx' & s' & chunks & -> & Hd & Ht & _).
  { unfold WIM_CHUNK_SIZE.
    pose proof (N.div_mod (wim_resource_size lte) 32768).
    pose proof (N.mod_lt (wim_resource_size lte) 32768). lia. }
  destruct exit as [ret|]; [by exists ret, s', chunks|].
  destruct (bool_decide _); by eexists _, s', chunks.
Qed.

(** X24.  A failed read is not reported as such.  When the first read of
    a non-empty resource fails, [extract_wim_resource_to_ntfs_attr]
    writes nothing and its status is not the status of the read: it
    compares the digest of no bytes with the recorded one, and so
    returns [WIMLIB_ERR_INVALID_RESOURCE_HASH] for every resource but
    one whose recorded digest is that of the empty string. *)
Theorem extract_read_failure (lte : lookup_table_entry) (na : ntfs_attr)
    (s : apply_state) :
  (0 < wim_resource_size lte)%N ->
  fst (read_wim_resource lte (N.min (wim_resource_size lte) WIM_CHUNK_SIZE) 0)
  <> RET_OK ->
  extract_wim_resource_to_ntfs_attr lte na s
  = Some (if bool_decide (sha1 [] = hash lte) then RET_OK
          else WIMLIB_ERR_INVALID_RESOURCE_HASH, s).
Proof.
  intros Hsize Hread. unfold extract_wim_resource_to_ntfs_attr.
  cbn [extract_loop].
  destruct (N.eqb_spec (wim_resource_size lte) 0) as [E|_]; [lia|].
  destruct (read_wim_resource _ _ _) as [ret buf]. simpl in Hread.
  destruct (decide (ret = RET_OK)); [done|].
  by destruct (bool_decide _).
Qed.

Lemma imap_stream_calls_shift (d k : nat) (streams : list (list (N * list Byte.byte))) :
  imap (fun i => stream_calls d (k + S i)) streams
  = imap (fun i => stream_calls d (S k + i)) streams.
Proof. apply imap_ext. intros i x _. f_equal. lia. Qed.

Lemma write_ntfs_data_streams_loop_calls (ni : ntfs_inode) (d : nat)
    (w : WIMStruct) (rest : list ads_entry) :
  forall stream_idx name s,
  exists ret s' streams tail,
    write_ntfs_data_streams_loop ni d w rest stream_idx name s = Some (ret, s')
    /\ dentries s' = dentries s
    /\ trace s'
       = trace s
         ++ concat (imap (fun i => stream_calls d (stream_idx + i)) streams)
         ++ tail
    /\ (length streams <= S (length rest))%nat
    /\ (tail = []
        \/ tail = [call_ntfs_attr_open d (stream_idx + length streams)]
           /\ ret = WIMLIB_ERR_NTFS_3G)
    /\ (ret = RET_OK -> length streams = S (length rest) /\ tail = []).
Proof.
  induction rest as [|ads rest IH]; intros stream_idx name s;
    cbn [write_ntfs_data_streams_loop];
    destruct (ntfs_attr_open (vol s) ni name) as [v [na|]].
  2,4: eexists _, _, [], [_]; cbn [imap concat length app];
       rewrite Nat.add_0_r; split_and!; try done; try (simpl; lia);
       right; done.
  all: set (s1 := called s v (call_ntfs_attr_open d stream_idx)).
  all: assert (exists ret s2 chunks,
                 match dentry_stream_lte (dentries s !!! d) stream_idx
                         (lookup_table w) with
                 | Some lte => extract_wim_resource_to_ntfs_attr lte na s1
                 | None => Some (RET_OK, s1)
                 end = Some (ret, s2)
                 /\ dentries s2 = dentries s
                 /\ trace s2 = trace s1 ++ pwrite_calls chunks)
         as (ret & s2 & chunks & -> & Hd2 & Ht2)
         by (destruct (dentry_stream_lte _ _ _) as [lte|];
             [destruct (extract_returns lte na s1) as (r & s2 & ch & ? & ? & ?);
              by exists r, s2, ch
             | exists RET_OK, s1, []; by rewrite app_nil_r]).
  all: set (s3 := called s2 (ntfs_attr_close (vol s2) na) call_ntfs_attr_close).
  all: assert (trace s3 = trace s ++ stream_calls d stream_idx chunks) as Ht3
         by (unfold s3, stream_calls; cbn [trace called];
             rewrite Ht2; unfold s1; cbn [trace called];
             by rewrite <- !app_assoc).
  all: destruct (decide (ret = RET_OK)) as [->|Hne].
  - exists RET_OK, s3, [chunks], []. cbn [imap concat length].
    rewrite Nat.add_0_r, !app_nil_r.
    split_and!; try done; try (simpl; lia); by left.
  - exists ret, s3, [chunks], []. cbn [imap concat length].
    rewrite Nat.add_0_r, !app_nil_r.
    split_and!; try done; try (simpl; lia); by left.
  - destruct (IH (S stream_idx) (stream_name ads) s3)
      as (ret & s' & streams & tail & -> & Hd & Ht & Hlen & Htail & Hok).
    exists ret, s', (chunks :: streams), tail.
    cbn [imap concat length]. rewrite Nat.add_0_r.
    unfold compose. rewrite imap_stream_calls_shift.
    split_and!; try done.
    + by rewrite Hd.
    + by rewrite Ht, Ht3, <- !app_assoc.
    + simpl. lia.
    + destruct Htail as [->|[-> ->]]; [by left | right].
      split; [|done]. do 2 f_equal. lia.
    + intros H. destruct (Hok H) as [Hl ->]. split; [|done]. simpl. lia.
  - exists ret, s3, [chunks], []. cbn [imap concat length].
    rewrite Nat.add_0_r, !app_nil_r.
    split_and!; try done; try (simpl; lia); by left.
Qed.

(** X25.  The data streams of a file are written one after the other, in
    order: the unnamed stream first, then the alternate data streams.
    [write_ntfs_data_streams] returns; each stream it reaches is opened,
    written and closed before the next one is opened, so that no
    attribute is left open; it stops at the first stream that cannot be
    opened or written; on success it has gone through all the streams of
    the dentry, once each. *)
Theorem write_ntfs_data_streams_in_order (ni : ntfs_inode) (d : nat)
    (w : WIMStruct) (s : apply_state) :
  exists ret s' streams tail,
    write_ntfs_data_streams ni d w s = Some (ret, s')
    /\ dentries s' = dentries s
    /\ trace s' = trace s ++ concat (imap (stream_calls d) streams) ++ tail
    /\ (length streams <= S (length (ads_entries (dentries s !!! d))))%nat
    /\ (tail = []
        \/ tail = [call_ntfs_attr_open d (length streams)]
           /\ ret = WIMLIB_ERR_NTFS_3G)
    /\ (ret = RET_OK ->
        length streams = S (length (ads_entries (dentries s !!! d)))
        /\ tail = []).
Proof.
  apply (write_ntfs_data_streams_loop_calls ni d w
           (ads_entries (dentries s !!! d)) 0 EmptyString s).
Qed.


Lemma tail_no_stream (d : nat) (c : ntfs_call) : tail_call d c -> no_stream_call c.
Proof. by destruct c. Qed.

Lemma apply_file_attributes_no_stream (ni : ntfs_inode) (dentry : nat)
    (w : WIMStruct) (s : apply_state) :
  extends_with no_stream_call s
    (snd (apply_file_attributes_and_security_data ni dentry w s)).
Proof.
  unfold apply_file_attributes_and_security_data.
  destruct (ntfs_inode_set_attributes _ _ _) as [v r].
  destruct (r =? 0); [solve_extends|].
  destruct (security_id _ =? -1); [solve_extends|].
  destruct (ntfs_inode_set_security _ _ _) as [v' r'].
  destruct (r' =? 0); solve_extends.
Qed.

Lemma apply_reparse_data_no_stream (ni : ntfs_inode) (dentry : nat)
    (w : WIMStruct) (s : apply_state) :
  extends_with no_stream_call s (snd (apply_reparse_data ni dentry w s)).
Proof.
  unfold apply_reparse_data.
  destruct (dentry_first_lte _ _) as [lte|]; [|solve_extends].
  destruct (_ <=? _)%N; [solve_extends|].
  destruct (read_wim_resource _ _ _) as [ret data].
  destruct (decide (ret = RET_OK)); [|solve_extends].
  destruct (ntfs_set_ntfs_reparse_data _ _ _ _) as [v r].
  destruct (r =? 0); solve_extends.
Qed.

(** [create_and_populate] on a directory or a reparse point. *)
Lemma create_and_populate_no_stream (d : nat) (dir_ni : ntfs_inode)
    (type : Z) (w : WIMStruct) (s : apply_state) :
  Z.land (attributes (dentries s !!! d)) FILE_ATTRIBUTE_DIRECTORY <> 0
  \/ Z.land (attributes (dentries s !!! d)) FILE_ATTRIBUTE_REPARSE_POINT <> 0 ->
  exists ret s',
    create_and_populate d dir_ni type w s = Some (ret, s')
    /\ extends_with no_stream_call s s'.
Proof.
  intros Hattr. unfold create_and_populate.
  assert (negb (dentry_is_directory (dentries s !!! d))
          && (Z.land (attributes (dentries s !!! d))
                FILE_ATTRIBUTE_REPARSE_POINT =? 0) = false) as Hskip.
  { unfold dentry_is_directory.
    destruct (Z.eqb_spec (Z.land (attributes (dentries s !!! d))
                            FILE_ATTRIBUTE_REPARSE_POINT) 0) as [E|E];
      [|by rewrite andb_false_r].
    destruct (Z.eqb_spec (Z.land (attributes (dentries s !!! d))
                            FILE_ATTRIBUTE_DIRECTORY) 0) as [E'|E'];
      [|done].
    by destruct Hattr. }
  destruct (ntfs_create _ _ _ _) as [v [ni|]].
  2:{ eexists _, _. split; [apply some_pair|].
      apply (extends_step _ _ v (call_ntfs_create d type)); [done|].
      eapply extends_mono; [apply tail_no_stream|].
      apply (out_close_dir_ni_extends d). }
  cbn [dentries called]. rewrite Hskip.
  set (s1 := called s v _).
  assert (extends_with no_stream_call s s1) as H1 by (by apply extends_called).
  destruct (decide (RET_OK = RET_OK)) as [_|]; [|done].
  pose proof (apply_file_attributes_no_stream ni d w s1) as H2.
  destruct (apply_file_attributes_and_security_data ni d w s1) as [ret2 s2].
  cbn [snd] in H2.
  assert (extends_with no_stream_call s s2) as H12
    by (eapply extends_trans; eauto).
  assert (forall t : wimlib_ret * apply_state,
            extends_with (tail_call d) s2 (snd t) ->
            exists ret s', Some t = Some (ret, s')
                           /\ extends_with no_stream_call s s') as Hfin2.
  { intros [r t] Ht. exists r, t. split; [done|].
    eapply extends_trans; [exact H12|].
    eapply extends_mono; [apply tail_no_stream | exact Ht]. }
  destruct (decide (ret2 = RET_OK)) as [->|];
    [|apply Hfin2, out_close_dir_ni_extends].
  set (r3 := if Z.land _ _ =? 0 then _ else _).
  assert (extends_with no_stream_call s2 (snd r3)) as H3.
  { unfold r3. destruct (_ =? 0); [apply extends_refl|].
    apply apply_reparse_data_no_stream. }
  destruct r3 as [ret3 s3]. cbn [snd] in H3.
  assert (forall t : wimlib_ret * apply_state,
            extends_with (tail_call d) s3 (snd t) ->
            exists ret s', Some t = Some (ret, s')
                           /\ extends_with no_stream_call s s') as Hfin3.
  { intros [r t] Ht. exists r, t. split; [done|].
    eapply extends_trans; [exact H12|]. eapply extends_trans; [exact H3|].
    eapply extends_mono; [apply tail_no_stream | exact Ht]. }
  destruct (decide (ret3 = RET_OK)) as [->|].
  - apply Hfin3, out_set_dos_name_extends.
  - apply Hfin3, out_close_dir_ni_extends.
Qed.

(** X26.  No data stream is opened or written for a directory, nor for a
    reparse point that is alone in its hard-link group, whatever streams
    the dentry names: applying such a dentry returns, and none of the
    calls it makes is [ntfs_attr_open], [ntfs_attr_pwrite] or
    [ntfs_attr_close]. *)
Theorem no_stream_for_directory_or_reparse_point (n : nat) (w : WIMStruct)
    (d : nat) (dir_ni : ntfs_inode) (s : apply_state) :
  Z.land (attributes (dentries s !!! d)) FILE_ATTRIBUTE_DIRECTORY <> 0
  \/ (Z.land (attributes (dentries s !!! d)) FILE_ATTRIBUTE_REPARSE_POINT <> 0
      /\ link_group_list (dentries s !!! d) = []) ->
  exists ret s' cs,
    do_wim_apply_dentry_ntfs (S n) w d dir_ni s = Some (ret, s')
    /\ trace s' = trace s ++ cs
    /\ Forall no_stream_call cs.
Proof.
  intros Hattr. cbn [do_wim_apply_dentry_ntfs].
  destruct (Z.eqb_spec (Z.land (attributes (dentries s !!! d))
                          FILE_ATTRIBUTE_DIRECTORY) 0) as [Hfile|Hdir];
    cbn [negb].
  - destruct Hattr as [Hd|[Hr Hg]]; [done|].
    unfold preapply_dentry_with_dos_name. rewrite Hg.
    destruct (decide (RET_OK = RET_OK)) as [_|]; [|done].
    unfold link_or_create. rewrite Hg. cbn [List.find].
    set (s1 := {| dentries := _; vol := vol s; trace := trace s |}).
    destruct (create_and_populate_no_stream d dir_ni S_IFREG w s1)
      as (ret & s' & -> & _ & cs & Ht & Hcs).
    + right. unfold s1. cbn [dentries].
      destruct (decide (d < length (dentries s))%nat) as [Hlt|Hge].
      * by rewrite lookup_total_insert_eq.
      * rewrite list_insert_ge by lia. done.
    + by exists ret, s', cs.
  - destruct (create_and_populate_no_stream d dir_ni S_IFDIR w s)
      as (ret & s' & -> & _ & cs & Ht & Hcs); [by left|].
    by exists ret, s', cs.
Qed.


Lemma strchr_app_slash (a b : string) :
  strchr (a +:+ String SLASH b) SLASH = true.
Proof. induction a as [|c a IH]; simpl; [done|]. by rewrite IH, orb_true_r. Qed.

Lemma dir_name_of_app (dir name : string) :
  strchr name SLASH = false ->
  dir_name_of (dir +:+ String SLASH name) = dir.
Proof.
  intros Hn. induction dir as [|c dir IH]; simpl.
  - by rewrite Hn.
  - by rewrite strchr_app_slash, IH.
Qed.

(** X27.  The parent directory of a dentry is looked up by the full path
    of the dentry up to its last slash.  When this lookup fails,
    [wim_apply_dentry_ntfs] returns [WIMLIB_ERR_NTFS_3G] and nothing is
    created, linked or written for the dentry. *)
Theorem missing_parent_directory (depth : nat) (w : WIMStruct) (verbose : bool)
    (d : nat) (s : apply_state) (dir name : string) :
  extracted_file (dentries s !!! d) = None ->
  parent (dentries s !!! d) <> d ->
  full_path_utf8 (dentries s !!! d) = (dir +:+ String SLASH name)%string ->
  strchr name SLASH = false ->
  snd (ntfs_pathname_to_inode (vol s) None dir) = None ->
  exists s',
    wim_apply_dentry_ntfs depth w verbose d s = Some (WIMLIB_ERR_NTFS_3G, s')
    /\ dentries s' = dentries s
    /\ trace s'
       = trace s
         ++ (if verbose
             then [call_puts (full_path_utf8 (dentries s !!! d))] else [])
         ++ [call_ntfs_pathname_to_inode dir].
Proof.
  intros Hx Hroot Hpath Hname Hlookup. unfold wim_apply_dentry_ntfs.
  rewrite Hx. unfold dentry_is_root.
  assert (dentries (if verbose
                    then called s (vol s)
                           (call_puts (full_path_utf8 (dentries s !!! d)))
                    else s) = dentries s) as -> by (by destruct verbose).
  rewrite bool_decide_eq_false_2 by done.
  rewrite Hpath, (dir_name_of_app dir name Hname).
  assert (vol (if verbose
               then called s (vol s) (call_puts (dir +:+ String SLASH name))
               else s) = vol s) as -> by (by destruct verbose).
  destruct (ntfs_pathname_to_inode (vol s) None dir) as [v ni].
  simpl in Hlookup. subst ni.
  eexists. split; [reflexivity|]. split; [by destruct verbose|].
  destruct verbose; cbn [trace called]; by rewrite <- ?app_assoc.
Qed.

End StreamProperties.

(** The resource of the scenario "DOS-name ordering" in a WIM file of
    which nothing can be read. *)
Lemma extract_read_failure_witness :
  let lte := {| lte_id := 0; hash := Sha1.sha1 Scenario.hello;
                wim_resource_size := 6 |} in
  let s := @Build_apply_state Scenario.unreadable_apply_env
             Scenario.dos_name_dentries tt [] in
  (0 < wim_resource_size lte)%N
  /\ fst (@read_wim_resource Scenario.unreadable_apply_env lte
            (N.min (wim_resource_size lte) WIM_CHUNK_SIZE) 0) <> RET_OK
  /\ @extract_wim_resource_to_ntfs_attr Scenario.unreadable_apply_env lte
       "LONGNAME.TXT"%string s
     = Some (if bool_decide
                  (@sha1 Scenario.unreadable_apply_env [] = hash lte)
             then RET_OK else WIMLIB_ERR_INVALID_RESOURCE_HASH, s).
Proof.
  intros lte s.
  assert (0 < wim_resource_size lte)%N as Hsize by reflexivity.
  assert (fst (@read_wim_resource Scenario.unreadable_apply_env lte
                 (N.min (wim_resource_size lte) WIM_CHUNK_SIZE) 0) <> RET_OK)
    as Hread by discriminate.
  split; [exact Hsize|]. split; [exact Hread|].
  exact (@extract_read_failure Scenario.unreadable_apply_env lte
           "LONGNAME.TXT"%string s Hsize Hread).
Defined.

(** The directory [/d] of the scenario "DOS-name ordering" is applied
    without a data stream. *)
Lemma no_stream_for_directory_or_reparse_point_witness :
  let env := Scenario.obliging_apply_env (fun _ => Scenario.hello) in
  let s := Scenario.initial_apply_state (fun _ => Scenario.hello)
             Scenario.dos_name_dentries in
  (Z.land (attributes (dentries s !!! 1%nat)) FILE_ATTRIBUTE_DIRECTORY <> 0
   \/ (Z.land (attributes (dentries s !!! 1%nat)) FILE_ATTRIBUTE_REPARSE_POINT
       <> 0
       /\ link_group_list (dentries s !!! 1%nat) = []))
  /\ exists ret s' cs,
       @do_wim_apply_dentry_ntfs env 1 Scenario.hello_wim 1%nat
         "/"%string s = Some (ret, s')
       /\ trace s' = trace s ++ cs
       /\ Forall no_stream_call cs.
Proof.
  intros env s.
  assert (Z.land (attributes (dentries s !!! 1%nat)) FILE_ATTRIBUTE_DIRECTORY
          <> 0
          \/ (Z.land (attributes (dentries s !!! 1%nat))
                FILE_ATTRIBUTE_REPARSE_POINT <> 0
              /\ link_group_list (dentries s !!! 1%nat) = [])) as H
    by (left; discriminate).
  split; [exact H|].
  exact (@no_stream_for_directory_or_reparse_point env 0 Scenario.hello_wim
           1%nat "/"%string s H).
Defined.

(** The name [/d/other1] of the scenario "DOS-name ordering" on a
    volume where [/d] is not found. *)
Lemma missing_parent_directory_witness :
  let env := Scenario.pathless_apply_env in
  let s := @Build_apply_state env Scenario.dos_name_dentries tt [] in
  extracted_file (dentries s !!! 2%nat) = None
  /\ parent (dentries s !!! 2%nat) <> 2%nat
  /\ full_path_utf8 (dentries s !!! 2%nat)
     = ("/d" +:+ String SLASH "other1")%string
  /\ strchr "other1" SLASH = false
  /\ snd (@ntfs_pathname_to_inode env (vol s) None "/d"%string) = None
  /\ exists s',
       @wim_apply_dentry_ntfs env 2 Scenario.hello_wim true 2%nat s
       = Some (WIMLIB_ERR_NTFS_3G, s')
       /\ dentries s' = dentries s
       /\ trace s'
          = trace s
            ++ (if true
                then [call_puts (full_path_utf8 (dentries s !!! 2%nat))]
                else [])
            ++ [call_ntfs_pathname_to_inode "/d"].
Proof.
  intros env s.
  assert (parent (dentries s !!! 2%nat) <> 2%nat) as Hparent by discriminate.
  split; [reflexivity|]. split; [exact Hparent|]. split; [reflexivity|].
  split; [reflexivity|]. split; [reflexivity|].
  exact (@missing_parent_directory env 2 Scenario.hello_wim true 2%nat s
           "/d"%string "other1"%string eq_refl Hparent eq_refl eq_refl
           eq_refl).
Defined.
